(* ===== verification/_CoqProject ===== *)
-Q . S2P
Prelude.v
GoStd.v
Sha256.v
KubeTypes.v
ApiTypes.v
Json.v
Memory.v
DeepCopy.v
KubeLib.v
Resources.v
Effects.v
Status.v
Events.v
Reconciler.v
Manager.v
CommandLine.v
RefKube.v
Samples.v
JsonProps.v
ResourceProps.v
StatusProps.v
DeepCopyProps.v
StatusMemory.v
UpgradeProps.v
ConvergenceProps.v
EventProps.v
ReconcileProps.v
ManagedProps.v
ManagerProps.v
Cluster.v
RefServer.v
ClusterProps.v
Quiescence.v
Watches.v
Termination.v
Wellformed.v
Faults.v
Schedules.v
ControlLoop.v
LoopProps.v
