(* ===== verification/Prelude.v ===== *)
(** * Trussium Operator: a verification library

    The program is a Kubernetes operator.  A [TrussiumRuntime] custom resource
    declares a runtime; the operator keeps seven objects in line with it
    (ConfigMap, ServiceAccount, Service, Deployment, PodDisruptionBudget,
    NetworkPolicy, HorizontalPodAutoscaler), reports what it observes in the
    status of the resource, records Events and counts reconciliations.

    ** The parts and the files that model them

    - [Prelude]: Go errors and results, tactics, lemmas on strings.
    - [GoStd]: what the code uses of the Go standard library (integer widths,
      [strconv.Itoa], [%q], [slices.Sort], map keys), with [Sha256] for
      crypto/sha256 and encoding/hex, executable and checked on test vectors.
    - [KubeTypes]: the Kubernetes API types.  Fields the operator never looks at
      are carried as uninterpreted values, so that what a write preserves is
      visible.
    - [ApiTypes]: api/v1alpha1/trussiumruntime_types.go, the types with the
      defaults and the validation of their schema markers.  [Json]: how they are
      written to and read from JSON by their [json] tags, over the codecs of the
      Kubernetes types as the class [WireLib], and the schema defaults as the
      API server applies them on the wire.
    - [KubeLib]: the pure functions of apimachinery and controller-runtime that
      are called ([meta.SetStatusCondition], [SetControllerReference],
      [apierrors.IsNotFound], semantic equality, deep copies).  Their code is
      not part of the repository: they are the class [K8sLib], and [K8sLaws]
      states their documented behaviour.  [RefKube] is an instance of both.
    - [Resources]: internal/controller/runtime_resources.go, one definition per
      function.
    - [Status]: the pure functions of internal/controller/runtime_status.go,
      with the clock as an argument.
    - [Effects]: the calls the reconciler makes on the API server, the event
      recorder, the metrics and the clock, as operations [Op] of programs
      [Prog].  [exec] relates a program to its traces for every possible answer;
      [run] and [replay] execute it.
    - [Events]: internal/controller/runtime_events.go.
    - [Reconciler]: internal/controller/trussiumruntime_controller.go and the
      methods of runtime_status.go that use the client: [Reconcile], every
      handler it calls, the mutate function of every managed object and
      [mapSecretToRuntimes].
    - [Memory]: Go memory as a heap of typed cells, with representation
      predicates and the statements deep copies are made of.  [DeepCopy]:
      api/v1alpha1/zz_generated.deepcopy.go, the API types as they lie in memory
      and every generated method.  [StatusMemory]: the functions of
      runtime_status.go that clone condition slices or change them in place.
    - [Manager]: the RBAC markers, [SetupWithManager], the collectors of
      internal/controller/metrics.go, the scheme registration of
      api/v1alpha1/groupversion_info.go, and the options and start-up order of
      cmd/main.go.  [CommandLine]: its flags and how Go's [flag] package reads
      them, over the flags that the imported libraries declare on the same flag
      set (logging, [kubeconfig]) as the class [LibraryFlags].
    - [Watches]: how events of watched objects become requests, over the
      handlers of controller-runtime as the class [WatchLib] with [WatchLaws].
    - [Cluster]: what convergence needs of the API server, as the class
      [ApiServer] with [ApiServerLaws]: its reads, its admission of writes, what
      it keeps of an object it accepts and that it leaves everything as it is
      when it refuses one.  [RefServer] is an in-memory instance, which refuses
      Services that are not named by a DNS label and changes of a Deployment's
      selector.
      [Faults]: calls that fail before or after they take effect, stale reads
      and crashes, as plans under which a program runs.  [Schedules]: sequences
      of reconciliations under such plans, retries and overlapping instances.
    - [ControlLoop]: the loop the manager runs, as a step relation on the
      cluster, the cache, the versions of each object that the cache has still
      to see, and the work queue.  Its steps are a reconciliation through the
      cache, the delivery of an event, a change by others and a restart.
    - [Samples]: concrete objects and API answers for the witnesses.

    The state of the program is the status stored in the custom resource and
    the objects in the cluster; the reconciler keeps none of its own.  The
    pointer to the runtime that the Go handlers share is mutated only by
    [updateRuntimeStatus], which returns the new value here.  [Status] and
    [Reconciler] compute with values; that the slices the Go code shares do not
    make a difference is the theorem of [StatusMemory].

    ** What the theorems show

    - [ClusterProps]: convergence.  Against any API server that satisfies the
      laws, one reconciliation of a runtime that is [ready] (live, with its
      Secrets, with objects nobody else controls) and [admissible] (the server
      accepts its writes) ends without error in a cluster whose managed objects
      are as the specification asks; with a refused write it ends with an error.
      [Quiescence]: every further reconciliation changes nothing.  [Watches]:
      which changes are noticed, and that drift is repaired.  [Termination]: how
      many calls a reconciliation makes at most.
    - [Faults] and [Schedules]: convergence with faults.  Whatever fails, a
      reconciliation is confined to the objects under its key; the last attempt
      whose calls are answered decides, for every runtime on its own; and a
      reconciliation that returns nil is one in which no call failed.
    - [LoopProps]: no wake-up is lost.  In every reachable state of the control
      loop a live runtime that is neither queued nor awaiting an event has its
      objects as specified, or a Secret it references is missing.
    - [JsonProps]: the wire format reads back what it writes (integers in range,
      valid UTF-8, times in whole seconds), and defaulting on the wire is
      defaulting in memory.
    - [ManagedProps] and [ReconcileProps], about every trace of [Reconcile]:
      what is written and in which order, only after every referenced Secret
      was read; the error returned is exactly the errors of the failed calls;
      metrics and failure events agree with the result; a run without error
      leaves the status of what it observed; every write claims ownership and
      changes no other metadata; a changed Secret enqueues the runtimes that
      wait for it.
    - [ConvergenceProps], about sequences of reconciliations: an inductive
      relation of the statuses that can be stored, its invariants by rule
      induction, transition times, and that reconciling an unchanged
      observation writes nothing.
    - [StatusProps] and [UpgradeProps]: the computed conditions refine a table
      of phases; exact conditions for Ready, Degraded, Upgrading, a complete
      rollout and the last successful image.
    - [EventProps]: which events a change of the status records.
    - [DeepCopyProps] and [StatusMemory]: deep copies are independent of their
      originals; the status computation in memory refines the one on values.
    - [ManagerProps]: every operation is covered by the RBAC rules, every kind
      touched is watched and known to the scheme, and the start-up is safe, also
      with the arguments of the Helm chart.  [CommandLine]: every command line,
      exactly, its errors included.
    - [Wellformed]: the built objects meet the syntax, ranges and references
      Kubernetes requires, exactly for runtimes that are named by a DNS label and whose
      Pod labels and annotations are valid.
    - [ResourceProps]: the checksum payload is an injective encoding, label
      merging, selectors, configuration data, defaults, numeric bounds and the
      rendering of images.

    Theorems that use the library functions are stated for every instance of
    [K8sLaws]; theorems about traces hold for every behaviour of the API server.

    ** Bounds and fuel

    Every definition is structurally recursive; the order in which two
    instances interleave is a list, and what it leaves runs to its end.  The only fuel is that of the
    payload reader in [ResourceProps], which gets the length of the payload;
    the round trip shows that this is enough.  [int64] addition wraps around
    explicitly; schema bounds show that it never does for accepted objects.

    ** What is not modelled

    Logging; the rate limits, back-off and time-outs of the work queue and the
    leader election of controller-runtime ([ControlLoop] lets any queued key be
    reconciled at any time and delivers the events of each object in order,
    those of different objects in any order); JSON text; the [uri] format of
    [baseURL]; manifests and scripts but for the arguments of the manager; and
    the helpers of the end-to-end tests.  In [ControlLoop] others do not create
    an object that a runtime has switched off and does not control, since no
    event leads from such an object to the runtime.  In memory a cell is
    allocated with its final content, and nil and empty slices denote the same
    value.  What [controllerutil.CreateOrUpdate] and the API server do with an
    operation is left open in the theorems about traces, where an operation has
    any answer of its type; [ApiServerLaws] fixes it for objects without
    finalizers, as one atomic call whose conflicts are failures of the plan.
    Which objects the server admits is open: theorems that need a write to
    succeed assume [admissible], that the server accepts the writes of the
    runtime over nothing, over what the operator itself left and over what is
    stored at the start;
    [ApiServerIdempotent] says what a repeated write does and [ApiServerStatus]
    what a status update of any version may do. *)

From stdpp Require Export base pretty sorting numbers strings gmap list.
From Stdlib Require Ascii.

#[export] Set Default Goal Selector "!".

(** ** Go error values and fallible results

    A Go [error] is a value; [nil] is [None] of an [option GoError].  A pair
    [(value, error)] of which exactly one half is meaningful is a [result]. *)

(** An error produced by the Kubernetes client.  Only its text and its
    machine-readable reason are visible to the operator. *)
Record ApiError := mkApiError {
  ae_Reason : string;
  ae_Text : string
}.

(** [fmt.Errorf] with a [%w] verb at its end keeps the wrapped error, and
    [errors.Join] keeps both. *)
Inductive GoError :=
| ErrApi (e : ApiError)
| Errorf (prefix : string) (wrapped : GoError)
| ErrJoin (first second : GoError).

Inductive result (A : Type) :=
| Ok (a : A)
| Err (e : GoError).
Arguments Ok {A} a.
Arguments Err {A} e.

#[export] Instance ApiError_eq_dec : EqDecision ApiError.
Proof. solve_decision. Defined.
#[export] Instance GoError_eq_dec : EqDecision GoError.
Proof. solve_decision. Defined.

(** The text of [err.Error()]. *)
Fixpoint errorText (e : GoError) : string :=
  match e with
  | ErrApi a => ae_Text a
  | Errorf p w => p +:+ errorText w
  | ErrJoin a b => errorText a +:+ String (Ascii.ascii_of_nat 10) (errorText b)
  end.

(** The API errors an error value was built from, in the order in which
    [errors.Is] and [errors.As] visit them. *)
Fixpoint errorLeaves (e : GoError) : list ApiError :=
  match e with
  | ErrApi a => [a]
  | Errorf _ w => errorLeaves w
  | ErrJoin a b => errorLeaves a ++ errorLeaves b
  end.

Definition result_err {A} (r : result A) : option GoError :=
  match r with Ok _ => None | Err e => Some e end.

(** ** Tactics shared by the whole development *)

(** Case analysis on the first [match], [if] or [decide] of the goal. *)
Ltac split_match :=
  match goal with
  | |- context [match ?x with _ => _ end] => destruct x eqn:?
  end.

(** Destructs every existential, conjunction and [Some]/pair equation. *)
Ltac crush_hyps :=
  repeat match goal with
  | H : _ ∧ _ |- _ => destruct H
  | H : ∃ _, _ |- _ => destruct H
  end; simplify_eq/=.

(** ** Generic lemmas *)

Create HintDb trussium.

Lemma errorLeaves_nonempty e : errorLeaves e ≠ [].
Proof. induction e as [| |? IH]; simpl; [done|done|]. by destruct (errorLeaves e1). Qed.
#[export] Hint Resolve errorLeaves_nonempty : trussium.

Lemma str_app_assoc (a b c : string) : (a +:+ b) +:+ c = a +:+ (b +:+ c).
Proof. induction a as [|x a IH]; [done|]. by apply (f_equal (String x)) in IH. Qed.

Lemma str_cons_inj (x y : Ascii.ascii) (a b : string) :
  String x a = String y b → x = y ∧ a = b.
Proof. by injection 1. Qed.

Lemma str_app_nil_l (a : string) : "" +:+ a = a.
Proof. done. Qed.

Lemma str_app_nil_r (a : string) : a +:+ "" = a.
Proof. induction a as [|x a IH]; [done|]. by apply (f_equal (String x)) in IH. Qed.

Lemma str_app_cons (x : Ascii.ascii) (a b : string) :
  String x a +:+ b = String x (a +:+ b).
Proof. done. Qed.

Lemma str_length_app (a b : string) :
  String.length (a +:+ b) = String.length a + String.length b.
Proof. induction a as [|x a IH]; [done|]. rewrite str_app_cons. simpl. by rewrite IH. Qed.
