(* ===== verification/GoStd.v ===== *)
(** * The parts of Go's standard library that the operator uses

    Strings are byte strings.  [int32] and [int64] values are integers of
    [Z] kept in their range; the only arithmetic on them that the operator
    performs is a 64-bit addition, whose wrap-around is [wrap64].  A Go map
    is a [gmap]; a loop over a map visits its entries in an unspecified order,
    modelled by [map_to_list], and the lemmas below show where the order is
    irrelevant. *)

From Stdlib Require Import Ascii.
From S2P Require Import Prelude.

Section Integers.
Local Open Scope Z_scope.

Definition int32_min : Z := - 2 ^ 31.
Definition int32_max : Z := 2 ^ 31 - 1.
Definition int64_min : Z := - 2 ^ 63.
Definition int64_max : Z := 2 ^ 63 - 1.

Definition is_int32 (z : Z) : Prop := int32_min <= z <= int32_max.
Definition is_int64 (z : Z) : Prop := int64_min <= z <= int64_max.

(** The value of a 64-bit signed addition whose exact result is [z]. *)
Definition wrap64 (z : Z) : Z := (z + 2 ^ 63) mod 2 ^ 64 - 2 ^ 63.

Lemma wrap64_id z : is_int64 z → wrap64 z = z.
Proof.
  unfold is_int64, int64_min, int64_max, wrap64. intros [? ?].
  rewrite Z.mod_small; lia.
Qed.

Lemma wrap64_range z : is_int64 (wrap64 z).
Proof.
  unfold is_int64, int64_min, int64_max, wrap64.
  pose proof (Z.mod_pos_bound (z + 2 ^ 63) (2 ^ 64) ltac:(lia)). lia.
Qed.

(** [strconv.Itoa] and the [%d] verb. *)
Definition Itoa (z : Z) : string := pretty z.

End Integers.

(** ** Strings *)

Section Strings.

Definition charIn (c : Ascii.ascii) (lo hi : nat) : bool :=
  (lo <=? Ascii.nat_of_ascii c) && (Ascii.nat_of_ascii c <=? hi).

(** The two-character escapes of [strconv.Quote], as the character after the
    backslash. *)
Definition quoteEscape (c : Ascii.ascii) : option Ascii.ascii :=
  match Ascii.nat_of_ascii c with
  | 7 => Some "a"%char | 8 => Some "b"%char | 12 => Some "f"%char
  | 10 => Some "n"%char | 13 => Some "r"%char | 9 => Some "t"%char
  | 11 => Some "v"%char | 92 => Some "\"%char
  | 34 => Some (Ascii.ascii_of_nat 34)
  | _ => None
  end.

Definition hexDigit (n : nat) : Ascii.ascii :=
  if n <? 10 then Ascii.ascii_of_nat (48 + n) else Ascii.ascii_of_nat (87 + n).

Definition hexByte (n : nat) (rest : string) : string :=
  String (hexDigit (n / 16)) (String (hexDigit (n mod 16)) rest).

(** One byte of a quoted string.  The model is exact on ASCII text, which is
    all the operator quotes: Secret names match the API's name pattern. *)
Definition quoteByte (c : Ascii.ascii) (rest : string) : string :=
  match quoteEscape c with
  | Some e => String "\"%char (String e rest)
  | None =>
      if charIn c 32 126 then String c rest
      else String "\"%char (String "x"%char (hexByte (Ascii.nat_of_ascii c) rest))
  end.

Fixpoint quoteBody (s : string) : string :=
  match s with
  | EmptyString => String (Ascii.ascii_of_nat 34) EmptyString
  | String c s => quoteByte c (quoteBody s)
  end.

(** The [%q] verb. *)
Definition quote (s : string) : string :=
  String (Ascii.ascii_of_nat 34) (quoteBody s).

(** [len(s)]. *)
Definition strlen (s : string) : Z := Z.of_nat (String.length s).

(** [slices.Sort] on strings: the order is bytewise lexicographic. *)
Definition sortStrings (l : list string) : list string := merge_sort String.le l.

(** [slices.Contains]. *)
Definition slicesContains (l : list string) (s : string) : bool :=
  bool_decide (s ∈ l).

(** The keys of a Go map in the order in which one loop happens to visit them. *)
Definition mapKeys {V} (m : gmap string V) : list string := (map_to_list m).*1.

Lemma sortStrings_perm l : sortStrings l ≡ₚ l.
Proof. apply merge_sort_Permutation. Qed.

Lemma sortStrings_sorted l : StronglySorted String.le (sortStrings l).
Proof. apply StronglySorted_merge_sort; apply _. Qed.

(** Sorting hides the order in which the elements were collected. *)
Lemma sortStrings_unique l1 l2 : l1 ≡ₚ l2 → sortStrings l1 = sortStrings l2.
Proof.
  intros Hp. apply (StronglySorted_unique String.le).
  - apply sortStrings_sorted.
  - apply sortStrings_sorted.
  - by rewrite !sortStrings_perm.
Qed.

Lemma elem_of_sortStrings s l : s ∈ sortStrings l ↔ s ∈ l.
Proof. by rewrite sortStrings_perm. Qed.

Lemma elem_of_mapKeys {V} (m : gmap string V) s : s ∈ mapKeys m ↔ is_Some (m !! s).
Proof.
  unfold mapKeys. rewrite list_elem_of_fmap. split.
  - intros ([k v] & -> & Hin). apply elem_of_map_to_list in Hin. by exists v.
  - intros [v Hv]. exists (s, v). split; [done|]. by apply elem_of_map_to_list.
Qed.

Lemma NoDup_mapKeys {V} (m : gmap string V) : NoDup (mapKeys m).
Proof. apply NoDup_fst_map_to_list. Qed.

Lemma slicesContains_spec l s : slicesContains l s = true ↔ s ∈ l.
Proof. unfold slicesContains. apply bool_decide_eq_true. Qed.

End Strings.

(** ** Reading a decimal number back

    [scanDec acc s] consumes the leading decimal digits of [s]. *)

Section Decimals.

Definition digitValue (c : Ascii.ascii) : option N :=
  let n := Ascii.N_of_ascii c in
  if (48 <=? n)%N && (n <=? 57)%N then Some (n - 48)%N else None.

Fixpoint scanDec (acc : N) (s : string) : N * string :=
  match s with
  | EmptyString => (acc, EmptyString)
  | String c rest =>
      match digitValue c with
      | Some d => scanDec (10 * acc + d)%N rest
      | None => (acc, s)
      end
  end.

Lemma digitValue_pretty (x : N) :
  (x < 10)%N → digitValue (pretty_N_char x) = Some x.
Proof.
  intros Hx.
  assert (x = 0 ∨ x = 1 ∨ x = 2 ∨ x = 3 ∨ x = 4 ∨ x = 5 ∨ x = 6 ∨ x = 7
          ∨ x = 8 ∨ x = 9)%N as H by lia.
  by repeat destruct H as [->|H]; [..|subst].
Qed.

(** Number of decimal digits that [pretty_N_go] writes, as a power of ten. *)
Lemma scanDec_pretty_go (x : N) (s : string) (acc : N) :
  ∃ p, scanDec acc (pretty_N_go x s) = scanDec (acc * p + x)%N s
       ∧ ((0 < x)%N ∨ p = 1%N).
Proof.
  revert s acc. induction (N.lt_wf_0 x) as [x _ IH]; intros s acc.
  destruct (decide (x = 0)%N) as [->|Hx].
  { exists 1%N. rewrite pretty_N_go_0. split; [f_equal; lia|by right]. }
  rewrite pretty_N_go_step by lia.
  destruct (IH (x `div` 10)%N ltac:(apply N.div_lt; lia)
              (String (pretty_N_char (x `mod` 10)) s) acc) as (p & Hp & _).
  exists (10 * p)%N. split; [|by left; lia]. rewrite Hp. simpl.
  rewrite digitValue_pretty by (apply N.mod_lt; lia). f_equal.
  pose proof (N.div_mod x 10 ltac:(lia)). lia.
Qed.

Lemma scanDec_pretty (x : N) (s : string) :
  match s with String c _ => digitValue c = None | EmptyString => True end →
  scanDec 0 (pretty x +:+ s) = (x, s).
Proof.
  intros Hs.
  assert (Hstop : scanDec x s = (x, s)).
  { destruct s as [|c s]; [done|]. simpl. by rewrite Hs. }
  unfold pretty, pretty_N. case_decide as Hx.
  { subst. exact Hstop. }
  assert (Happ : ∀ y t, pretty_N_go y t +:+ s = pretty_N_go y (t +:+ s)).
  { clear. intros y. induction (N.lt_wf_0 y) as [y _ IH]; intros t.
    destruct (decide (y = 0)%N) as [->|Hy]; [by rewrite !pretty_N_go_0|].
    rewrite !(pretty_N_go_step y) by lia.
    rewrite IH by (apply N.div_lt; lia). done. }
  rewrite Happ. destruct (scanDec_pretty_go x (""+:+s) 0) as (p & -> & _).
  rewrite N.mul_0_l, N.add_0_l. done.
Qed.

Lemma Itoa_of_N (n : N) : Itoa (Z.of_N n) = pretty n.
Proof. unfold Itoa. by destruct n. Qed.

Lemma scanDec_strlen (k s : string) :
  match s with String c _ => digitValue c = None | EmptyString => True end →
  scanDec 0 (Itoa (strlen k) +:+ s) = (N.of_nat (String.length k), s).
Proof.
  intros Hs. unfold strlen.
  replace (Z.of_nat (String.length k)) with (Z.of_N (N.of_nat (String.length k))) by lia.
  rewrite Itoa_of_N. by apply scanDec_pretty.
Qed.

(** The first [n] bytes of a string and what follows them. *)
Fixpoint splitAt (n : nat) (s : string) : option (string * string) :=
  match n, s with
  | O, _ => Some (EmptyString, s)
  | S n, String c s =>
      match splitAt n s with
      | Some (a, b) => Some (String c a, b)
      | None => None
      end
  | S _, EmptyString => None
  end.

Lemma splitAt_app (a b : string) : splitAt (String.length a) (a +:+ b) = Some (a, b).
Proof.
  induction a as [|c a IH]; [done|]. rewrite str_app_cons. simpl. by rewrite IH.
Qed.

End Decimals.

(** ** UTF-8

    The well-formed sequences of two, three and four bytes. *)

Section UTF8.

Definition isContinuation (c : Ascii.ascii) : bool := charIn c 128 191.

Definition twoBytes (a b : Ascii.ascii) : bool := charIn a 194 223 && isContinuation b.

Definition threeBytes (a b c : Ascii.ascii) : bool :=
  (charIn a 224 224 && charIn b 160 191
   || charIn a 225 236 && isContinuation b
   || charIn a 237 237 && charIn b 128 159
   || charIn a 238 239 && isContinuation b)
  && isContinuation c.

Definition fourBytes (a b c d : Ascii.ascii) : bool :=
  (charIn a 240 240 && charIn b 144 191
   || charIn a 241 243 && isContinuation b
   || charIn a 244 244 && charIn b 128 143)
  && isContinuation c && isContinuation d.

(** The replacement character before the rest of a string. *)
Definition replacement (s : string) : string :=
  String (Ascii.ascii_of_nat 239) (String (Ascii.ascii_of_nat 191) (String (Ascii.ascii_of_nat 189) s)).

(** Every byte that is not part of a well-formed sequence becomes a replacement
    character, as [encoding/json] does with the strings it writes. *)
Fixpoint toValidUTF8 (s : string) : string :=
  match s with
  | EmptyString => EmptyString
  | String a s1 =>
      if charIn a 0 127 then String a (toValidUTF8 s1)
      else
        match s1 with
        | EmptyString => replacement EmptyString
        | String b s2 =>
            if twoBytes a b then String a (String b (toValidUTF8 s2))
            else
              match s2 with
              | EmptyString => replacement (toValidUTF8 s1)
              | String c s3 =>
                  if threeBytes a b c then String a (String b (String c (toValidUTF8 s3)))
                  else
                    match s3 with
                    | EmptyString => replacement (toValidUTF8 s1)
                    | String d s4 =>
                        if fourBytes a b c d
                        then String a (String b (String c (String d (toValidUTF8 s4))))
                        else replacement (toValidUTF8 s1)
                    end
              end
        end
  end.

(** Valid UTF-8: nothing is replaced. *)
Definition utf8 (s : string) : Prop := toValidUTF8 s = s.

#[export] Instance utf8_dec s : Decision (utf8 s).
Proof. unfold utf8. apply _. Defined.

End UTF8.
