(* ===== verification/Sha256.v ===== *)
(** * SHA-256 and hexadecimal encoding

    [sha256.Sum256] and [hex.EncodeToString] of Go's standard library, on byte
    strings.  Words are 32-bit unsigned integers in [Z]; every addition is
    reduced modulo [2^32].  The definitions are executable, and the examples
    at the end check them against the published test vectors. *)

From S2P Require Import Prelude GoStd.

Section Words.
Local Open Scope Z_scope.

Definition add32 (a b : Z) : Z := Z.land (a + b) 0xffffffff.
Definition rotr (n x : Z) : Z :=
  Z.lor (Z.shiftr x n) (Z.land (Z.shiftl x (32 - n)) 0xffffffff).
Definition not32 (x : Z) : Z := Z.lxor x 0xffffffff.

Definition Ch (x y z : Z) : Z := Z.lxor (Z.land x y) (Z.land (not32 x) z).
Definition Maj (x y z : Z) : Z :=
  Z.lxor (Z.lxor (Z.land x y) (Z.land x z)) (Z.land y z).
Definition bigSigma0 (x : Z) : Z := Z.lxor (Z.lxor (rotr 2 x) (rotr 13 x)) (rotr 22 x).
Definition bigSigma1 (x : Z) : Z := Z.lxor (Z.lxor (rotr 6 x) (rotr 11 x)) (rotr 25 x).
Definition smallSigma0 (x : Z) : Z :=
  Z.lxor (Z.lxor (rotr 7 x) (rotr 18 x)) (Z.shiftr x 3).
Definition smallSigma1 (x : Z) : Z :=
  Z.lxor (Z.lxor (rotr 17 x) (rotr 19 x)) (Z.shiftr x 10).

(** The constants are the first 32 bits of the fractional parts of roots of the
    first primes. *)
Definition isPrime (n : nat) : bool :=
  forallb (λ d, negb (Nat.eqb (Nat.modulo n d) 0)) (seq 2 (n - 2)).

Definition primesBelow (n : nat) : list Z := map Z.of_nat (List.filter isPrime (seq 2 (n - 2))).

(** The integer cube root of a number below [2^(3 * bits)], bit by bit. *)
Fixpoint cubeRoot (bits : nat) (acc n : Z) : Z :=
  match bits with
  | O => acc
  | S bits =>
      let next := acc + Z.shiftl 1 (Z.of_nat bits) in
      cubeRoot bits (if next * next * next <=? n then next else acc) n
  end.

Definition fractionOfSqrt (p : Z) : Z := Z.land (Z.sqrt (Z.shiftl p 64)) 0xffffffff.
Definition fractionOfCubeRoot (p : Z) : Z :=
  Z.land (cubeRoot 36 0 (Z.shiftl p 96)) 0xffffffff.

(** 311 is the 64th prime. *)
Definition roundConstants : list Z :=
  Eval vm_compute in map fractionOfCubeRoot (primesBelow 312).

Record hashState := mkHash {
  h0 : Z; h1 : Z; h2 : Z; h3 : Z; h4 : Z; h5 : Z; h6 : Z; h7 : Z
}.

(** The square roots of the first eight primes. *)
Definition initialHash : hashState :=
  Eval vm_compute in
    match map fractionOfSqrt (primesBelow 20) with
    | [a; b; c; d; e; f; g; h] => mkHash a b c d e f g h
    | _ => mkHash 0 0 0 0 0 0 0 0
    end.

(** The message schedule, newest word first; [n] words remain to be computed. *)
Fixpoint extendSchedule (n : nat) (w : list Z) : list Z :=
  match n with
  | O => w
  | S n =>
      let at' i := nth i w 0 in
      extendSchedule n
        (add32 (add32 (smallSigma1 (at' 1%nat)) (at' 6%nat))
               (add32 (smallSigma0 (at' 14%nat)) (at' 15%nat)) :: w)
  end.

Definition schedule (block : list Z) : list Z :=
  rev (extendSchedule 48 (rev block)).

Definition hashRound (s : hashState) (kw : Z * Z) : hashState :=
  let t1 := add32 (add32 (add32 (h7 s) (bigSigma1 (h4 s)))
                         (Ch (h4 s) (h5 s) (h6 s)))
                  (add32 kw.1 kw.2) in
  let t2 := add32 (bigSigma0 (h0 s)) (Maj (h0 s) (h1 s) (h2 s)) in
  mkHash (add32 t1 t2) (h0 s) (h1 s) (h2 s)
         (add32 (h3 s) t1) (h4 s) (h5 s) (h6 s).

Definition hashBlock (s : hashState) (block : list Z) : hashState :=
  let f := foldl hashRound s (zip roundConstants (schedule block)) in
  mkHash (add32 (h0 s) (h0 f)) (add32 (h1 s) (h1 f))
         (add32 (h2 s) (h2 f)) (add32 (h3 s) (h3 f))
         (add32 (h4 s) (h4 f)) (add32 (h5 s) (h5 f))
         (add32 (h6 s) (h6 f)) (add32 (h7 s) (h7 f)).

(** [n] bytes of [z], most significant first. *)
Fixpoint bigEndian (n : nat) (z : Z) : list Z :=
  match n with
  | O => []
  | S n => Z.land (Z.shiftr z (8 * Z.of_nat n)) 255 :: bigEndian n z
  end.

Definition padMessage (msg : list Z) : list Z :=
  let len := Z.of_nat (length msg) in
  let zeros := Z.to_nat ((55 - len) mod 64) in
  msg ++ 128 :: replicate zeros 0 ++ bigEndian 8 (8 * len).

Fixpoint wordsOf (bytes : list Z) : list Z :=
  match bytes with
  | a :: b :: c :: d :: rest =>
      (((a * 256 + b) * 256 + c) * 256 + d) :: wordsOf rest
  | _ => []
  end.

(** Consumes sixteen words at a time; [fuel] bounds the number of blocks and
    the word count is always enough. *)
Fixpoint hashBlocks (fuel : nat) (s : hashState) (ws : list Z) : hashState :=
  match fuel, ws with
  | O, _ => s
  | _, [] => s
  | S fuel, _ => hashBlocks fuel (hashBlock s (take 16 ws)) (drop 16 ws)
  end.

Definition hashWords (s : hashState) : list Z :=
  [h0 s; h1 s; h2 s; h3 s; h4 s; h5 s; h6 s; h7 s].

Definition stringBytes (s : string) : list Z :=
  map (λ c, Z.of_N (Ascii.N_of_ascii c)) (String.list_ascii_of_string s).

(** [sha256.Sum256]: the 32 bytes of the digest. *)
Definition Sum256 (payload : string) : list Z :=
  let ws := wordsOf (padMessage (stringBytes payload)) in
  mjoin (map (bigEndian 4) (hashWords (hashBlocks (length ws) initialHash ws))).

(** [hex.EncodeToString]. *)
Definition EncodeToString (bytes : list Z) : string :=
  foldr (λ b rest, hexByte (Z.to_nat b) rest) EmptyString bytes.

End Words.

Lemma bigEndian_length n z : length (bigEndian n z) = n.
Proof. induction n as [|n IH]; simpl; [done|]. by rewrite IH. Qed.

(** The padded message fills whole 64-byte blocks. *)
Lemma padMessage_blocks msg : (Z.of_nat (length (padMessage msg)) mod 64 = 0)%Z.
Proof.
  unfold padMessage. rewrite length_app. simpl.
  rewrite length_app, length_replicate.
  set (len := Z.of_nat (length msg)).
  pose proof (Z.mod_pos_bound (55 - len) 64 ltac:(lia)) as Hm.
  pose proof (Z.div_mod (55 - len) 64 ltac:(lia)) as Hd.
  simpl. replace (Z.of_nat _) with ((1 - (55 - len) `div` 64) * 64)%Z by lia.
  apply Z.mod_mul. lia.
Qed.

Lemma Sum256_length payload : length (Sum256 payload) = 32.
Proof. reflexivity. Qed.

Lemma EncodeToString_length bytes :
  String.length (EncodeToString bytes) = 2 * length bytes.
Proof.
  induction bytes as [|b bytes IH]; [done|].
  change (EncodeToString (b :: bytes))
    with (hexByte (Z.to_nat b) (EncodeToString bytes)).
  unfold hexByte. simpl. rewrite IH. lia.
Qed.

Example sha256_empty :
  EncodeToString (Sum256 EmptyString)
  = "e3b0c44298fc1c149afbf4c8996fb92427ae41e4649b934ca495991b7852b855".
Proof. vm_compute. reflexivity. Qed.

Example sha256_abc :
  EncodeToString (Sum256 "abc")
  = "ba7816bf8f01cfea414140de5dae2223b00361a396177a9cb410ff61f20015ad".
Proof. vm_compute. reflexivity. Qed.

Example sha256_two_blocks :
  EncodeToString (Sum256 "abcdbcdecdefdefgefghfghighijhijkijkljklmklmnlmnomnopnopq")
  = "248d6a61d20638b8e5c026930c3e6039a33ce45964ff2167f6ecedd419db06c1".
Proof. vm_compute. reflexivity. Qed.
