(* ===== verification/KubeTypes.v ===== *)
(** * Kubernetes API objects

    The fields of the Kubernetes API types that the operator reads or writes.
    Every other field of an object the operator shares with the API server is
    carried, uninterpreted, in a [RawJSON] value, so that what an update leaves
    alone is visible in the model.  Pointers to scalars are [option]s; slices
    are lists and maps are [gmap]s, with nil and empty identified, as the
    Kubernetes serialisation identifies them. *)

From S2P Require Import Prelude.

(** Fields the operator never interprets, in their serialised form. *)
Record RawJSON := mkRaw { raw_Text : string }.
Definition noRaw : RawJSON := mkRaw EmptyString.

(** An instant, in nanoseconds; zero is Go's zero time. *)
Definition Time := Z.

(** [IsZero] of a pointer to an instant: it is nil or points to the zero time. *)
Definition IsZero (t : option Time) : bool :=
  match t with None => true | Some t => (t =? 0)%Z end.

Record NamespacedName := mkKey { key_Namespace : string; key_Name : string }.

(** The type metadata that objects and lists carry in line. *)
Record TypeMeta := mkTypeMeta { tm_Kind : string; tm_APIVersion : string }.
Definition noType : TypeMeta := mkTypeMeta EmptyString EmptyString.

(** The metadata of a list, uninterpreted. *)
Record ListMeta := mkListMeta { lm_Raw : RawJSON }.

Record OwnerReference := mkOwner {
  or_APIVersion : string;
  or_Kind : string;
  or_Name : string;
  or_UID : string;
  or_Controller : bool;
  or_BlockOwnerDeletion : bool
}.

Record ObjectMeta := mkMeta {
  om_Name : string;
  om_Namespace : string;
  om_UID : string;
  om_Generation : Z;
  om_DeletionTimestamp : option Time;
  om_Labels : gmap string string;
  om_Annotations : gmap string string;
  om_OwnerReferences : list OwnerReference;
  om_Raw : RawJSON
}.

(** The composite literal that sets only the given fields. *)
Definition newMeta (name ns : string) (labels annotations : gmap string string) : ObjectMeta :=
  mkMeta name ns EmptyString 0 None labels annotations [] noRaw.

Definition meta_key (m : ObjectMeta) : NamespacedName :=
  mkKey (om_Namespace m) (om_Name m).

Definition meta_set_labels (l : gmap string string) (m : ObjectMeta) : ObjectMeta :=
  mkMeta (om_Name m) (om_Namespace m) (om_UID m) (om_Generation m)
    (om_DeletionTimestamp m) l (om_Annotations m) (om_OwnerReferences m) (om_Raw m).

(** ** Conditions *)

Inductive ConditionStatus := ConditionTrue | ConditionFalse | ConditionUnknown.

Record Condition := mkCondition {
  c_Type : string;
  c_Status : ConditionStatus;
  c_ObservedGeneration : Z;
  c_LastTransitionTime : Time;
  c_Reason : string;
  c_Message : string
}.

(** ** Core group *)

Inductive IntOrString := FromInt32 (n : Z) | FromString (s : string).

Record LabelSelector := mkSelector {
  ls_MatchLabels : gmap string string;
  ls_MatchExpressions : list RawJSON
}.

Definition matchLabels (l : gmap string string) : LabelSelector := mkSelector l [].

(** Structures that the operator passes through without looking inside. *)
Record Toleration := mkToleration { tol_Raw : RawJSON }.
Record Affinity := mkAffinity { aff_Raw : RawJSON }.
Record ResourceRequirements := mkResources { res_Raw : RawJSON }.

Record LocalObjectReference := mkLocalRef { lor_Name : string }.

Record SecretKeySelector := mkSecretKey {
  sks_LocalObjectReference : LocalObjectReference;
  sks_Key : string
}.

(** An environment variable whose value comes from a Secret key. *)
Record EnvVar := mkEnvVar {
  ev_Name : string;
  ev_SecretKeyRef : option SecretKeySelector
}.

Record EnvFromSource := mkEnvFrom { ef_ConfigMapRef : LocalObjectReference }.

Record ContainerPort := mkContainerPort {
  cp_Name : string;
  cp_ContainerPort : Z;
  cp_Protocol : string
}.

Record HTTPGetAction := mkHTTPGet { hg_Path : string; hg_Port : IntOrString }.

Record Probe := mkProbe {
  pr_HTTPGet : HTTPGetAction;
  pr_PeriodSeconds : Z;
  pr_TimeoutSeconds : Z;
  pr_FailureThreshold : Z
}.

Record SecurityContext := mkSecurityContext {
  sc_AllowPrivilegeEscalation : option bool;
  sc_ReadOnlyRootFilesystem : option bool;
  sc_CapabilitiesDrop : list string
}.

Record PodSecurityContext := mkPodSecurityContext {
  psc_RunAsNonRoot : option bool;
  psc_RunAsUser : option Z;
  psc_RunAsGroup : option Z;
  psc_SeccompProfileType : string
}.

Record TopologySpreadConstraint := mkSpread {
  tsc_MaxSkew : Z;
  tsc_TopologyKey : string;
  tsc_WhenUnsatisfiable : string;
  tsc_LabelSelector : LabelSelector
}.

Record Container := mkContainer {
  ct_Name : string;
  ct_Image : string;
  ct_ImagePullPolicy : string;
  ct_SecurityContext : option SecurityContext;
  ct_Ports : list ContainerPort;
  ct_StartupProbe : option Probe;
  ct_LivenessProbe : option Probe;
  ct_ReadinessProbe : option Probe;
  ct_EnvFrom : list EnvFromSource;
  ct_Env : list EnvVar;
  ct_Resources : ResourceRequirements
}.

Record PodSpec := mkPodSpec {
  ps_ServiceAccountName : string;
  ps_AutomountServiceAccountToken : option bool;
  ps_EnableServiceLinks : option bool;
  ps_TerminationGracePeriodSeconds : option Z;
  ps_SecurityContext : option PodSecurityContext;
  ps_ImagePullSecrets : list LocalObjectReference;
  ps_NodeSelector : gmap string string;
  ps_Tolerations : list Toleration;
  ps_Affinity : option Affinity;
  ps_TopologySpreadConstraints : list TopologySpreadConstraint;
  ps_Containers : list Container
}.

Record PodTemplateSpec := mkTemplate { pt_Meta : ObjectMeta; pt_Spec : PodSpec }.

Record ConfigMap := mkConfigMap {
  cm_Meta : ObjectMeta;
  cm_Data : gmap string string;
  cm_Raw : RawJSON
}.

Record ServiceAccount := mkServiceAccount {
  sa_Meta : ObjectMeta;
  sa_AutomountServiceAccountToken : option bool;
  sa_ImagePullSecrets : list LocalObjectReference;
  sa_Raw : RawJSON
}.

Record Secret := mkSecret { sec_Meta : ObjectMeta; sec_Raw : RawJSON }.

Record ServicePort := mkServicePort {
  sp_Name : string;
  sp_Protocol : string;
  sp_Port : Z;
  sp_TargetPort : IntOrString
}.

Record ServiceSpec := mkServiceSpec {
  ss_Type : string;
  ss_Selector : gmap string string;
  ss_Ports : list ServicePort;
  ss_Raw : RawJSON
}.

Record Service := mkService {
  svc_Meta : ObjectMeta;
  svc_Spec : ServiceSpec;
  svc_Raw : RawJSON
}.

(** ** Apps group *)

Record RollingUpdateDeployment := mkRollingUpdate {
  ru_MaxUnavailable : IntOrString;
  ru_MaxSurge : IntOrString
}.

Record DeploymentStrategy := mkStrategy {
  dst_Type : string;
  dst_RollingUpdate : option RollingUpdateDeployment
}.

Record DeploymentSpec := mkDeploymentSpec {
  ds_Replicas : option Z;
  ds_ProgressDeadlineSeconds : option Z;
  ds_Selector : LabelSelector;
  ds_RevisionHistoryLimit : option Z;
  ds_Strategy : DeploymentStrategy;
  ds_Template : PodTemplateSpec
}.

Record DeploymentCondition := mkDeploymentCondition {
  dc_Type : string;
  dc_Status : ConditionStatus;
  dc_Reason : string;
  dc_Message : string
}.

Record DeploymentStatus := mkDeploymentStatus {
  dstat_ObservedGeneration : Z;
  dstat_Replicas : Z;
  dstat_UpdatedReplicas : Z;
  dstat_ReadyReplicas : Z;
  dstat_AvailableReplicas : Z;
  dstat_UnavailableReplicas : Z;
  dstat_Conditions : list DeploymentCondition
}.

Record Deployment := mkDeployment {
  d_Meta : ObjectMeta;
  d_Spec : DeploymentSpec;
  d_Status : DeploymentStatus
}.

Definition zeroDeploymentStatus : DeploymentStatus :=
  mkDeploymentStatus 0 0 0 0 0 0 [].

(** ** Policy, networking and autoscaling groups *)

Record PodDisruptionBudgetSpec := mkPDBSpec {
  pdbs_MaxUnavailable : option IntOrString;
  pdbs_Selector : option LabelSelector
}.

Record PodDisruptionBudget := mkPDB {
  pdb_Meta : ObjectMeta;
  pdb_Spec : PodDisruptionBudgetSpec;
  pdb_Raw : RawJSON
}.

Record NetworkPolicyPeer := mkPeer {
  npp_NamespaceSelector : option LabelSelector;
  npp_PodSelector : option LabelSelector
}.

Record NetworkPolicyPort := mkPolicyPort {
  nppt_Protocol : option string;
  nppt_Port : option IntOrString
}.

Record NetworkPolicyIngressRule := mkIngressRule {
  npi_From : list NetworkPolicyPeer;
  npi_Ports : list NetworkPolicyPort
}.

Record NetworkPolicySpec := mkPolicySpec {
  nps_PodSelector : LabelSelector;
  nps_PolicyTypes : list string;
  nps_Ingress : list NetworkPolicyIngressRule
}.

Record NetworkPolicy := mkNetworkPolicy {
  np_Meta : ObjectMeta;
  np_Spec : NetworkPolicySpec;
  np_Raw : RawJSON
}.

Record CrossVersionObjectReference := mkScaleTarget {
  cvo_APIVersion : string;
  cvo_Kind : string;
  cvo_Name : string
}.

(** A resource metric with a target average utilisation. *)
Record MetricSpec := mkMetric {
  ms_Type : string;
  ms_ResourceName : string;
  ms_TargetType : string;
  ms_AverageUtilization : option Z
}.

Record HorizontalPodAutoscalerSpec := mkHPASpec {
  hpas_ScaleTargetRef : CrossVersionObjectReference;
  hpas_MinReplicas : option Z;
  hpas_MaxReplicas : Z;
  hpas_Metrics : list MetricSpec
}.

Record HorizontalPodAutoscaler := mkHPA {
  hpa_Meta : ObjectMeta;
  hpa_Spec : HorizontalPodAutoscalerSpec;
  hpa_Raw : RawJSON
}.

(** ** Decidable equality where the operator compares values *)

#[export] Instance RawJSON_eq_dec : EqDecision RawJSON.
Proof. solve_decision. Defined.
#[export] Instance NamespacedName_eq_dec : EqDecision NamespacedName.
Proof. solve_decision. Defined.
#[export] Instance LabelSelector_eq_dec : EqDecision LabelSelector.
Proof. solve_decision. Defined.
#[export] Instance ConditionStatus_eq_dec : EqDecision ConditionStatus.
Proof. solve_decision. Defined.
#[export] Instance Condition_eq_dec : EqDecision Condition.
Proof. solve_decision. Defined.
#[export] Instance OwnerReference_eq_dec : EqDecision OwnerReference.
Proof. solve_decision. Defined.
#[export] Instance ObjectMeta_eq_dec : EqDecision ObjectMeta.
Proof. solve_decision. Defined.

#[export] Instance NamespacedName_countable : Countable NamespacedName.
Proof.
  refine (inj_countable' (λ k, (key_Namespace k, key_Name k))
            (λ p, mkKey p.1 p.2) _). by intros [].
Defined.
