(* ===== verification/ApiTypes.v ===== *)
(** * The [TrussiumRuntime] custom resource (api/v1alpha1)

    The Go types of the API group, its schema defaults and its schema
    validation.  Defaults and validation are the [+kubebuilder] markers of the
    types file, which the API server enforces before the operator sees an
    object.  Go zero values of fields tagged [omitempty] mean that the field is
    absent, so the defaults replace zero values.  The [Format=uri] marker of
    [baseURL] is not modelled. *)

From Stdlib Require Import Ascii.
From S2P Require Import Prelude GoStd KubeTypes.

(** [GroupVersion] of groupversion_info.go, as an API version string. *)
Definition GroupVersion : string := "runtime.trussium.io/v1alpha1".

Definition ProviderTypeOpenAI : string := "openai".
Definition ProviderTypeOllama : string := "ollama".

Record NamedReference := mkNamedReference { nr_Name : string }.

Record SecretKeyReference := mkSecretKeyReference {
  skr_Name : string;
  skr_Key : string
}.

Record RuntimeImageSpec := mkImage {
  img_Repository : string;
  img_Tag : option string;
  img_Digest : option string;
  img_PullPolicy : string
}.

Record ProviderSpec := mkProvider {
  prov_Type : string;
  prov_Model : string;
  prov_BaseURL : option string;
  prov_CredentialsSecretRef : option SecretKeyReference
}.

Record RuntimeSettingsSpec := mkSettings {
  rs_ProviderRequestTimeoutSeconds : option Z;
  rs_StreamIdleTimeoutSeconds : option Z;
  rs_ShutdownDrainTimeoutSeconds : option Z
}.

Record RuntimeServiceSpec := mkRuntimeService {
  rsvc_Type : string;
  rsvc_Port : Z
}.

Record RuntimeNetworkPolicyIngressRule := mkRuntimeIngress {
  ri_NamespaceSelector : LabelSelector;
  ri_PodSelector : option LabelSelector
}.

Record RuntimeNetworkPolicySpec := mkRuntimeNetworkPolicy {
  rnp_Enabled : bool;
  rnp_Ingress : list RuntimeNetworkPolicyIngressRule
}.

Record RuntimeAutoscalingSpec := mkAutoscaling {
  as_Enabled : bool;
  as_MinReplicas : Z;
  as_MaxReplicas : Z;
  as_TargetCPUUtilizationPercentage : Z
}.

Record PodMetadataSpec := mkPodMetadata {
  pm_Labels : gmap string string;
  pm_Annotations : gmap string string
}.

Record SchedulingSpec := mkScheduling {
  sch_NodeSelector : gmap string string;
  sch_Tolerations : list Toleration;
  sch_Affinity : option Affinity
}.

Record TrussiumRuntimeSpec := mkSpec {
  spec_Image : RuntimeImageSpec;
  spec_Replicas : option Z;
  spec_ImagePullSecrets : list NamedReference;
  spec_Provider : ProviderSpec;
  spec_Runtime : option RuntimeSettingsSpec;
  spec_Service : RuntimeServiceSpec;
  spec_NetworkPolicy : option RuntimeNetworkPolicySpec;
  spec_Autoscaling : option RuntimeAutoscalingSpec;
  spec_Resources : ResourceRequirements;
  spec_PodMetadata : option PodMetadataSpec;
  spec_Scheduling : option SchedulingSpec
}.

Record TrussiumRuntimeStatus := mkStatus {
  st_ObservedGeneration : Z;
  st_ReadyReplicas : Z;
  st_AvailableReplicas : Z;
  st_DesiredImage : string;
  st_CurrentImage : string;
  st_LastSuccessfulImage : string;
  st_Endpoint : string;
  st_Conditions : list Condition
}.

Record TrussiumRuntime := mkRuntime {
  rt_TypeMeta : TypeMeta;
  rt_Meta : ObjectMeta;
  rt_Spec : TrussiumRuntimeSpec;
  rt_Status : TrussiumRuntimeStatus
}.

Record TrussiumRuntimeList := mkRuntimeList {
  rl_TypeMeta : TypeMeta;
  rl_Meta : ListMeta;
  rl_Items : list TrussiumRuntime
}.

Definition emptyStatus : TrussiumRuntimeStatus :=
  mkStatus 0 0 0 EmptyString EmptyString EmptyString EmptyString [].

Definition rt_Name (r : TrussiumRuntime) : string := om_Name (rt_Meta r).
Definition rt_Namespace (r : TrussiumRuntime) : string := om_Namespace (rt_Meta r).
Definition rt_Generation (r : TrussiumRuntime) : Z := om_Generation (rt_Meta r).

(** [client.ObjectKeyFromObject] on a runtime. *)
Definition rt_key (r : TrussiumRuntime) : NamespacedName := meta_key (rt_Meta r).

Definition rt_set_status (s : TrussiumRuntimeStatus) (r : TrussiumRuntime) : TrussiumRuntime :=
  mkRuntime (rt_TypeMeta r) (rt_Meta r) (rt_Spec r) s.

Definition st_set_conditions (cs : list Condition) (s : TrussiumRuntimeStatus) : TrussiumRuntimeStatus :=
  mkStatus (st_ObservedGeneration s) (st_ReadyReplicas s) (st_AvailableReplicas s)
    (st_DesiredImage s) (st_CurrentImage s) (st_LastSuccessfulImage s) (st_Endpoint s) cs.

Definition st_set_desired_image (i : string) (s : TrussiumRuntimeStatus) : TrussiumRuntimeStatus :=
  mkStatus (st_ObservedGeneration s) (st_ReadyReplicas s) (st_AvailableReplicas s)
    i (st_CurrentImage s) (st_LastSuccessfulImage s) (st_Endpoint s) (st_Conditions s).

Definition st_set_last_successful (i : string) (s : TrussiumRuntimeStatus) : TrussiumRuntimeStatus :=
  mkStatus (st_ObservedGeneration s) (st_ReadyReplicas s) (st_AvailableReplicas s)
    (st_DesiredImage s) (st_CurrentImage s) i (st_Endpoint s) (st_Conditions s).

#[export] Instance TrussiumRuntimeStatus_eq_dec : EqDecision TrussiumRuntimeStatus.
Proof. solve_decision. Defined.

(** ** Schema defaults *)

Definition orDefaultString (s d : string) : string := if decide (s = EmptyString) then d else s.
Definition orDefaultZ (z d : Z) : Z := if decide (z = 0%Z) then d else z.

Definition defaultImage (i : RuntimeImageSpec) : RuntimeImageSpec :=
  mkImage (img_Repository i) (img_Tag i) (img_Digest i)
    (orDefaultString (img_PullPolicy i) "IfNotPresent").

Definition defaultRuntimeService (s : RuntimeServiceSpec) : RuntimeServiceSpec :=
  mkRuntimeService (orDefaultString (rsvc_Type s) "ClusterIP") (orDefaultZ (rsvc_Port s) 9000).

Definition defaultAutoscaling (a : RuntimeAutoscalingSpec) : RuntimeAutoscalingSpec :=
  mkAutoscaling (as_Enabled a) (orDefaultZ (as_MinReplicas a) 1)
    (orDefaultZ (as_MaxReplicas a) 10)
    (orDefaultZ (as_TargetCPUUtilizationPercentage a) 80).

Definition defaultSpec (s : TrussiumRuntimeSpec) : TrussiumRuntimeSpec :=
  mkSpec (defaultImage (spec_Image s)) (Some (default 1%Z (spec_Replicas s)))
    (spec_ImagePullSecrets s) (spec_Provider s) (spec_Runtime s)
    (defaultRuntimeService (spec_Service s)) (spec_NetworkPolicy s)
    (defaultAutoscaling <$> spec_Autoscaling s) (spec_Resources s)
    (spec_PodMetadata s) (spec_Scheduling s).

(** ** Schema validation *)

Definition isLower (c : ascii) : bool := charIn c 97 122.
Definition isUpper (c : ascii) : bool := charIn c 65 90.
Definition isDigit (c : ascii) : bool := charIn c 48 57.
Definition isAlnum (c : ascii) : bool := isLower c || isUpper c || isDigit c.
Definition isOneOf (l : list ascii) (c : ascii) : bool := existsb (Ascii.eqb c) l.

Fixpoint strAll (p : ascii → bool) (s : string) : bool :=
  match s with
  | EmptyString => true
  | String c s => p c && strAll p s
  end.

(** Code points of a UTF-8 string: the bytes that do not continue one. *)
Fixpoint runeCount (s : string) : Z :=
  match s with
  | EmptyString => 0
  | String c s => ((if charIn c 128 191 then 0 else 1) + runeCount s)%Z
  end.

Definition lengthIn (lo hi : Z) (s : string) : bool :=
  ((lo <=? runeCount s) && (runeCount s <=? hi))%Z.

Definition inRange (lo hi z : Z) : bool := ((lo <=? z) && (z <=? hi))%Z.

Definition isNameEdge (c : ascii) : bool := isLower c || isDigit c.
Definition isNameInner (c : ascii) : bool := isNameEdge c || isOneOf ["-"; "."]%char c.

(** The tail of the name pattern after its first character. *)
Fixpoint nameTail (s : string) : bool :=
  match s with
  | EmptyString => true
  | String c EmptyString => isNameEdge c
  | String c s => isNameInner c && nameTail s
  end.

(** [^[a-z0-9]([-a-z0-9.]*[a-z0-9])?$], 1 to 253 characters. *)
Definition validName (s : string) : bool :=
  lengthIn 1 253 s &&
  match s with EmptyString => false | String c s => isNameEdge c && nameTail s end.

(** [^[A-Za-z0-9._-]+$], 1 to 253 characters. *)
Definition validSecretKey (s : string) : bool :=
  lengthIn 1 253 s && strAll (λ c, isAlnum c || isOneOf ["."; "_"; "-"]%char c) s.

Definition isRepositoryChar (c : ascii) : bool :=
  isAlnum c || isOneOf ["."; "_"; ":"; "/"; "-"]%char c.

(** [^[A-Za-z0-9][A-Za-z0-9._:/-]*$], 1 to 255 characters. *)
Definition validRepository (s : string) : bool :=
  lengthIn 1 255 s &&
  match s with EmptyString => false | String c s => isAlnum c && strAll isRepositoryChar s end.

Definition isTagChar (c : ascii) : bool := isAlnum c || isOneOf ["."; "_"; "-"]%char c.

(** [^[A-Za-z0-9_][A-Za-z0-9._-]{0,127}$], 1 to 128 characters. *)
Definition validTag (s : string) : bool :=
  lengthIn 1 128 s &&
  match s with
  | EmptyString => false
  | String c s => (isAlnum c || Ascii.eqb c "_") && strAll isTagChar s
  end.

Definition isHexLower (c : ascii) : bool := charIn c 97 102 || isDigit c.

(** [^sha256:[a-f0-9]{64}$]. *)
Definition validDigest (s : string) : bool :=
  match splitAt 7 s with
  | Some (p, h) => bool_decide (p = "sha256:") && (String.length h =? 64) && strAll isHexLower h
  | None => false
  end.

(** [has(self.tag) != has(self.digest)]. *)
Definition validImage (i : RuntimeImageSpec) : bool :=
  validRepository (img_Repository i) &&
  match img_Tag i, img_Digest i with
  | Some t, None => validTag t
  | None, Some d => validDigest d
  | _, _ => false
  end &&
  slicesContains ["Always"; "IfNotPresent"; "Never"] (img_PullPolicy i).

Definition validProvider (p : ProviderSpec) : bool :=
  slicesContains [ProviderTypeOpenAI; ProviderTypeOllama] (prov_Type p) &&
  lengthIn 1 255 (prov_Model p) &&
  match prov_BaseURL p with None => true | Some u => (runeCount u <=? 2048)%Z end &&
  match prov_CredentialsSecretRef p with
  | None => true
  | Some r => validName (skr_Name r) && validSecretKey (skr_Key r)
  end.

Definition optionInRange (lo hi : Z) (o : option Z) : bool :=
  match o with None => true | Some z => inRange lo hi z end.

Definition validSettings (s : RuntimeSettingsSpec) : bool :=
  optionInRange 1 3600 (rs_ProviderRequestTimeoutSeconds s) &&
  optionInRange 1 3600 (rs_StreamIdleTimeoutSeconds s) &&
  optionInRange 1 3600 (rs_ShutdownDrainTimeoutSeconds s).

Definition validRuntimeService (s : RuntimeServiceSpec) : bool :=
  slicesContains ["ClusterIP"; "NodePort"; "LoadBalancer"] (rsvc_Type s) &&
  inRange 1 65535 (rsvc_Port s).

(** [!self.enabled || size(self.ingress) > 0]. *)
Definition validRuntimeNetworkPolicy (n : RuntimeNetworkPolicySpec) : bool :=
  negb (rnp_Enabled n) || negb (length (rnp_Ingress n) =? 0).

(** Ranges and [self.maxReplicas >= self.minReplicas]. *)
Definition validAutoscaling (a : RuntimeAutoscalingSpec) : bool :=
  inRange 1 1000 (as_MinReplicas a) && inRange 1 1000 (as_MaxReplicas a) &&
  inRange 1 100 (as_TargetCPUUtilizationPercentage a) &&
  (as_MinReplicas a <=? as_MaxReplicas a)%Z.

Definition optionValid {A} (p : A → bool) (o : option A) : bool :=
  match o with None => true | Some a => p a end.

(** An object accepted by the API server: defaults applied, markers checked. *)
Definition validSpec (s : TrussiumRuntimeSpec) : bool :=
  validImage (spec_Image s) &&
  optionInRange 0 1000 (spec_Replicas s) &&
  forallb (λ r, validName (nr_Name r)) (spec_ImagePullSecrets s) &&
  (length (spec_ImagePullSecrets s) <=? 20) &&
  bool_decide (NoDup (nr_Name <$> spec_ImagePullSecrets s)) &&
  validProvider (spec_Provider s) &&
  optionValid validSettings (spec_Runtime s) &&
  validRuntimeService (spec_Service s) &&
  optionValid validRuntimeNetworkPolicy (spec_NetworkPolicy s) &&
  optionValid validAutoscaling (spec_Autoscaling s).

(** ** Lemmas *)

Lemma inRange_spec lo hi z : inRange lo hi z = true ↔ (lo <= z <= hi)%Z.
Proof. unfold inRange. rewrite andb_true_iff, !Z.leb_le. done. Qed.

Lemma validSpec_parts s :
  validSpec s = true →
  validImage (spec_Image s) = true ∧
  optionInRange 0 1000 (spec_Replicas s) = true ∧
  NoDup (nr_Name <$> spec_ImagePullSecrets s) ∧
  validProvider (spec_Provider s) = true ∧
  optionValid validSettings (spec_Runtime s) = true ∧
  validRuntimeService (spec_Service s) = true ∧
  optionValid validRuntimeNetworkPolicy (spec_NetworkPolicy s) = true ∧
  optionValid validAutoscaling (spec_Autoscaling s) = true.
Proof.
  unfold validSpec. rewrite !andb_true_iff, bool_decide_eq_true.
  intros. destruct_and!. auto 10.
Qed.

Lemma rt_key_set_status s r : rt_key (rt_set_status s r) = rt_key r.
Proof. done. Qed.
