(* ===== verification/Json.v ===== *)
(** * The wire format of the API types (api/v1alpha1)

    How a [TrussiumRuntime] is written to and read from JSON values, by the
    [json] tags of trussiumruntime_types.go: field names, fields that are left
    out when empty ([omitempty], which never leaves out a struct), pointers that
    are absent when nil, and integers that are refused outside their width.  An
    unknown field is ignored; a missing field, and null anywhere, is the zero
    value.  The
    codecs of the Kubernetes types are a parameter.  [specSchema] holds the
    defaults of the [+kubebuilder:default] markers and [applyDefaults] what the
    API server does with them before it stores an object. *)

From S2P Require Import Prelude GoStd KubeTypes ApiTypes.

(** ** JSON values

    Numbers are integers, as all numeric fields are.  A JSON document is text
    of valid UTF-8, and so are the strings and keys in it. *)

Inductive json :=
| JNull
| JBool (b : bool)
| JNumber (z : Z)
| JString (s : string)
| JArray (l : list json)
| JObject (m : gmap string json).

(** ** Codecs *)

Record Codec (A : Type) := mkCodec {
  enc : A → json;
  dec : json → option A
}.
Arguments mkCodec {A} enc dec.
Arguments enc {A} c a.
Arguments dec {A} c j.

(** Writing replaces what is not valid UTF-8. *)
Definition jsonString : Codec string :=
  mkCodec (λ s, JString (toValidUTF8 s)) (λ j, match j with
                        | JString s => Some s
                        | JNull => Some EmptyString
                        | _ => None
                        end).

Definition jsonBool : Codec bool :=
  mkCodec JBool (λ j, match j with JBool b => Some b | JNull => Some false | _ => None end).

(** Numbers that do not fit into the type are an error. *)
Definition jsonIntIn (lo hi : Z) : Codec Z :=
  mkCodec JNumber (λ j, match j with
                        | JNumber z => if inRange lo hi z then Some z else None
                        | JNull => Some 0%Z
                        | _ => None
                        end).

Definition jsonInt32 : Codec Z := jsonIntIn int32_min int32_max.
Definition jsonInt64 : Codec Z := jsonIntIn int64_min int64_max.

(** A pointer, written as what it points to. *)
Definition jsonPointer {A} (c : Codec A) : Codec (option A) :=
  mkCodec (λ o, match o with Some a => enc c a | None => JNull end)
    (λ j, match j with JNull => Some None | j => Some <$> dec c j end).

Definition jsonSlice {A} (c : Codec A) : Codec (list A) :=
  mkCodec (λ l, JArray (enc c <$> l))
    (λ j, match j with JArray l => mapM (dec c) l | JNull => Some [] | _ => None end).

(** A map with string keys, which are written in their order; where two keys
    become the same text the last one counts. *)
Definition putEntries {A} (c : Codec A) (m : gmap string A) (keys : list string) : gmap string json :=
  foldl (λ acc k, match m !! k with Some a => <[toValidUTF8 k := enc c a]> acc | None => acc end) ∅ keys.

Definition jsonMap {A} (c : Codec A) : Codec (gmap string A) :=
  mkCodec (λ m, JObject (putEntries c m (sortStrings (mapKeys m))))
    (λ j, match j with
          | JObject m =>
              if bool_decide (map_Forall (λ _ j, is_Some (dec c j)) m) then Some (omap (dec c) m)
              else None
          | JNull => Some ∅
          | _ => None
          end).

(** ** Struct fields *)

(** A field that is always written. *)
Definition putField {A} (name : string) (c : Codec A) (a : A) (m : gmap string json)
    : gmap string json := <[name := enc c a]> m.

(** A field that is left out when it is empty. *)
Definition putOmit {A} (empty : A → bool) (name : string) (c : Codec A) (a : A)
    (m : gmap string json) : gmap string json :=
  if empty a then m else <[name := enc c a]> m.

(** A missing or null field keeps the zero value. *)
Definition getField {A} (name : string) (c : Codec A) (zero : A) (m : gmap string json) : option A :=
  match m !! name with
  | None | Some JNull => Some zero
  | Some j => dec c j
  end.

Definition emptyString (s : string) : bool := bool_decide (s = EmptyString).
Definition emptyInt (z : Z) : bool := (z =? 0)%Z.
Definition nilPointer {A} (o : option A) : bool := match o with None => true | Some _ => false end.
Definition emptySlice {A} (l : list A) : bool := match l with [] => true | _ => false end.
Definition emptyMap {A} (m : gmap string A) : bool := bool_decide (m = ∅).

(** A struct: its fields are written into an object and read from one. *)
Definition jsonStruct {A} (put : A → gmap string json → gmap string json)
    (get : gmap string json → option A) : Codec A :=
  mkCodec (λ a, JObject (put a ∅))
    (λ j, match j with JObject m => get m | JNull => get ∅ | _ => None end).

(** ** The Kubernetes types *)

Class WireLib := {
  jsonLabelSelector : Codec LabelSelector;
  jsonToleration : Codec Toleration;
  jsonAffinity : Codec Affinity;
  jsonResourceRequirements : Codec ResourceRequirements;
  jsonCondition : Codec Condition;
  jsonObjectMeta : Codec ObjectMeta;
  jsonListMeta : Codec ListMeta
}.

(** ** The API types *)

Section Types.
Context `{WireLib}.

Definition jsonNamedReference : Codec NamedReference :=
  jsonStruct (λ r, putField "name" jsonString (nr_Name r))
    (λ m, name ← getField "name" jsonString EmptyString m; Some (mkNamedReference name)).

Definition jsonSecretKeyReference : Codec SecretKeyReference :=
  jsonStruct
    (λ r m, putField "name" jsonString (skr_Name r) (putField "key" jsonString (skr_Key r) m))
    (λ m, name ← getField "name" jsonString EmptyString m;
          key ← getField "key" jsonString EmptyString m;
          Some (mkSecretKeyReference name key)).

Definition jsonRuntimeImageSpec : Codec RuntimeImageSpec :=
  jsonStruct
    (λ i m, putField "repository" jsonString (img_Repository i)
              (putOmit nilPointer "tag" (jsonPointer jsonString) (img_Tag i)
              (putOmit nilPointer "digest" (jsonPointer jsonString) (img_Digest i)
              (putOmit emptyString "pullPolicy" jsonString (img_PullPolicy i) m))))
    (λ m, repository ← getField "repository" jsonString EmptyString m;
          tag ← getField "tag" (jsonPointer jsonString) None m;
          digest ← getField "digest" (jsonPointer jsonString) None m;
          pullPolicy ← getField "pullPolicy" jsonString EmptyString m;
          Some (mkImage repository tag digest pullPolicy)).

Definition jsonProviderSpec : Codec ProviderSpec :=
  jsonStruct
    (λ p m, putField "type" jsonString (prov_Type p)
              (putField "model" jsonString (prov_Model p)
              (putOmit nilPointer "baseURL" (jsonPointer jsonString) (prov_BaseURL p)
              (putOmit nilPointer "credentialsSecretRef" (jsonPointer jsonSecretKeyReference)
                 (prov_CredentialsSecretRef p) m))))
    (λ m, type ← getField "type" jsonString EmptyString m;
          model ← getField "model" jsonString EmptyString m;
          baseURL ← getField "baseURL" (jsonPointer jsonString) None m;
          ref ← getField "credentialsSecretRef" (jsonPointer jsonSecretKeyReference) None m;
          Some (mkProvider type model baseURL ref)).

Definition jsonRuntimeSettingsSpec : Codec RuntimeSettingsSpec :=
  jsonStruct
    (λ s m, putOmit nilPointer "providerRequestTimeoutSeconds" (jsonPointer jsonInt32)
              (rs_ProviderRequestTimeoutSeconds s)
              (putOmit nilPointer "streamIdleTimeoutSeconds" (jsonPointer jsonInt32)
                 (rs_StreamIdleTimeoutSeconds s)
              (putOmit nilPointer "shutdownDrainTimeoutSeconds" (jsonPointer jsonInt32)
                 (rs_ShutdownDrainTimeoutSeconds s) m)))
    (λ m, request ← getField "providerRequestTimeoutSeconds" (jsonPointer jsonInt32) None m;
          idle ← getField "streamIdleTimeoutSeconds" (jsonPointer jsonInt32) None m;
          drain ← getField "shutdownDrainTimeoutSeconds" (jsonPointer jsonInt32) None m;
          Some (mkSettings request idle drain)).

Definition jsonRuntimeServiceSpec : Codec RuntimeServiceSpec :=
  jsonStruct
    (λ s m, putOmit emptyString "type" jsonString (rsvc_Type s)
              (putOmit emptyInt "port" jsonInt32 (rsvc_Port s) m))
    (λ m, type ← getField "type" jsonString EmptyString m;
          port ← getField "port" jsonInt32 0%Z m;
          Some (mkRuntimeService type port)).

Definition jsonRuntimeNetworkPolicyIngressRule : Codec RuntimeNetworkPolicyIngressRule :=
  jsonStruct
    (λ r m, putField "namespaceSelector" jsonLabelSelector (ri_NamespaceSelector r)
              (putOmit nilPointer "podSelector" (jsonPointer jsonLabelSelector) (ri_PodSelector r) m))
    (λ m, ns ← getField "namespaceSelector" jsonLabelSelector (matchLabels ∅) m;
          pods ← getField "podSelector" (jsonPointer jsonLabelSelector) None m;
          Some (mkRuntimeIngress ns pods)).

Definition jsonRuntimeNetworkPolicySpec : Codec RuntimeNetworkPolicySpec :=
  jsonStruct
    (λ n m, putOmit negb "enabled" jsonBool (rnp_Enabled n)
              (putOmit emptySlice "ingress" (jsonSlice jsonRuntimeNetworkPolicyIngressRule)
                 (rnp_Ingress n) m))
    (λ m, enabled ← getField "enabled" jsonBool false m;
          ingress ← getField "ingress" (jsonSlice jsonRuntimeNetworkPolicyIngressRule) [] m;
          Some (mkRuntimeNetworkPolicy enabled ingress)).

Definition jsonRuntimeAutoscalingSpec : Codec RuntimeAutoscalingSpec :=
  jsonStruct
    (λ a m, putOmit negb "enabled" jsonBool (as_Enabled a)
              (putOmit emptyInt "minReplicas" jsonInt32 (as_MinReplicas a)
              (putOmit emptyInt "maxReplicas" jsonInt32 (as_MaxReplicas a)
              (putOmit emptyInt "targetCPUUtilizationPercentage" jsonInt32
                 (as_TargetCPUUtilizationPercentage a) m))))
    (λ m, enabled ← getField "enabled" jsonBool false m;
          min ← getField "minReplicas" jsonInt32 0%Z m;
          max ← getField "maxReplicas" jsonInt32 0%Z m;
          cpu ← getField "targetCPUUtilizationPercentage" jsonInt32 0%Z m;
          Some (mkAutoscaling enabled min max cpu)).

Definition jsonPodMetadataSpec : Codec PodMetadataSpec :=
  jsonStruct
    (λ p m, putOmit emptyMap "labels" (jsonMap jsonString) (pm_Labels p)
              (putOmit emptyMap "annotations" (jsonMap jsonString) (pm_Annotations p) m))
    (λ m, labels ← getField "labels" (jsonMap jsonString) ∅ m;
          annotations ← getField "annotations" (jsonMap jsonString) ∅ m;
          Some (mkPodMetadata labels annotations)).

Definition jsonSchedulingSpec : Codec SchedulingSpec :=
  jsonStruct
    (λ s m, putOmit emptyMap "nodeSelector" (jsonMap jsonString) (sch_NodeSelector s)
              (putOmit emptySlice "tolerations" (jsonSlice jsonToleration) (sch_Tolerations s)
              (putOmit nilPointer "affinity" (jsonPointer jsonAffinity) (sch_Affinity s) m)))
    (λ m, nodes ← getField "nodeSelector" (jsonMap jsonString) ∅ m;
          tolerations ← getField "tolerations" (jsonSlice jsonToleration) [] m;
          affinity ← getField "affinity" (jsonPointer jsonAffinity) None m;
          Some (mkScheduling nodes tolerations affinity)).

(** The zero values of struct fields. *)
Definition zeroImage : RuntimeImageSpec := mkImage EmptyString None None EmptyString.
Definition zeroProvider : ProviderSpec := mkProvider EmptyString EmptyString None None.
Definition zeroService : RuntimeServiceSpec := mkRuntimeService EmptyString 0.
Definition zeroResources : ResourceRequirements := mkResources noRaw.
Definition zeroSpec : TrussiumRuntimeSpec :=
  mkSpec zeroImage None [] zeroProvider None zeroService None None zeroResources None None.

(** [service] and [resources] are structs: [omitempty] has no effect on them. *)
Definition jsonTrussiumRuntimeSpec : Codec TrussiumRuntimeSpec :=
  jsonStruct
    (λ s m,
      putField "image" jsonRuntimeImageSpec (spec_Image s)
      (putOmit nilPointer "replicas" (jsonPointer jsonInt32) (spec_Replicas s)
      (putOmit emptySlice "imagePullSecrets" (jsonSlice jsonNamedReference) (spec_ImagePullSecrets s)
      (putField "provider" jsonProviderSpec (spec_Provider s)
      (putOmit nilPointer "runtime" (jsonPointer jsonRuntimeSettingsSpec) (spec_Runtime s)
      (putField "service" jsonRuntimeServiceSpec (spec_Service s)
      (putOmit nilPointer "networkPolicy" (jsonPointer jsonRuntimeNetworkPolicySpec)
         (spec_NetworkPolicy s)
      (putOmit nilPointer "autoscaling" (jsonPointer jsonRuntimeAutoscalingSpec) (spec_Autoscaling s)
      (putField "resources" jsonResourceRequirements (spec_Resources s)
      (putOmit nilPointer "podMetadata" (jsonPointer jsonPodMetadataSpec) (spec_PodMetadata s)
      (putOmit nilPointer "scheduling" (jsonPointer jsonSchedulingSpec) (spec_Scheduling s)
       m)))))))))))
    (λ m,
      image ← getField "image" jsonRuntimeImageSpec zeroImage m;
      replicas ← getField "replicas" (jsonPointer jsonInt32) None m;
      pulls ← getField "imagePullSecrets" (jsonSlice jsonNamedReference) [] m;
      provider ← getField "provider" jsonProviderSpec zeroProvider m;
      runtime ← getField "runtime" (jsonPointer jsonRuntimeSettingsSpec) None m;
      service ← getField "service" jsonRuntimeServiceSpec zeroService m;
      policy ← getField "networkPolicy" (jsonPointer jsonRuntimeNetworkPolicySpec) None m;
      autoscaling ← getField "autoscaling" (jsonPointer jsonRuntimeAutoscalingSpec) None m;
      resources ← getField "resources" jsonResourceRequirements zeroResources m;
      pods ← getField "podMetadata" (jsonPointer jsonPodMetadataSpec) None m;
      scheduling ← getField "scheduling" (jsonPointer jsonSchedulingSpec) None m;
      Some (mkSpec image replicas pulls provider runtime service policy autoscaling resources pods
              scheduling)).

Definition jsonTrussiumRuntimeStatus : Codec TrussiumRuntimeStatus :=
  jsonStruct
    (λ s m,
      putOmit emptyInt "observedGeneration" jsonInt64 (st_ObservedGeneration s)
      (putOmit emptyInt "readyReplicas" jsonInt32 (st_ReadyReplicas s)
      (putOmit emptyInt "availableReplicas" jsonInt32 (st_AvailableReplicas s)
      (putOmit emptyString "desiredImage" jsonString (st_DesiredImage s)
      (putOmit emptyString "currentImage" jsonString (st_CurrentImage s)
      (putOmit emptyString "lastSuccessfulImage" jsonString (st_LastSuccessfulImage s)
      (putOmit emptyString "endpoint" jsonString (st_Endpoint s)
      (putOmit emptySlice "conditions" (jsonSlice jsonCondition) (st_Conditions s) m))))))))
    (λ m,
      generation ← getField "observedGeneration" jsonInt64 0%Z m;
      ready ← getField "readyReplicas" jsonInt32 0%Z m;
      available ← getField "availableReplicas" jsonInt32 0%Z m;
      desired ← getField "desiredImage" jsonString EmptyString m;
      current ← getField "currentImage" jsonString EmptyString m;
      last ← getField "lastSuccessfulImage" jsonString EmptyString m;
      endpoint ← getField "endpoint" jsonString EmptyString m;
      conditions ← getField "conditions" (jsonSlice jsonCondition) [] m;
      Some (mkStatus generation ready available desired current last endpoint conditions)).

(** The fields of the embedded [metav1.TypeMeta], which is in line. *)
Definition putTypeMeta (t : TypeMeta) (m : gmap string json) : gmap string json :=
  putOmit emptyString "kind" jsonString (tm_Kind t)
    (putOmit emptyString "apiVersion" jsonString (tm_APIVersion t) m).

Definition getTypeMeta (m : gmap string json) : option TypeMeta :=
  kind ← getField "kind" jsonString EmptyString m;
  version ← getField "apiVersion" jsonString EmptyString m;
  Some (mkTypeMeta kind version).

Definition jsonTrussiumRuntime : Codec TrussiumRuntime :=
  jsonStruct
    (λ r m, putTypeMeta (rt_TypeMeta r)
              (putField "metadata" jsonObjectMeta (rt_Meta r)
              (putField "spec" jsonTrussiumRuntimeSpec (rt_Spec r)
              (putField "status" jsonTrussiumRuntimeStatus (rt_Status r) m))))
    (λ m, type_ ← getTypeMeta m;
          meta ← getField "metadata" jsonObjectMeta (newMeta EmptyString EmptyString ∅ ∅) m;
          spec ← getField "spec" jsonTrussiumRuntimeSpec zeroSpec m;
          status ← getField "status" jsonTrussiumRuntimeStatus emptyStatus m;
          Some (mkRuntime type_ meta spec status)).

(** The items are always written. *)
Definition jsonTrussiumRuntimeList : Codec TrussiumRuntimeList :=
  jsonStruct
    (λ l m, putTypeMeta (rl_TypeMeta l)
              (putField "metadata" jsonListMeta (rl_Meta l)
              (putField "items" (jsonSlice jsonTrussiumRuntime) (rl_Items l) m)))
    (λ m, type_ ← getTypeMeta m;
          meta ← getField "metadata" jsonListMeta (mkListMeta noRaw) m;
          items ← getField "items" (jsonSlice jsonTrussiumRuntime) [] m;
          Some (mkRuntimeList type_ meta items)).

End Types.

(** ** Schema defaults *)

(** The properties of an object with their defaults and the schema of their
    values. *)
Inductive schema :=
| NoDefaults
| Property (name : string) (value : option json) (sub rest : schema).

(** Defaulting by the API server: a null property counts as absent, an absent
    one gets its default, and the result is defaulted in turn. *)
Fixpoint applyProperties (s : schema) (m : gmap string json) : gmap string json :=
  match s with
  | NoDefaults => m
  | Property name value sub rest =>
      let within (j : json) :=
        match j with JObject m' => JObject (applyProperties sub m') | j => j end in
      applyProperties rest
        match m !! name with
        | None | Some JNull =>
            match value with Some j => <[name := within j]> m | None => delete name m end
        | Some j => <[name := within j]> m
        end
  end.

Definition applyDefaults (s : schema) (j : json) : json :=
  match j with JObject m => JObject (applyProperties s m) | j => j end.

Definition imageSchema : schema := Property "pullPolicy" (Some (JString "IfNotPresent")) NoDefaults NoDefaults.

Definition serviceSchema : schema :=
  Property "type" (Some (JString "ClusterIP")) NoDefaults $
  Property "port" (Some (JNumber 9000)) NoDefaults NoDefaults.

Definition networkPolicySchema : schema := Property "enabled" (Some (JBool false)) NoDefaults NoDefaults.

Definition autoscalingSchema : schema :=
  Property "enabled" (Some (JBool false)) NoDefaults $
  Property "minReplicas" (Some (JNumber 1)) NoDefaults $
  Property "maxReplicas" (Some (JNumber 10)) NoDefaults $
  Property "targetCPUUtilizationPercentage" (Some (JNumber 80)) NoDefaults NoDefaults.

Definition specSchema : schema :=
  Property "image" None imageSchema $
  Property "replicas" (Some (JNumber 1)) NoDefaults $
  Property "service" (Some (JObject ∅)) serviceSchema $
  Property "networkPolicy" None networkPolicySchema $
  Property "autoscaling" None autoscalingSchema NoDefaults.
