(* ===== verification/Memory.v ===== *)
(** * Go memory

    Pointers, maps and slices share memory: a struct assignment copies the
    references it holds, not what they refer to.  This file models a heap of
    typed cells, the computations on it, and representation predicates that
    relate a structure in the heap to the value it denotes and to its
    footprint, the locations reachable from it.  The copy combinators are the
    statements a deep-copy function is made of; each is correct if the
    functions it uses are. *)

From S2P Require Import Prelude.

Definition loc := positive.

(** Values of type [A] as the contents of a cell. *)
Class Storable (Cell A : Type) := {
  toCell : A → Cell;
  fromCell : Cell → option A;
  from_to_cell (a : A) : fromCell (toCell a) = Some a
}.

Abbreviation Heap Cell := (gmap loc Cell).

(** A computation on the heap; [None] is a run-time panic. *)
Definition Mem (Cell A : Type) : Type := Heap Cell → option (A * Heap Cell).

#[export] Instance Mem_ret {Cell} : MRet (Mem Cell) := λ A a h, Some (a, h).
#[export] Instance Mem_bind {Cell} : MBind (Mem Cell) := λ A B f m h,
  match m h with Some (a, h') => f a h' | None => None end.

(** A slice header: the backing array, where the slice starts and its length.
    The capacity is what is left of the array.  The nil slice is [None]. *)
Record Slice := mkSlice { sl_Array : loc; sl_Off : nat; sl_Len : nat }.

Section Operations.
Context {Cell : Type}.
Implicit Types (h : Heap Cell) (l : loc).

(** [new(T)] with the content it is given before anybody reads it. *)
Definition alloc {A} `{!Storable Cell A} (a : A) : Mem Cell loc := λ h,
  let l := fresh (dom h) in Some (l, <[l := toCell a]> h).

Definition load {A} `{!Storable Cell A} (l : loc) : Mem Cell A := λ h,
  match h !! l with
  | Some c => match fromCell c with Some a => Some (a, h) | None => None end
  | None => None
  end.

Definition store {A} `{!Storable Cell A} (l : loc) (a : A) : Mem Cell unit := λ h,
  match h !! l with
  | Some _ => Some (tt, <[l := toCell a]> h)
  | None => None
  end.

(** The elements of a slice, by what its backing array holds. *)
Definition window {A} (s : Slice) (arr : list A) : list A := take (sl_Len s) (drop (sl_Off s) arr).

Definition elements {A} `{!Storable Cell (list A)} (s : option Slice) : Mem Cell (list A) :=
  match s with
  | Some s => arr ← load (A := list A) (sl_Array s); mret (window s arr)
  | None => mret []
  end.

(** ** The statements of deep-copy functions *)

(** A pointer field: unless nil, [*out = new(T)] and [DeepCopyInto] of what it
    points to. *)
Definition copyPtr {A} `{!Storable Cell A} (c : A → Mem Cell A) (p : option loc)
    : Mem Cell (option loc) :=
  match p with
  | Some l => a ← load l; b ← c a; l' ← alloc b; mret (Some l')
  | None => mret None
  end.

(** A map field: unless nil, [make(map[string]string)] and a [range] loop that
    inserts every entry. *)
Definition copyMap `{!Storable Cell (gmap string string)} (p : option loc) : Mem Cell (option loc) :=
  match p with
  | Some l =>
      m ← load (A := gmap string string) l;
      l' ← alloc (map_fold (λ key val out, <[key := val]> out) (∅ : gmap string string) m);
      mret (Some l')
  | None => mret None
  end.

(** A slice field: unless nil, [make([]T, len)] and a loop that copies every
    element with its [DeepCopyInto]. *)
Definition copySlice {A} `{!Storable Cell (list A)} (c : A → Mem Cell A) (s : option Slice)
    : Mem Cell (option Slice) :=
  match s with
  | Some _ =>
      xs ← elements (A := A) s; ys ← mapM c xs; l' ← alloc ys;
      mret (Some (mkSlice l' 0 (length ys)))
  | None => mret None
  end.

(** [func (in *T) DeepCopy() *T]: nil for nil, otherwise [new(T)] filled by
    [DeepCopyInto]. *)
Definition DeepCopy {A} `{!Storable Cell A} (deepCopyInto : A → Mem Cell A) (p : option loc)
    : Mem Cell (option loc) :=
  match p with
  | None => mret None
  | Some l => inp ← load l; out ← deepCopyInto inp; l' ← alloc out; mret (Some l')
  end.

End Operations.

(** ** Representation predicates *)

(** [R h a v F]: in the heap [h] the structure [a] denotes the value [v], and
    exactly the locations [F] are reachable from it. *)
Definition Rep (Cell A V : Type) : Type := Heap Cell → A → V → gset loc → Prop.

(** The heaps agree on a footprint. *)
Definition agree {Cell} (F : gset loc) (h h' : Heap Cell) : Prop :=
  ∀ l, l ∈ F → h' !! l = h !! l.

(** A predicate that depends on its footprint only, and a function that copies
    what it represents: the copy denotes the same value, no location reachable
    from it existed before, and nothing that existed has changed. *)
Record CopyOk {Cell A V} (R : Rep Cell A V) (c : A → Mem Cell A) : Prop := {
  rep_dom h a v F : R h a v F → F ⊆ dom h;
  rep_local h h' a v F : R h a v F → agree F h h' → R h' a v F;
  rep_copy h a v F : R h a v F →
    ∃ a' h' F', c a h = Some (a', h') ∧ R h' a' v F' ∧ h ⊆ h' ∧ F' ## dom h
}.

Section Predicates.
Context {Cell : Type}.
Implicit Types (h : Heap Cell) (F : gset loc).

(** Structures without references. *)
Definition repFlat {A} : Rep Cell A A := λ h a v F, v = a ∧ F = ∅.

Definition repPtr {A V} `{!Storable Cell A} (R : Rep Cell A V) : Rep Cell (option loc) (option V) :=
  λ h p v F,
  match p with
  | None => v = None ∧ F = ∅
  | Some l => ∃ a w G, h !! l = Some (toCell a) ∧ R h a w G ∧ v = Some w ∧ F = {[l]} ∪ G
  end.

(** Maps and slices, nil and empty denoting the same value. *)
Definition repMap `{!Storable Cell (gmap string string)} : Rep Cell (option loc) (gmap string string) :=
  λ h p v F,
  match p with
  | None => v = ∅ ∧ F = ∅
  | Some l => h !! l = Some (toCell v) ∧ F = {[l]}
  end.

Fixpoint repList {A V} (R : Rep Cell A V) (h : Heap Cell) (xs : list A) (vs : list V) (F : gset loc)
    : Prop :=
  match xs, vs with
  | [], [] => F = ∅
  | x :: xs, v :: vs => ∃ G G', R h x v G ∧ repList R h xs vs G' ∧ F = G ∪ G'
  | _, _ => False
  end.

Definition repSlice {A V} `{!Storable Cell (list A)} (R : Rep Cell A V)
    : Rep Cell (option Slice) (list V) := λ h s v F,
  match s with
  | None => v = [] ∧ F = ∅
  | Some s => ∃ arr G, h !! sl_Array s = Some (toCell arr)
      ∧ sl_Off s + sl_Len s ≤ length arr
      ∧ repList R h (window s arr) v G ∧ F = {[sl_Array s]} ∪ G
  end.

Lemma bind_some {A B} (m : Mem Cell A) (f : A → Mem Cell B) h a h' :
  m h = Some (a, h') → (m ≫= f) h = f a h'.
Proof. intros Hm. unfold mbind, Mem_bind. by rewrite Hm. Qed.

Lemma agree_weaken F F' h h' : agree F h h' → F' ⊆ F → agree F' h h'.
Proof. intros Ha Hs l Hl. apply Ha. set_solver. Qed.

Lemma agree_extend F h h' : F ⊆ dom h → h ⊆ h' → agree F h h'.
Proof.
  intros Hd Hs l Hl. apply Hd, elem_of_dom in Hl as [c Hc]. rewrite Hc.
  by eapply lookup_weaken.
Qed.

(** What is represented stays represented when the heap grows. *)
Lemma rep_grow {A V} (R : Rep Cell A V) c h h' a v F :
  CopyOk R c → R h a v F → h ⊆ h' → R h' a v F.
Proof.
  intros Hc Hr Hs. eapply rep_local; [exact Hc|exact Hr|].
  apply agree_extend; [by eapply rep_dom|done].
Qed.

Lemma load_cell {A} `{!Storable Cell A} l (a : A) h :
  h !! l = Some (toCell a) → load l h = Some (a, h).
Proof. intros Hl. unfold load. by rewrite Hl, from_to_cell. Qed.

(** Allocation extends the heap at a location that was not there. *)
Lemma alloc_fresh {A} `{!Storable Cell A} (a : A) h :
  ∃ l h', alloc a h = Some (l, h') ∧ h' !! l = Some (toCell a) ∧ h ⊆ h' ∧ l ∉ dom h.
Proof.
  eexists _, _. split; [done|]. pose proof (is_fresh (dom h)) as Hf.
  split; [by rewrite lookup_insert_eq|]. split; [|done].
  by apply insert_subseteq, not_elem_of_dom.
Qed.

(** ** Correctness of the combinators *)

Lemma copy_flat {A} : CopyOk (@repFlat A) mret.
Proof.
  split.
  - intros h a v F [_ ->]. set_solver.
  - intros h h' a v F Hr _. exact Hr.
  - intros h a v F [-> ->]. exists a, h, ∅. repeat split; [done|set_solver].
Qed.

Lemma copy_ptr {A V} `{!Storable Cell A} (R : Rep Cell A V) c :
  CopyOk R c → CopyOk (repPtr R) (copyPtr c).
Proof.
  intros Hc. split.
  - intros h [l|] v F; simpl; [|intros [_ ->]; set_solver].
    intros (a & w & G & Hl & Hr & _ & ->). apply (rep_dom _ _ Hc) in Hr.
    apply union_subseteq. split; [|done]. apply singleton_subseteq_l, elem_of_dom. eauto.
  - intros h h' [l|] v F; simpl; [|done]. intros (a & w & G & Hl & Hr & -> & ->) Ha.
    exists a, w, G. rewrite Ha by set_solver. split; [done|]. split; [|done].
    eapply (rep_local _ _ Hc); [exact Hr|]. eapply agree_weaken; [exact Ha|set_solver].
  - intros h [l|] v F; simpl; [|intros [-> ->]; exists None, h, ∅; repeat split; set_solver].
    intros (a & w & G & Hl & Hr & -> & ->).
    destruct (rep_copy _ _ Hc _ _ _ _ Hr) as (b & h1 & G1 & Hb & Hr1 & Hs1 & Hd1).
    destruct (alloc_fresh b h1) as (l' & h2 & Ha & Hl' & Hs2 & Hn).
    rewrite (bind_some _ _ _ _ _ (load_cell _ _ _ Hl)), (bind_some _ _ _ _ _ Hb),
      (bind_some _ _ _ _ _ Ha).
    exists (Some l'), h2, ({[l']} ∪ G1). split; [done|]. split.
    + exists b, w, G1. split; [done|]. split; [by eapply rep_grow|done].
    + split; [by etransitivity|]. apply subseteq_dom in Hs1. set_solver.
Qed.

Lemma map_fold_insert (m : gmap string string) :
  map_fold (λ key val (out : gmap string string), <[key := val]> out) ∅ m = m.
Proof.
  induction m as [|k v m Hk Hfold IH] using map_first_key_ind; [done|].
  by rewrite map_fold_insert_first_key, IH by done.
Qed.

Lemma copy_map `{!Storable Cell (gmap string string)} : CopyOk repMap copyMap.
Proof.
  split.
  - intros h [l|] v F; simpl; [|intros [_ ->]; set_solver]. intros [Hl ->].
    apply singleton_subseteq_l, elem_of_dom. eauto.
  - intros h h' [l|] v F; simpl; [|done]. intros [Hl ->] Ha. by rewrite Ha by set_solver.
  - intros h [l|] v F; simpl; [|intros [-> ->]; exists None, h, ∅; repeat split; set_solver].
    intros [Hl ->]. destruct (alloc_fresh v h) as (l' & h2 & Ha & Hl' & Hs2 & Hn).
    rewrite (bind_some _ _ _ _ _ (load_cell _ _ _ Hl)), map_fold_insert,
      (bind_some _ _ _ _ _ Ha).
    exists (Some l'), h2, {[l']}. repeat split; try done. set_solver.
Qed.

Lemma repList_dom {A V} (R : Rep Cell A V) c h xs vs F :
  CopyOk R c → repList R h xs vs F → F ⊆ dom h.
Proof.
  intros Hc. revert vs F. induction xs as [|x xs IH]; intros [|v vs] F; simpl; try done.
  - intros ->. set_solver.
  - intros (G & G' & Hr & Hl & ->). apply (rep_dom _ _ Hc) in Hr. apply IH in Hl. set_solver.
Qed.

Lemma repList_local {A V} (R : Rep Cell A V) c h h' xs vs F :
  CopyOk R c → repList R h xs vs F → agree F h h' → repList R h' xs vs F.
Proof.
  intros Hc. revert vs F. induction xs as [|x xs IH]; intros [|v vs] F; simpl; try done.
  intros (G & G' & Hr & Hl & ->) Ha. exists G, G'. split_and!; [..|done].
  - eapply (rep_local _ _ Hc); [exact Hr|]. eapply agree_weaken; [exact Ha|set_solver].
  - eapply IH; [exact Hl|]. eapply agree_weaken; [exact Ha|set_solver].
Qed.

Lemma repList_length {A V} (R : Rep Cell A V) h xs vs F :
  repList R h xs vs F → length xs = length vs.
Proof.
  revert vs F. induction xs as [|x xs IH]; intros [|v vs] F; simpl; try done.
  intros (G & G' & _ & Hl & _). f_equal. by eapply IH.
Qed.

Lemma copy_list {A V} (R : Rep Cell A V) c h xs vs F :
  CopyOk R c → repList R h xs vs F →
  ∃ ys h' F', mapM c xs h = Some (ys, h') ∧ repList R h' ys vs F' ∧ h ⊆ h' ∧ F' ## dom h.
Proof.
  intros Hc. revert h vs F. induction xs as [|x xs IH]; intros h [|v vs] F; simpl; try done.
  - intros ->. exists [], h, ∅. repeat split; set_solver.
  - intros (G & G' & Hr & Hl & ->).
    destruct (rep_copy _ _ Hc _ _ _ _ Hr) as (y & h1 & G1 & Hy & Hr1 & Hs1 & Hd1).
    assert (Hl1 : repList R h1 xs vs G').
    { eapply repList_local; [exact Hc|exact Hl|].
      apply agree_extend; [by eapply repList_dom|done]. }
    destruct (IH h1 vs G' Hl1) as (ys & h2 & G2 & Hm & Hl2 & Hs2 & Hd2).
    rewrite (bind_some _ _ _ _ _ Hy), (bind_some _ _ _ _ _ Hm).
    exists (y :: ys), h2, (G1 ∪ G2). split; [done|]. split.
    + exists G1, G2. split; [by eapply rep_grow|]. split; [exact Hl2|done].
    + split; [by etransitivity|]. apply subseteq_dom in Hs1. set_solver.
Qed.

Lemma window_all {A} l (ys : list A) : window (mkSlice l 0 (length ys)) ys = ys.
Proof. unfold window. simpl. by rewrite drop_0, firstn_all. Qed.

Lemma copy_slice {A V} `{!Storable Cell (list A)} (R : Rep Cell A V) c :
  CopyOk R c → CopyOk (repSlice R) (copySlice c).
Proof.
  intros Hc. split.
  - intros h [s|] v F; simpl; [|intros [_ ->]; set_solver].
    intros (arr & G & Hl & _ & Hr & ->). eapply repList_dom in Hr; [|exact Hc].
    apply union_subseteq. split; [|done]. apply singleton_subseteq_l, elem_of_dom. eauto.
  - intros h h' [s|] v F; simpl; [|done]. intros (arr & G & Hl & Hn & Hr & ->) Ha.
    exists arr, G. rewrite Ha by set_solver. split_and!; try done.
    eapply repList_local; [exact Hc|exact Hr|]. eapply agree_weaken; [exact Ha|set_solver].
  - intros h [s|] v F; simpl; [|intros [-> ->]; exists None, h, ∅; repeat split; set_solver].
    intros (arr & G & Hl & Hn & Hr & ->).
    destruct (copy_list R c h _ v G Hc Hr) as (ys & h1 & G1 & Hm & Hr1 & Hs1 & Hd1).
    destruct (alloc_fresh ys h1) as (l' & h2 & Ha & Hl' & Hs2 & Hf).
    assert (He : elements (Some s) h = Some (window s arr, h)).
    { unfold elements. by rewrite (bind_some _ _ _ _ _ (load_cell _ _ _ Hl)). }
    unfold elements in He.
    rewrite (bind_some _ _ _ _ _ He), (bind_some _ _ _ _ _ Hm), (bind_some _ _ _ _ _ Ha).
    exists (Some (mkSlice l' 0 (length ys))), h2, ({[l']} ∪ G1). split; [done|]. split.
    + exists ys, G1. split; [done|]. split; [simpl; lia|]. split; [|done].
      rewrite window_all. eapply repList_local; [exact Hc|exact Hr1|].
      apply agree_extend; [by eapply repList_dom|done].
    + split; [by etransitivity|]. apply subseteq_dom in Hs1. set_solver.
Qed.

(** ** Structs, field by field *)

Definition repPair {A B V W} (R : Rep Cell A V) (S : Rep Cell B W) : Rep Cell (A * B) (V * W) :=
  λ h p v F, ∃ G G', R h p.1 v.1 G ∧ S h p.2 v.2 G' ∧ F = G ∪ G'.

Definition copyPair {A B} (c : A → Mem Cell A) (d : B → Mem Cell B) (p : A * B) : Mem Cell (A * B) :=
  a ← c p.1; b ← d p.2; mret (a, b).

(** A struct, by the tuple of its fields. *)
Definition repFields {A B V W} (fields : A → B) (values : V → W) (R : Rep Cell B W) : Rep Cell A V :=
  λ h a v F, R h (fields a) (values v) F.

Lemma copy_pair {A B V W} (R : Rep Cell A V) (S : Rep Cell B W) c d :
  CopyOk R c → CopyOk S d → CopyOk (repPair R S) (copyPair c d).
Proof.
  intros Hc Hd. split.
  - intros h [a b] [v w] F (G & G' & Hr & Hs & ->).
    apply (rep_dom _ _ Hc) in Hr. apply (rep_dom _ _ Hd) in Hs. set_solver.
  - intros h h' [a b] [v w] F (G & G' & Hr & Hs & ->) Ha. exists G, G'. split_and!; [..|done].
    + eapply (rep_local _ _ Hc); [exact Hr|]. eapply agree_weaken; [exact Ha|set_solver].
    + eapply (rep_local _ _ Hd); [exact Hs|]. eapply agree_weaken; [exact Ha|set_solver].
  - intros h [a b] [v w] F (G & G' & Hr & Hs & ->). simpl in *.
    destruct (rep_copy _ _ Hc _ _ _ _ Hr) as (a' & h1 & G1 & Ha & Hr1 & Hs1 & Hd1).
    destruct (rep_copy _ _ Hd h1 b w G') as (b' & h2 & G2 & Hb & Hr2 & Hs2 & Hd2);
      [by eapply rep_grow|].
    exists (a', b'), h2, (G1 ∪ G2). unfold copyPair.
    rewrite (bind_some _ _ _ _ _ Ha), (bind_some _ _ _ _ _ Hb). split; [done|]. split.
    + exists G1, G2. split; [by eapply rep_grow|done].
    + split; [by etransitivity|]. apply subseteq_dom in Hs1. set_solver.
Qed.

(** A function that copies the fields of a struct one after the other. *)
Lemma copy_fields {A B V W} (fields : A → B) (build : B → A) (values : V → W) R c (c' : A → Mem Cell A) :
  CopyOk R c → (∀ b, fields (build b) = b) →
  (∀ a h, c' a h = (b ← c (fields a); mret (build b)) h) →
  CopyOk (repFields fields values R) c'.
Proof.
  intros Hc Hb Hc'. split; unfold repFields.
  - intros h a v F. apply (rep_dom _ _ Hc).
  - intros h h' a v F. apply (rep_local _ _ Hc).
  - intros h a v F Hr. destruct (rep_copy _ _ Hc _ _ _ _ Hr) as (b & h1 & G & Hcb & Hr1 & Hs).
    exists (build b), h1, G. rewrite Hc', (bind_some _ _ _ _ _ Hcb), Hb. done.
Qed.

(** A [DeepCopy] method is the pointer copy of its [DeepCopyInto]. *)
Lemma deep_copy_ptr {A} `{!Storable Cell A} (c : A → Mem Cell A) p : DeepCopy c p = copyPtr c p.
Proof. by destruct p. Qed.

End Predicates.
