(* ===== verification/DeepCopy.v ===== *)
(** * Deep copies (api/v1alpha1/zz_generated.deepcopy.go)

    The API types as they lie in memory, with pointers, maps and slices as
    references, and the generated [DeepCopyInto] and [DeepCopy] methods.  A
    [DeepCopyInto] starts from the shallow copy [*out = *in] and replaces every
    reference.  The deep copies of apimachinery and of the core API are not part
    of the repository: they are the class [ExternalCopies]. *)

From S2P Require Import Prelude KubeTypes ApiTypes Memory.

(** How external packages lay out their types, and what their own cells hold. *)
Class ExternalTypes := {
  xObjectMeta : Type;
  xListMeta : Type;
  xLabelSelector : Type;
  xToleration : Type;
  xAffinity : Type;
  xResourceRequirements : Type;
  xCell : Type
}.

(** ** Memory layout of the API types

    [NamedReference], [SecretKeyReference], [RuntimeServiceSpec],
    [RuntimeAutoscalingSpec] and [Condition] hold no references. *)

Section Layout.
Context `{ExternalTypes}.

Record RuntimeImageSpecM := mkImageM {
  imgM_Repository : string;
  imgM_Tag : option loc;
  imgM_Digest : option loc;
  imgM_PullPolicy : string
}.

Record ProviderSpecM := mkProviderM {
  provM_Type : string;
  provM_Model : string;
  provM_BaseURL : option loc;
  provM_CredentialsSecretRef : option loc
}.

Record RuntimeSettingsSpecM := mkSettingsM {
  rsM_ProviderRequestTimeoutSeconds : option loc;
  rsM_StreamIdleTimeoutSeconds : option loc;
  rsM_ShutdownDrainTimeoutSeconds : option loc
}.

Record RuntimeNetworkPolicyIngressRuleM := mkRuntimeIngressM {
  riM_NamespaceSelector : xLabelSelector;
  riM_PodSelector : option loc
}.

Record RuntimeNetworkPolicySpecM := mkRuntimeNetworkPolicyM {
  rnpM_Enabled : bool;
  rnpM_Ingress : option Slice
}.

Record PodMetadataSpecM := mkPodMetadataM {
  pmM_Labels : option loc;
  pmM_Annotations : option loc
}.

Record SchedulingSpecM := mkSchedulingM {
  schM_NodeSelector : option loc;
  schM_Tolerations : option Slice;
  schM_Affinity : option loc
}.

Record TrussiumRuntimeSpecM := mkSpecM {
  specM_Image : RuntimeImageSpecM;
  specM_Replicas : option loc;
  specM_ImagePullSecrets : option Slice;
  specM_Provider : ProviderSpecM;
  specM_Runtime : option loc;
  specM_Service : RuntimeServiceSpec;
  specM_NetworkPolicy : option loc;
  specM_Autoscaling : option loc;
  specM_Resources : xResourceRequirements;
  specM_PodMetadata : option loc;
  specM_Scheduling : option loc
}.

Record TrussiumRuntimeStatusM := mkStatusM {
  stM_ObservedGeneration : Z;
  stM_ReadyReplicas : Z;
  stM_AvailableReplicas : Z;
  stM_DesiredImage : string;
  stM_CurrentImage : string;
  stM_LastSuccessfulImage : string;
  stM_Endpoint : string;
  stM_Conditions : option Slice
}.

Record TrussiumRuntimeM := mkRuntimeM {
  rtM_TypeMeta : TypeMeta;
  rtM_ObjectMeta : xObjectMeta;
  rtM_Spec : TrussiumRuntimeSpecM;
  rtM_Status : TrussiumRuntimeStatusM
}.

Record TrussiumRuntimeListM := mkRuntimeListM {
  rtlM_TypeMeta : TypeMeta;
  rtlM_ListMeta : xListMeta;
  rtlM_Items : option Slice
}.

(** What a location can hold. *)
Inductive Cell :=
| CString (s : string)
| CInt32 (n : Z)
| CStringMap (m : gmap string string)
| CLabelSelector (x : xLabelSelector)
| CAffinity (x : xAffinity)
| CNamedReference (x : NamedReference)
| CSecretKeyReference (x : SecretKeyReference)
| CImage (x : RuntimeImageSpecM)
| CProvider (x : ProviderSpecM)
| CSettings (x : RuntimeSettingsSpecM)
| CService (x : RuntimeServiceSpec)
| CIngressRule (x : RuntimeNetworkPolicyIngressRuleM)
| CNetworkPolicy (x : RuntimeNetworkPolicySpecM)
| CAutoscaling (x : RuntimeAutoscalingSpec)
| CPodMetadata (x : PodMetadataSpecM)
| CScheduling (x : SchedulingSpecM)
| CSpec (x : TrussiumRuntimeSpecM)
| CStatus (x : TrussiumRuntimeStatusM)
| CRuntime (x : TrussiumRuntimeM)
| CRuntimeList (x : TrussiumRuntimeListM)
| CNamedReferences (xs : list NamedReference)
| CIngressRules (xs : list RuntimeNetworkPolicyIngressRuleM)
| CTolerations (xs : list xToleration)
| CConditions (xs : list Condition)
| CRuntimes (xs : list TrussiumRuntimeM)
| CExternal (x : xCell).

End Layout.

(** ** Cells of each type *)

Section Cells.
Context `{ExternalTypes}.

#[export] Instance storableString : Storable Cell string :=
  {| toCell := CString; fromCell c := if c is CString x then Some x else None; from_to_cell x := eq_refl |}.
#[export] Instance storableInt32 : Storable Cell Z :=
  {| toCell := CInt32; fromCell c := if c is CInt32 x then Some x else None; from_to_cell x := eq_refl |}.
#[export] Instance storableStringMap : Storable Cell (gmap string string) :=
  {| toCell := CStringMap; fromCell c := if c is CStringMap x then Some x else None; from_to_cell x := eq_refl |}.
#[export] Instance storableLabelSelector : Storable Cell xLabelSelector :=
  {| toCell := CLabelSelector; fromCell c := if c is CLabelSelector x then Some x else None; from_to_cell x := eq_refl |}.
#[export] Instance storableAffinity : Storable Cell xAffinity :=
  {| toCell := CAffinity; fromCell c := if c is CAffinity x then Some x else None; from_to_cell x := eq_refl |}.
#[export] Instance storableNamedReference : Storable Cell NamedReference :=
  {| toCell := CNamedReference; fromCell c := if c is CNamedReference x then Some x else None; from_to_cell x := eq_refl |}.
#[export] Instance storableSecretKeyReference : Storable Cell SecretKeyReference :=
  {| toCell := CSecretKeyReference; fromCell c := if c is CSecretKeyReference x then Some x else None; from_to_cell x := eq_refl |}.
#[export] Instance storableImage : Storable Cell RuntimeImageSpecM :=
  {| toCell := CImage; fromCell c := if c is CImage x then Some x else None; from_to_cell x := eq_refl |}.
#[export] Instance storableProvider : Storable Cell ProviderSpecM :=
  {| toCell := CProvider; fromCell c := if c is CProvider x then Some x else None; from_to_cell x := eq_refl |}.
#[export] Instance storableSettings : Storable Cell RuntimeSettingsSpecM :=
  {| toCell := CSettings; fromCell c := if c is CSettings x then Some x else None; from_to_cell x := eq_refl |}.
#[export] Instance storableService : Storable Cell RuntimeServiceSpec :=
  {| toCell := CService; fromCell c := if c is CService x then Some x else None; from_to_cell x := eq_refl |}.
#[export] Instance storableIngressRule : Storable Cell RuntimeNetworkPolicyIngressRuleM :=
  {| toCell := CIngressRule; fromCell c := if c is CIngressRule x then Some x else None; from_to_cell x := eq_refl |}.
#[export] Instance storableNetworkPolicy : Storable Cell RuntimeNetworkPolicySpecM :=
  {| toCell := CNetworkPolicy; fromCell c := if c is CNetworkPolicy x then Some x else None; from_to_cell x := eq_refl |}.
#[export] Instance storableAutoscaling : Storable Cell RuntimeAutoscalingSpec :=
  {| toCell := CAutoscaling; fromCell c := if c is CAutoscaling x then Some x else None; from_to_cell x := eq_refl |}.
#[export] Instance storablePodMetadata : Storable Cell PodMetadataSpecM :=
  {| toCell := CPodMetadata; fromCell c := if c is CPodMetadata x then Some x else None; from_to_cell x := eq_refl |}.
#[export] Instance storableScheduling : Storable Cell SchedulingSpecM :=
  {| toCell := CScheduling; fromCell c := if c is CScheduling x then Some x else None; from_to_cell x := eq_refl |}.
#[export] Instance storableSpec : Storable Cell TrussiumRuntimeSpecM :=
  {| toCell := CSpec; fromCell c := if c is CSpec x then Some x else None; from_to_cell x := eq_refl |}.
#[export] Instance storableStatus : Storable Cell TrussiumRuntimeStatusM :=
  {| toCell := CStatus; fromCell c := if c is CStatus x then Some x else None; from_to_cell x := eq_refl |}.
#[export] Instance storableRuntime : Storable Cell TrussiumRuntimeM :=
  {| toCell := CRuntime; fromCell c := if c is CRuntime x then Some x else None; from_to_cell x := eq_refl |}.
#[export] Instance storableRuntimeList : Storable Cell TrussiumRuntimeListM :=
  {| toCell := CRuntimeList; fromCell c := if c is CRuntimeList x then Some x else None; from_to_cell x := eq_refl |}.
#[export] Instance storableNamedReferences : Storable Cell (list NamedReference) :=
  {| toCell := CNamedReferences; fromCell c := if c is CNamedReferences x then Some x else None; from_to_cell x := eq_refl |}.
#[export] Instance storableIngressRules : Storable Cell (list RuntimeNetworkPolicyIngressRuleM) :=
  {| toCell := CIngressRules; fromCell c := if c is CIngressRules x then Some x else None; from_to_cell x := eq_refl |}.
#[export] Instance storableTolerations : Storable Cell (list xToleration) :=
  {| toCell := CTolerations; fromCell c := if c is CTolerations x then Some x else None; from_to_cell x := eq_refl |}.
#[export] Instance storableConditions : Storable Cell (list Condition) :=
  {| toCell := CConditions; fromCell c := if c is CConditions x then Some x else None; from_to_cell x := eq_refl |}.
#[export] Instance storableRuntimes : Storable Cell (list TrussiumRuntimeM) :=
  {| toCell := CRuntimes; fromCell c := if c is CRuntimes x then Some x else None; from_to_cell x := eq_refl |}.

End Cells.

(** ** Copies of external types *)

(** Memory on which a copy method of an external type works. *)
Class ExternalCopies `{ExternalTypes} := {
  repObjectMeta : Rep Cell xObjectMeta ObjectMeta;
  copyObjectMeta : xObjectMeta → Mem Cell xObjectMeta;
  repListMeta : Rep Cell xListMeta ListMeta;
  copyListMeta : xListMeta → Mem Cell xListMeta;
  repLabelSelector : Rep Cell xLabelSelector LabelSelector;
  copyLabelSelector : xLabelSelector → Mem Cell xLabelSelector;
  repToleration : Rep Cell xToleration Toleration;
  copyToleration : xToleration → Mem Cell xToleration;
  repAffinity : Rep Cell xAffinity Affinity;
  copyAffinity : xAffinity → Mem Cell xAffinity;
  repResourceRequirements : Rep Cell xResourceRequirements ResourceRequirements;
  copyResourceRequirements : xResourceRequirements → Mem Cell xResourceRequirements;
  copyCondition : Condition → Mem Cell Condition
}.

(** The external methods are deep copies. *)
Class ExternalCopyLaws `{ExternalCopies} : Prop := {
  copy_object_meta : CopyOk repObjectMeta copyObjectMeta;
  copy_list_meta : CopyOk repListMeta copyListMeta;
  copy_label_selector : CopyOk repLabelSelector copyLabelSelector;
  copy_toleration : CopyOk repToleration copyToleration;
  copy_affinity : CopyOk repAffinity copyAffinity;
  copy_resource_requirements : CopyOk repResourceRequirements copyResourceRequirements;
  copy_condition : CopyOk repFlat copyCondition
}.

(** ** The generated methods *)

Section Methods.
Context `{ExternalCopies}.

Definition DeepCopyInto_NamedReference (inp : NamedReference) : Mem Cell NamedReference := mret inp.

Definition DeepCopyInto_SecretKeyReference (inp : SecretKeyReference)
    : Mem Cell SecretKeyReference := mret inp.

Definition DeepCopyInto_RuntimeServiceSpec (inp : RuntimeServiceSpec)
    : Mem Cell RuntimeServiceSpec := mret inp.

Definition DeepCopyInto_RuntimeAutoscalingSpec (inp : RuntimeAutoscalingSpec)
    : Mem Cell RuntimeAutoscalingSpec := mret inp.

Definition DeepCopyInto_PodMetadataSpec (inp : PodMetadataSpecM) : Mem Cell PodMetadataSpecM :=
  labels ← copyMap (pmM_Labels inp);
  annotations ← copyMap (pmM_Annotations inp);
  mret (mkPodMetadataM labels annotations).

Definition DeepCopyInto_ProviderSpec (inp : ProviderSpecM) : Mem Cell ProviderSpecM :=
  baseURL ← copyPtr (A := string) mret (provM_BaseURL inp);
  credentials ← copyPtr (A := SecretKeyReference) mret (provM_CredentialsSecretRef inp);
  mret (mkProviderM (provM_Type inp) (provM_Model inp) baseURL credentials).

Definition DeepCopyInto_RuntimeImageSpec (inp : RuntimeImageSpecM) : Mem Cell RuntimeImageSpecM :=
  tag ← copyPtr (A := string) mret (imgM_Tag inp);
  digest ← copyPtr (A := string) mret (imgM_Digest inp);
  mret (mkImageM (imgM_Repository inp) tag digest (imgM_PullPolicy inp)).

Definition DeepCopyInto_RuntimeNetworkPolicyIngressRule (inp : RuntimeNetworkPolicyIngressRuleM)
    : Mem Cell RuntimeNetworkPolicyIngressRuleM :=
  namespaceSelector ← copyLabelSelector (riM_NamespaceSelector inp);
  podSelector ← copyPtr copyLabelSelector (riM_PodSelector inp);
  mret (mkRuntimeIngressM namespaceSelector podSelector).

Definition DeepCopyInto_RuntimeNetworkPolicySpec (inp : RuntimeNetworkPolicySpecM)
    : Mem Cell RuntimeNetworkPolicySpecM :=
  ingress ← copySlice DeepCopyInto_RuntimeNetworkPolicyIngressRule (rnpM_Ingress inp);
  mret (mkRuntimeNetworkPolicyM (rnpM_Enabled inp) ingress).

Definition DeepCopyInto_RuntimeSettingsSpec (inp : RuntimeSettingsSpecM)
    : Mem Cell RuntimeSettingsSpecM :=
  request ← copyPtr (A := Z) mret (rsM_ProviderRequestTimeoutSeconds inp);
  idle ← copyPtr (A := Z) mret (rsM_StreamIdleTimeoutSeconds inp);
  drain ← copyPtr (A := Z) mret (rsM_ShutdownDrainTimeoutSeconds inp);
  mret (mkSettingsM request idle drain).

Definition DeepCopyInto_SchedulingSpec (inp : SchedulingSpecM) : Mem Cell SchedulingSpecM :=
  nodeSelector ← copyMap (schM_NodeSelector inp);
  tolerations ← copySlice copyToleration (schM_Tolerations inp);
  affinity ← copyPtr copyAffinity (schM_Affinity inp);
  mret (mkSchedulingM nodeSelector tolerations affinity).

Definition DeepCopyInto_TrussiumRuntimeSpec (inp : TrussiumRuntimeSpecM)
    : Mem Cell TrussiumRuntimeSpecM :=
  image ← DeepCopyInto_RuntimeImageSpec (specM_Image inp);
  replicas ← copyPtr (A := Z) mret (specM_Replicas inp);
  imagePullSecrets ← copySlice (A := NamedReference) mret (specM_ImagePullSecrets inp);
  provider ← DeepCopyInto_ProviderSpec (specM_Provider inp);
  runtime ← copyPtr DeepCopyInto_RuntimeSettingsSpec (specM_Runtime inp);
  networkPolicy ← copyPtr DeepCopyInto_RuntimeNetworkPolicySpec (specM_NetworkPolicy inp);
  autoscaling ← copyPtr (A := RuntimeAutoscalingSpec) mret (specM_Autoscaling inp);
  resources ← copyResourceRequirements (specM_Resources inp);
  podMetadata ← copyPtr DeepCopyInto_PodMetadataSpec (specM_PodMetadata inp);
  scheduling ← copyPtr DeepCopyInto_SchedulingSpec (specM_Scheduling inp);
  mret (mkSpecM image replicas imagePullSecrets provider runtime (specM_Service inp)
          networkPolicy autoscaling resources podMetadata scheduling).

Definition DeepCopyInto_TrussiumRuntimeStatus (inp : TrussiumRuntimeStatusM)
    : Mem Cell TrussiumRuntimeStatusM :=
  conditions ← copySlice copyCondition (stM_Conditions inp);
  mret (mkStatusM (stM_ObservedGeneration inp) (stM_ReadyReplicas inp) (stM_AvailableReplicas inp)
          (stM_DesiredImage inp) (stM_CurrentImage inp) (stM_LastSuccessfulImage inp)
          (stM_Endpoint inp) conditions).

Definition DeepCopyInto_TrussiumRuntime (inp : TrussiumRuntimeM) : Mem Cell TrussiumRuntimeM :=
  objectMeta ← copyObjectMeta (rtM_ObjectMeta inp);
  spec ← DeepCopyInto_TrussiumRuntimeSpec (rtM_Spec inp);
  status ← DeepCopyInto_TrussiumRuntimeStatus (rtM_Status inp);
  mret (mkRuntimeM (rtM_TypeMeta inp) objectMeta spec status).

Definition DeepCopyInto_TrussiumRuntimeList (inp : TrussiumRuntimeListM)
    : Mem Cell TrussiumRuntimeListM :=
  listMeta ← copyListMeta (rtlM_ListMeta inp);
  items ← copySlice DeepCopyInto_TrussiumRuntime (rtlM_Items inp);
  mret (mkRuntimeListM (rtlM_TypeMeta inp) listMeta items).

(** *** DeepCopy and DeepCopyObject *)

Definition DeepCopy_NamedReference (inp : option loc) : Mem Cell (option loc) :=
  DeepCopy DeepCopyInto_NamedReference inp.

Definition DeepCopy_PodMetadataSpec (inp : option loc) : Mem Cell (option loc) :=
  DeepCopy DeepCopyInto_PodMetadataSpec inp.

Definition DeepCopy_ProviderSpec (inp : option loc) : Mem Cell (option loc) :=
  DeepCopy DeepCopyInto_ProviderSpec inp.

Definition DeepCopy_RuntimeAutoscalingSpec (inp : option loc) : Mem Cell (option loc) :=
  DeepCopy DeepCopyInto_RuntimeAutoscalingSpec inp.

Definition DeepCopy_RuntimeImageSpec (inp : option loc) : Mem Cell (option loc) :=
  DeepCopy DeepCopyInto_RuntimeImageSpec inp.

Definition DeepCopy_RuntimeNetworkPolicyIngressRule (inp : option loc) : Mem Cell (option loc) :=
  DeepCopy DeepCopyInto_RuntimeNetworkPolicyIngressRule inp.

Definition DeepCopy_RuntimeNetworkPolicySpec (inp : option loc) : Mem Cell (option loc) :=
  DeepCopy DeepCopyInto_RuntimeNetworkPolicySpec inp.

Definition DeepCopy_RuntimeServiceSpec (inp : option loc) : Mem Cell (option loc) :=
  DeepCopy DeepCopyInto_RuntimeServiceSpec inp.

Definition DeepCopy_RuntimeSettingsSpec (inp : option loc) : Mem Cell (option loc) :=
  DeepCopy DeepCopyInto_RuntimeSettingsSpec inp.

Definition DeepCopy_SchedulingSpec (inp : option loc) : Mem Cell (option loc) :=
  DeepCopy DeepCopyInto_SchedulingSpec inp.

Definition DeepCopy_SecretKeyReference (inp : option loc) : Mem Cell (option loc) :=
  DeepCopy DeepCopyInto_SecretKeyReference inp.

Definition DeepCopy_TrussiumRuntime (inp : option loc) : Mem Cell (option loc) :=
  DeepCopy DeepCopyInto_TrussiumRuntime inp.

Definition DeepCopy_TrussiumRuntimeList (inp : option loc) : Mem Cell (option loc) :=
  DeepCopy DeepCopyInto_TrussiumRuntimeList inp.

Definition DeepCopy_TrussiumRuntimeSpec (inp : option loc) : Mem Cell (option loc) :=
  DeepCopy DeepCopyInto_TrussiumRuntimeSpec inp.

Definition DeepCopy_TrussiumRuntimeStatus (inp : option loc) : Mem Cell (option loc) :=
  DeepCopy DeepCopyInto_TrussiumRuntimeStatus inp.

(** A [runtime.Object] interface value: nil, or the pointer. *)
Definition DeepCopyObject_TrussiumRuntime (inp : option loc) : Mem Cell (option loc) :=
  c ← DeepCopy_TrussiumRuntime inp;
  match c with Some l => mret (Some l) | None => mret None end.

Definition DeepCopyObject_TrussiumRuntimeList (inp : option loc) : Mem Cell (option loc) :=
  c ← DeepCopy_TrussiumRuntimeList inp;
  match c with Some l => mret (Some l) | None => mret None end.

End Methods.
