(* ===== verification/KubeLib.v ===== *)
(** * Library functions the operator calls

    The pure functions of apimachinery, client-go and controller-runtime that
    the operator relies on.  Their code is not part of the repository, so they
    are the fields of a class, and [K8sLaws] states their documented behaviour.
    [RefKube] gives one implementation that satisfies the laws. *)

From Stdlib Require Import Ascii.
From S2P Require Import Prelude GoStd KubeTypes ApiTypes.

(** ** Documented syntax of names *)

(** The rest of a name of [inner] characters that ends in an [edge] one. *)
Fixpoint endsWell (inner edge : ascii → bool) (s : string) : bool :=
  match s with
  | EmptyString => true
  | String c EmptyString => edge c
  | String c s => inner c && endsWell inner edge s
  end.

(** A DNS label of RFC 1035, as Service names are. *)
Definition dns1035Label (s : string) : bool :=
  lengthIn 1 63 s &&
  match s with
  | EmptyString => false
  | String c s => isLower c && endsWell (λ c, isNameEdge c || Ascii.eqb c "-") isNameEdge s
  end.

(** ** Owners *)

Definition meta_set_owners (refs : list OwnerReference) (m : ObjectMeta) : ObjectMeta :=
  mkMeta (om_Name m) (om_Namespace m) (om_UID m) (om_Generation m)
    (om_DeletionTimestamp m) (om_Labels m) (om_Annotations m) refs (om_Raw m).

(** The controller reference that designates a runtime. *)
Definition runtimeOwner (r : TrussiumRuntime) : OwnerReference :=
  mkOwner GroupVersion "TrussiumRuntime" (rt_Name r) (om_UID (rt_Meta r)) true true.

(** [metav1.GetControllerOf]: the first owner reference that is a controller. *)
Definition GetControllerOf (refs : list OwnerReference) : option OwnerReference :=
  head (filter (λ ref, or_Controller ref = true) refs).

Class K8sLib := {
  (** [apierrors.IsNotFound] on a non-nil error. *)
  IsNotFound : GoError → bool;
  (** [client.IgnoreNotFound] on a non-nil error. *)
  IgnoreNotFound : GoError → option GoError;
  (** [meta.FindStatusCondition]. *)
  FindStatusCondition : list Condition → string → option Condition;
  (** [meta.SetStatusCondition]; the first argument is the clock reading at
      the call. *)
  SetStatusCondition : Time → list Condition → Condition → list Condition;
  (** [equality.Semantic.DeepEqual] on runtime statuses. *)
  DeepEqual : TrussiumRuntimeStatus → TrussiumRuntimeStatus → bool;
  (** [controllerutil.SetControllerReference] with the operator's scheme; the
      result is the metadata of the controlled object. *)
  SetControllerReference : TrussiumRuntime → ObjectMeta → result ObjectMeta;
  (** Generated [DeepCopy] methods. *)
  DeepCopy_Affinity : Affinity → Affinity;
  DeepCopy_LabelSelector : LabelSelector → LabelSelector;
  DeepCopy_ResourceRequirements : ResourceRequirements → ResourceRequirements
}.

(** What [SetStatusCondition] makes of an existing condition [old]: every field
    comes from the new condition, except that the transition time is kept when
    the status is unchanged and defaults to the current time otherwise. *)
Definition updatedCondition (now : Time) (old new : Condition) : Condition :=
  mkCondition (c_Type old) (c_Status new) (c_ObservedGeneration new)
    (if decide (c_Status old = c_Status new) then c_LastTransitionTime old
     else if decide (c_LastTransitionTime new = 0%Z) then now
     else c_LastTransitionTime new)
    (c_Reason new) (c_Message new).

(** The condition that is appended when none of its type exists. *)
Definition addedCondition (now : Time) (new : Condition) : Condition :=
  mkCondition (c_Type new) (c_Status new) (c_ObservedGeneration new)
    (if decide (c_LastTransitionTime new = 0%Z) then now else c_LastTransitionTime new)
    (c_Reason new) (c_Message new).

Class K8sLaws `{K8sLib} : Prop := {
  (** NotFound errors become nil, all others are returned unmodified. *)
  ignore_not_found e :
    IgnoreNotFound e = if IsNotFound e then None else Some e;
  (** The first condition of the type, nil when there is none. *)
  find_status_condition cs t :
    FindStatusCondition cs t = head (filter (λ c, c_Type c = t) cs);
  set_status_condition_absent now cs new :
    FindStatusCondition cs (c_Type new) = None →
    SetStatusCondition now cs new = cs ++ [addedCondition now new];
  set_status_condition_present now pre old post new :
    FindStatusCondition pre (c_Type new) = None →
    c_Type old = c_Type new →
    SetStatusCondition now (pre ++ old :: post) new
    = pre ++ updatedCondition now old new :: post;
  (** Semantic equality of two statuses, whose fields are plain values. *)
  deep_equal_spec a b : DeepEqual a b = true ↔ a = b;
  (** The owner becomes the controller owner reference; nothing else changes. *)
  set_controller_reference_ok r m m' :
    SetControllerReference r m = Ok m' →
    ∃ refs, m' = meta_set_owners refs m ∧ GetControllerOf refs = Some (runtimeOwner r);
  (** Only one owner reference can be a controller; owners are compared by
      group, kind and name. *)
  set_controller_reference_conflict r m ref :
    GetControllerOf (om_OwnerReferences m) = Some ref →
    or_Kind ref ≠ "TrussiumRuntime" ∨ or_Name ref ≠ rt_Name r →
    ∃ e, SetControllerReference r m = Err e;
  (** An object of the owner's namespace that no other controller owns. *)
  set_controller_reference_free r m :
    om_Namespace m = rt_Namespace r →
    (∀ ref, GetControllerOf (om_OwnerReferences m) = Some ref →
            or_APIVersion ref = GroupVersion ∧ or_Kind ref = "TrussiumRuntime"
            ∧ or_Name ref = rt_Name r) →
    ∃ m', SetControllerReference r m = Ok m';
  (** Owner references are compared and replaced by value: setting the same
      controller again on the references it produced changes nothing. *)
  set_controller_reference_again r m m' r' n :
    SetControllerReference r m = Ok m' → runtimeOwner r' = runtimeOwner r →
    rt_Namespace r' = rt_Namespace r → om_Namespace n = om_Namespace m →
    om_OwnerReferences n = om_OwnerReferences m' → SetControllerReference r' n = Ok n;
  (** Of the owner only its namespace and the reference to it are used. *)
  set_controller_reference_owner r r' m :
    runtimeOwner r' = runtimeOwner r → rt_Namespace r' = rt_Namespace r →
    SetControllerReference r' m = SetControllerReference r m;
  deep_copy_affinity a : DeepCopy_Affinity a = a;
  deep_copy_label_selector l : DeepCopy_LabelSelector l = l;
  deep_copy_resources x : DeepCopy_ResourceRequirements x = x
}.

Section Conditions.
Context `{K8sLaws}.

(** ** Consequences for condition lists *)

Lemma find_nil t : FindStatusCondition [] t = None.
Proof. by rewrite find_status_condition. Qed.

Lemma find_cons c cs t :
  FindStatusCondition (c :: cs) t
  = if decide (c_Type c = t) then Some c else FindStatusCondition cs t.
Proof.
  rewrite !find_status_condition, filter_cons. by case_decide.
Qed.

Lemma find_app_none cs1 cs2 t :
  FindStatusCondition cs1 t = None →
  FindStatusCondition (cs1 ++ cs2) t = FindStatusCondition cs2 t.
Proof.
  induction cs1 as [|c cs1 IH]; intros Hn; [done|].
  simpl. rewrite find_cons in *. case_decide; [done|]. auto.
Qed.

Lemma find_app_ne cs1 c c' cs2 t :
  c_Type c = c_Type c' → c_Type c ≠ t →
  FindStatusCondition (cs1 ++ c :: cs2) t = FindStatusCondition (cs1 ++ c' :: cs2) t.
Proof.
  intros He Hn. induction cs1 as [|x cs1 IH]; simpl; rewrite !find_cons.
  - by rewrite !decide_False by congruence.
  - by rewrite IH.
Qed.

Lemma find_type cs t c : FindStatusCondition cs t = Some c → c_Type c = t.
Proof.
  rewrite find_status_condition. intros Hh.
  assert (c ∈ filter (λ c, c_Type c = t) cs) as Hin.
  { destruct (filter _ _); simplify_eq/=. by left. }
  by apply list_elem_of_filter in Hin as [? _].
Qed.

Lemma find_elem cs t c : FindStatusCondition cs t = Some c → c ∈ cs.
Proof.
  rewrite find_status_condition. intros Hh.
  assert (c ∈ filter (λ c, c_Type c = t) cs) as Hin.
  { destruct (filter _ _); simplify_eq/=. by left. }
  by apply list_elem_of_filter in Hin as [_ ?].
Qed.

Lemma find_none_types cs t : FindStatusCondition cs t = None ↔ t ∉ c_Type <$> cs.
Proof.
  induction cs as [|c cs IH]; [rewrite find_nil; split; [intros _; apply not_elem_of_nil|done]|].
  rewrite find_cons, fmap_cons, not_elem_of_cons. case_decide; [|rewrite IH]; intuition congruence.
Qed.

Lemma find_split cs t c :
  FindStatusCondition cs t = Some c →
  ∃ pre post, cs = pre ++ c :: post ∧ FindStatusCondition pre t = None.
Proof.
  induction cs as [|x cs IH]; [by rewrite find_nil|].
  rewrite find_cons. case_decide as Hx; intros Hf.
  - simplify_eq. exists [], cs. by rewrite find_nil.
  - destruct (IH Hf) as (pre & post & -> & Hp). exists (x :: pre), post.
    split; [done|]. by rewrite find_cons, decide_False.
Qed.

(** The new value of a condition after [SetStatusCondition]. *)
Definition resultCondition (now : Time) (cs : list Condition) (new : Condition) : Condition :=
  match FindStatusCondition cs (c_Type new) with
  | Some old => updatedCondition now old new
  | None => addedCondition now new
  end.

Lemma find_set now cs new t :
  FindStatusCondition (SetStatusCondition now cs new) t
  = if decide (c_Type new = t) then Some (resultCondition now cs new)
    else FindStatusCondition cs t.
Proof.
  unfold resultCondition.
  destruct (FindStatusCondition cs (c_Type new)) as [old|] eqn:Hf.
  - pose proof (find_type _ _ _ Hf) as Hty.
    destruct (find_split _ _ _ Hf) as (pre & post & -> & Hpre).
    rewrite set_status_condition_present by done. case_decide as Ht.
    + subst t. rewrite find_app_none by done. rewrite find_cons. simpl.
      by rewrite decide_True.
    + apply find_app_ne; [done|simpl; congruence].
  - rewrite set_status_condition_absent by done. case_decide as Ht.
    + subst t. rewrite find_app_none by done. rewrite find_cons.
      by rewrite decide_True.
    + destruct (FindStatusCondition cs t) as [c|] eqn:Hc.
      * destruct (find_split _ _ _ Hc) as (pre & post & -> & Hpre).
        rewrite <-app_assoc. simpl. rewrite !find_app_none by done.
        rewrite !find_cons. by rewrite decide_True by by eapply find_type.
      * rewrite find_app_none by done. rewrite find_cons, find_nil.
        by rewrite decide_False.
Qed.

(** The sequence of condition types changes only by appending a missing one. *)
Lemma set_types now cs new :
  c_Type <$> SetStatusCondition now cs new
  = (c_Type <$> cs) ++
    (if decide (c_Type new ∈ c_Type <$> cs) then [] else [c_Type new]).
Proof.
  destruct (FindStatusCondition cs (c_Type new)) as [old|] eqn:Hf.
  - pose proof (find_type _ _ _ Hf) as Hty.
    rewrite decide_True.
    2:{ rewrite <-Hty. apply list_elem_of_fmap_2. by eapply find_elem. }
    destruct (find_split _ _ _ Hf) as (pre & post & -> & Hpre).
    rewrite set_status_condition_present by done.
    by rewrite !fmap_app, !fmap_cons, app_nil_r.
  - rewrite decide_False by by apply find_none_types.
    rewrite set_status_condition_absent by done. by rewrite fmap_app.
Qed.

Lemma set_types_nodup now cs new :
  NoDup (c_Type <$> cs) → NoDup (c_Type <$> SetStatusCondition now cs new).
Proof.
  intros Hn. rewrite set_types. case_decide as Hc; [by rewrite app_nil_r|].
  apply NoDup_app. split; [done|]. split; [|apply NoDup_singleton].
  intros x Hx Hs. apply list_elem_of_singleton in Hs as ->. done.
Qed.

(** Condition lists with the same types, each at most once, are determined by
    what a lookup finds. *)
Lemma conditions_ext cs1 cs2 :
  NoDup (c_Type <$> cs1) → c_Type <$> cs1 = c_Type <$> cs2 →
  (∀ t, FindStatusCondition cs1 t = FindStatusCondition cs2 t) → cs1 = cs2.
Proof.
  revert cs2. induction cs1 as [|c1 cs1 IH]; intros [|c2 cs2] Hn Ht Hf; try done.
  rewrite !fmap_cons in *. simplify_eq. apply NoDup_cons in Hn as [Hni Hn].
  pose proof (Hf (c_Type c1)) as Hc. rewrite !find_cons in Hc.
  rewrite decide_True, decide_True in Hc by congruence. simplify_eq. f_equal.
  apply IH; [done|done|]. intros t. specialize (Hf t). rewrite !find_cons in Hf.
  case_decide; [|done]. subst t.
  assert (FindStatusCondition cs1 (c_Type c2) = None) as -> by by apply find_none_types.
  symmetry. apply find_none_types. congruence.
Qed.

Lemma find_nodup_elem cs c :
  NoDup (c_Type <$> cs) → c ∈ cs → FindStatusCondition cs (c_Type c) = Some c.
Proof.
  induction cs as [|x cs IH]; intros Hn Hin; [by apply not_elem_of_nil in Hin|].
  rewrite fmap_cons in Hn. apply NoDup_cons in Hn as [Hx Hn].
  rewrite find_cons. apply elem_of_cons in Hin as [->|Hin]; [by rewrite decide_True|].
  rewrite decide_False; [by apply IH|].
  intros Heq. apply Hx. rewrite Heq. by apply list_elem_of_fmap_2.
Qed.

End Conditions.
