(* ===== verification/Resources.v ===== *)
(** * Desired resources (internal/controller/runtime_resources.go)

    The pure builders that turn a [TrussiumRuntime] into the objects the
    operator manages for it: labels, image, configuration data and checksum,
    ConfigMap, ServiceAccount, Service, Deployment, PodDisruptionBudget,
    NetworkPolicy and HorizontalPodAutoscaler. *)

From S2P Require Import Prelude GoStd Sha256 KubeTypes ApiTypes KubeLib.

(** ** Constants *)

Definition runtimeContainerName : string := "trussium".
Definition runtimeHTTPPortName : string := "http".
Definition runtimeHTTPPort : Z := 9000.

Definition runtimeUserID : Z := 10001.
Definition runtimeGroupID : Z := 10001.
Definition terminationGraceMarginSeconds : Z := 6.
Definition defaultTerminationGraceSeconds : Z := 36.
Definition deploymentRevisionHistoryLimit : Z := 3.
Definition runtimeConfigChecksumAnnotation : string := "runtime.trussium.io/config-checksum".
Definition deploymentProgressDeadlineSeconds : Z := 600.
Definition topologyHostnameKey : string := "kubernetes.io/hostname".
Definition healthLivePath : string := "/health/live".
Definition healthReadyPath : string := "/health/ready".

Definition envEnvironment : string := "TRUSSIUM_ENVIRONMENT".
Definition envRuntimeHost : string := "TRUSSIUM_RUNTIME__HOST".
Definition envRuntimePort : string := "TRUSSIUM_RUNTIME__PORT".
Definition envRuntimeShutdownSeconds : string := "TRUSSIUM_RUNTIME__GRACEFUL_SHUTDOWN_SECONDS".
Definition envProviderName : string := "TRUSSIUM_PROVIDER__NAME".
Definition envProviderBaseURL : string := "TRUSSIUM_PROVIDER__BASE_URL".
Definition envProviderAPIKey : string := "TRUSSIUM_PROVIDER__API_KEY".
Definition envProviderRequestSeconds : string := "TRUSSIUM_TIMEOUTS__PROVIDER_REQUEST_SECONDS".
Definition envProviderStreamIdle : string := "TRUSSIUM_TIMEOUTS__STREAM_IDLE_SECONDS".
Definition defaultRuntimeEnvironment : string := "production".
Definition defaultRuntimeHost : string := "0.0.0.0".
Definition defaultRuntimeReplicaCount : Z := 1.
Definition defaultServicePort : Z := 9000.

Definition ProtocolTCP : string := "TCP".
Definition ServiceTypeClusterIP : string := "ClusterIP".

(** ** Labels, image and scalar defaults *)

Definition runtimeLabels (r : TrussiumRuntime) : gmap string string :=
  list_to_map
    [("app.kubernetes.io/name", runtimeContainerName);
     ("app.kubernetes.io/instance", rt_Name r);
     ("app.kubernetes.io/component", "runtime");
     ("app.kubernetes.io/managed-by", "trussium-operator")].

Definition runtimeSelectorLabels (r : TrussiumRuntime) : gmap string string :=
  list_to_map
    [("app.kubernetes.io/name", runtimeContainerName);
     ("app.kubernetes.io/instance", rt_Name r)].

Definition runtimeImage (i : RuntimeImageSpec) : string :=
  match img_Digest i with
  | Some d => img_Repository i +:+ "@" +:+ d
  | None =>
      match img_Tag i with
      | Some t => img_Repository i +:+ ":" +:+ t
      | None => img_Repository i
      end
  end.

Definition desiredReplicas (r : TrussiumRuntime) : Z :=
  match spec_Replicas (rt_Spec r) with
  | None => defaultRuntimeReplicaCount
  | Some n => n
  end.

Definition autoscalingEnabled (r : TrussiumRuntime) : bool :=
  match spec_Autoscaling (rt_Spec r) with
  | None => false
  | Some a => as_Enabled a
  end.

Definition desiredAutoscalingMinReplicas (r : TrussiumRuntime) : Z :=
  match spec_Autoscaling (rt_Spec r) with
  | None => 1
  | Some a => if (as_MinReplicas a =? 0)%Z then 1 else as_MinReplicas a
  end.

Definition desiredAutoscalingMaxReplicas (r : TrussiumRuntime) : Z :=
  match spec_Autoscaling (rt_Spec r) with
  | None => 10
  | Some a => if (as_MaxReplicas a =? 0)%Z then 10 else as_MaxReplicas a
  end.

Definition desiredTargetCPUUtilization (r : TrussiumRuntime) : Z :=
  match spec_Autoscaling (rt_Spec r) with
  | None => 80
  | Some a =>
      if (as_TargetCPUUtilizationPercentage a =? 0)%Z then 80
      else as_TargetCPUUtilizationPercentage a
  end.

Definition desiredServiceType (r : TrussiumRuntime) : string :=
  let t := rsvc_Type (spec_Service (rt_Spec r)) in
  if decide (t = EmptyString) then ServiceTypeClusterIP else t.

Definition desiredServicePort (r : TrussiumRuntime) : Z :=
  let p := rsvc_Port (spec_Service (rt_Spec r)) in
  if (p =? 0)%Z then defaultServicePort else p.

Definition terminationGracePeriodSeconds (r : TrussiumRuntime) : Z :=
  match spec_Runtime (rt_Spec r) with
  | None => defaultTerminationGraceSeconds
  | Some s =>
      match rs_ShutdownDrainTimeoutSeconds s with
      | None => defaultTerminationGraceSeconds
      | Some t => wrap64 (t + terminationGraceMarginSeconds)
      end
  end.

(** ** Configuration data and its checksum *)

Definition runtimeConfigData (r : TrussiumRuntime) : gmap string string :=
  let spec := rt_Spec r in
  let data : gmap string string :=
    list_to_map
      [(envEnvironment, defaultRuntimeEnvironment);
       (envRuntimeHost, defaultRuntimeHost);
       (envRuntimePort, Itoa runtimeHTTPPort);
       (envProviderName, prov_Type (spec_Provider spec))] in
  let data :=
    match prov_BaseURL (spec_Provider spec) with
    | Some u => <[envProviderBaseURL := u]> data
    | None => data
    end in
  match spec_Runtime spec with
  | None => data
  | Some s =>
      let data :=
        match rs_ProviderRequestTimeoutSeconds s with
        | Some t => <[envProviderRequestSeconds := Itoa t]> data
        | None => data
        end in
      let data :=
        match rs_StreamIdleTimeoutSeconds s with
        | Some t => <[envProviderStreamIdle := Itoa t]> data
        | None => data
        end in
      match rs_ShutdownDrainTimeoutSeconds s with
      | Some t => <[envRuntimeShutdownSeconds := Itoa t]> data
      | None => data
      end
  end.

(** One entry of the checksum payload: both strings carry their length. *)
Definition payloadEntry (key value : string) : string :=
  Itoa (strlen key) +:+ ":" +:+ key +:+ ":" +:+
  Itoa (strlen value) +:+ ":" +:+ value +:+ ";".

(** The loop over the sorted keys that fills the [strings.Builder]. *)
Definition checksumPayload (data : gmap string string) : string :=
  foldr (λ key rest, payloadEntry key (default EmptyString (data !! key)) +:+ rest)
    EmptyString (sortStrings (mapKeys data)).

Definition runtimeConfigChecksum (data : gmap string string) : string :=
  EncodeToString (Sum256 (checksumPayload data)).

(** ** Pod metadata and scheduling *)

(** The loop over the user's labels skips the keys the operator owns. *)
Definition mergedPodLabels (r : TrussiumRuntime) : gmap string string :=
  let labels := runtimeLabels r in
  match spec_PodMetadata (rt_Spec r) with
  | None => labels
  | Some pm =>
      foldl (λ acc kv, match acc !! kv.1 with
                       | Some _ => acc
                       | None => <[kv.1 := kv.2]> acc
                       end)
        labels (map_to_list (pm_Labels pm))
  end.

(** [maps.Copy] overwrites in the destination; the checksum is written last. *)
Definition podAnnotations (r : TrussiumRuntime) : gmap string string :=
  let annotations : gmap string string :=
    match spec_PodMetadata (rt_Spec r) with
    | None => ∅
    | Some pm => foldl (λ acc kv, <[kv.1 := kv.2]> acc) ∅ (map_to_list (pm_Annotations pm))
    end in
  <[runtimeConfigChecksumAnnotation := runtimeConfigChecksum (runtimeConfigData r)]> annotations.

Definition runtimeNodeSelector (r : TrussiumRuntime) : gmap string string :=
  match spec_Scheduling (rt_Spec r) with
  | None => ∅
  | Some s => sch_NodeSelector s
  end.

Definition runtimeTolerations (r : TrussiumRuntime) : list Toleration :=
  match spec_Scheduling (rt_Spec r) with
  | None => []
  | Some s => sch_Tolerations s
  end.

Definition imagePullSecrets (r : TrussiumRuntime) : list LocalObjectReference :=
  map (λ ref, mkLocalRef (nr_Name ref)) (spec_ImagePullSecrets (rt_Spec r)).

Definition providerCredentialEnv (r : TrussiumRuntime) : list EnvVar :=
  match prov_CredentialsSecretRef (spec_Provider (rt_Spec r)) with
  | None => []
  | Some ref =>
      [mkEnvVar envProviderAPIKey
         (Some (mkSecretKey (mkLocalRef (skr_Name ref)) (skr_Key ref)))]
  end.

Definition initialDeploymentReplicas (r : TrussiumRuntime) : Z :=
  if autoscalingEnabled r then desiredAutoscalingMinReplicas r else desiredReplicas r.

(** The HPA-selected scale when autoscaling is enabled, else the declared one. *)
Definition desiredReplicaCount (r : TrussiumRuntime) (deployment : option Deployment) : Z :=
  match autoscalingEnabled r, deployment with
  | true, Some d =>
      match ds_Replicas (d_Spec d) with
      | Some n => n
      | None => initialDeploymentReplicas r
      end
  | _, _ => initialDeploymentReplicas r
  end.

(** ** Builders *)

Definition objectMetaFor (r : TrussiumRuntime) : ObjectMeta :=
  newMeta (rt_Name r) (rt_Namespace r) (runtimeLabels r) ∅.

Definition buildConfigMap (r : TrussiumRuntime) : ConfigMap :=
  mkConfigMap (objectMetaFor r) (runtimeConfigData r) noRaw.

Definition buildServiceAccount (r : TrussiumRuntime) : ServiceAccount :=
  mkServiceAccount (objectMetaFor r) (Some false) (imagePullSecrets r) noRaw.

Definition buildService (r : TrussiumRuntime) : Service :=
  mkService (objectMetaFor r)
    (mkServiceSpec (desiredServiceType r) (runtimeSelectorLabels r)
       [mkServicePort runtimeHTTPPortName ProtocolTCP (desiredServicePort r)
          (FromString runtimeHTTPPortName)]
       noRaw)
    noRaw.

Definition buildPodDisruptionBudget (r : TrussiumRuntime) : PodDisruptionBudget :=
  mkPDB (objectMetaFor r)
    (mkPDBSpec (Some (FromInt32 1)) (Some (matchLabels (runtimeSelectorLabels r))))
    noRaw.

Definition buildHorizontalPodAutoscaler (r : TrussiumRuntime) : HorizontalPodAutoscaler :=
  mkHPA (objectMetaFor r)
    (mkHPASpec (mkScaleTarget "apps/v1" "Deployment" (rt_Name r))
       (Some (desiredAutoscalingMinReplicas r))
       (desiredAutoscalingMaxReplicas r)
       [mkMetric "Resource" "cpu" "Utilization" (Some (desiredTargetCPUUtilization r))])
    noRaw.

Definition httpProbe (path : string) (period timeout threshold : Z) : Probe :=
  mkProbe (mkHTTPGet path (FromString runtimeHTTPPortName)) period timeout threshold.

Section Builders.
Context `{K8sLib}.

Definition runtimeAffinity (r : TrussiumRuntime) : option Affinity :=
  match spec_Scheduling (rt_Spec r) with
  | None => None
  | Some s =>
      match sch_Affinity s with
      | None => None
      | Some a => Some (DeepCopy_Affinity a)
      end
  end.

Definition buildContainer (r : TrussiumRuntime) : Container := {|
  ct_Name := runtimeContainerName;
  ct_Image := runtimeImage (spec_Image (rt_Spec r));
  ct_ImagePullPolicy := img_PullPolicy (spec_Image (rt_Spec r));
  ct_SecurityContext :=
    Some (mkSecurityContext (Some false) (Some true) ["ALL"]);
  ct_Ports := [mkContainerPort runtimeHTTPPortName runtimeHTTPPort ProtocolTCP];
  ct_StartupProbe := Some (httpProbe healthLivePath 2 1 30);
  ct_LivenessProbe := Some (httpProbe healthLivePath 10 2 3);
  ct_ReadinessProbe := Some (httpProbe healthReadyPath 5 2 3);
  ct_EnvFrom := [mkEnvFrom (mkLocalRef (rt_Name r))];
  ct_Env := providerCredentialEnv r;
  ct_Resources := DeepCopy_ResourceRequirements (spec_Resources (rt_Spec r))
|}.

Definition buildPodSpec (r : TrussiumRuntime) : PodSpec := {|
  ps_ServiceAccountName := rt_Name r;
  ps_AutomountServiceAccountToken := Some false;
  ps_EnableServiceLinks := Some false;
  ps_TerminationGracePeriodSeconds := Some (terminationGracePeriodSeconds r);
  ps_SecurityContext :=
    Some (mkPodSecurityContext (Some true) (Some runtimeUserID) (Some runtimeGroupID)
            "RuntimeDefault");
  ps_ImagePullSecrets := imagePullSecrets r;
  ps_NodeSelector := runtimeNodeSelector r;
  ps_Tolerations := runtimeTolerations r;
  ps_Affinity := runtimeAffinity r;
  ps_TopologySpreadConstraints :=
    [mkSpread 1 topologyHostnameKey "ScheduleAnyway" (matchLabels (runtimeSelectorLabels r))];
  ps_Containers := [buildContainer r]
|}.

Definition buildDeployment (r : TrussiumRuntime) : Deployment := {|
  d_Meta := objectMetaFor r;
  d_Spec := {|
    ds_Replicas := Some (initialDeploymentReplicas r);
    ds_ProgressDeadlineSeconds := Some deploymentProgressDeadlineSeconds;
    ds_Selector := matchLabels (runtimeSelectorLabels r);
    ds_RevisionHistoryLimit := Some deploymentRevisionHistoryLimit;
    ds_Strategy :=
      mkStrategy "RollingUpdate" (Some (mkRollingUpdate (FromInt32 0) (FromInt32 1)));
    ds_Template :=
      mkTemplate (newMeta EmptyString EmptyString (mergedPodLabels r) (podAnnotations r))
        (buildPodSpec r)
  |};
  d_Status := zeroDeploymentStatus
|}.

(** One ingress rule of the policy: the client's selectors, TCP, one port. *)
Definition buildIngressRule (ingress : RuntimeNetworkPolicyIngressRule) : NetworkPolicyIngressRule :=
  let peer :=
    mkPeer (Some (DeepCopy_LabelSelector (ri_NamespaceSelector ingress)))
      (match ri_PodSelector ingress with
       | Some s => Some (DeepCopy_LabelSelector s)
       | None => None
       end) in
  mkIngressRule [peer] [mkPolicyPort (Some ProtocolTCP) (Some (FromInt32 runtimeHTTPPort))].

(** [spec] is [runtimeResource.Spec.NetworkPolicy], which the caller has
    checked not to be nil. *)
Definition buildNetworkPolicy (r : TrussiumRuntime) (spec : RuntimeNetworkPolicySpec) : NetworkPolicy :=
  mkNetworkPolicy (objectMetaFor r)
    (mkPolicySpec (matchLabels (runtimeSelectorLabels r)) ["Ingress"]
       (map buildIngressRule (rnp_Ingress spec)))
    noRaw.

End Builders.
