(* ===== verification/Effects.v ===== *)
(** * Effects of the reconciler

    The reconciler acts through the controller-runtime client, the Kubernetes
    event recorder, the Prometheus collectors and the clock.  Each call is an
    operation [Op]; a handler is a [Prog], a finite tree of operations.  [exec]
    gives the traces of a program for every possible answer of the environment;
    [run] executes a program against one environment.  Log lines are not
    modelled. *)

From S2P Require Import Prelude KubeTypes ApiTypes.

(** ** Objects by kind *)

Inductive Kind :=
| KTrussiumRuntime | KSecret | KConfigMap | KServiceAccount | KService
| KDeployment | KPodDisruptionBudget | KNetworkPolicy | KHorizontalPodAutoscaler.

#[export] Instance Kind_eq_dec : EqDecision Kind.
Proof. solve_decision. Defined.

Definition obj (k : Kind) : Type :=
  match k with
  | KTrussiumRuntime => TrussiumRuntime
  | KSecret => Secret
  | KConfigMap => ConfigMap
  | KServiceAccount => ServiceAccount
  | KService => Service
  | KDeployment => Deployment
  | KPodDisruptionBudget => PodDisruptionBudget
  | KNetworkPolicy => NetworkPolicy
  | KHorizontalPodAutoscaler => HorizontalPodAutoscaler
  end.

(** The metadata half of the [client.Object] interface. *)
Definition obj_meta (k : Kind) : obj k → ObjectMeta :=
  match k with
  | KTrussiumRuntime => rt_Meta
  | KSecret => sec_Meta
  | KConfigMap => cm_Meta
  | KServiceAccount => sa_Meta
  | KService => svc_Meta
  | KDeployment => d_Meta
  | KPodDisruptionBudget => pdb_Meta
  | KNetworkPolicy => np_Meta
  | KHorizontalPodAutoscaler => hpa_Meta
  end.

Definition obj_key (k : Kind) (o : obj k) : NamespacedName := meta_key (obj_meta k o).

(** ** Operations *)

Inductive EventType := EventTypeNormal | EventTypeWarning.

(** One call of [Recorder.Eventf], with its note formatted. *)
Record Event := mkEvent {
  e_Regarding : TrussiumRuntime;
  e_Type : EventType;
  e_Reason : string;
  e_Action : string;
  e_Note : string
}.

(** The label of the reconciliation metrics. *)
Inductive MetricResult := MetricSuccess | MetricError.

#[export] Instance EventType_eq_dec : EqDecision EventType.
Proof. solve_decision. Defined.
#[export] Instance MetricResult_eq_dec : EqDecision MetricResult.
Proof. solve_decision. Defined.

Inductive Op :=
(** [r.Get]. *)
| OpGet (k : Kind) (key : NamespacedName)
(** [r.List] in a namespace. *)
| OpListRuntimes (namespace : string)
(** [controllerutil.CreateOrUpdate] with its initial object and its mutate
    function. *)
| OpCreateOrUpdate (k : Kind) (current : obj k) (mutate : obj k → result (obj k))
(** [r.Delete]. *)
| OpDelete (k : Kind) (key : NamespacedName)
(** [r.Status().Update]. *)
| OpStatusUpdate (r : TrussiumRuntime)
(** [Recorder.Eventf]. *)
| OpEventf (e : Event)
(** [runtimeReconciliationsTotal.WithLabelValues(l).Inc()]. *)
| OpCountReconciliation (l : MetricResult)
(** [runtimeReconciliationDurationSeconds.WithLabelValues(l).Observe(d)]. *)
| OpObserveDuration (l : MetricResult) (d : Z)
(** [time.Now()]. *)
| OpNow.

(** What each operation returns; [None] is a nil error.  A status update also
    writes the server's version of the object back. *)
Definition Resp (o : Op) : Type :=
  match o with
  | OpGet k _ => result (obj k)
  | OpListRuntimes _ => result (list TrussiumRuntime)
  | OpCreateOrUpdate _ _ _ => option GoError
  | OpDelete _ _ => option GoError
  | OpStatusUpdate _ => result TrussiumRuntime
  | OpEventf _ => unit
  | OpCountReconciliation _ => unit
  | OpObserveDuration _ _ => unit
  | OpNow => Time
  end.

(** ** Programs *)

Inductive Prog (A : Type) : Type :=
| Ret (a : A)
| Do (o : Op) (k : Resp o → Prog A).
Arguments Ret {A} a.
Arguments Do {A} o k.

Fixpoint prog_bind {A B} (f : A → Prog B) (p : Prog A) : Prog B :=
  match p with
  | Ret a => f a
  | Do o k => Do o (λ r, prog_bind f (k r))
  end.

#[export] Instance Prog_ret : MRet Prog := @Ret.
#[export] Instance Prog_bind : MBind Prog := @prog_bind.

Definition perform (o : Op) : Prog (Resp o) := Do o Ret.

(** ** Traces *)

Record Call := mkCall { call_op : Op; call_resp : Resp call_op }.

(** [exec p tr a]: with the answers recorded in [tr], [p] performs exactly the
    operations of [tr], in this order, and returns [a]. *)
Fixpoint exec {A} (p : Prog A) (tr : list Call) (a : A) : Prop :=
  match p with
  | Ret a' => tr = [] ∧ a = a'
  | Do o k => ∃ r tr', tr = mkCall o r :: tr' ∧ exec (k r) tr' a
  end.

(** ** Running against an environment *)

(** An environment answers every operation and changes its own state. *)
Class Environment (W : Type) := handle : ∀ o : Op, W → Resp o * W.

Fixpoint run {W} `{Environment W} {A} (p : Prog A) (w : W) : A * W :=
  match p with
  | Ret a => (a, w)
  | Do o k => let '(r, w') := handle o w in run (k r) w'
  end.

(** The trace and result of a program for fixed answers. *)
Fixpoint replay {A} (answer : ∀ o : Op, Resp o) (p : Prog A) : list Call * A :=
  match p with
  | Ret a => ([], a)
  | Do o k =>
      let '(tr, a) := replay answer (k (answer o)) in (mkCall o (answer o) :: tr, a)
  end.

(** ** Lemmas *)

Lemma exec_bind {A B} (p : Prog A) (f : A → Prog B) tr b :
  exec (p ≫= f) tr b ↔
  ∃ tr1 tr2 a, tr = tr1 ++ tr2 ∧ exec p tr1 a ∧ exec (f a) tr2 b.
Proof.
  revert tr. induction p as [a|o k IH]; intros tr; simpl.
  - split.
    + intros Hx. by exists [], tr, a.
    + intros (tr1 & tr2 & a' & -> & [-> ->] & Hx). done.
  - split.
    + intros (r & tr' & -> & Hx). apply IH in Hx as (tr1 & tr2 & a & -> & Hp & Hf).
      exists (mkCall o r :: tr1), tr2, a. split; [done|]. split; [|done]. by exists r, tr1.
    + intros (tr1 & tr2 & a & -> & (r & tr1' & -> & Hp) & Hf).
      exists r, (tr1' ++ tr2). split; [done|]. apply IH. by exists tr1', tr2, a.
Qed.

Lemma exec_ret {A} (a a' : A) tr : exec (mret a) tr a' ↔ tr = [] ∧ a' = a.
Proof. done. Qed.

Lemma exec_perform o tr r : exec (perform o) tr r ↔ tr = [mkCall o r].
Proof.
  simpl. split.
  - by intros (r' & tr' & -> & -> & ->).
  - intros ->. by exists r, [].
Qed.

(** Every run of a program against an environment is one of its traces. *)
Lemma run_exec `{Environment W} {A} (p : Prog A) (w : W) :
  ∃ tr, exec p tr (run p w).1.
Proof.
  revert w. induction p as [a|o k IH]; intros w; simpl.
  - by exists [].
  - destruct (handle o w) as [r w']. destruct (IH r w') as [tr Htr].
    exists (mkCall o r :: tr), r, tr. done.
Qed.

Lemma replay_answers {A} answer (p : Prog A) :
  Forall (λ c, call_resp c = answer (call_op c)) (replay answer p).1.
Proof.
  induction p as [a|o k IH]; simpl; [constructor|].
  specialize (IH (answer o)). destruct (replay answer (k (answer o))) as [tr a].
  by constructor.
Qed.

Lemma exec_replay {A} answer (p : Prog A) : exec p (replay answer p).1 (replay answer p).2.
Proof.
  induction p as [a|o k IH]; simpl; [done|].
  specialize (IH (answer o)). destruct (replay answer (k (answer o))) as [tr a].
  by exists (answer o), tr.
Qed.

Lemma run_bind `{Environment W} {A B} (p : Prog A) (f : A → Prog B) (w : W) :
  run (p ≫= f) w = let '(a, w') := run p w in run (f a) w'.
Proof.
  revert w. induction p as [a|o k IH]; intros w; simpl; [done|].
  destruct (handle o w) as [r w']. apply IH.
Qed.

(** Rewrites every [exec] hypothesis into equations on its trace. *)
Ltac exec_inv :=
  repeat match goal with
  | H : exec (_ ≫= _) _ _ |- _ =>
      apply exec_bind in H as (? & ? & ? & -> & ? & ?)
  | H : exec (perform _) _ _ |- _ => apply exec_perform in H; subst
  | H : exec (mret _) _ _ |- _ => apply exec_ret in H as [-> ->]
  | H : exec (Ret _) _ _ |- _ => destruct H as [-> ->]
  end.
