(* ===== verification/Status.v ===== *)
(** * Observed status (internal/controller/runtime_status.go, pure part)

    From the observed Deployment and Service and the outcome of the Secret
    check, the functions of this file compute the status the operator reports.
    The clock is explicit: [clk i] is the reading of the clock at the [i]-th
    call of [meta.SetStatusCondition] in one reconciliation (0 to 4 in
    [buildBaseRuntimeStatus], 5 in [applyUpgradeStatus], 6 to 8 in
    [buildReconciliationFailureStatus]). *)

From S2P Require Import Prelude GoStd KubeTypes ApiTypes KubeLib Resources.

(** ** Constants *)

Definition conditionTypeConfigurationValid : string := "ConfigurationValid".
Definition conditionTypeProgressing : string := "Progressing".
Definition conditionTypeAvailable : string := "Available".
Definition conditionTypeReady : string := "Ready".
Definition conditionTypeDegraded : string := "Degraded".
Definition conditionTypeUpgrading : string := "Upgrading".

Definition reasonReferencesResolved : string := "ReferencesResolved".
Definition reasonSecretNotFound : string := "SecretNotFound".
Definition reasonReferenceCheckFailed : string := "ReferenceCheckFailed".
Definition reasonDeploymentProgressing : string := "DeploymentProgressing".
Definition reasonDeploymentGenerationPending : string := "DeploymentGenerationPending".
Definition reasonReconciliationComplete : string := "ReconciliationComplete".
Definition reasonConfigurationInvalid : string := "ConfigurationInvalid".
Definition reasonDeploymentFailed : string := "DeploymentFailed".
Definition reasonScaledToZero : string := "ScaledToZero".
Definition reasonRuntimeAvailable : string := "RuntimeAvailable".
Definition reasonRuntimeUnavailable : string := "RuntimeUnavailable".
Definition reasonRuntimeReady : string := "RuntimeReady".
Definition reasonRuntimeNotReady : string := "RuntimeNotReady".
Definition reasonAsExpected : string := "AsExpected".
Definition reasonProgressDeadlineExceeded : string := "ProgressDeadlineExceeded".
Definition reasonReplicaFailure : string := "ReplicaFailure".
Definition reasonReconciliationFailed : string := "ReconciliationFailed".
Definition reasonNoUpgrade : string := "NoUpgrade".
Definition reasonUpgradeInProgress : string := "UpgradeInProgress".
Definition reasonUpgradeComplete : string := "UpgradeComplete".
Definition reasonUpgradeFailed : string := "UpgradeFailed".

(** Condition types of a Deployment (apps/v1). *)
Definition DeploymentProgressing : string := "Progressing".
Definition DeploymentReplicaFailure : string := "ReplicaFailure".

Record referenceValidationResult := mkValidation {
  v_Valid : bool;
  v_Reason : string;
  v_Message : string;
  v_Err : option GoError
}.

Record runtimeObservation := mkObservation {
  obs_Deployment : option Deployment;
  obs_Service : option Service
}.

Definition validReferenceValidation : referenceValidationResult :=
  mkValidation true reasonReferencesResolved "All referenced Secrets are available." None.

(** ** References *)

(** The set of referenced names, collected in a map and sorted. *)
Definition referencedSecretNames (r : TrussiumRuntime) : list string :=
  let uniqueNames : gmap string () :=
    match prov_CredentialsSecretRef (spec_Provider (rt_Spec r)) with
    | Some ref => {[ skr_Name ref := tt ]}
    | None => ∅
    end in
  let uniqueNames :=
    foldl (λ acc ref, <[nr_Name ref := tt]> acc) uniqueNames
      (spec_ImagePullSecrets (rt_Spec r)) in
  sortStrings (mapKeys uniqueNames).

Definition runtimeReferencesSecret (r : TrussiumRuntime) (secretName : string) : bool :=
  slicesContains (referencedSecretNames r) secretName.

(** ** Rollout observation *)

Inductive deploymentRolloutState :=
| deploymentRolloutProgressing
| deploymentRolloutComplete
| deploymentRolloutFailed.

Definition isProgressDeadlineExceeded (c : DeploymentCondition) : bool :=
  bool_decide (dc_Type c = DeploymentProgressing) &&
  bool_decide (dc_Status c = ConditionFalse) &&
  bool_decide (dc_Reason c = reasonProgressDeadlineExceeded).

Definition isReplicaFailure (c : DeploymentCondition) : bool :=
  bool_decide (dc_Type c = DeploymentReplicaFailure) &&
  bool_decide (dc_Status c = ConditionTrue).

Definition deploymentHasRolloutFailure (d : Deployment) : bool :=
  existsb (λ c, isProgressDeadlineExceeded c || isReplicaFailure c)
    (dstat_Conditions (d_Status d)).

Definition observeDeploymentRollout (r : TrussiumRuntime) (deployment : option Deployment)
    : deploymentRolloutState :=
  match deployment with
  | None => deploymentRolloutProgressing
  | Some d =>
      let s := d_Status d in
      if deploymentHasRolloutFailure d then deploymentRolloutFailed
      else if (dstat_ObservedGeneration s <? om_Generation (d_Meta d))%Z
      then deploymentRolloutProgressing
      else
        let desired := desiredReplicaCount r deployment in
        if (desired =? 0)%Z then
          if (negb (dstat_Replicas s =? 0) || negb (dstat_UpdatedReplicas s =? 0)
              || negb (dstat_ReadyReplicas s =? 0) || negb (dstat_AvailableReplicas s =? 0)
              || negb (dstat_UnavailableReplicas s =? 0))%Z
          then deploymentRolloutProgressing
          else deploymentRolloutComplete
        else if negb (dstat_UpdatedReplicas s =? desired)%Z then deploymentRolloutProgressing
        else if negb (dstat_Replicas s =? desired)%Z then deploymentRolloutProgressing
        else if negb (dstat_ReadyReplicas s =? desired)%Z then deploymentRolloutProgressing
        else if negb (dstat_AvailableReplicas s =? desired)%Z then deploymentRolloutProgressing
        else if negb (dstat_UnavailableReplicas s =? 0)%Z then deploymentRolloutProgressing
        else deploymentRolloutComplete
  end.

(** The first condition of the list that satisfies [p], its message replaced
    by [fallback] when empty. *)
Fixpoint failureMessage (p : DeploymentCondition → bool) (fallback : string)
    (cs : list DeploymentCondition) : option string :=
  match cs with
  | [] => None
  | c :: cs =>
      if p c then
        Some (if decide (dc_Message c = EmptyString) then fallback else dc_Message c)
      else failureMessage p fallback cs
  end.

(** Reason and message of a failed rollout; [None] is the Go result
    with [false] last. *)
Definition deploymentFailure (d : Deployment) : option (string * string) :=
  match failureMessage isProgressDeadlineExceeded
          "The runtime Deployment exceeded its progress deadline."
          (dstat_Conditions (d_Status d)) with
  | Some m => Some (reasonProgressDeadlineExceeded, m)
  | None =>
      match failureMessage isReplicaFailure
              "The runtime Deployment reported a replica failure."
              (dstat_Conditions (d_Status d)) with
      | Some m => Some (reasonReplicaFailure, m)
      | None => None
      end
  end.

Fixpoint containerImage (name : string) (cs : list Container) : option string :=
  match cs with
  | [] => None
  | c :: cs => if decide (ct_Name c = name) then Some (ct_Image c) else containerImage name cs
  end.

Definition deploymentCurrentImage (deployment : option Deployment) : string :=
  match deployment with
  | None => EmptyString
  | Some d =>
      let containers := ps_Containers (pt_Spec (ds_Template (d_Spec d))) in
      match containerImage runtimeContainerName containers with
      | Some i => i
      | None => match containers with [] => EmptyString | c :: _ => ct_Image c end
      end
  end.

Definition runtimeServiceEndpoint (service : option Service) : string :=
  match service with
  | None => EmptyString
  | Some s =>
      match ss_Ports (svc_Spec s) with
      | [] => EmptyString
      | p :: _ =>
          "http://" +:+ om_Name (svc_Meta s) +:+ "." +:+ om_Namespace (svc_Meta s) +:+
          ".svc.cluster.local:" +:+ Itoa (sp_Port p)
      end
  end.

Section Status.
Context `{K8sLib}.

(** ** Conditions *)

Definition setRuntimeCondition (now : Time) (observedGeneration : Z) (conditionType : string)
    (conditionStatus : ConditionStatus) (reason message : string)
    (status : TrussiumRuntimeStatus) : TrussiumRuntimeStatus :=
  st_set_conditions
    (SetStatusCondition now (st_Conditions status)
       (mkCondition conditionType conditionStatus observedGeneration 0%Z reason message))
    status.

Definition runtimeCondition (status : TrussiumRuntimeStatus) (conditionType : string)
    : option Condition :=
  FindStatusCondition (st_Conditions status) conditionType.

Definition conditionChanged (previousStatus currentStatus : TrussiumRuntimeStatus)
    (conditionType : string) : bool :=
  match runtimeCondition currentStatus conditionType with
  | None => false
  | Some cur =>
      match runtimeCondition previousStatus conditionType with
      | None => true
      | Some prev =>
          negb (bool_decide (c_Status prev = c_Status cur)) ||
          negb (bool_decide (c_Reason prev = c_Reason cur))
      end
  end.

Definition setAvailabilityCondition (now : Time) (observedGeneration : Z)
    (desiredReplicaCount : Z) (status : TrussiumRuntimeStatus) : TrussiumRuntimeStatus :=
  if (desiredReplicaCount =? 0)%Z then
    setRuntimeCondition now observedGeneration conditionTypeAvailable ConditionFalse
      reasonScaledToZero "No runtime replicas are requested." status
  else if (0 <? st_AvailableReplicas status)%Z then
    setRuntimeCondition now observedGeneration conditionTypeAvailable ConditionTrue
      reasonRuntimeAvailable
      (Itoa (st_AvailableReplicas status) +:+ " runtime replica(s) are available.") status
  else
    setRuntimeCondition now observedGeneration conditionTypeAvailable ConditionFalse
      reasonRuntimeUnavailable "No runtime replicas are currently available." status.

(** [slices.Clone] of the conditions: the copy is an equal value. *)
Definition copyRuntimeStatus (status : TrussiumRuntimeStatus) : TrussiumRuntimeStatus :=
  st_set_conditions (st_Conditions status) status.

(** ** Base status *)

Definition baseFields (r : TrussiumRuntime) (obs : runtimeObservation) : TrussiumRuntimeStatus :=
  let status := copyRuntimeStatus (rt_Status r) in
  mkStatus (rt_Generation r)
    (match obs_Deployment obs with
     | Some d => dstat_ReadyReplicas (d_Status d) | None => 0 end)
    (match obs_Deployment obs with
     | Some d => dstat_AvailableReplicas (d_Status d) | None => 0 end)
    (runtimeImage (spec_Image (rt_Spec r)))
    (deploymentCurrentImage (obs_Deployment obs))
    (st_LastSuccessfulImage status)
    (runtimeServiceEndpoint (obs_Service obs))
    (st_Conditions status).

Definition noDegradedMessage : string := "No degraded runtime condition has been observed.".

Definition buildBaseRuntimeStatus (clk : nat → Time) (r : TrussiumRuntime)
    (obs : runtimeObservation) (validation : referenceValidationResult)
    : TrussiumRuntimeStatus :=
  let gen := rt_Generation r in
  let status := baseFields r obs in
  if negb (v_Valid validation) then
    let status := setRuntimeCondition (clk 0) gen conditionTypeConfigurationValid
      ConditionFalse (v_Reason validation) (v_Message validation) status in
    let status := setRuntimeCondition (clk 1) gen conditionTypeProgressing
      ConditionFalse reasonConfigurationInvalid
      "Runtime reconciliation is blocked by invalid configuration references." status in
    let status := setAvailabilityCondition (clk 2) gen (desiredReplicas r) status in
    let status := setRuntimeCondition (clk 3) gen conditionTypeReady
      ConditionFalse reasonConfigurationInvalid
      "The runtime is not ready because configuration references are invalid." status in
    setRuntimeCondition (clk 4) gen conditionTypeDegraded
      ConditionTrue reasonConfigurationInvalid (v_Message validation) status
  else
  let status := setRuntimeCondition (clk 0) gen conditionTypeConfigurationValid
    ConditionTrue reasonReferencesResolved "All referenced Secrets are available." status in
  let deployment := obs_Deployment obs in
  let desired := desiredReplicaCount r deployment in
  match deployment with
  | None =>
      let status := setRuntimeCondition (clk 1) gen conditionTypeProgressing
        ConditionTrue reasonDeploymentProgressing
        "The runtime Deployment is being created." status in
      let status := setAvailabilityCondition (clk 2) gen desired status in
      let status := setRuntimeCondition (clk 3) gen conditionTypeReady
        ConditionFalse reasonRuntimeNotReady
        "The runtime Deployment is not yet available." status in
      setRuntimeCondition (clk 4) gen conditionTypeDegraded
        ConditionFalse reasonAsExpected noDegradedMessage status
  | Some d =>
      let deploymentObserved :=
        (om_Generation (d_Meta d) <=? dstat_ObservedGeneration (d_Status d))%Z in
      if (desired =? 0)%Z then
        if deploymentObserved && (st_ReadyReplicas status =? 0)%Z
           && (st_AvailableReplicas status =? 0)%Z then
          let status := setRuntimeCondition (clk 1) gen conditionTypeProgressing
            ConditionFalse reasonScaledToZero
            "The runtime has reached the requested scaled-to-zero state." status in
          let status := setRuntimeCondition (clk 2) gen conditionTypeAvailable
            ConditionFalse reasonScaledToZero
            "No runtime replicas are requested." status in
          let status := setRuntimeCondition (clk 3) gen conditionTypeReady
            ConditionTrue reasonScaledToZero
            "The runtime has reached the requested scaled-to-zero state." status in
          setRuntimeCondition (clk 4) gen conditionTypeDegraded
            ConditionFalse reasonAsExpected noDegradedMessage status
        else
          let status := setRuntimeCondition (clk 1) gen conditionTypeProgressing
            ConditionTrue reasonDeploymentGenerationPending
            "The Deployment is converging toward the scaled-to-zero state." status in
          let status := setRuntimeCondition (clk 2) gen conditionTypeAvailable
            ConditionFalse reasonRuntimeUnavailable
            "The runtime is not currently available." status in
          let status := setRuntimeCondition (clk 3) gen conditionTypeReady
            ConditionFalse reasonRuntimeNotReady
            "The runtime has not yet reached the scaled-to-zero state." status in
          setRuntimeCondition (clk 4) gen conditionTypeDegraded
            ConditionFalse reasonAsExpected noDegradedMessage status
      else
      match deploymentFailure d with
      | Some (failureReason, failureMsg) =>
          let status := setRuntimeCondition (clk 1) gen conditionTypeProgressing
            ConditionFalse reasonDeploymentFailed failureMsg status in
          let status := setAvailabilityCondition (clk 2) gen desired status in
          let status := setRuntimeCondition (clk 3) gen conditionTypeReady
            ConditionFalse reasonDeploymentFailed failureMsg status in
          setRuntimeCondition (clk 4) gen conditionTypeDegraded
            ConditionTrue failureReason failureMsg status
      | None =>
          let runtimeReady := deploymentObserved
            && (st_ReadyReplicas status =? desired)%Z
            && (st_AvailableReplicas status =? desired)%Z in
          if runtimeReady then
            let status := setRuntimeCondition (clk 1) gen conditionTypeProgressing
              ConditionFalse reasonReconciliationComplete
              "The runtime Deployment has reached the desired state." status in
            let status := setRuntimeCondition (clk 2) gen conditionTypeAvailable
              ConditionTrue reasonRuntimeAvailable
              (Itoa (st_AvailableReplicas status) +:+ " runtime replica(s) are available.")
              status in
            let status := setRuntimeCondition (clk 3) gen conditionTypeReady
              ConditionTrue reasonRuntimeReady
              "All requested runtime replicas are ready and available." status in
            setRuntimeCondition (clk 4) gen conditionTypeDegraded
              ConditionFalse reasonAsExpected noDegradedMessage status
          else
            let progressReason :=
              if deploymentObserved then reasonDeploymentProgressing
              else reasonDeploymentGenerationPending in
            let progressMessage :=
              if deploymentObserved then
                "The runtime is progressing toward " +:+ Itoa desired +:+ " ready replica(s)."
              else
                "The Deployment controller has not yet observed the current Deployment generation." in
            let status := setRuntimeCondition (clk 1) gen conditionTypeProgressing
              ConditionTrue progressReason progressMessage status in
            let status := setAvailabilityCondition (clk 2) gen desired status in
            let status := setRuntimeCondition (clk 3) gen conditionTypeReady
              ConditionFalse reasonRuntimeNotReady
              (Itoa (st_ReadyReplicas status) +:+ " of " +:+ Itoa desired +:+
               " requested runtime replica(s) are ready.") status in
            setRuntimeCondition (clk 4) gen conditionTypeDegraded
              ConditionFalse reasonAsExpected noDegradedMessage status
      end
  end.

(** ** Upgrade status *)

Definition applyUpgradeStatus (now : Time) (r : TrussiumRuntime)
    (deployment : option Deployment) (status : TrussiumRuntimeStatus)
    : TrussiumRuntimeStatus :=
  let gen := rt_Generation r in
  let desiredImage := runtimeImage (spec_Image (rt_Spec r)) in
  let status := st_set_desired_image desiredImage status in
  let rolloutState := observeDeploymentRollout r deployment in
  let lastSuccessfulImage := st_LastSuccessfulImage status in
  let setUpgrading s reason message status :=
    setRuntimeCondition now gen conditionTypeUpgrading s reason message status in
  if decide (lastSuccessfulImage = EmptyString) then
    let status :=
      match rolloutState with
      | deploymentRolloutComplete =>
          if decide (deploymentCurrentImage deployment = desiredImage)
          then st_set_last_successful desiredImage status
          else status
      | _ => status
      end in
    setUpgrading ConditionFalse reasonNoUpgrade
      "No runtime image upgrade is in progress." status
  else if decide (desiredImage = lastSuccessfulImage) then
    match runtimeCondition status conditionTypeUpgrading with
    | None =>
        setUpgrading ConditionFalse reasonNoUpgrade
          "No runtime image upgrade is in progress." status
    | Some _ => status
    end
  else
    match rolloutState with
    | deploymentRolloutFailed =>
        setUpgrading ConditionFalse reasonUpgradeFailed
          ("Runtime image upgrade from " +:+ lastSuccessfulImage +:+ " to " +:+
           desiredImage +:+ " failed.") status
    | deploymentRolloutComplete =>
        if decide (deploymentCurrentImage deployment = desiredImage) then
          setUpgrading ConditionFalse reasonUpgradeComplete
            ("Runtime image upgrade from " +:+ lastSuccessfulImage +:+ " to " +:+
             desiredImage +:+ " completed.")
            (st_set_last_successful desiredImage status)
        else
          setUpgrading ConditionTrue reasonUpgradeInProgress
            ("Runtime image is transitioning from " +:+ lastSuccessfulImage +:+ " to " +:+
             desiredImage +:+ ".") status
    | deploymentRolloutProgressing =>
        setUpgrading ConditionTrue reasonUpgradeInProgress
          ("Runtime image is upgrading from " +:+ lastSuccessfulImage +:+ " to " +:+
           desiredImage +:+ ".") status
    end.

Definition buildRuntimeStatus (clk : nat → Time) (r : TrussiumRuntime)
    (obs : runtimeObservation) (validation : referenceValidationResult)
    : TrussiumRuntimeStatus :=
  applyUpgradeStatus (clk 5) r (obs_Deployment obs)
    (buildBaseRuntimeStatus clk r obs validation).

Definition buildReconciliationFailureStatus (clk : nat → Time) (r : TrussiumRuntime)
    (obs : runtimeObservation) (reconciliationError : GoError) : TrussiumRuntimeStatus :=
  let gen := rt_Generation r in
  let status := buildRuntimeStatus clk r obs validReferenceValidation in
  let message := "Runtime reconciliation failed: " +:+ errorText reconciliationError in
  let status := setRuntimeCondition (clk 6) gen conditionTypeProgressing
    ConditionFalse reasonReconciliationFailed message status in
  let status := setRuntimeCondition (clk 7) gen conditionTypeReady
    ConditionFalse reasonReconciliationFailed message status in
  setRuntimeCondition (clk 8) gen conditionTypeDegraded
    ConditionTrue reasonReconciliationFailed message status.

(** ** Transition times *)

Definition preserveTransitionTime (currentStatus : TrussiumRuntimeStatus)
    (desired : Condition) : Condition :=
  match runtimeCondition currentStatus (c_Type desired) with
  | None => desired
  | Some cur =>
      if decide (c_Status cur = c_Status desired) then
        mkCondition (c_Type desired) (c_Status desired) (c_ObservedGeneration desired)
          (c_LastTransitionTime cur) (c_Reason desired) (c_Message desired)
      else desired
  end.

Definition preserveRuntimeConditionTransitionTimes
    (currentStatus desiredStatus : TrussiumRuntimeStatus) : TrussiumRuntimeStatus :=
  let normalizedStatus := copyRuntimeStatus desiredStatus in
  st_set_conditions
    (map (preserveTransitionTime currentStatus) (st_Conditions normalizedStatus))
    normalizedStatus.

End Status.
