(* ===== verification/Events.v ===== *)
(** * Kubernetes Events (internal/controller/runtime_events.go)

    The handlers that turn a change of the reported conditions into Events.
    They only call the recorder, so each one is a [Prog unit] whose operations
    are [OpEventf]. *)

From S2P Require Import Prelude GoStd KubeTypes ApiTypes KubeLib Resources Effects Status.

Definition eventReasonRuntimeProgressing : string := "RuntimeProgressing".
Definition eventReasonRuntimeReady : string := "RuntimeReady".
Definition eventReasonRuntimeRecovered : string := "RuntimeRecovered".
Definition eventReasonRuntimeScaledToZero : string := "RuntimeScaledToZero".
Definition eventReasonConfigurationInvalid : string := "ConfigurationInvalid".
Definition eventReasonReconciliationFailed : string := "ReconciliationFailed".
Definition eventReasonRuntimeDegraded : string := "RuntimeDegraded".
Definition eventReasonRuntimeUpgradeStarted : string := "RuntimeUpgradeStarted".
Definition eventReasonRuntimeUpgradeCompleted : string := "RuntimeUpgradeCompleted".
Definition eventReasonRuntimeUpgradeFailed : string := "RuntimeUpgradeFailed".

Definition eventActionReconcileRuntime : string := "ReconcileRuntime".
Definition eventActionValidateConfiguration : string := "ValidateConfiguration".
Definition eventActionObserveRuntime : string := "ObserveRuntime".
Definition eventActionUpgradeRuntime : string := "UpgradeRuntime".

(** The reconciler's dependencies.  Client and scheme are the operations of
    [Effects] and the functions of [KubeLib]; the recorder may be nil. *)
Record TrussiumRuntimeReconciler := mkReconciler { rc_HasRecorder : bool }.

Definition Eventf (r : TrussiumRuntime) (t : EventType) (reason action note : string) : Prog unit :=
  perform (OpEventf (mkEvent r t reason action note)).

Definition validUpgradeEventImages (sourceImage destinationImage : string) : bool :=
  bool_decide (sourceImage ≠ EmptyString) &&
  bool_decide (destinationImage ≠ EmptyString) &&
  bool_decide (sourceImage ≠ destinationImage).

Section Events.
Context `{K8sLib}.

Definition recordConfigurationTransition (r : TrussiumRuntime)
    (previousStatus currentStatus : TrussiumRuntimeStatus) : Prog unit :=
  if negb (conditionChanged previousStatus currentStatus conditionTypeConfigurationValid)
  then mret tt
  else
    match runtimeCondition currentStatus conditionTypeConfigurationValid with
    | None => mret tt
    | Some condition =>
        if decide (c_Status condition = ConditionFalse) then
          Eventf r EventTypeWarning eventReasonConfigurationInvalid
            eventActionValidateConfiguration (c_Message condition)
        else mret tt
    end.

Definition recordDegradedTransition (r : TrussiumRuntime)
    (previousStatus currentStatus : TrussiumRuntimeStatus) : Prog unit :=
  if negb (conditionChanged previousStatus currentStatus conditionTypeDegraded)
  then mret tt
  else
    match runtimeCondition currentStatus conditionTypeDegraded with
    | None => mret tt
    | Some condition =>
        if decide (c_Status condition = ConditionTrue) then
          Eventf r EventTypeWarning eventReasonRuntimeDegraded
            eventActionObserveRuntime (c_Message condition)
        else
          match runtimeCondition previousStatus conditionTypeDegraded with
          | None => mret tt
          | Some previousCondition =>
              if decide (c_Status previousCondition = ConditionTrue) then
                Eventf r EventTypeNormal eventReasonRuntimeRecovered
                  eventActionObserveRuntime (c_Message condition)
              else mret tt
          end
    end.

Definition recordProgressingTransition (r : TrussiumRuntime)
    (previousStatus currentStatus : TrussiumRuntimeStatus) : Prog unit :=
  if negb (conditionChanged previousStatus currentStatus conditionTypeProgressing)
  then mret tt
  else
    match runtimeCondition currentStatus conditionTypeProgressing with
    | None => mret tt
    | Some condition =>
        if decide (c_Status condition = ConditionTrue) then
          Eventf r EventTypeNormal eventReasonRuntimeProgressing
            eventActionReconcileRuntime (c_Message condition)
        else mret tt
    end.

Definition recordReadyTransition (r : TrussiumRuntime)
    (previousStatus currentStatus : TrussiumRuntimeStatus) : Prog unit :=
  if negb (conditionChanged previousStatus currentStatus conditionTypeReady)
  then mret tt
  else
    match runtimeCondition currentStatus conditionTypeReady with
    | None => mret tt
    | Some condition =>
        if decide (c_Status condition = ConditionTrue) then
          let eventReason :=
            if decide (c_Reason condition = reasonScaledToZero)
            then eventReasonRuntimeScaledToZero else eventReasonRuntimeReady in
          Eventf r EventTypeNormal eventReason
            eventActionObserveRuntime (c_Message condition)
        else mret tt
    end.

(** The body shared by the three cases of the switch on the reason. *)
Definition upgradeEvent (r : TrussiumRuntime) (condition : Condition)
    (expected : ConditionStatus) (t : EventType) (reason verb : string)
    (sourceImage destinationImage : string) : Prog unit :=
  if decide (c_Status condition = expected) then
    if validUpgradeEventImages sourceImage destinationImage then
      Eventf r t reason eventActionUpgradeRuntime
        ("Runtime image upgrade " +:+ verb +:+ " from " +:+ sourceImage +:+ " to " +:+
         destinationImage +:+ ".")
    else mret tt
  else mret tt.

Definition recordUpgradeTransition (r : TrussiumRuntime)
    (previousStatus currentStatus : TrussiumRuntimeStatus) : Prog unit :=
  if negb (conditionChanged previousStatus currentStatus conditionTypeUpgrading)
  then mret tt
  else
    match runtimeCondition currentStatus conditionTypeUpgrading with
    | None => mret tt
    | Some condition =>
        let sourceImage := st_LastSuccessfulImage previousStatus in
        let destinationImage := st_DesiredImage currentStatus in
        if decide (c_Reason condition = reasonUpgradeInProgress) then
          upgradeEvent r condition ConditionTrue EventTypeNormal
            eventReasonRuntimeUpgradeStarted "started" sourceImage destinationImage
        else if decide (c_Reason condition = reasonUpgradeComplete) then
          upgradeEvent r condition ConditionFalse EventTypeNormal
            eventReasonRuntimeUpgradeCompleted "completed" sourceImage destinationImage
        else if decide (c_Reason condition = reasonUpgradeFailed) then
          upgradeEvent r condition ConditionFalse EventTypeWarning
            eventReasonRuntimeUpgradeFailed "failed" sourceImage destinationImage
        else mret tt
    end.

Definition recordStatusTransitionEvents (rc : TrussiumRuntimeReconciler)
    (r : TrussiumRuntime) (previousStatus currentStatus : TrussiumRuntimeStatus) : Prog unit :=
  if rc_HasRecorder rc then
    _ ← recordConfigurationTransition r previousStatus currentStatus;
    _ ← recordUpgradeTransition r previousStatus currentStatus;
    _ ← recordDegradedTransition r previousStatus currentStatus;
    _ ← recordProgressingTransition r previousStatus currentStatus;
    recordReadyTransition r previousStatus currentStatus
  else mret tt.

Definition recordReconciliationFailure (rc : TrussiumRuntimeReconciler)
    (r : TrussiumRuntime) (reconciliationError : GoError) : Prog unit :=
  if rc_HasRecorder rc then
    Eventf r EventTypeWarning eventReasonReconciliationFailed eventActionReconcileRuntime
      ("Runtime reconciliation failed: " +:+ errorText reconciliationError)
  else mret tt.

End Events.
