(* ===== verification/Reconciler.v ===== *)
(** * The reconciler (internal/controller/trussiumruntime_controller.go)

    [Reconcile] and every handler it calls, with the parts of
    runtime_status.go that use the client.  A handler that returns a Go error
    returns an [option GoError], where [None] is nil.  The pointer to the
    runtime that Go threads through the handlers is mutated only by
    [updateRuntimeStatus], which returns the runtime it leaves behind.
    [ctrl.Result] is always the zero value, so a reconciliation is described by
    its error alone. *)

From S2P Require Import Prelude GoStd KubeTypes ApiTypes KubeLib Resources Effects.
From S2P Require Import Status Events.

(** The text [ns/name] in error messages. *)
Definition slashed (ns name : string) : string := ns +:+ "/" +:+ name.

Section Reconciler.
Context `{K8sLib}.

(** ** Reading the cluster *)

(** The loop over the referenced names: the first one that cannot be read
    decides. *)
Fixpoint validateSecrets (r : TrussiumRuntime) (names : list string)
    : Prog referenceValidationResult :=
  match names with
  | [] => mret validReferenceValidation
  | secretName :: names =>
      resp ← perform (OpGet KSecret (mkKey (rt_Namespace r) secretName));
      match resp with
      | Ok _ => validateSecrets r names
      | Err err =>
          if IsNotFound err then
            mret (mkValidation false reasonSecretNotFound
                    ("Referenced Secret " +:+ quote secretName +:+ " was not found.") None)
          else
            mret (mkValidation false reasonReferenceCheckFailed
                    "Unable to verify referenced Secrets."
                    (Some (Errorf ("get referenced Secret " +:+
                                   slashed (rt_Namespace r) secretName +:+ ": ") err)))
      end
  end.

Definition validateSecretReferences (r : TrussiumRuntime) : Prog referenceValidationResult :=
  validateSecrets r (referencedSecretNames r).

(** Reads the managed Deployment, then the managed Service; a missing object is
    nil in the observation. *)
Definition loadRuntimeObservation (r : TrussiumRuntime) : Prog (result runtimeObservation) :=
  let key := rt_key r in
  deployment ← perform (OpGet KDeployment key);
  let loadService (d : option Deployment) : Prog (result runtimeObservation) :=
    service ← perform (OpGet KService key);
    match service with
    | Ok s => mret (Ok (mkObservation d (Some s)))
    | Err err =>
        if IsNotFound err then mret (Ok (mkObservation d None))
        else mret (Err (Errorf ("get managed Service " +:+
                                slashed (key_Namespace key) (key_Name key) +:+ ": ") err))
    end in
  match deployment with
  | Ok d => loadService (Some d)
  | Err err =>
      if IsNotFound err then loadService None
      else mret (Err (Errorf ("get managed Deployment " +:+
                              slashed (key_Namespace key) (key_Name key) +:+ ": ") err))
  end.

(** Writes the status only when it differs from the stored one.  The result is
    the Go pair of a bool and an error, with the runtime after the call. *)
Definition updateRuntimeStatus (r : TrussiumRuntime) (desiredStatus : TrussiumRuntimeStatus)
    : Prog (bool * option GoError * TrussiumRuntime) :=
  let normalizedStatus := preserveRuntimeConditionTransitionTimes (rt_Status r) desiredStatus in
  if DeepEqual (rt_Status r) normalizedStatus then mret (false, None, r)
  else
    let r := rt_set_status normalizedStatus r in
    resp ← perform (OpStatusUpdate r);
    match resp with
    | Ok stored => mret (true, None, stored)
    | Err err =>
        mret (false,
              Some (Errorf ("update TrussiumRuntime status " +:+
                            slashed (rt_Namespace r) (rt_Name r) +:+ ": ") err),
              r)
    end.

(** ** Managed resources

    Each mutate function assigns the managed fields of the object it is given
    and sets the controller reference; the other fields stay. *)

Definition mutateMeta (r : TrussiumRuntime) (labels : gmap string string) (m : ObjectMeta)
    : result ObjectMeta :=
  SetControllerReference r (meta_set_labels labels m).

Definition mutateConfigMap (r : TrussiumRuntime) (current : ConfigMap) : result ConfigMap :=
  let desired := buildConfigMap r in
  match mutateMeta r (om_Labels (cm_Meta desired)) (cm_Meta current) with
  | Ok m => Ok (mkConfigMap m (cm_Data desired) (cm_Raw current))
  | Err e => Err e
  end.

Definition mutateServiceAccount (r : TrussiumRuntime) (current : ServiceAccount)
    : result ServiceAccount :=
  let desired := buildServiceAccount r in
  match mutateMeta r (om_Labels (sa_Meta desired)) (sa_Meta current) with
  | Ok m => Ok (mkServiceAccount m (sa_AutomountServiceAccountToken desired)
                  (sa_ImagePullSecrets desired) (sa_Raw current))
  | Err e => Err e
  end.

Definition mutateService (r : TrussiumRuntime) (current : Service) : result Service :=
  let desired := buildService r in
  match mutateMeta r (om_Labels (svc_Meta desired)) (svc_Meta current) with
  | Ok m => Ok (mkService m
                  (mkServiceSpec (ss_Type (svc_Spec desired)) (ss_Selector (svc_Spec desired))
                     (ss_Ports (svc_Spec desired)) (ss_Raw (svc_Spec current)))
                  (svc_Raw current))
  | Err e => Err e
  end.

Definition ds_set_replicas (n : option Z) (s : DeploymentSpec) : DeploymentSpec :=
  mkDeploymentSpec n (ds_ProgressDeadlineSeconds s) (ds_Selector s)
    (ds_RevisionHistoryLimit s) (ds_Strategy s) (ds_Template s).

(** While autoscaling is enabled an existing replica count is kept. *)
Definition mutateDeployment (r : TrussiumRuntime) (current : Deployment) : result Deployment :=
  let desired := buildDeployment r in
  let currentReplicas := ds_Replicas (d_Spec current) in
  let spec :=
    match autoscalingEnabled r, currentReplicas with
    | true, Some n => ds_set_replicas (Some n) (d_Spec desired)
    | _, _ => d_Spec desired
    end in
  match mutateMeta r (om_Labels (d_Meta desired)) (d_Meta current) with
  | Ok m => Ok (mkDeployment m spec (d_Status current))
  | Err e => Err e
  end.

Definition mutatePodDisruptionBudget (r : TrussiumRuntime) (current : PodDisruptionBudget)
    : result PodDisruptionBudget :=
  let desired := buildPodDisruptionBudget r in
  match mutateMeta r (om_Labels (pdb_Meta desired)) (pdb_Meta current) with
  | Ok m => Ok (mkPDB m (pdb_Spec desired) (pdb_Raw current))
  | Err e => Err e
  end.

Definition mutateNetworkPolicy (r : TrussiumRuntime) (np : RuntimeNetworkPolicySpec)
    (current : NetworkPolicy) : result NetworkPolicy :=
  let desired := buildNetworkPolicy r np in
  match mutateMeta r (om_Labels (np_Meta desired)) (np_Meta current) with
  | Ok m => Ok (mkNetworkPolicy m (np_Spec desired) (np_Raw current))
  | Err e => Err e
  end.

Definition mutateHorizontalPodAutoscaler (r : TrussiumRuntime)
    (current : HorizontalPodAutoscaler) : result HorizontalPodAutoscaler :=
  let desired := buildHorizontalPodAutoscaler r in
  match mutateMeta r (om_Labels (hpa_Meta desired)) (hpa_Meta current) with
  | Ok m => Ok (mkHPA m (hpa_Spec desired) (hpa_Raw current))
  | Err e => Err e
  end.

(** The objects [CreateOrUpdate] starts from carry only name and namespace. *)
Definition emptyPodTemplate : PodTemplateSpec :=
  mkTemplate (newMeta EmptyString EmptyString ∅ ∅)
    (mkPodSpec EmptyString None None None None [] ∅ [] None [] []).

Definition emptyDeploymentSpec : DeploymentSpec :=
  mkDeploymentSpec None None (matchLabels ∅) None (mkStrategy EmptyString None) emptyPodTemplate.

Definition nameOnly (r : TrussiumRuntime) : ObjectMeta :=
  newMeta (rt_Name r) (rt_Namespace r) ∅ ∅.

Definition reconcileConfigMap (r : TrussiumRuntime) : Prog (option GoError) :=
  perform (OpCreateOrUpdate KConfigMap (mkConfigMap (nameOnly r) ∅ noRaw) (mutateConfigMap r)).

Definition reconcileServiceAccount (r : TrussiumRuntime) : Prog (option GoError) :=
  perform (OpCreateOrUpdate KServiceAccount (mkServiceAccount (nameOnly r) None [] noRaw)
             (mutateServiceAccount r)).

Definition reconcileService (r : TrussiumRuntime) : Prog (option GoError) :=
  perform (OpCreateOrUpdate KService
             (mkService (nameOnly r) (mkServiceSpec EmptyString ∅ [] noRaw) noRaw)
             (mutateService r)).

Definition reconcileDeployment (r : TrussiumRuntime) : Prog (option GoError) :=
  perform (OpCreateOrUpdate KDeployment
             (mkDeployment (nameOnly r) emptyDeploymentSpec zeroDeploymentStatus)
             (mutateDeployment r)).

Definition reconcilePodDisruptionBudget (r : TrussiumRuntime) : Prog (option GoError) :=
  perform (OpCreateOrUpdate KPodDisruptionBudget
             (mkPDB (nameOnly r) (mkPDBSpec None None) noRaw)
             (mutatePodDisruptionBudget r)).

(** [client.IgnoreNotFound] on an error that may be nil. *)
Definition ignoreNotFound (err : option GoError) : option GoError :=
  match err with None => None | Some e => IgnoreNotFound e end.

Definition reconcileNetworkPolicy (r : TrussiumRuntime) : Prog (option GoError) :=
  let delete_ : Prog (option GoError) :=
    err ← perform (OpDelete KNetworkPolicy (rt_key r));
    mret (ignoreNotFound err) in
  match spec_NetworkPolicy (rt_Spec r) with
  | None => delete_
  | Some np =>
      if rnp_Enabled np then
        perform (OpCreateOrUpdate KNetworkPolicy
                   (mkNetworkPolicy (nameOnly r) (mkPolicySpec (matchLabels ∅) [] []) noRaw)
                   (mutateNetworkPolicy r np))
      else delete_
  end.

Definition reconcileHorizontalPodAutoscaler (r : TrussiumRuntime) : Prog (option GoError) :=
  if autoscalingEnabled r then
    perform (OpCreateOrUpdate KHorizontalPodAutoscaler
               (mkHPA (nameOnly r)
                  (mkHPASpec (mkScaleTarget EmptyString EmptyString EmptyString) None 0 [])
                  noRaw)
               (mutateHorizontalPodAutoscaler r))
  else
    err ← perform (OpDelete KHorizontalPodAutoscaler (rt_key r));
    mret (ignoreNotFound err).

(** One step of [reconcileCoreResources]: a failure is wrapped and stops. *)
Definition reconcileStep (r : TrussiumRuntime) (kind : string)
    (step : TrussiumRuntime → Prog (option GoError)) (rest : Prog (option GoError))
    : Prog (option GoError) :=
  err ← step r;
  match err with
  | Some e =>
      mret (Some (Errorf ("reconcile " +:+ kind +:+ " " +:+
                          slashed (rt_Namespace r) (rt_Name r) +:+ ": ") e))
  | None => rest
  end.

Definition reconcileCoreResources (r : TrussiumRuntime) : Prog (option GoError) :=
  reconcileStep r "ConfigMap" reconcileConfigMap $
  reconcileStep r "ServiceAccount" reconcileServiceAccount $
  reconcileStep r "Service" reconcileService $
  reconcileStep r "Deployment" reconcileDeployment $
  reconcileStep r "PodDisruptionBudget" reconcilePodDisruptionBudget $
  reconcileStep r "NetworkPolicy" reconcileNetworkPolicy $
  reconcileStep r "HorizontalPodAutoscaler" reconcileHorizontalPodAutoscaler $
  mret None.

(** ** Handlers *)

(** [errors.Join] of a non-nil error with one that may be nil. *)
Definition joinErr (e : GoError) (o : option GoError) : GoError :=
  match o with None => e | Some e' => ErrJoin e e' end.

Definition handleReconciliationFailure (rc : TrussiumRuntimeReconciler) (clk : nat → Time)
    (r : TrussiumRuntime) (previousStatus : TrussiumRuntimeStatus)
    (reconciliationError : GoError) : Prog (option GoError) :=
  loaded ← loadRuntimeObservation r;
  let observation := match loaded with Ok o => o | Err _ => mkObservation None None end in
  let reconciliationError := joinErr reconciliationError (result_err loaded) in
  let desiredStatus :=
    buildReconciliationFailureStatus clk r observation reconciliationError in
  updated ← updateRuntimeStatus r desiredStatus;
  let '(statusUpdated, statusError, r) := updated in
  let reconciliationError := joinErr reconciliationError statusError in
  _ ← (if (statusUpdated : bool)
       then recordStatusTransitionEvents rc r previousStatus (rt_Status r)
       else mret tt);
  _ ← recordReconciliationFailure rc r reconciliationError;
  mret (Some reconciliationError).

(** The end of a reconciliation that observes, builds and writes the status. *)
Definition reportStatus (rc : TrussiumRuntimeReconciler) (clk : nat → Time)
    (r : TrussiumRuntime) (previousStatus : TrussiumRuntimeStatus)
    (validation : referenceValidationResult) : Prog (option GoError) :=
  loaded ← loadRuntimeObservation r;
  match loaded with
  | Err err => handleReconciliationFailure rc clk r previousStatus err
  | Ok observation =>
      let desiredStatus := buildRuntimeStatus clk r observation validation in
      updated ← updateRuntimeStatus r desiredStatus;
      let '(statusUpdated, err, r) := updated in
      match err with
      | Some err =>
          _ ← recordReconciliationFailure rc r err;
          mret (Some err)
      | None =>
          _ ← (if (statusUpdated : bool)
               then recordStatusTransitionEvents rc r previousStatus (rt_Status r)
               else mret tt);
          mret None
      end
  end.

Definition reconcileInvalidConfiguration (rc : TrussiumRuntimeReconciler) (clk : nat → Time)
    (r : TrussiumRuntime) (previousStatus : TrussiumRuntimeStatus)
    (validation : referenceValidationResult) : Prog (option GoError) :=
  reportStatus rc clk r previousStatus validation.

(** The body of [Reconcile] without the deferred metrics. *)
Definition reconcileBody (rc : TrussiumRuntimeReconciler) (clk : nat → Time)
    (req : NamespacedName) : Prog (option GoError) :=
  got ← perform (OpGet KTrussiumRuntime req);
  match got with
  | Err err => mret (IgnoreNotFound err)
  | Ok r =>
      if negb (IsZero (om_DeletionTimestamp (rt_Meta r))) then mret None
      else
        let previousStatus := copyRuntimeStatus (rt_Status r) in
        validation ← validateSecretReferences r;
        match v_Err validation with
        | Some err => handleReconciliationFailure rc clk r previousStatus err
        | None =>
            if negb (v_Valid validation) then
              reconcileInvalidConfiguration rc clk r previousStatus validation
            else
              coreErr ← reconcileCoreResources r;
              match coreErr with
              | Some err => handleReconciliationFailure rc clk r previousStatus err
              | None => reportStatus rc clk r previousStatus validation
              end
        end
  end.

(** The deferred function labels the metrics by the returned error. *)
Definition Reconcile (rc : TrussiumRuntimeReconciler) (clk : nat → Time)
    (req : NamespacedName) : Prog (option GoError) :=
  startedAt ← perform OpNow;
  reconcileErr ← reconcileBody rc clk req;
  let metricResult := match reconcileErr with Some _ => MetricError | None => MetricSuccess end in
  _ ← perform (OpCountReconciliation metricResult);
  finishedAt ← perform OpNow;
  _ ← perform (OpObserveDuration metricResult (finishedAt - startedAt)%Z);
  mret reconcileErr.

(** ** Watches *)

(** The requests for a changed Secret; a failing list yields none. *)
Definition mapSecretToRuntimes (secret : Secret) : Prog (list NamespacedName) :=
  let ns := om_Namespace (sec_Meta secret) in
  let name := om_Name (sec_Meta secret) in
  listed ← perform (OpListRuntimes ns);
  match listed with
  | Err _ => mret []
  | Ok items =>
      mret (foldl (λ requests r,
                     if runtimeReferencesSecret r name then requests ++ [rt_key r]
                     else requests)
              [] items)
  end.

End Reconciler.
