(* ===== verification/Manager.v ===== *)
(** * Process set-up: permissions, watches, metrics and manager options

    The RBAC markers and [SetupWithManager] of trussiumruntime_controller.go,
    the collectors of metrics.go, the scheme registration of
    groupversion_info.go and the options and start-up order of cmd/main.go, as
    data and functions on data.  How controller-runtime routes the events of what
    is watched is in [Watches]. *)

From Stdlib Require Import Ascii.
From S2P Require Import Prelude KubeTypes ApiTypes Effects.

(** ** RBAC markers *)

Record PolicyRule := mkRule {
  pr_APIGroups : list string;
  pr_Resources : list string;
  pr_Verbs : list string
}.

Definition readVerbs : list string := ["get"; "list"; "watch"].
Definition manageVerbs : list string :=
  readVerbs ++ ["create"; "update"; "patch"; "delete"].

Definition rbacMarkers : list PolicyRule :=
  [mkRule ["runtime.trussium.io"] ["trussiumruntimes"] readVerbs;
   mkRule ["runtime.trussium.io"] ["trussiumruntimes/status"] ["get"; "update"; "patch"];
   mkRule [EmptyString] ["configmaps"; "serviceaccounts"; "services"] manageVerbs;
   mkRule [EmptyString] ["secrets"] readVerbs;
   mkRule ["apps"] ["deployments"] manageVerbs;
   mkRule ["events.k8s.io"] ["events"] ["create"; "patch"];
   mkRule ["policy"] ["poddisruptionbudgets"] manageVerbs;
   mkRule ["networking.k8s.io"] ["networkpolicies"] manageVerbs;
   mkRule ["autoscaling"] ["horizontalpodautoscalers"] manageVerbs].

(** The API group and resource of a kind. *)
Definition kindResource (k : Kind) : string * string :=
  match k with
  | KTrussiumRuntime => ("runtime.trussium.io", "trussiumruntimes")
  | KSecret => (EmptyString, "secrets")
  | KConfigMap => (EmptyString, "configmaps")
  | KServiceAccount => (EmptyString, "serviceaccounts")
  | KService => (EmptyString, "services")
  | KDeployment => ("apps", "deployments")
  | KPodDisruptionBudget => ("policy", "poddisruptionbudgets")
  | KNetworkPolicy => ("networking.k8s.io", "networkpolicies")
  | KHorizontalPodAutoscaler => ("autoscaling", "horizontalpodautoscalers")
  end.

Record Access := mkAccess { ac_Group : string; ac_Resource : string; ac_Verb : string }.

Definition ruleAllows (a : Access) (rule : PolicyRule) : bool :=
  bool_decide (ac_Group a ∈ pr_APIGroups rule)
  && bool_decide (ac_Resource a ∈ pr_Resources rule)
  && bool_decide (ac_Verb a ∈ pr_Verbs rule).

Definition allowed (rules : list PolicyRule) (a : Access) : bool := existsb (ruleAllows a) rules.

Definition accesses (k : Kind) (verbs : list string) : list Access :=
  let '(g, res) := kindResource k in (λ v, mkAccess g res v) <$> verbs.

(** What an operation needs: reads go through the cache of the manager, which
    lists and watches; [CreateOrUpdate] reads and then creates or updates. *)
Definition requiredAccess (o : Op) : list Access :=
  match o with
  | OpGet k _ => accesses k readVerbs
  | OpListRuntimes _ => accesses KTrussiumRuntime readVerbs
  | OpCreateOrUpdate k _ _ => accesses k (readVerbs ++ ["create"; "update"])
  | OpDelete k _ => accesses k ["delete"]
  | OpStatusUpdate _ => [mkAccess "runtime.trussium.io" "trussiumruntimes/status" "update"]
  | OpEventf _ => [mkAccess "events.k8s.io" "events" "create"; mkAccess "events.k8s.io" "events" "patch"]
  | OpCountReconciliation _ | OpObserveDuration _ _ | OpNow => []
  end.

Definition permitted (o : Op) : bool := forallb (allowed rbacMarkers) (requiredAccess o).

(** ** Watches *)

Inductive Predicate := GenerationChangedPredicate.

Inductive MapFunc := mapSecretToRuntimesFunc.

(** The chain of builder calls. *)
Record ControllerSetup := mkSetup {
  cs_For : Kind * list Predicate;
  cs_Owns : list Kind;
  cs_Watches : list (Kind * MapFunc);
  cs_Name : string
}.

Definition SetupWithManager : ControllerSetup := {|
  cs_For := (KTrussiumRuntime, [GenerationChangedPredicate]);
  cs_Owns := [KConfigMap; KServiceAccount; KService; KDeployment; KPodDisruptionBudget;
              KNetworkPolicy; KHorizontalPodAutoscaler];
  cs_Watches := [(KSecret, mapSecretToRuntimesFunc)];
  cs_Name := "trussiumruntime"
|}.

(** ** Metric collectors *)

Inductive CollectorType := CounterVec | HistogramVec.

Record Collector := mkCollector {
  mc_Type : CollectorType;
  mc_Namespace : string;
  mc_Name : string;
  mc_Help : string;
  mc_Labels : list string
}.

Definition runtimeReconciliationsTotal : Collector :=
  mkCollector CounterVec "trussium_operator" "runtime_reconciliations_total"
    "Total TrussiumRuntime reconciliation attempts by result." ["result"].

Definition runtimeReconciliationDurationSeconds : Collector :=
  mkCollector HistogramVec "trussium_operator" "runtime_reconciliation_duration_seconds"
    "TrussiumRuntime reconciliation duration in seconds by result." ["result"].

(** The registry of controller-runtime: [Registry.MustRegister], which panics
    when a collector cannot be registered, and the collectors it holds. *)
Class RegistryLib (R : Type) := {
  MustRegister : list Collector → R → option R;
  gathered : R → list Collector
}.

(** The fully qualified name of a metric. *)
Definition collectorName (c : Collector) : string := mc_Namespace c +:+ "_" +:+ mc_Name c.

(** What Prometheus asks of names: letters, digits and underscores, not
    starting with a digit; the label [le] of histograms and labels with two
    underscores in front are reserved. *)
Definition validIdentifier (s : string) : bool :=
  match s with
  | EmptyString => false
  | String c _ => negb (isDigit c) && strAll (λ c, isAlnum c || isOneOf ["_"%char] c) s
  end.

Definition validCollector (c : Collector) : bool :=
  validIdentifier (collectorName c)
  && forallb (λ l, validIdentifier l && negb (String.prefix "__" l)) (mc_Labels c)
  && match mc_Type c with
     | CounterVec => true
     | HistogramVec => negb (bool_decide ("le" ∈ mc_Labels c))
     end.

(** Valid collectors with new names are registered, beside those there. *)
Class RegistryLaws (R : Type) `{RegistryLib R} : Prop :=
  must_register cs (reg : R) :
    Forall (λ c, validCollector c = true) cs → NoDup (collectorName <$> cs) →
    (∀ c c', c ∈ cs → c' ∈ gathered reg → collectorName c ≠ collectorName c') →
    ∃ reg', MustRegister cs reg = Some reg' ∧ ∀ c, c ∈ gathered reg' ↔ c ∈ cs ∨ c ∈ gathered reg.

(** [init] of metrics.go. *)
Definition initMetrics `{RegistryLib R} (reg : R) : option R :=
  MustRegister [runtimeReconciliationsTotal; runtimeReconciliationDurationSeconds] reg.

(** ** Scheme *)

(** The kinds a scheme knows, by API version and kind. *)
Definition Scheme : Type := gset (string * string).

(** The functions of apimachinery and client-go that register types. *)
Class SchemeLib := {
  (** [scheme.AddKnownTypes(gv, types...)]. *)
  AddKnownTypes : string → list string → Scheme → Scheme;
  (** [metav1.AddToGroupVersion]. *)
  AddToGroupVersion : string → Scheme → Scheme;
  (** [runtime.NewSchemeBuilder(funcs...).AddToScheme]. *)
  BuilderAddToScheme : list (Scheme → result Scheme) → Scheme → result Scheme;
  (** [clientgoscheme.AddToScheme]. *)
  ClientGoAddToScheme : Scheme → result Scheme
}.

(** The API version and kind under which an object is known. *)
Definition kindVersion (k : Kind) : string * string :=
  match k with
  | KTrussiumRuntime => (GroupVersion, "TrussiumRuntime")
  | KSecret => ("v1", "Secret")
  | KConfigMap => ("v1", "ConfigMap")
  | KServiceAccount => ("v1", "ServiceAccount")
  | KService => ("v1", "Service")
  | KDeployment => ("apps/v1", "Deployment")
  | KPodDisruptionBudget => ("policy/v1", "PodDisruptionBudget")
  | KNetworkPolicy => ("networking.k8s.io/v1", "NetworkPolicy")
  | KHorizontalPodAutoscaler => ("autoscaling/v2", "HorizontalPodAutoscaler")
  end.

(** Registration adds kinds and keeps those that are known; client-go knows the
    built-in kinds. *)
Class SchemeLaws `{SchemeLib} : Prop := {
  add_known_types gv kinds s kind :
    kind ∈ kinds → (gv, kind) ∈ AddKnownTypes gv kinds s;
  add_known_types_keeps gv kinds s : s ⊆ AddKnownTypes gv kinds s;
  add_group_version_keeps gv s : s ⊆ AddToGroupVersion gv s;
  builder_add f s : BuilderAddToScheme [f] s = f s;
  client_go_adds s :
    ∃ s', ClientGoAddToScheme s = Ok s'
      ∧ ∀ k, k ≠ KTrussiumRuntime → kindVersion k ∈ s'
}.

Section SchemeRegistration.
Context `{SchemeLib}.

Definition addKnownTypes (scheme : Scheme) : result Scheme :=
  let scheme := AddKnownTypes GroupVersion ["TrussiumRuntime"; "TrussiumRuntimeList"] scheme in
  Ok (AddToGroupVersion GroupVersion scheme).

Definition SchemeBuilder : list (Scheme → result Scheme) := [addKnownTypes].

Definition AddToScheme (scheme : Scheme) : result Scheme := BuilderAddToScheme SchemeBuilder scheme.

(** [init] of cmd/main.go; [utilruntime.Must] panics on an error. *)
Definition init : option Scheme :=
  match ClientGoAddToScheme ∅ with
  | Err _ => None
  | Ok scheme => match AddToScheme scheme with Ok scheme => Some scheme | Err _ => None end
  end.

End SchemeRegistration.

(** ** Manager options *)

Record Flags := mkFlags {
  metricsAddr : string;
  probeAddr : string;
  enableLeaderElection : bool;
  secureMetrics : bool;
  webhookCertPath : string;
  webhookCertName : string;
  webhookCertKey : string;
  metricsCertPath : string;
  metricsCertName : string;
  metricsCertKey : string;
  enableHTTP2 : bool;
  watchNamespace : string
}.

(** The defaults of the flag declarations. *)
Definition defaultFlags : Flags :=
  mkFlags "0" ":8081" false true EmptyString "tls.crt" "tls.key" EmptyString "tls.crt" "tls.key"
    false EmptyString.

(** The part of [tls.Config] the options touch. *)
Record TLSConfig := mkTLS { tls_NextProtos : list string }.

Definition disableHTTP2 (c : TLSConfig) : TLSConfig := mkTLS ["http/1.1"].

Inductive FilterProvider := WithAuthenticationAndAuthorization.

(** A server's options; an empty certificate field is the zero value. *)
Record ServerOptions := mkServer {
  so_BindAddress : string;
  so_SecureServing : bool;
  so_TLSOpts : list (TLSConfig → TLSConfig);
  so_FilterProvider : option FilterProvider;
  so_CertDir : string;
  so_CertName : string;
  so_KeyName : string
}.

Record Options := mkOptions {
  opt_Metrics : ServerOptions;
  opt_Webhook : ServerOptions;
  opt_HealthProbeBindAddress : string;
  opt_LeaderElection : bool;
  opt_LeaderElectionID : string;
  opt_DefaultNamespaces : list string
}.

Definition tlsOpts (f : Flags) : list (TLSConfig → TLSConfig) :=
  if enableHTTP2 f then [] else [disableHTTP2].

(** The certificate fields are set only with a certificate path. *)
Definition withCerts (path name key : string) (o : ServerOptions) : ServerOptions :=
  if decide (path = EmptyString) then o
  else mkServer (so_BindAddress o) (so_SecureServing o) (so_TLSOpts o) (so_FilterProvider o)
         path name key.

Definition webhookServerOptions (f : Flags) : ServerOptions :=
  withCerts (webhookCertPath f) (webhookCertName f) (webhookCertKey f)
    (mkServer EmptyString false (tlsOpts f) None EmptyString EmptyString EmptyString).

Definition metricsServerOptions (f : Flags) : ServerOptions :=
  withCerts (metricsCertPath f) (metricsCertName f) (metricsCertKey f)
    (mkServer (metricsAddr f) (secureMetrics f) (tlsOpts f)
       (if secureMetrics f then Some WithAuthenticationAndAuthorization else None)
       EmptyString EmptyString EmptyString).

Definition managerOptions (f : Flags) : Options :=
  mkOptions (metricsServerOptions f) (webhookServerOptions f) (probeAddr f)
    (enableLeaderElection f) "d4fd4c09.trussium.io"
    (if decide (watchNamespace f = EmptyString) then [] else [watchNamespace f]).

(** ** Start-up *)

(** [StepGetConfig] is [ctrl.GetConfigOrDie], which also exits with status 1. *)
Inductive StartupStep :=
| StepGetConfig
| StepNewManager (o : Options)
| StepSetupController
| StepAddHealthz
| StepAddReadyz
| StepStart.

Definition startupSteps (f : Flags) : list StartupStep :=
  [StepGetConfig; StepNewManager (managerOptions f); StepSetupController; StepAddHealthz;
   StepAddReadyz; StepStart].

(** [main] performs the steps until one fails, which exits with status 1; when
    [Start] returns without error the process ends with status 0. *)
Fixpoint runSteps (outcome : StartupStep → option GoError) (steps : list StartupStep)
    : list StartupStep * Z :=
  match steps with
  | [] => ([], 0%Z)
  | s :: steps =>
      match outcome s with
      | Some _ => ([s], 1%Z)
      | None => let '(done, code) := runSteps outcome steps in (s :: done, code)
      end
  end.

Definition main (f : Flags) (outcome : StartupStep → option GoError) : list StartupStep * Z :=
  runSteps outcome (startupSteps f).
