(* ===== verification/CommandLine.v ===== *)
(** * The command line of the manager (cmd/main.go)

    The flags [main] declares, and how Go's [flag] package reads them: one or
    two dashes, a value after an equals sign or, for a string, as the next
    argument; a boolean without a value is true; the first argument that is no
    flag ends the flags.  [flag.CommandLine] exits with status 2 on an error and
    with status 0 when help is asked for.  The flag set is [flag.CommandLine], on
    which the packages that [main] imports declare flags as well: the logging
    flags of controller-runtime, and the [kubeconfig] flag of its client
    configuration.  They are a parameter. *)

From Stdlib Require Import Ascii.
From S2P Require Import Prelude KubeTypes ApiTypes Effects Manager.

(** ** Flags of the libraries *)

(** The flags that the libraries declare on [flag.CommandLine], with the options
    they set: whether a name is one of them and a boolean, and what setting it
    does. *)
Class LibraryFlags (L : Type) := {
  libraryFlag : string → option bool;
  setLibraryFlag : string → string → L → option L
}.

(** [zap.Options.BindFlags] declares flags whose names start with [zap-], and the
    [config] package of controller-runtime a string flag [kubeconfig]. *)
Class LibraryFlagsLaws (L : Type) `{LibraryFlags L} : Prop := {
  library_names name b :
    libraryFlag name = Some b → String.prefix "zap-" name = true ∨ name = "kubeconfig";
  kubeconfig_flag : libraryFlag "kubeconfig" = Some false;
  kubeconfig_set v (z : L) : is_Some (setLibraryFlag "kubeconfig" v z)
}.

(** ** Declared flags *)

(** [flag.StringVar] and [flag.BoolVar]: the default, and the variable as a
    way to read and to set it. *)
Inductive FlagVar :=
| StringVar (value : string) (get : Flags → string) (set : string → Flags → Flags)
| BoolVar (value : bool) (get : Flags → bool) (set : bool → Flags → Flags).

Definition flagDecls : list (string * FlagVar) :=
  [("metrics-bind-address", StringVar "0" metricsAddr
      (λ v '(mkFlags _ b c d e f g h i j k l), mkFlags v b c d e f g h i j k l));
   ("health-probe-bind-address", StringVar ":8081" probeAddr
      (λ v '(mkFlags a _ c d e f g h i j k l), mkFlags a v c d e f g h i j k l));
   ("leader-elect", BoolVar false enableLeaderElection
      (λ v '(mkFlags a b _ d e f g h i j k l), mkFlags a b v d e f g h i j k l));
   ("metrics-secure", BoolVar true secureMetrics
      (λ v '(mkFlags a b c _ e f g h i j k l), mkFlags a b c v e f g h i j k l));
   ("webhook-cert-path", StringVar EmptyString webhookCertPath
      (λ v '(mkFlags a b c d _ f g h i j k l), mkFlags a b c d v f g h i j k l));
   ("webhook-cert-name", StringVar "tls.crt" webhookCertName
      (λ v '(mkFlags a b c d e _ g h i j k l), mkFlags a b c d e v g h i j k l));
   ("webhook-cert-key", StringVar "tls.key" webhookCertKey
      (λ v '(mkFlags a b c d e f _ h i j k l), mkFlags a b c d e f v h i j k l));
   ("metrics-cert-path", StringVar EmptyString metricsCertPath
      (λ v '(mkFlags a b c d e f g _ i j k l), mkFlags a b c d e f g v i j k l));
   ("metrics-cert-name", StringVar "tls.crt" metricsCertName
      (λ v '(mkFlags a b c d e f g h _ j k l), mkFlags a b c d e f g h v j k l));
   ("metrics-cert-key", StringVar "tls.key" metricsCertKey
      (λ v '(mkFlags a b c d e f g h i _ k l), mkFlags a b c d e f g h i v k l));
   ("enable-http2", BoolVar false enableHTTP2
      (λ v '(mkFlags a b c d e f g h i j _ l), mkFlags a b c d e f g h i j v l));
   ("watch-namespace", StringVar EmptyString watchNamespace
      (λ v '(mkFlags a b c d e f g h i j k _), mkFlags a b c d e f g h i j k v))].

(** The variables before parsing: each declaration stores its default. *)
Definition declareFlag (f : Flags) (d : string * FlagVar) : Flags :=
  match d.2 with
  | StringVar value _ set => set value f
  | BoolVar value _ set => set value f
  end.

Definition zeroFlags : Flags :=
  mkFlags EmptyString EmptyString false false EmptyString EmptyString EmptyString EmptyString
    EmptyString EmptyString false EmptyString.

Definition declaredFlags : Flags := foldl declareFlag zeroFlags flagDecls.

(** The declaration of a name. *)
Fixpoint lookupFlag (name : string) (decls : list (string * FlagVar)) : option FlagVar :=
  match decls with
  | [] => None
  | (name', var) :: decls => if decide (name' = name) then Some var else lookupFlag name decls
  end.

(** ** Parsing *)

(** [strconv.ParseBool]. *)
Definition ParseBool (s : string) : option bool :=
  if bool_decide (s ∈ ["1"; "t"; "T"; "true"; "TRUE"; "True"]) then Some true
  else if bool_decide (s ∈ ["0"; "f"; "F"; "false"; "FALSE"; "False"]) then Some false
  else None.

(** Cuts a string at its first equals sign. *)
Fixpoint cutEquals (s : string) : string * option string :=
  match s with
  | EmptyString => (EmptyString, None)
  | String c s =>
      if decide (c = "="%char) then (EmptyString, Some s)
      else let '(name, value) := cutEquals s in (String c name, value)
  end.

(** What one argument is for the parser. *)
Inductive Argument :=
| NotFlag
| Terminator
| BadSyntax
| FlagArgument (name : string) (value : option string).

(** The text after the dashes: the equals sign cannot come first. *)
Definition flagBody (s : string) : Argument :=
  match s with
  | EmptyString => BadSyntax
  | String c rest =>
      if decide (c = "-"%char ∨ c = "="%char) then BadSyntax
      else let '(name, value) := cutEquals rest in FlagArgument (String c name) value
  end.

Definition classify (s : string) : Argument :=
  match s with
  | String c1 (String c2 rest as s1) =>
      if decide (c1 = "-"%char) then
        if decide (c2 = "-"%char) then
          match rest with EmptyString => Terminator | _ => flagBody rest end
        else flagBody s1
      else NotFlag
  | _ => NotFlag
  end.

(** How parsing ends: with the variables and the remaining arguments, with an
    error, or with a request for help. *)
Inductive ParseResult (L : Type) :=
| Parsed (f : Flags) (z : L) (args : list string)
| ParseFailed
| HelpRequested.
Arguments Parsed {L} f z args.
Arguments ParseFailed {L}.
Arguments HelpRequested {L}.

Section Parse.
Context {L : Type} `{LibraryFlags L}.

(** The flag of a name, as the parser sees it: whether it is boolean, and its
    [Set] method. *)
Definition formal (name : string) : option (bool * (string → Flags * L → option (Flags * L))) :=
  match lookupFlag name flagDecls with
  | Some (StringVar _ _ set) => Some (false, λ v '(f, z), Some (set v f, z))
  | Some (BoolVar _ _ set) => Some (true, λ v '(f, z), b ← ParseBool v; Some (set b f, z))
  | None =>
      match libraryFlag name with
      | Some isBool => Some (isBool, λ v '(f, z), z ← setLibraryFlag name v z; Some (f, z))
      | None => None
      end
  end.

(** [flag.Parse]. *)
Fixpoint parseArgs (args : list string) (st : Flags * L) : ParseResult L :=
  match args with
  | [] => Parsed st.1 st.2 []
  | s :: rest =>
      match classify s with
      | NotFlag => Parsed st.1 st.2 args
      | Terminator => Parsed st.1 st.2 rest
      | BadSyntax => ParseFailed
      | FlagArgument name value =>
          match formal name with
          | None =>
              if decide (name = "help" ∨ name = "h") then HelpRequested else ParseFailed
          | Some (true, set) =>
              match set (default "true" value) st with
              | Some st => parseArgs rest st
              | None => ParseFailed
              end
          | Some (false, set) =>
              match value with
              | Some v => match set v st with Some st => parseArgs rest st | None => ParseFailed end
              | None =>
                  match rest with
                  | [] => ParseFailed
                  | v :: rest =>
                      match set v st with Some st => parseArgs rest st | None => ParseFailed end
                  end
              end
          end
      end
  end.

(** [main] on its arguments: the manager is set up only after they were read;
    arguments that are left over are ignored. *)
Definition mainArgs (args : list string) (z : L) (outcome : StartupStep → option GoError)
    : list StartupStep * Z :=
  match parseArgs args (declaredFlags, z) with
  | Parsed f _ _ => main f outcome
  | ParseFailed => ([], 2%Z)
  | HelpRequested => ([], 0%Z)
  end.

End Parse.

(** The arguments in the Deployment of the Helm chart, by its values. *)
Definition chartArgs (leaderElection : bool) (watchNamespace : string) : list string :=
  ["--leader-elect=" +:+ (if leaderElection then "true" else "false");
   "--health-probe-bind-address=:8081";
   "--metrics-bind-address=:8443"]
  ++ (if decide (watchNamespace = EmptyString) then []
      else ["--watch-namespace=" +:+ watchNamespace]).

(** ** Spelling a flag *)

(** One flag on the command line: with a value after an equals sign, with the
    value as the next argument, or, for a boolean, without one. *)
Inductive Spelling := WithEquals | NextArgument | Bare.

Record Assignment := mkAssignment {
  as_Name : string;
  as_Value : string;
  as_Spelling : Spelling;
  as_TwoDashes : bool
}.

Definition spell (a : Assignment) : list string :=
  let flag := (if as_TwoDashes a then "--" else "-") +:+ as_Name a in
  match as_Spelling a with
  | WithEquals => [flag +:+ "=" +:+ as_Value a]
  | NextArgument => [flag; as_Value a]
  | Bare => [flag]
  end.

(** What the assignment does to the variables; [None] where it is not allowed. *)
Definition assign (a : Assignment) (f : Flags) : option Flags :=
  match lookupFlag (as_Name a) flagDecls, as_Spelling a with
  | Some (StringVar _ _ set), (WithEquals | NextArgument) => Some (set (as_Value a) f)
  | Some (BoolVar _ _ set), WithEquals => b ← ParseBool (as_Value a); Some (set b f)
  | Some (BoolVar _ _ set), Bare => Some (set true f)
  | _, _ => None
  end.

(** The assignments from left to right. *)
Definition assignAll (l : list Assignment) (f : Flags) : option Flags :=
  foldl (λ acc a, f ← acc; assign a f) (Some f) l.

(** All flags with the values of [f]. *)
Definition render (f : Flags) : list Assignment :=
  (λ d : string * FlagVar,
     mkAssignment d.1
       match d.2 with
       | StringVar _ get _ => get f
       | BoolVar _ get _ => if get f then "true" else "false"
       end WithEquals true) <$> flagDecls.

(** ** Properties *)

Lemma lookupFlag_elem name var decls : lookupFlag name decls = Some var → (name, var) ∈ decls.
Proof.
  induction decls as [|[name' var'] decls IH]; simpl; [done|]. case_decide; [|by right; apply IH].
  intros [= ->]. subst. by left.
Qed.

(** A declared name is read back from every spelling. *)
Lemma classify_spelled name var v (dashes : bool) :
  (name, var) ∈ flagDecls →
  classify ((if dashes then "--" else "-") +:+ name +:+ "=" +:+ v) = FlagArgument name (Some v)
  ∧ classify ((if dashes then "--" else "-") +:+ name) = FlagArgument name None.
Proof.
  assert (Hall : Forall (λ d : string * FlagVar,
    classify ((if dashes then "--" else "-") +:+ d.1 +:+ "=" +:+ v) = FlagArgument d.1 (Some v)
    ∧ classify ((if dashes then "--" else "-") +:+ d.1) = FlagArgument d.1 None) flagDecls).
  { destruct dashes; repeat constructor. }
  intros Hin. exact (proj1 (Forall_forall _ _) Hall (name, var) Hin).
Qed.

Section Reading.
Context {L : Type} `{LibraryFlags L}.

Lemma parse_assignment a rest f f' (z : L) :
  assign a f = Some f' → parseArgs (spell a ++ rest) (f, z) = parseArgs rest (f', z).
Proof.
  destruct a as [name v sp dashes]. unfold assign. cbn [as_Name as_Value as_Spelling]. intros Ha.
  destruct (lookupFlag name flagDecls) as [var|] eqn:Hl; [|done].
  pose proof (lookupFlag_elem _ _ _ Hl) as Hin.
  destruct (classify_spelled name var v dashes Hin) as [Heq Hbare].
  unfold spell. cbn [as_Name as_Value as_Spelling as_TwoDashes].
  rewrite <-(str_app_assoc _ name) in Heq.
  destruct var as [d get set|d get set], sp; try done; cbn [app parseArgs];
    rewrite ?Heq, ?Hbare; unfold formal; rewrite Hl; cbn [from_option id].
  - by injection Ha as ->.
  - by injection Ha as ->.
  - destruct (ParseBool v) as [b|]; by simplify_eq/=.
  - by simplify_eq/=.
Qed.

Lemma parse_assignments l rest f f' (z : L) :
  assignAll l f = Some f' →
  parseArgs (concat (spell <$> l) ++ rest) (f, z) = parseArgs rest (f', z).
Proof.
  assert (Hnone : ∀ l, foldl (λ acc a, f ← acc; assign a f) None l = None)
    by (clear; by induction l).
  revert f. induction l as [|a l IH]; intros f Hl; cbn [fmap list_fmap concat].
  { by injection Hl as ->. }
  unfold assignAll in Hl. cbn [foldl mbind option_bind] in Hl.
  destruct (assign a f) as [f1|] eqn:Ha; [|by rewrite Hnone in Hl].
  rewrite <-app_assoc, (parse_assignment a _ f f1 z Ha). by apply IH.
Qed.

End Reading.

(** The rendering of the variables sets all of them. *)
Lemma assign_render f g : assignAll (render f) g = Some f.
Proof. destruct f as [? ? [] [] ? ? ? ? ? ? [] ?], g; reflexivity. Qed.

(** A declared name is not a name of a library flag. *)
Lemma declared_not_library `{LibraryFlagsLaws L} name :
  name ∈ flagDecls.*1 → libraryFlag name = None.
Proof.
  assert (Hall : Forall (λ name, String.prefix "zap-" name = false ∧ name ≠ "kubeconfig") flagDecls.*1)
    by (by repeat constructor).
  intros Hin. destruct (proj1 (Forall_forall _ _) Hall name Hin) as [Hz Hk].
  destruct (libraryFlag name) as [b|] eqn:Hl; [|done].
  destruct (library_names name b Hl) as [Hp|Hp]; congruence.
Qed.

(** C40. The command line, exactly: no flag is declared twice, none has the name
    of a library flag, and the variables start with the declared defaults; any
    sequence of declared flags, with one or two dashes and every spelling of a
    value, sets the variables from left to right, so that the last one wins;
    every setting of the variables has a command line that is read back to it.
    A library flag with a value that it takes, such as any [--kubeconfig=path],
    leaves the variables alone.  After such a sequence a flag that neither
    [main] nor a library declares, a malformed boolean or a string flag without
    its value ends the process with status 2, a request for help with status 0,
    in each case before anything is set up; the first argument that is no flag
    ends the flags, and what follows it is ignored. *)
Theorem command_line_exact `{LibraryFlagsLaws L} (l : list Assignment) (f : Flags) (z : L)
    (s : string) (rest : list string) (outcome : StartupStep → option GoError) :
  assignAll l defaultFlags = Some f →
  let given := concat (spell <$> l) in
  NoDup flagDecls.*1 ∧ Forall (λ name, libraryFlag name = None) flagDecls.*1
  ∧ declaredFlags = defaultFlags
  ∧ mainArgs given z outcome = main f outcome
  ∧ (∀ g, mainArgs (concat (spell <$> render g)) z outcome = main g outcome)
  ∧ (classify s = NotFlag → mainArgs (given ++ s :: rest) z outcome = main f outcome)
  ∧ (∀ name v b z', classify s = FlagArgument name (Some v) → libraryFlag name = Some b →
     setLibraryFlag name v z = Some z' →
     mainArgs (given ++ s :: rest) z outcome = mainArgs (given ++ rest) z' outcome)
  ∧ (∀ path, ∃ z', mainArgs (given ++ ("--kubeconfig=" +:+ path) :: rest) z outcome
                   = mainArgs (given ++ rest) z' outcome)
  ∧ (∀ name value, classify s = FlagArgument name value → lookupFlag name flagDecls = None →
     libraryFlag name = None →
     mainArgs (given ++ s :: rest) z outcome
     = ([], if decide (name = "help" ∨ name = "h") then 0 else 2)%Z)
  ∧ (∀ name v d get set, classify s = FlagArgument name (Some v) →
     lookupFlag name flagDecls = Some (BoolVar d get set) → ParseBool v = None →
     mainArgs (given ++ s :: rest) z outcome = ([], 2%Z))
  ∧ (∀ name d get set, classify s = FlagArgument name None →
     lookupFlag name flagDecls = Some (StringVar d get set) →
     mainArgs (given ++ [s]) z outcome = ([], 2%Z)).
Proof.
  intros Hl given. assert (Hd : declaredFlags = defaultFlags) by reflexivity.
  assert (Hmain : ∀ rest (z : L), mainArgs (given ++ rest) z outcome =
    match parseArgs rest (f, z) with
    | Parsed f _ _ => main f outcome | ParseFailed => ([], 2%Z) | HelpRequested => ([], 0%Z)
    end).
  { intros r z'. unfold mainArgs. by rewrite Hd, (parse_assignments l r _ f z' Hl). }
  assert (Hlib : ∀ s name v b z', classify s = FlagArgument name (Some v) →
    libraryFlag name = Some b → setLibraryFlag name v z = Some z' →
    mainArgs (given ++ s :: rest) z outcome = mainArgs (given ++ rest) z' outcome).
  { intros s' name v b z' Hc Hb Hs. rewrite !Hmain. cbn [parseArgs]. rewrite Hc. unfold formal.
    destruct (lookupFlag name flagDecls) as [var|] eqn:Hv.
    - apply lookupFlag_elem, (list_elem_of_fmap_2 fst), declared_not_library in Hv. cbn [fst] in Hv.
      by rewrite Hv in Hb.
    - rewrite Hb. destruct b; simpl; by rewrite Hs. }
  split_and!.
  - apply (bool_decide_unpack _). vm_compute. exact I.
  - apply Forall_forall. apply declared_not_library.
  - done.
  - specialize (Hmain [] z). by rewrite app_nil_r in Hmain.
  - intros g. unfold mainArgs. rewrite <-(app_nil_r (concat _)).
    by rewrite (parse_assignments _ [] _ g z (assign_render g _)).
  - intros Hc. rewrite Hmain. simpl. by rewrite Hc.
  - exact (Hlib s).
  - intros path. destruct (kubeconfig_set path z) as [z' Hz]. exists z'.
    by apply (Hlib _ "kubeconfig" path false); [|apply kubeconfig_flag|].
  - intros name value Hc Hn Hz. rewrite Hmain. simpl. rewrite Hc. unfold formal. rewrite Hn, Hz.
    by case_decide.
  - intros name v d get set Hc Hn Hb. rewrite Hmain. simpl. rewrite Hc. unfold formal. rewrite Hn.
    simpl. by rewrite Hb.
  - intros name d get set Hc Hn. rewrite Hmain. simpl. rewrite Hc. unfold formal. by rewrite Hn.
Qed.

(** Library flags that are recorded as given. *)
Module RefFlags.

#[export] Instance flags : LibraryFlags (list (string * string)) := {|
  libraryFlag name :=
    if decide (name = "zap-devel") then Some true
    else if bool_decide (name ∈ ["zap-encoder"; "zap-log-level"; "zap-stacktrace-level";
                                 "zap-time-encoding"; "kubeconfig"]) then Some false
    else None;
  setLibraryFlag name v z := Some (z ++ [(name, v)])
|}.

#[export] Instance laws : @LibraryFlagsLaws _ flags.
Proof.
  split; [|done|by eexists]. intros name b. simpl. case_decide; [subst; by left|].
  case_bool_decide as Hin; [|done]. intros _.
  repeat (apply elem_of_cons in Hin as [->|Hin]; [first [by left|by right]|]).
  by apply not_elem_of_nil in Hin.
Qed.

End RefFlags.

(** The arguments of the manifest, with a client configuration, and followed by
    an unknown flag. *)
Lemma command_line_exact_witness :
  let args := ["--leader-elect"; "--health-probe-bind-address=:8081"; "-leader-elect=F"] in
  let f := mkFlags "0" ":8081" false true EmptyString "tls.crt" "tls.key" EmptyString "tls.crt"
             "tls.key" false EmptyString in
  @mainArgs _ RefFlags.flags args [] (λ _, None) = main f (λ _, None)
  ∧ (∃ z', @mainArgs _ RefFlags.flags (args ++ ["--kubeconfig=/root/config"]) [] (λ _, None)
           = @mainArgs _ RefFlags.flags (args ++ []) z' (λ _, None))
  ∧ @mainArgs _ RefFlags.flags (args ++ ["--replicas=2"]) [] (λ _, None) = ([], 2%Z).
Proof.
  intros args f.
  pose proof (@command_line_exact _ RefFlags.flags RefFlags.laws
    [mkAssignment "leader-elect" EmptyString Bare true;
     mkAssignment "health-probe-bind-address" ":8081" WithEquals true;
     mkAssignment "leader-elect" "F" WithEquals false] _ [] "--replicas=2" [] (λ _, None) eq_refl)
    as (_ & _ & _ & Hgiven & _ & _ & _ & Hconfig & Hunknown & _).
  split; [exact Hgiven|]. split; [exact (Hconfig "/root/config")|].
  exact (Hunknown "replicas" (Some "2") eq_refl eq_refl eq_refl).
Defined.
