(* ===== verification/RefKube.v ===== *)
(** * A reference implementation of the library functions

    One implementation of [K8sLib] that satisfies [K8sLaws].  It makes the
    model executable and shows that the laws can hold together; the theorems
    are proved for every implementation that satisfies the laws. *)

From S2P Require Import Prelude GoStd KubeTypes ApiTypes KubeLib.

Module RefKube.

Definition isNotFound (e : GoError) : bool :=
  match errorLeaves e with
  | [] => false
  | a :: _ => bool_decide (ae_Reason a = "NotFound")
  end.

Definition find (cs : list Condition) (t : string) : option Condition :=
  head (filter (λ c, c_Type c = t) cs).

Fixpoint set (now : Time) (cs : list Condition) (new : Condition) : list Condition :=
  match cs with
  | [] => [addedCondition now new]
  | c :: cs =>
      if decide (c_Type c = c_Type new) then updatedCondition now c new :: cs
      else c :: set now cs new
  end.

(** Whether an owner reference designates the runtime. *)
Definition refersTo (r : TrussiumRuntime) (ref : OwnerReference) : bool :=
  bool_decide (or_APIVersion ref = GroupVersion)
  && bool_decide (or_Kind ref = "TrussiumRuntime") && bool_decide (or_Name ref = rt_Name r).

Fixpoint upsertOwner (r : TrussiumRuntime) (refs : list OwnerReference) : list OwnerReference :=
  match refs with
  | [] => [runtimeOwner r]
  | ref :: refs =>
      if refersTo r ref then runtimeOwner r :: refs else ref :: upsertOwner r refs
  end.

Definition setOwner (r : TrussiumRuntime) (m : ObjectMeta) : result ObjectMeta :=
  let upserted := Ok (meta_set_owners (upsertOwner r (om_OwnerReferences m)) m) in
  if decide (om_Namespace m = rt_Namespace r) then
    match GetControllerOf (om_OwnerReferences m) with
    | Some ref =>
        if refersTo r ref then upserted
        else Err (ErrApi (mkApiError "AlreadyOwned"
                            "Object is already owned by another controller"))
    | None => upserted
    end
  else Err (ErrApi (mkApiError EmptyString "cross-namespace owner references are disallowed")).

#[export] Instance lib : K8sLib := {|
  IsNotFound := isNotFound;
  IgnoreNotFound := λ e, if isNotFound e then None else Some e;
  FindStatusCondition := find;
  SetStatusCondition := set;
  DeepEqual := λ a b, bool_decide (a = b);
  SetControllerReference := setOwner;
  DeepCopy_Affinity := λ a, a;
  DeepCopy_LabelSelector := λ l, l;
  DeepCopy_ResourceRequirements := λ x, x
|}.

Lemma set_absent now cs new :
  find cs (c_Type new) = None → set now cs new = cs ++ [addedCondition now new].
Proof.
  unfold find. induction cs as [|c cs IH]; simpl; [done|].
  rewrite filter_cons. case_decide; [done|]. intros Hf. by rewrite IH.
Qed.

Lemma set_present now pre old post new :
  find pre (c_Type new) = None → c_Type old = c_Type new →
  set now (pre ++ old :: post) new = pre ++ updatedCondition now old new :: post.
Proof.
  unfold find. induction pre as [|c pre IH]; simpl; intros Hf Ht.
  - by rewrite decide_True.
  - rewrite filter_cons in Hf. case_decide; [done|]. by rewrite IH.
Qed.

Lemma refersTo_true r ref :
  refersTo r ref = true ↔
  or_APIVersion ref = GroupVersion ∧ or_Kind ref = "TrussiumRuntime" ∧ or_Name ref = rt_Name r.
Proof.
  unfold refersTo. rewrite !andb_true_iff, !bool_decide_eq_true. tauto.
Qed.

Lemma controller_cons ref refs :
  GetControllerOf (ref :: refs)
  = if decide (or_Controller ref = true) then Some ref else GetControllerOf refs.
Proof. unfold GetControllerOf. rewrite filter_cons. by case_decide. Qed.

(** After the update the runtime is the controller, provided no other was. *)
Lemma upsertOwner_controller r refs :
  (∀ ref, GetControllerOf refs = Some ref → refersTo r ref = true) →
  GetControllerOf (upsertOwner r refs) = Some (runtimeOwner r).
Proof.
  induction refs as [|ref refs IH]; simpl; intros Hc; [done|].
  rewrite controller_cons in Hc. destruct (refersTo r ref) eqn:Hr; [done|].
  rewrite controller_cons. case_decide as Hctl; [|by apply IH].
  specialize (Hc ref eq_refl). congruence.
Qed.

Lemma setOwner_ok r m m' :
  setOwner r m = Ok m' →
  ∃ refs, m' = meta_set_owners refs m ∧ GetControllerOf refs = Some (runtimeOwner r).
Proof.
  pose proof (upsertOwner_controller r (om_OwnerReferences m)) as He. unfold setOwner.
  intros Hs. case_decide; [|done].
  destruct (GetControllerOf (om_OwnerReferences m)) as [ref|] eqn:Hg.
  - destruct (refersTo r ref) eqn:Hr; [|done]. injection Hs as <-. eexists. split; [done|].
    apply He. intros ref' Hf. by injection Hf as <-.
  - injection Hs as <-. eexists. split; [done|]. by apply He.
Qed.

Lemma setOwner_conflict r m ref :
  GetControllerOf (om_OwnerReferences m) = Some ref →
  or_Kind ref ≠ "TrussiumRuntime" ∨ or_Name ref ≠ rt_Name r →
  ∃ e, setOwner r m = Err e.
Proof.
  intros Hc Hn. unfold setOwner. case_decide; [|eauto]. rewrite Hc.
  destruct (refersTo r ref) eqn:Hr; [|eauto].
  apply refersTo_true in Hr as (_ & ? & ?). by destruct Hn.
Qed.

Lemma setOwner_free r m :
  om_Namespace m = rt_Namespace r →
  (∀ ref, GetControllerOf (om_OwnerReferences m) = Some ref →
          or_APIVersion ref = GroupVersion ∧ or_Kind ref = "TrussiumRuntime"
          ∧ or_Name ref = rt_Name r) →
  ∃ m', setOwner r m = Ok m'.
Proof.
  intros Hns Hf. unfold setOwner. rewrite decide_True by done.
  destruct (GetControllerOf _) as [ref|]; [|eauto].
  rewrite (proj2 (refersTo_true r ref)) by auto. eauto.
Qed.

Lemma refersTo_owner r : refersTo r (runtimeOwner r) = true.
Proof. by apply refersTo_true. Qed.

Lemma upsertOwner_again r r' refs :
  runtimeOwner r' = runtimeOwner r → upsertOwner r' (upsertOwner r refs) = upsertOwner r refs.
Proof.
  intros Ho. assert (Hr : ∀ ref, refersTo r' ref = refersTo r ref).
  { intros ref. unfold refersTo. injection Ho as -> _. done. }
  induction refs as [|ref refs IH]; simpl.
  - by rewrite Hr, refersTo_owner, Ho.
  - destruct (refersTo r ref) eqn:Hx; simpl; rewrite Hr; [by rewrite refersTo_owner, Ho|].
    by rewrite Hx, IH.
Qed.

Lemma setOwner_again r m m' r' n :
  setOwner r m = Ok m' → runtimeOwner r' = runtimeOwner r → rt_Namespace r' = rt_Namespace r →
  om_Namespace n = om_Namespace m → om_OwnerReferences n = om_OwnerReferences m' →
  setOwner r' n = Ok n.
Proof.
  intros Hs Ho Hns Hn Hrefs. destruct (setOwner_ok _ _ _ Hs) as (refs & Hm' & Hc).
  assert (Hup : om_OwnerReferences m' = upsertOwner r (om_OwnerReferences m)
                ∧ om_Namespace m = rt_Namespace r).
  { unfold setOwner in Hs. case_decide; [|done].
    destruct (GetControllerOf (om_OwnerReferences m)) as [ref|]; [destruct (refersTo r ref); [|done]|];
      by injection Hs as <-. }
  destruct Hup as [Hup Hm]. unfold setOwner. rewrite decide_True by congruence.
  assert (Hctl : GetControllerOf (om_OwnerReferences n) = Some (runtimeOwner r')).
  { by rewrite Hrefs, Hm', Ho. }
  rewrite Hctl, refersTo_owner, Hrefs, Hup, upsertOwner_again, <-Hup, <-Hrefs by done.
  by destruct n.
Qed.

Lemma setOwner_same r r' m :
  runtimeOwner r' = runtimeOwner r → rt_Namespace r' = rt_Namespace r → setOwner r' m = setOwner r m.
Proof.
  intros Ho Hns. assert (Hr : ∀ ref, refersTo r' ref = refersTo r ref).
  { intros ref. unfold refersTo. injection Ho as -> _. done. }
  assert (Hu : ∀ refs, upsertOwner r' refs = upsertOwner r refs).
  { intros refs. induction refs as [|ref refs IH]; simpl; [by rewrite Ho|]. by rewrite Hr, Ho, IH. }
  unfold setOwner. rewrite Hns, Hu. destruct (GetControllerOf _) as [ref|]; [by rewrite Hr|done].
Qed.

#[export] Instance laws : @K8sLaws lib.
Proof.
  split; try done.
  - intros. by apply set_absent.
  - intros. by apply set_present.
  - intros a b. apply bool_decide_eq_true.
  - apply setOwner_ok.
  - apply setOwner_conflict.
  - apply setOwner_free.
  - apply setOwner_again.
  - intros r r' m Ho Hns. apply setOwner_same; done.
Qed.

End RefKube.
