(* ===== verification/Samples.v ===== *)
(** * Sample objects

    A concrete runtime, Deployment and Service on which the witnesses of the
    theorems are evaluated. *)

From S2P Require Import Prelude GoStd KubeTypes ApiTypes KubeLib Resources Effects RefKube Status.

Definition sampleMeta : ObjectMeta :=
  mkMeta "private-ai" "trussium" "uid-1" 4 None ∅ ∅ [] noRaw.

Definition sampleImage : RuntimeImageSpec :=
  mkImage "ghcr.io/trussiumhq/trussium" (Some "v1.22.0") None "IfNotPresent".

Definition sampleProvider : ProviderSpec :=
  mkProvider "openai" "gpt-5" None (Some (mkSecretKeyReference "openai-credentials" "api-key")).

Definition sampleSpec : TrussiumRuntimeSpec := {|
  spec_Image := sampleImage;
  spec_Replicas := Some 2%Z;
  spec_ImagePullSecrets := [mkNamedReference "ghcr-credentials"];
  spec_Provider := sampleProvider;
  spec_Runtime := Some (mkSettings (Some 60%Z) None (Some 45%Z));
  spec_Service := mkRuntimeService "ClusterIP" 9000;
  spec_NetworkPolicy := None;
  spec_Autoscaling := None;
  spec_Resources := mkResources noRaw;
  spec_PodMetadata :=
    Some (mkPodMetadata {["team" := "ai"; "app.kubernetes.io/name" := "other"]} ∅);
  spec_Scheduling := None
|}.

Definition sampleRuntime : TrussiumRuntime := mkRuntime noType sampleMeta sampleSpec emptyStatus.

(** The same runtime under another name. *)
Definition otherRuntime : TrussiumRuntime :=
  mkRuntime noType (mkMeta "public-ai" "trussium" "uid-2" 1 None ∅ ∅ [] noRaw) sampleSpec emptyStatus.

Definition withImage (i : RuntimeImageSpec) (s : TrussiumRuntimeSpec) : TrussiumRuntimeSpec :=
  mkSpec i (spec_Replicas s) (spec_ImagePullSecrets s) (spec_Provider s) (spec_Runtime s)
    (spec_Service s) (spec_NetworkPolicy s) (spec_Autoscaling s) (spec_Resources s)
    (spec_PodMetadata s) (spec_Scheduling s).

Definition withReplicas (n : option Z) (s : TrussiumRuntimeSpec) : TrussiumRuntimeSpec :=
  mkSpec (spec_Image s) n (spec_ImagePullSecrets s) (spec_Provider s) (spec_Runtime s)
    (spec_Service s) (spec_NetworkPolicy s) (spec_Autoscaling s) (spec_Resources s)
    (spec_PodMetadata s) (spec_Scheduling s).

Definition withProvider (p : ProviderSpec) (s : TrussiumRuntimeSpec) : TrussiumRuntimeSpec :=
  mkSpec (spec_Image s) (spec_Replicas s) (spec_ImagePullSecrets s) p (spec_Runtime s)
    (spec_Service s) (spec_NetworkPolicy s) (spec_Autoscaling s) (spec_Resources s)
    (spec_PodMetadata s) (spec_Scheduling s).

Definition withAutoscaling (a : option RuntimeAutoscalingSpec) (s : TrussiumRuntimeSpec)
    : TrussiumRuntimeSpec :=
  mkSpec (spec_Image s) (spec_Replicas s) (spec_ImagePullSecrets s) (spec_Provider s)
    (spec_Runtime s) (spec_Service s) (spec_NetworkPolicy s) a (spec_Resources s)
    (spec_PodMetadata s) (spec_Scheduling s).

(** The sample runtime with another specification. *)
Definition sampleWith (f : TrussiumRuntimeSpec → TrussiumRuntimeSpec) : TrussiumRuntime :=
  mkRuntime noType sampleMeta (f sampleSpec) emptyStatus.

(** A Deployment of the sample runtime with the given status. *)
Definition sampleDeployment (s : DeploymentStatus) : Deployment :=
  mkDeployment (mkMeta "private-ai" "trussium" "uid-3" 1 None ∅ ∅ [] noRaw)
    (d_Spec (@buildDeployment RefKube.lib sampleRuntime)) s.

Definition rolledOut (n : Z) : DeploymentStatus := mkDeploymentStatus 1 n n n n 0 [].

Definition deadlineExceeded : DeploymentCondition :=
  mkDeploymentCondition "Progressing" ConditionFalse "ProgressDeadlineExceeded" EmptyString.

Definition sampleService : Service :=
  mkService (mkMeta "private-ai" "trussium" "uid-4" 1 None ∅ ∅ [] noRaw)
    (svc_Spec (buildService sampleRuntime)) noRaw.

Definition sampleClock (i : nat) : Time := (1000 + Z.of_nat i)%Z.

Example sampleSpec_valid : validSpec sampleSpec = true.
Proof. vm_compute. reflexivity. Qed.

(** ** Answers of the API server *)

Definition notFound : GoError := ErrApi (mkApiError "NotFound" "not found").
Definition timeoutError : GoError := ErrApi (mkApiError "Timeout" "timeout").

Definition sampleSecret : Secret :=
  mkSecret (mkMeta "openai-credentials" "trussium" "uid-5" 1 None ∅ ∅ [] noRaw) noRaw.

Definition missing {A} : result A := Err notFound.

(** A cluster with the runtime [r], its Secrets, a rolled-out Deployment and its
    Service; disabled resources do not exist. *)
Definition clusterAnswers (r : TrussiumRuntime) (secret : result Secret) (written : option GoError)
    (o : Op) : Resp o :=
  match o return Resp o with
  | OpGet k _ =>
      match k return result (obj k) with
      | KTrussiumRuntime => Ok r
      | KSecret => secret
      | KDeployment => Ok (sampleDeployment (rolledOut 2))
      | KService => Ok sampleService
      | _ => missing
      end
  | OpListRuntimes _ => Ok [r; otherRuntime]
  | OpCreateOrUpdate _ _ _ => written
  | OpDelete _ _ => Some notFound
  | OpStatusUpdate r => Ok r
  | OpEventf _ => tt
  | OpCountReconciliation _ => tt
  | OpObserveDuration _ _ => tt
  | OpNow => 7%Z
  end.

(** Everything succeeds, a referenced Secret is missing, every write fails. *)
Definition healthyAnswers := clusterAnswers sampleRuntime (Ok sampleSecret) None.
Definition noSecretAnswers := clusterAnswers sampleRuntime missing None.
Definition readOnlyAnswers := clusterAnswers sampleRuntime (Ok sampleSecret) (Some timeoutError).
