(* ===== verification/JsonProps.v ===== *)
(** * Properties of the wire format

    Every runtime the operator can hold in memory is read back from the JSON
    that is written for it, and the defaults the API server adds to a
    specification on the wire are those that [defaultSpec] adds to the
    specification in memory. *)

From S2P Require Import Prelude GoStd KubeTypes ApiTypes Json Samples.

(** ** Faithful codecs *)

(** Every value in [ok] is read back from what is written, which is not null. *)
Class Faithful {A} (c : Codec A) (ok : A → Prop) : Prop :=
  faithful a : ok a → dec c (enc c a) = Some a ∧ enc c a ≠ JNull.

Definition always {A} (_ : A) : Prop := True.

Definition pointsTo {A} (ok : A → Prop) (o : option A) : Prop := ∃ a, o = Some a ∧ ok a.

#[export] Instance faithful_string : Faithful jsonString utf8.
Proof. intros s Hs. simpl. by rewrite Hs. Qed.

#[export] Instance faithful_bool : Faithful jsonBool always.
Proof. done. Qed.

#[export] Instance faithful_int lo hi : Faithful (jsonIntIn lo hi) (λ z, lo <= z <= hi)%Z.
Proof. intros z Hz. split; [|done]. simpl. by rewrite (proj2 (inRange_spec lo hi z) Hz). Qed.

#[export] Instance faithful_int32 : Faithful jsonInt32 is_int32.
Proof. exact (faithful_int _ _). Qed.

#[export] Instance faithful_int64 : Faithful jsonInt64 is_int64.
Proof. exact (faithful_int _ _). Qed.

#[export] Instance faithful_pointer {A} (c : Codec A) ok :
  Faithful c ok → Faithful (jsonPointer c) (pointsTo ok).
Proof.
  intros Hc ? (a & -> & Ha). destruct (Hc a Ha) as [Hd Hn]. simpl. split; [|done].
  rewrite Hd. by destruct (enc c a).
Qed.

#[export] Instance faithful_slice {A} (c : Codec A) ok :
  Faithful c ok → Faithful (jsonSlice c) (Forall ok).
Proof.
  intros Hc l Hl. split; [|done]. apply mapM_fmap_Forall_Some.
  eapply Forall_impl; [exact Hl|]. intros a Ha. by apply Hc.
Qed.

(** Keys are text and values as they have to be. *)
Definition entriesOk {A} (ok : A → Prop) (m : gmap string A) : Prop :=
  map_Forall (λ k a, utf8 k ∧ ok a) m.

Lemma putEntries_ok {A} (c : Codec A) (m : gmap string A) keys :
  map_Forall (λ k _, utf8 k) m →
  (∀ k, k ∈ keys ↔ is_Some (m !! k)) → putEntries c m keys = enc c <$> m.
Proof.
  intros Hm Hk.
  assert (Hl : ∀ (acc : gmap string json) k, foldl (λ (acc : gmap string json) k, match m !! k with
      | Some a => <[toValidUTF8 k := enc c a]> acc | None => acc end) acc keys !! k
    = if decide (k ∈ keys) then match m !! k with Some a => Some (enc c a) | None => acc !! k end
      else acc !! k).
  { clear Hk. induction keys as [|k' keys IH]; intros acc k; cbn [foldl]; [done|].
    rewrite IH. destruct (m !! k') as [a|] eqn:Ha.
    - rewrite (Hm k' a Ha). destruct (decide (k = k')) as [->|Hne].
      + rewrite lookup_insert_eq, Ha. rewrite (decide_True (P := k' ∈ k' :: keys)) by by left.
        by destruct (decide _).
      + rewrite lookup_insert_ne by done.
        destruct (decide (k ∈ keys)); [rewrite decide_True by (by right)|rewrite decide_False by set_solver]; done.
    - destruct (decide (k = k')) as [->|Hne].
      + rewrite Ha. destruct (decide (k' ∈ keys)), (decide (k' ∈ k' :: keys)); done.
      + destruct (decide (k ∈ keys)); [rewrite decide_True by (by right)|rewrite decide_False by set_solver]; done. }
  apply map_eq. intros k. unfold putEntries. rewrite Hl, lookup_fmap, lookup_empty.
  destruct (decide (k ∈ keys)) as [Hin|Hn].
  - by destruct (m !! k).
  - rewrite Hk in Hn. destruct (m !! k); [|done]. by destruct Hn.
Qed.

#[export] Instance faithful_map {A} (c : Codec A) ok :
  Faithful c ok → Faithful (jsonMap c) (entriesOk ok).
Proof.
  intros Hc m Hm. split; [|done]. cbn [dec enc jsonMap]. rewrite putEntries_ok.
  2:{ eapply map_Forall_impl; [exact Hm|]. by intros k a [? _]. }
  2:{ intros k. by rewrite elem_of_sortStrings, elem_of_mapKeys. }
  assert (Hd : ∀ k a, m !! k = Some a → dec c (enc c a) = Some a)
    by (intros k a Ha; apply Hc; by apply (Hm k a)).
  rewrite bool_decide_true.
  - f_equal. apply map_eq. intros k. rewrite lookup_omap, lookup_fmap.
    destruct (m !! k) as [a|] eqn:Ha; [|done]. simpl. by rewrite (Hd k a Ha).
  - intros k j Hj. rewrite lookup_fmap in Hj. destruct (m !! k) as [a|] eqn:Ha; [|done].
    injection Hj as <-. by rewrite (Hd k a Ha).
Qed.

(** ** Fields *)

Section Fields.
Context {A B : Type} (c : Codec A) (c' : Codec B).

Lemma get_put_ne name name' zero b m :
  name ≠ name' → getField name c zero (putField name' c' b m) = getField name c zero m.
Proof. intros Hne. unfold getField, putField. by rewrite lookup_insert_ne. Qed.

Lemma get_omit_ne name name' zero empty b m :
  name ≠ name' → getField name c zero (putOmit empty name' c' b m) = getField name c zero m.
Proof. intros Hne. unfold putOmit. destruct (empty b); [done|]. by apply get_put_ne. Qed.

Lemma get_none name zero : getField name c zero ∅ = Some zero.
Proof. done. Qed.

Lemma get_put name zero ok a m :
  Faithful c ok → ok a → getField name c zero (putField name c a m) = Some a.
Proof.
  intros Hc Ha. destruct (Hc a Ha) as [Hd Hn]. unfold getField, putField.
  rewrite lookup_insert_eq, Hd. by destruct (enc c a).
Qed.

(** A field that is left out is read as the zero value it has. *)
Lemma get_omit name zero (empty : A → bool) ok a m :
  Faithful c ok → (empty a = true → a = zero) → (empty a = false → ok a) →
  getField name c zero m = Some zero →
  getField name c zero (putOmit empty name c a m) = Some a.
Proof.
  intros Hc Hz Ha Hm. unfold putOmit. destruct (empty a) eqn:He.
  - by rewrite Hz.
  - by apply (get_put name zero ok a m Hc), Ha.
Qed.

End Fields.

Lemma emptyString_zero s : emptyString s = true → s = EmptyString.
Proof. apply bool_decide_eq_true. Qed.
Lemma emptyInt_zero z : emptyInt z = true → z = 0%Z.
Proof. apply Z.eqb_eq. Qed.
Lemma nilPointer_zero {A} (o : option A) : nilPointer o = true → o = None.
Proof. by destruct o. Qed.
Lemma emptySlice_zero {A} (l : list A) : emptySlice l = true → l = [].
Proof. by destruct l. Qed.
Lemma emptyMap_zero {A} (m : gmap string A) : emptyMap m = true → m = ∅.
Proof. apply bool_decide_eq_true. Qed.
Lemma negb_zero b : negb b = true → b = false.
Proof. by destruct b. Qed.
Lemma nilPointer_some {A} (ok : A → Prop) (o : option A) :
  from_option ok True o → nilPointer o = false → pointsTo ok o.
Proof. destruct o as [a|]; [|done]. intros Ha _. by exists a. Qed.

Lemma always_option {A} (o : option A) : from_option always True o.
Proof. by destruct o. Qed.
Lemma always_list {A} (l : list A) : Forall always l.
Proof. by apply Forall_true. Qed.

Create HintDb wire.
#[export] Hint Resolve emptyString_zero emptyInt_zero nilPointer_zero emptySlice_zero
  emptyMap_zero negb_zero nilPointer_some always_option always_list : wire.
#[export] Hint Extern 1 (always _) => exact I : wire.

(** Skips the fields of other names. *)
Ltac skip_fields :=
  repeat first [rewrite get_omit_ne by discriminate | rewrite get_put_ne by discriminate].

(** Reads the next field of a struct back. *)
Ltac read_field :=
  skip_fields;
  first
    [ erewrite get_put by (first [typeclasses eauto | eauto with wire])
    | erewrite get_omit; [|typeclasses eauto|eauto with wire|eauto with wire
                         |skip_fields; apply get_none] ];
  cbn [mbind option_bind].

(** Reads a struct back, field by field. *)
Ltac read_struct :=
  split; [|done];
  match goal with
  | |- dec (?c _) _ = _ => unfold c
  | |- dec ?c _ = _ => unfold c
  end;
  cbn [dec enc jsonStruct]; unfold putTypeMeta, getTypeMeta; repeat read_field.

(** ** Values of the Go types

    Integers are in the range of their type; strings are valid UTF-8, as those
    that were read from JSON are; and times that come from the API server are
    whole seconds. *)

Definition wholeSeconds (t : Time) : Prop := (t mod 1000000000 = 0)%Z.

Definition rawOk (x : RawJSON) : Prop := utf8 (raw_Text x).
Definition stringsOk (m : gmap string string) : Prop := entriesOk utf8 m.
Definition selectorOk (s : LabelSelector) : Prop :=
  stringsOk (ls_MatchLabels s) ∧ Forall rawOk (ls_MatchExpressions s).

Definition namedOk (r : NamedReference) : Prop := utf8 (nr_Name r).
Definition secretKeyOk (r : SecretKeyReference) : Prop := utf8 (skr_Name r) ∧ utf8 (skr_Key r).

Definition imageOk (i : RuntimeImageSpec) : Prop :=
  utf8 (img_Repository i) ∧ from_option utf8 True (img_Tag i)
  ∧ from_option utf8 True (img_Digest i) ∧ utf8 (img_PullPolicy i).

Definition providerOk (p : ProviderSpec) : Prop :=
  utf8 (prov_Type p) ∧ utf8 (prov_Model p) ∧ from_option utf8 True (prov_BaseURL p)
  ∧ from_option secretKeyOk True (prov_CredentialsSecretRef p).

Definition ingressOk (r : RuntimeNetworkPolicyIngressRule) : Prop :=
  selectorOk (ri_NamespaceSelector r) ∧ from_option selectorOk True (ri_PodSelector r).

Definition policyOk (n : RuntimeNetworkPolicySpec) : Prop := Forall ingressOk (rnp_Ingress n).

Definition podMetadataOk (p : PodMetadataSpec) : Prop :=
  stringsOk (pm_Labels p) ∧ stringsOk (pm_Annotations p).

Definition schedulingOk (s : SchedulingSpec) : Prop :=
  stringsOk (sch_NodeSelector s) ∧ Forall (λ t, rawOk (tol_Raw t)) (sch_Tolerations s)
  ∧ from_option (λ a, rawOk (aff_Raw a)) True (sch_Affinity s).

Definition settingsOk (s : RuntimeSettingsSpec) : Prop :=
  from_option is_int32 True (rs_ProviderRequestTimeoutSeconds s)
  ∧ from_option is_int32 True (rs_StreamIdleTimeoutSeconds s)
  ∧ from_option is_int32 True (rs_ShutdownDrainTimeoutSeconds s).

Definition serviceOk (s : RuntimeServiceSpec) : Prop :=
  utf8 (rsvc_Type s) ∧ is_int32 (rsvc_Port s).

Definition autoscalingOk (a : RuntimeAutoscalingSpec) : Prop :=
  is_int32 (as_MinReplicas a) ∧ is_int32 (as_MaxReplicas a)
  ∧ is_int32 (as_TargetCPUUtilizationPercentage a).

Definition specOk (s : TrussiumRuntimeSpec) : Prop :=
  imageOk (spec_Image s)
  ∧ from_option is_int32 True (spec_Replicas s)
  ∧ Forall namedOk (spec_ImagePullSecrets s)
  ∧ providerOk (spec_Provider s)
  ∧ from_option settingsOk True (spec_Runtime s)
  ∧ serviceOk (spec_Service s)
  ∧ from_option policyOk True (spec_NetworkPolicy s)
  ∧ from_option autoscalingOk True (spec_Autoscaling s)
  ∧ rawOk (res_Raw (spec_Resources s))
  ∧ from_option podMetadataOk True (spec_PodMetadata s)
  ∧ from_option schedulingOk True (spec_Scheduling s).

Definition conditionOk (c : Condition) : Prop :=
  is_int64 (c_ObservedGeneration c) ∧ wholeSeconds (c_LastTransitionTime c)
  ∧ utf8 (c_Type c) ∧ utf8 (c_Reason c) ∧ utf8 (c_Message c).

Definition statusOk (s : TrussiumRuntimeStatus) : Prop :=
  is_int64 (st_ObservedGeneration s) ∧ is_int32 (st_ReadyReplicas s)
  ∧ is_int32 (st_AvailableReplicas s) ∧ utf8 (st_DesiredImage s) ∧ utf8 (st_CurrentImage s)
  ∧ utf8 (st_LastSuccessfulImage s) ∧ utf8 (st_Endpoint s) ∧ Forall conditionOk (st_Conditions s).

Definition ownerOk (o : OwnerReference) : Prop :=
  utf8 (or_APIVersion o) ∧ utf8 (or_Kind o) ∧ utf8 (or_Name o) ∧ utf8 (or_UID o).

Definition metaOk (m : ObjectMeta) : Prop :=
  is_int64 (om_Generation m) ∧ from_option wholeSeconds True (om_DeletionTimestamp m)
  ∧ utf8 (om_Name m) ∧ utf8 (om_Namespace m) ∧ utf8 (om_UID m)
  ∧ stringsOk (om_Labels m) ∧ stringsOk (om_Annotations m)
  ∧ Forall ownerOk (om_OwnerReferences m) ∧ rawOk (om_Raw m).

Definition typeOk (t : TypeMeta) : Prop := utf8 (tm_Kind t) ∧ utf8 (tm_APIVersion t).

Definition runtimeOk (r : TrussiumRuntime) : Prop :=
  typeOk (rt_TypeMeta r) ∧ metaOk (rt_Meta r) ∧ specOk (rt_Spec r) ∧ statusOk (rt_Status r).

Definition runtimeListOk (l : TrussiumRuntimeList) : Prop :=
  typeOk (rl_TypeMeta l) ∧ rawOk (lm_Raw (rl_Meta l)) ∧ Forall runtimeOk (rl_Items l).

(** The codecs of the Kubernetes types read back what they write. *)
Class WireLaws `{WireLib} : Prop := {
  faithful_selector :: Faithful jsonLabelSelector selectorOk;
  faithful_toleration :: Faithful jsonToleration (λ t, rawOk (tol_Raw t));
  faithful_affinity :: Faithful jsonAffinity (λ a, rawOk (aff_Raw a));
  faithful_resources :: Faithful jsonResourceRequirements (λ x, rawOk (res_Raw x));
  faithful_condition :: Faithful jsonCondition conditionOk;
  faithful_meta :: Faithful jsonObjectMeta metaOk;
  faithful_listMeta :: Faithful jsonListMeta (λ m, rawOk (lm_Raw m))
}.

Section Codecs.
Context `{WireLaws}.

#[export] Instance faithful_named : Faithful jsonNamedReference namedOk.
Proof. intros [n] Hn. read_struct. done. Qed.

#[export] Instance faithful_secretKey : Faithful jsonSecretKeyReference secretKeyOk.
Proof. intros [n k] [H1 H2]. read_struct. done. Qed.

#[export] Instance faithful_image : Faithful jsonRuntimeImageSpec imageOk.
Proof. intros [r t d p] (H1 & H2 & H3 & H4). read_struct. done. Qed.

#[export] Instance faithful_provider : Faithful jsonProviderSpec providerOk.
Proof. intros [t m b c] (H1 & H2 & H3 & H4). read_struct. done. Qed.

#[export] Instance faithful_settings : Faithful jsonRuntimeSettingsSpec settingsOk.
Proof. intros [a b c] (H1 & H2 & H3). read_struct. done. Qed.

#[export] Instance faithful_service : Faithful jsonRuntimeServiceSpec serviceOk.
Proof. intros [t p] [Ht Hp]. read_struct. done. Qed.

#[export] Instance faithful_ingress : Faithful jsonRuntimeNetworkPolicyIngressRule ingressOk.
Proof. intros [n p] [Hn Hp]. read_struct. done. Qed.

#[export] Instance faithful_policy : Faithful jsonRuntimeNetworkPolicySpec policyOk.
Proof. intros [e i] Hi. unfold policyOk in Hi. read_struct. done. Qed.

#[export] Instance faithful_autoscaling : Faithful jsonRuntimeAutoscalingSpec autoscalingOk.
Proof. intros [e a b c] (H1 & H2 & H3). read_struct. done. Qed.

#[export] Instance faithful_podMetadata : Faithful jsonPodMetadataSpec podMetadataOk.
Proof. intros [l a] [Hl Ha]. read_struct. done. Qed.

#[export] Instance faithful_scheduling : Faithful jsonSchedulingSpec schedulingOk.
Proof. intros [n t a] (H1 & H2 & H3). read_struct. done. Qed.

#[export] Instance faithful_spec : Faithful jsonTrussiumRuntimeSpec specOk.
Proof.
  intros [i r ps p rt s n a rs pm sc] (H1 & H2 & H3 & H4 & H5 & H6 & H7 & H8 & H9 & H10 & H11).
  read_struct. done.
Qed.

#[export] Instance faithful_status : Faithful jsonTrussiumRuntimeStatus statusOk.
Proof. intros [g r a d c l e cs] (H1 & H2 & H3 & H4 & H5 & H6 & H7 & H8). read_struct. done. Qed.

#[export] Instance faithful_runtime : Faithful jsonTrussiumRuntime runtimeOk.
Proof. intros [[kind version] m s st] ([H1 H2] & H3 & H4 & H5). read_struct. done. Qed.

#[export] Instance faithful_runtimeList : Faithful jsonTrussiumRuntimeList runtimeListOk.
Proof. intros [[kind version] m l] ([H1 H2] & H3 & H4). read_struct. done. Qed.

End Codecs.

(** ** Defaults on the wire *)

Definition getOption {A} (c : Codec A) (zero : A) (o : option json) : option A :=
  match o with None | Some JNull => Some zero | Some j => dec c j end.

Lemma getField_option {A} name (c : Codec A) zero m :
  getField name c zero m = getOption c zero (m !! name).
Proof. done. Qed.

(** A property after defaulting. *)
Definition defaultedProperty (value : option json) (sub : schema) (o : option json) : option json :=
  match o with
  | None | Some JNull => applyDefaults sub <$> value
  | Some j => Some (applyDefaults sub j)
  end.

Fixpoint propertyNames (s : schema) : list string :=
  match s with NoDefaults => [] | Property name _ _ rest => name :: propertyNames rest end.

Fixpoint propertyOf (name : string) (s : schema) : option (option json * schema) :=
  match s with
  | NoDefaults => None
  | Property name' value sub rest =>
      if decide (name' = name) then Some (value, sub) else propertyOf name rest
  end.

Lemma propertyOf_none name s : name ∉ propertyNames s → propertyOf name s = None.
Proof.
  induction s as [|name' value sub _ rest IH]; simpl; [done|]. rewrite not_elem_of_cons.
  intros [Hne Hn]. rewrite decide_False by congruence. by apply IH.
Qed.

Lemma lookup_applyProperties name s m :
  NoDup (propertyNames s) →
  applyProperties s m !! name =
    match propertyOf name s with
    | Some (value, sub) => defaultedProperty value sub (m !! name)
    | None => m !! name
    end.
Proof.
  revert m. induction s as [|name' value sub _ rest IH]; intros m Hnd; [done|].
  apply NoDup_cons in Hnd as [Hn Hnd]. cbn [applyProperties propertyOf].
  fold (applyDefaults sub). rewrite IH by done. case_decide as Heq.
  - subst name'. rewrite (propertyOf_none name rest Hn). unfold defaultedProperty.
    destruct (m !! name) as [[]|]; try by rewrite lookup_insert_eq.
    all: by destruct value; [rewrite lookup_insert_eq|rewrite lookup_delete_eq].
  - assert (Hkeep : ∀ j, <[name':=j]> m !! name = m !! name) by (intros j; by rewrite lookup_insert_ne).
    assert (Hdel : delete name' m !! name = m !! name) by by rewrite lookup_delete_ne.
    destruct (propertyOf name rest) as [[v' sub']|]; [f_equal|];
      (destruct (m !! name') as [[]|]; [..|]; try apply Hkeep; by destruct value).
Qed.

Lemma applyDefaults_none j : applyDefaults NoDefaults j = j.
Proof. by destruct j. Qed.

(** A scalar that is absent or null becomes its default, another is kept. *)
Lemma default_scalar {A} (c : Codec A) zero d j a o :
  dec c j = Some d → j ≠ JNull → getOption c zero o = Some a →
  ∃ a', getOption c zero (defaultedProperty (Some j) NoDefaults o) = Some a'
    ∧ (a' ≠ zero → a' = a ∧ a ≠ zero ∨ a' = d ∧ a = zero).
Proof.
  intros Hj Hn Ho.
  assert (Hd : getOption c zero (Some j) = Some d) by by destruct j.
  destruct o as [[]|]; simpl in *; rewrite ?applyDefaults_none;
    first [exists a; split; [done|]; intros ?; left; by split
          |exists d; split; [done|]; intros ?; right; split; [done|]; congruence].
Qed.

(** A boolean whose default is false. *)
Lemma default_false o b :
  getOption jsonBool false o = Some b →
  getOption jsonBool false (defaultedProperty (Some (JBool false)) NoDefaults o) = Some b.
Proof. by destruct o as [[]|]. Qed.

(** A field that has no default. *)
Lemma get_undefaulted {A} name (c : Codec A) zero s m :
  NoDup (propertyNames s) → propertyOf name s = None →
  getField name c zero (applyProperties s m) = getField name c zero m.
Proof. intros Hnd Hn. rewrite !getField_option, lookup_applyProperties by done. by rewrite Hn. Qed.

Lemma get_defaulted {A} name (c : Codec A) zero s m value sub :
  NoDup (propertyNames s) → propertyOf name s = Some (value, sub) →
  getField name c zero (applyProperties s m) = getOption c zero (defaultedProperty value sub (m !! name)).
Proof. intros Hnd Hn. rewrite getField_option, lookup_applyProperties by done. by rewrite Hn. Qed.

(** Splits the reading of a struct into its fields. *)
Ltac fields_inv H :=
  repeat (let x := fresh "x" in let Hx := fresh "Hx" in apply bind_Some in H as (x & Hx & H));
  injection H as <-.

(** Unfolds the reading of a struct, but not its schema. *)
Ltac open_struct :=
  cbn [getOption defaultedProperty applyDefaults dec jsonStruct jsonPointer].

(** Field of a concrete schema, with or without a default. *)
Ltac schema_field :=
  first
    [ rewrite get_undefaulted by (first [by apply (bool_decide_unpack _)|reflexivity])
    | erewrite get_defaulted by (first [by apply (bool_decide_unpack _)|reflexivity]) ].

Lemma orDefaultString_spec a a' d :
  a' = a ∧ a ≠ EmptyString ∨ a' = d ∧ a = EmptyString → a' = orDefaultString a d.
Proof. unfold orDefaultString. intros [[-> Ha]|[-> ->]]; by case_decide. Qed.

Lemma orDefaultZ_spec a a' d : a' = a ∧ a ≠ 0%Z ∨ a' = d ∧ a = 0%Z → a' = orDefaultZ a d.
Proof. unfold orDefaultZ. intros [[-> Ha]|[-> ->]]; by case_decide. Qed.

Section Defaults.
Context `{WireLib}.

Lemma default_image o i :
  getOption jsonRuntimeImageSpec zeroImage o = Some i →
  ∃ i', getOption jsonRuntimeImageSpec zeroImage (defaultedProperty None imageSchema o) = Some i'
    ∧ (img_PullPolicy i' ≠ EmptyString → i' = defaultImage i).
Proof.
  assert (Hzero : ∃ i', Some zeroImage = Some i' ∧ (img_PullPolicy i' ≠ EmptyString → i' = defaultImage i))
    by (by exists zeroImage).
  destruct o as [[]|]; try done. unfold jsonRuntimeImageSpec; open_struct. intros Hi. fields_inv Hi.
  destruct (default_scalar jsonString EmptyString "IfNotPresent" (JString "IfNotPresent") _
    (m !! "pullPolicy") eq_refl ltac:(done) Hx2) as (p & Hp & Hd).
  exists (mkImage x x0 x1 p). do 4 schema_field. rewrite Hx, Hx0, Hx1. cbn [mbind option_bind].
  rewrite Hp. split; [done|]. simpl. intros Hne. unfold defaultImage. simpl.
  by rewrite <-(orDefaultString_spec _ _ _ (Hd Hne)).
Qed.

Lemma default_service_object m s :
  dec jsonRuntimeServiceSpec (JObject m) = Some s →
  ∃ s', dec jsonRuntimeServiceSpec (JObject (applyProperties serviceSchema m)) = Some s'
    ∧ (rsvc_Type s' ≠ EmptyString → rsvc_Port s' ≠ 0%Z → s' = defaultRuntimeService s).
Proof.
  unfold jsonRuntimeServiceSpec; open_struct. intros Hs. fields_inv Hs.
  destruct (default_scalar jsonString EmptyString "ClusterIP" (JString "ClusterIP") _
    (m !! "type") eq_refl ltac:(done) Hx) as (t & Ht & Hdt).
  destruct (default_scalar jsonInt32 0%Z 9000%Z (JNumber 9000) _
    (m !! "port") eq_refl ltac:(done) Hx0) as (p & Hp & Hdp).
  exists (mkRuntimeService t p). do 2 schema_field. rewrite Ht. cbn [mbind option_bind]. rewrite Hp.
  split; [done|]. simpl. intros Hnt Hnp. unfold defaultRuntimeService. simpl.
  by rewrite <-(orDefaultString_spec _ _ _ (Hdt Hnt)), <-(orDefaultZ_spec _ _ _ (Hdp Hnp)).
Qed.

Lemma default_service o s :
  getOption jsonRuntimeServiceSpec zeroService o = Some s →
  ∃ s', getOption jsonRuntimeServiceSpec zeroService
          (defaultedProperty (Some (JObject ∅)) serviceSchema o) = Some s'
    ∧ (rsvc_Type s' ≠ EmptyString → rsvc_Port s' ≠ 0%Z → s' = defaultRuntimeService s).
Proof.
  destruct o as [[]|]; try done; simpl; intros Hs.
  - injection Hs as <-. exact (default_service_object ∅ zeroService eq_refl).
  - exact (default_service_object m s Hs).
  - injection Hs as <-. exact (default_service_object ∅ zeroService eq_refl).
Qed.

Lemma default_policy o n :
  getOption (jsonPointer jsonRuntimeNetworkPolicySpec) None o = Some n →
  getOption (jsonPointer jsonRuntimeNetworkPolicySpec) None
    (defaultedProperty None networkPolicySchema o) = Some n.
Proof.
  destruct o as [[]|]; try done. unfold jsonRuntimeNetworkPolicySpec; open_struct. intros Hn.
  apply fmap_Some in Hn as (n' & Hn & ->). fields_inv Hn.
  do 2 schema_field. rewrite (default_false _ _ Hx). cbn [mbind option_bind]. by rewrite Hx0.
Qed.

Lemma default_autoscaling o a :
  getOption (jsonPointer jsonRuntimeAutoscalingSpec) None o = Some a →
  ∃ a', getOption (jsonPointer jsonRuntimeAutoscalingSpec) None
          (defaultedProperty None autoscalingSchema o) = Some a'
    ∧ (optionValid validAutoscaling a' = true → a' = defaultAutoscaling <$> a).
Proof.
  destruct o as [[]|]; try done; unfold jsonRuntimeAutoscalingSpec; open_struct; intros Ha;
    try (injection Ha as <-; by exists None).
  apply fmap_Some in Ha as (s & Hs & ->). fields_inv Hs.
  destruct (default_scalar jsonInt32 0%Z 1%Z (JNumber 1) _
    (m !! "minReplicas") eq_refl ltac:(done) Hx0) as (lo & Hlo & Hdlo).
  destruct (default_scalar jsonInt32 0%Z 10%Z (JNumber 10) _
    (m !! "maxReplicas") eq_refl ltac:(done) Hx1) as (hi & Hhi & Hdhi).
  destruct (default_scalar jsonInt32 0%Z 80%Z (JNumber 80) _
    (m !! "targetCPUUtilizationPercentage") eq_refl ltac:(done) Hx2) as (cpu & Hcpu & Hdcpu).
  exists (Some (mkAutoscaling x lo hi cpu)). do 4 schema_field.
  rewrite (default_false _ _ Hx). cbn [mbind option_bind]. rewrite Hlo. cbn [mbind option_bind].
  rewrite Hhi. cbn [mbind option_bind]. rewrite Hcpu. split; [done|]. simpl.
  unfold validAutoscaling. rewrite !andb_true_iff, !inRange_spec. simpl. intros [[[H1 H2] H3] _].
  unfold defaultAutoscaling. simpl. do 2 f_equal; apply orDefaultZ_spec; auto with lia.
Qed.

Lemma default_replicas o n :
  getOption (jsonPointer jsonInt32) None o = Some n →
  getOption (jsonPointer jsonInt32) None (defaultedProperty (Some (JNumber 1)) NoDefaults o)
  = Some (Some (default 1%Z n)).
Proof.
  destruct o as [[]|]; simpl; intros Hn; try done; try (by injection Hn as <-).
  by destruct (inRange int32_min int32_max z); [injection Hn as <-|].
Qed.

End Defaults.

(** What validity says of the fields with defaults. *)
Lemma valid_nonzero s :
  validSpec s = true →
  img_PullPolicy (spec_Image s) ≠ EmptyString ∧ rsvc_Type (spec_Service s) ≠ EmptyString
  ∧ rsvc_Port (spec_Service s) ≠ 0%Z ∧ optionValid validAutoscaling (spec_Autoscaling s) = true.
Proof.
  intros (Hi & _ & _ & _ & _ & Hs & _ & Ha)%validSpec_parts.
  unfold validImage in Hi. apply andb_true_iff in Hi as [_ Hi]. rewrite slicesContains_spec in Hi.
  unfold validRuntimeService in Hs. rewrite andb_true_iff, slicesContains_spec, inRange_spec in Hs.
  destruct Hs as [Ht Hp]. split_and!; [| |lia|done]; intros Hz; rewrite Hz in *; set_solver.
Qed.

Lemma orDefaultString_id s d : s ≠ EmptyString → orDefaultString s d = s.
Proof. intros Hs. unfold orDefaultString. by case_decide. Qed.

Lemma orDefaultZ_id z d : z ≠ 0%Z → orDefaultZ z d = z.
Proof. intros Hz. unfold orDefaultZ. by case_decide. Qed.

(** An accepted specification has its defaults. *)
Lemma defaultSpec_valid s : validSpec s = true → is_Some (spec_Replicas s) → defaultSpec s = s.
Proof.
  intros Hv [n Hn]. destruct (valid_nonzero s Hv) as (Hi & Ht & Hp & Ha).
  destruct s as [[] r ps p rt [] np [[e a b c]|] rs pm sc]; simpl in *; subst;
    unfold defaultSpec, defaultImage, defaultRuntimeService, defaultAutoscaling; simpl;
    rewrite !orDefaultString_id, !orDefaultZ_id by done; try done.
  unfold validAutoscaling in Ha. rewrite !andb_true_iff, !inRange_spec in Ha. simpl in Ha.
  by rewrite !orDefaultZ_id by lia.
Qed.

(** C15. The wire format loses nothing that the API server can hold: every runtime
    whose integers fit their Go types, whose strings are valid UTF-8 and whose
    times are whole seconds, to which the API server cuts them, is read back from
    the JSON that is written for it, and so is a list of them, although empty
    fields are left out, absent pointers are not written and empty structs are. *)
Theorem runtime_json_roundtrip `{WireLaws} (r : TrussiumRuntime) (l : TrussiumRuntimeList) :
  runtimeOk r → runtimeListOk l →
  dec jsonTrussiumRuntime (enc jsonTrussiumRuntime r) = Some r
  ∧ dec jsonTrussiumRuntimeList (enc jsonTrussiumRuntimeList l) = Some l.
Proof. intros Hr Hl. split; [by apply faithful_runtime|by apply faithful_runtimeList]. Qed.

(** C16. Defaulting on the wire: take any JSON that can be read as a
    specification, whatever fields it has, spells out as null or leaves out.
    With the defaults of the schema it can still be read, and when the result
    is accepted by the schema it is the specification with the defaults of
    [defaultSpec]; defaulting it once more changes nothing. *)
Theorem schema_defaults_on_the_wire `{WireLib} (j : json) (s : TrussiumRuntimeSpec) :
  dec jsonTrussiumRuntimeSpec j = Some s →
  ∃ s', dec jsonTrussiumRuntimeSpec (applyDefaults specSchema j) = Some s'
    ∧ (validSpec s' = true → s' = defaultSpec s ∧ defaultSpec s' = s').
Proof.
  intros Hs. destruct j as [| | | | |m]; try done; [by exists s; injection Hs as <-|].
  unfold jsonTrussiumRuntimeSpec in *.
  cbn [dec jsonStruct applyDefaults] in *. fields_inv Hs.
  destruct (default_image _ _ Hx) as (i & Hi & Hdi).
  destruct (default_service _ _ Hx4) as (sv & Hsv & Hdsv).
  destruct (default_autoscaling _ _ Hx6) as (a & Ha & Hda).
  pose proof (default_replicas _ _ Hx0) as Hr. pose proof (default_policy _ _ Hx5) as Hn.
  eexists. split.
  - do 11 schema_field.
    repeat first [rewrite Hi|rewrite Hr|rewrite Hx1|rewrite Hx2|rewrite Hx3|rewrite Hsv|rewrite Hn
                 |rewrite Ha|rewrite Hx7|rewrite Hx8|rewrite Hx9]; cbn [mbind option_bind].
    done.
  - intros Hv. destruct (valid_nonzero _ Hv) as (Hi1 & Ht & Hp & Hva). split.
    + unfold defaultSpec. simpl in *. by rewrite Hdi, Hdsv, Hda.
    + by apply defaultSpec_valid.
Qed.

(** ** A concrete wire format for the Kubernetes types *)

Module RefWire.

Definition raw {A} (make : RawJSON → A) (text : A → RawJSON) : Codec A :=
  mkCodec (λ a, JString (raw_Text (text a)))
    (λ j, match j with JString s => Some (make (mkRaw s)) | _ => None end).

Definition status : Codec ConditionStatus :=
  mkCodec (λ s, JString match s with
                        | ConditionTrue => "True" | ConditionFalse => "False"
                        | ConditionUnknown => "Unknown" end)
    (λ j, match j with
          | JString s =>
              if decide (s = "True") then Some ConditionTrue
              else if decide (s = "False") then Some ConditionFalse else Some ConditionUnknown
          | _ => None
          end).

(** Times in seconds. *)
Definition time : Codec Time :=
  mkCodec (λ t, JNumber (t / 1000000000)%Z)
    (λ j, match j with JNumber z => Some (z * 1000000000)%Z | _ => None end).

Definition owner : Codec OwnerReference :=
  mkCodec
    (λ o, JArray [JString (or_APIVersion o); JString (or_Kind o); JString (or_Name o);
                  JString (or_UID o); JBool (or_Controller o); JBool (or_BlockOwnerDeletion o)])
    (λ j, match j with
          | JArray [JString a; JString k; JString n; JString u; JBool c; JBool b] =>
              Some (mkOwner a k n u c b)
          | _ => None
          end).

#[export] Instance lib : WireLib := {|
  jsonLabelSelector := jsonStruct
    (λ s m, putField "matchLabels" (jsonMap jsonString) (ls_MatchLabels s)
              (putField "matchExpressions" (jsonSlice (raw id id)) (ls_MatchExpressions s) m))
    (λ m, labels ← getField "matchLabels" (jsonMap jsonString) ∅ m;
          exprs ← getField "matchExpressions" (jsonSlice (raw id id)) [] m;
          Some (mkSelector labels exprs));
  jsonToleration := raw mkToleration tol_Raw;
  jsonAffinity := raw mkAffinity aff_Raw;
  jsonResourceRequirements := raw mkResources res_Raw;
  jsonListMeta := raw mkListMeta lm_Raw;
  jsonCondition := jsonStruct
    (λ c m, putField "type" jsonString (c_Type c)
              (putField "status" status (c_Status c)
              (putField "observedGeneration" jsonInt64 (c_ObservedGeneration c)
              (putField "lastTransitionTime" time (c_LastTransitionTime c)
              (putField "reason" jsonString (c_Reason c)
              (putField "message" jsonString (c_Message c) m))))))
    (λ m, t ← getField "type" jsonString EmptyString m;
          s ← getField "status" status ConditionUnknown m;
          g ← getField "observedGeneration" jsonInt64 0%Z m;
          l ← getField "lastTransitionTime" time 0%Z m;
          r ← getField "reason" jsonString EmptyString m;
          msg ← getField "message" jsonString EmptyString m;
          Some (mkCondition t s g l r msg));
  jsonObjectMeta := jsonStruct
    (λ o m, putField "name" jsonString (om_Name o)
              (putField "namespace" jsonString (om_Namespace o)
              (putField "uid" jsonString (om_UID o)
              (putField "generation" jsonInt64 (om_Generation o)
              (putOmit nilPointer "deletionTimestamp" (jsonPointer time) (om_DeletionTimestamp o)
              (putField "labels" (jsonMap jsonString) (om_Labels o)
              (putField "annotations" (jsonMap jsonString) (om_Annotations o)
              (putField "ownerReferences" (jsonSlice owner) (om_OwnerReferences o)
              (putField "rest" (raw id id) (om_Raw o) m)))))))))
    (λ m, name ← getField "name" jsonString EmptyString m;
          ns ← getField "namespace" jsonString EmptyString m;
          uid ← getField "uid" jsonString EmptyString m;
          g ← getField "generation" jsonInt64 0%Z m;
          d ← getField "deletionTimestamp" (jsonPointer time) None m;
          l ← getField "labels" (jsonMap jsonString) ∅ m;
          a ← getField "annotations" (jsonMap jsonString) ∅ m;
          os ← getField "ownerReferences" (jsonSlice owner) [] m;
          rest ← getField "rest" (raw id id) noRaw m;
          Some (mkMeta name ns uid g d l a os rest))
|}.

Lemma faithful_raw {A} (make : RawJSON → A) text :
  (∀ a, make (text a) = a) → Faithful (raw make text) always.
Proof.
  intros Hmake a _. split; [|done]. simpl. rewrite <-(Hmake a) at 2. by destruct (text a).
Qed.

#[export] Instance faithful_text : Faithful (raw id id) always.
Proof. by apply faithful_raw. Qed.

#[export] Instance faithful_conditionStatus : Faithful status always.
Proof. by intros []. Qed.

#[export] Instance faithful_time : Faithful time wholeSeconds.
Proof.
  intros t Ht. split; [|done]. simpl. unfold wholeSeconds in Ht. f_equal.
  rewrite (Z.div_mod t 1000000000) at 2 by lia. lia.
Qed.

#[export] Instance faithful_owner : Faithful owner always.
Proof. by intros []. Qed.

#[export] Instance laws : @WireLaws lib.
Proof.
  split.
  - intros [l e] [Hl He]. split; [|done].
    cbn [dec enc jsonStruct jsonLabelSelector lib]. repeat read_field. done.
  - intros x _. apply (faithful_raw mkToleration tol_Raw); [by intros []|done].
  - intros x _. apply (faithful_raw mkAffinity aff_Raw); [by intros []|done].
  - intros x _. apply (faithful_raw mkResources res_Raw); [by intros []|done].
  - intros [t s g l r m] (H1 & H2 & H3 & H4 & H5). split; [|done].
    cbn [dec enc jsonStruct jsonCondition lib]. repeat read_field. done.
  - intros [n ns u g d l a os r] (H1 & H2 & H3 & H4 & H5 & H6 & H7 & H8 & H9). split; [|done].
    cbn [dec enc jsonStruct jsonObjectMeta lib]. repeat read_field. done.
  - intros x _. apply (faithful_raw mkListMeta lm_Raw); [by intros []|done].
Qed.

End RefWire.

(** Solves the side conditions on a concrete runtime. *)
Ltac wire_ok :=
  repeat first
    [ match goal with
      | |- stringsOk ?m => change (map_Forall (λ k v, utf8 k ∧ utf8 v) m);
          apply (bool_decide_unpack _); vm_compute; exact I
      end
    | reflexivity | split | progress simpl | apply Forall_nil_2 | apply Forall_cons_2
    | progress (unfold int32_min, int32_max, int64_min, int64_max; simpl; lia) ].

Lemma runtime_json_roundtrip_witness :
  let l := mkRuntimeList noType (mkListMeta noRaw) [sampleRuntime; otherRuntime] in
  runtimeOk sampleRuntime ∧ runtimeListOk l
  ∧ @dec _ (@jsonTrussiumRuntime RefWire.lib) (enc (@jsonTrussiumRuntime RefWire.lib) sampleRuntime)
    = Some sampleRuntime
  ∧ dec (@jsonTrussiumRuntimeList RefWire.lib) (enc (@jsonTrussiumRuntimeList RefWire.lib) l) = Some l.
Proof.
  intros l.
  assert (Hok : runtimeOk sampleRuntime) by wire_ok.
  assert (Hl : runtimeListOk l) by wire_ok.
  split; [exact Hok|]. split; [exact Hl|].
  exact (@runtime_json_roundtrip RefWire.lib RefWire.laws sampleRuntime l Hok Hl).
Defined.

(** The least a user can write. *)
Definition minimalSpec : json :=
  JObject (<["image" := JObject (<["repository" := JString "ghcr.io/trussiumhq/trussium"]>
                                (<["tag" := JString "v1.22.0"]> ∅))]>
          (<["provider" := JObject (<["type" := JString "ollama"]> (<["model" := JString "llama"]> ∅))]>
          (<["autoscaling" := JObject (<["enabled" := JBool true]> ∅)]>
          (<["service" := JNull]> ∅)))).

Lemma schema_defaults_on_the_wire_witness :
  ∃ s, dec (@jsonTrussiumRuntimeSpec RefWire.lib) minimalSpec = Some s
    ∧ ∃ s', dec (@jsonTrussiumRuntimeSpec RefWire.lib) (applyDefaults specSchema minimalSpec) = Some s'
      ∧ spec_Replicas s' = Some 1%Z ∧ spec_Service s' = mkRuntimeService "ClusterIP" 9000
      ∧ spec_Autoscaling s' = Some (mkAutoscaling true 1 10 80) ∧ s' = defaultSpec s.
Proof.
  eexists. split; [vm_compute; reflexivity|].
  destruct (@schema_defaults_on_the_wire RefWire.lib minimalSpec _ eq_refl) as (s' & Hs' & Hd).
  exists s'. split; [exact Hs'|]. vm_compute in Hs'. injection Hs' as <-.
  destruct (Hd eq_refl) as [Heq _]. split_and!; [reflexivity..|exact Heq].
Defined.
