(* ===== verification/ResourceProps.v ===== *)
(** * Properties of the desired resources

    Theorems about [Resources]: the checksum payload is an injective encoding
    of the configuration, user metadata cannot override what the operator owns,
    selectors select exactly the Pods of their runtime, the in-code defaults
    agree with the schema defaults, and the bounds of the numeric fields. *)

From Stdlib Require Import Ascii.
From S2P Require Import Prelude GoStd Sha256 KubeTypes ApiTypes KubeLib Resources RefKube Samples.

(** ** Reading a checksum payload back *)

Definition expectChar (c : ascii) (s : string) : option string :=
  match s with
  | EmptyString => None
  | String c' s => if decide (c = c') then Some s else None
  end.

(** A length, a colon and as many bytes as the length says. *)
Definition readSized (s : string) : option (string * string) :=
  let '(n, s) := scanDec 0 s in
  match expectChar ":"%char s with
  | Some s => splitAt (N.to_nat n) s
  | None => None
  end.

Definition readEntry (s : string) : option ((string * string) * string) :=
  match readSized s with
  | Some (key, s) =>
      match expectChar ":"%char s with
      | Some s =>
          match readSized s with
          | Some (value, s) =>
              match expectChar ";"%char s with
              | Some s => Some ((key, value), s)
              | None => None
              end
          | None => None
          end
      | None => None
      end
  | None => None
  end.

(** Every entry consumes at least one byte, so the length of the payload is
    enough fuel. *)
Fixpoint readPayload (fuel : nat) (s : string) : option (list (string * string)) :=
  match s with
  | EmptyString => Some []
  | _ =>
      match fuel with
      | O => None
      | S fuel =>
          match readEntry s with
          | Some (kv, s) =>
              match readPayload fuel s with Some l => Some (kv :: l) | None => None end
          | None => None
          end
      end
  end.

(** The entries of a map in ascending key order. *)
Definition sortedEntries (data : gmap string string) : list (string * string) :=
  map (λ k, (k, default EmptyString (data !! k))) (sortStrings (mapKeys data)).

Section Payload.

Lemma readSized_app (k s : string) :
  readSized (Itoa (strlen k) +:+ ":" +:+ k +:+ s) = Some (k, s).
Proof.
  unfold readSized. rewrite scanDec_strlen by done.
  rewrite str_app_cons, str_app_nil_l. simpl. rewrite Nat2N.id. apply splitAt_app.
Qed.

Lemma readEntry_app (k v s : string) :
  readEntry (payloadEntry k v +:+ s) = Some ((k, v), s).
Proof.
  unfold readEntry, payloadEntry. rewrite !str_app_assoc, readSized_app.
  rewrite str_app_cons, str_app_nil_l. simpl.
  rewrite readSized_app. done.
Qed.

Lemma payloadEntry_length k v : 0 < String.length (payloadEntry k v).
Proof. unfold payloadEntry. rewrite !str_length_app. simpl. lia. Qed.

Definition encodeEntries (l : list (string * string)) : string :=
  foldr (λ kv rest, payloadEntry kv.1 kv.2 +:+ rest) EmptyString l.

Lemma readPayload_encode l fuel :
  String.length (encodeEntries l) ≤ fuel → readPayload fuel (encodeEntries l) = Some l.
Proof.
  revert fuel. induction l as [|[k v] l IH]; intros fuel Hf; [by destruct fuel|].
  simpl in *. rewrite str_length_app in Hf. pose proof (payloadEntry_length k v).
  destruct fuel as [|fuel]; [lia|].
  assert (∃ c s, payloadEntry k v +:+ encodeEntries l = String c s) as (c & s & Hs).
  { destruct (payloadEntry k v) as [|c s]; [simpl in *; lia|]. eexists c, _. done. }
  simpl. rewrite Hs. rewrite <-Hs, readEntry_app. rewrite IH by lia. done.
Qed.

Lemma checksumPayload_encode data : checksumPayload data = encodeEntries (sortedEntries data).
Proof.
  unfold checksumPayload, sortedEntries. by induction (sortStrings _) as [|k l IH]; simpl; f_equal.
Qed.

Lemma list_to_map_sortedEntries (data : gmap string string) :
  list_to_map (sortedEntries data) = data.
Proof.
  assert (Hfst : (sortedEntries data).*1 = sortStrings (mapKeys data)).
  { unfold sortedEntries. rewrite <-list_fmap_compose. apply list_fmap_id. }
  apply map_eq. intros k. destruct (data !! k) as [v|] eqn:Hk.
  - apply elem_of_list_to_map_1.
    + rewrite Hfst, sortStrings_perm. apply NoDup_mapKeys.
    + unfold sortedEntries. apply list_elem_of_fmap. exists k. rewrite Hk. split; [done|].
      apply elem_of_sortStrings, elem_of_mapKeys. by eexists.
  - apply not_elem_of_list_to_map_1. rewrite Hfst, elem_of_sortStrings, elem_of_mapKeys.
    rewrite Hk. by intros [? ?].
Qed.

End Payload.

(** C32. Reading the checksum payload back yields exactly the entries of the
    configuration, in ascending key order: the length-prefixed encoding is
    unambiguous whatever bytes the keys and values contain. *)
Theorem checksum_payload_roundtrip (data : gmap string string) :
  readPayload (String.length (checksumPayload data)) (checksumPayload data)
  = Some (sortedEntries data)
  ∧ list_to_map (sortedEntries data) = data.
Proof.
  split; [|apply list_to_map_sortedEntries].
  rewrite checksumPayload_encode. by apply readPayload_encode.
Qed.

(** ** Checksum annotation *)

Section Checksum.

Lemma hexDigit_inj a b : a < 16 → b < 16 → hexDigit a = hexDigit b → a = b.
Proof.
  intros Ha Hb Heq.
  assert (∀ n, n < 16 → nat_of_ascii (hexDigit n) = if n <? 10 then 48 + n else 87 + n) as Hn.
  { clear. intros n Hn. do 16 (destruct n as [|n]; [done|]). lia. }
  apply (f_equal nat_of_ascii) in Heq. rewrite !Hn in Heq by done.
  destruct (Nat.ltb_spec a 10), (Nat.ltb_spec b 10); lia.
Qed.

Definition isByte (z : Z) : Prop := (0 <= z < 256)%Z.

Lemma EncodeToString_inj l1 l2 :
  Forall isByte l1 → Forall isByte l2 → EncodeToString l1 = EncodeToString l2 → l1 = l2.
Proof.
  intros H1. revert l2. induction H1 as [|a l1 Ha _ IH]; intros l2 H2 He; destruct H2 as [|b l2 Hb H2];
    [done|done|done|].
  unfold isByte in Ha, Hb.
  change (hexByte (Z.to_nat a) (EncodeToString l1) = hexByte (Z.to_nat b) (EncodeToString l2)) in He.
  unfold hexByte in He. 
  apply str_cons_inj in He as [Hq He]. apply str_cons_inj in He as [Hr He].
  f_equal; [|by apply IH].
  apply hexDigit_inj in Hq; [|apply Nat.Div0.div_lt_upper_bound; lia..].
  apply hexDigit_inj in Hr; [|apply Nat.mod_upper_bound; lia..].
  pose proof (Nat.div_mod_eq (Z.to_nat a) 16). pose proof (Nat.div_mod_eq (Z.to_nat b) 16). lia.
Qed.

Lemma bigEndian_bytes n z : Forall isByte (bigEndian n z).
Proof.
  induction n as [|n IH]; simpl; constructor; [|done].
  unfold isByte. change 255%Z with (Z.ones 8). rewrite Z.land_ones by lia.
  apply Z.mod_pos_bound. lia.
Qed.

Lemma Sum256_bytes payload : Forall isByte (Sum256 payload).
Proof.
  unfold Sum256. apply Forall_forall. intros z Hz.
  apply list_elem_of_join in Hz as (l & Hz & Hl).
  apply list_elem_of_fmap in Hl as (w & -> & _).
  eapply Forall_forall; [apply bigEndian_bytes|done].
Qed.

Lemma checksumPayload_inj d1 d2 : checksumPayload d1 = checksumPayload d2 → d1 = d2.
Proof.
  intros Heq.
  assert (∀ d, readPayload (String.length (checksumPayload d)) (checksumPayload d)
               = Some (sortedEntries d)) as Hr.
  { intros d. rewrite checksumPayload_encode. by apply readPayload_encode. }
  pose proof (Hr d1) as H1. rewrite Heq, Hr in H1. injection H1 as H1.
  rewrite <-(list_to_map_sortedEntries d1), <-(list_to_map_sortedEntries d2). by rewrite H1.
Qed.

End Checksum.

(** Two runtimes whose Pod templates carry the same checksum annotation
    have the same ConfigMap data, unless their payloads are an explicit
    SHA-256 collision: a configuration change changes the Pod template. *)
Theorem checksum_identifies_configuration (r1 r2 : TrussiumRuntime) :
  podAnnotations r1 !! runtimeConfigChecksumAnnotation
  = podAnnotations r2 !! runtimeConfigChecksumAnnotation →
  cm_Data (buildConfigMap r1) = cm_Data (buildConfigMap r2)
  ∨ (checksumPayload (runtimeConfigData r1) ≠ checksumPayload (runtimeConfigData r2)
     ∧ Sum256 (checksumPayload (runtimeConfigData r1))
       = Sum256 (checksumPayload (runtimeConfigData r2))).
Proof.
  unfold podAnnotations. rewrite !lookup_insert_eq. intros Heq.
  apply (inj Some) in Heq. unfold runtimeConfigChecksum in Heq.
  apply EncodeToString_inj in Heq; [|apply Sum256_bytes..].
  destruct (decide (checksumPayload (runtimeConfigData r1)
                    = checksumPayload (runtimeConfigData r2))) as [He|Hne]; [left|by right].
  by apply checksumPayload_inj.
Qed.

Lemma checksum_identifies_configuration_witness :
  let r2 := sampleWith (withReplicas (Some 5%Z)) in
  cm_Data (buildConfigMap sampleRuntime) = cm_Data (buildConfigMap r2)
  ∨ (checksumPayload (runtimeConfigData sampleRuntime)
       ≠ checksumPayload (runtimeConfigData r2)
     ∧ Sum256 (checksumPayload (runtimeConfigData sampleRuntime))
       = Sum256 (checksumPayload (runtimeConfigData r2))).
Proof.
  exact (checksum_identifies_configuration sampleRuntime
           (sampleWith (withReplicas (Some 5%Z))) eq_refl).
Defined.

(** ** Pod metadata *)

(** The loop of [mergedPodLabels] over any list of entries. *)
Definition mergeLoop (labels : gmap string string) (entries : list (string * string))
    : gmap string string :=
  foldl (λ acc kv, match acc !! kv.1 with Some _ => acc | None => <[kv.1 := kv.2]> acc end)
    labels entries.

Section Metadata.

Lemma mergeLoop_union labels entries :
  mergeLoop labels entries = labels ∪ list_to_map entries.
Proof.
  revert labels. induction entries as [|[k v] entries IH]; intros labels; simpl.
  - by rewrite (right_id_L ∅ (∪)).
  - change (mergeLoop (match labels !! k with Some _ => labels | None => <[k:=v]> labels end)
              entries = labels ∪ <[k:=v]> (list_to_map entries)).
    rewrite IH. destruct (labels !! k) as [w|] eqn:Hk.
    + apply map_eq. intros i. rewrite !lookup_union, lookup_insert.
      case_decide; subst; [rewrite Hk|done].
      by destruct (list_to_map entries !! i).
    + by rewrite <-insert_union_l, <-insert_union_r.
Qed.

Lemma mergedPodLabels_union r :
  mergedPodLabels r
  = runtimeLabels r ∪ from_option pm_Labels ∅ (spec_PodMetadata (rt_Spec r)).
Proof.
  unfold mergedPodLabels. destruct (spec_PodMetadata (rt_Spec r)) as [pm|]; simpl.
  - change (mergeLoop (runtimeLabels r) (map_to_list (pm_Labels pm))
            = runtimeLabels r ∪ pm_Labels pm).
    by rewrite mergeLoop_union, list_to_map_to_list.
  - by rewrite (right_id_L ∅ (∪)).
Qed.

Lemma selector_subseteq_labels r : runtimeSelectorLabels r ⊆ runtimeLabels r.
Proof.
  apply map_subseteq_spec. intros k v. unfold runtimeSelectorLabels, runtimeLabels.
  simpl. rewrite !lookup_insert_Some. intros [[<- <-]|(? & [[<- <-]|(? & ?)])]; [naive_solver..|done].
Qed.

Lemma selector_selects_own_pods r : runtimeSelectorLabels r ⊆ mergedPodLabels r.
Proof.
  rewrite mergedPodLabels_union. etrans; [apply selector_subseteq_labels|].
  apply map_union_subseteq_l.
Qed.

End Metadata.

(** Whatever labels a user adds, and in whatever order the loop visits
    them, the Pod labels are the operator's labels extended by the user's: an
    operator-owned key keeps its value and every other user label is applied. *)
Theorem pod_labels_merge (r : TrussiumRuntime) (pm : PodMetadataSpec)
    (order : list (string * string)) (k : string) :
  spec_PodMetadata (rt_Spec r) = Some pm →
  order ≡ₚ map_to_list (pm_Labels pm) →
  mergeLoop (runtimeLabels r) order = mergedPodLabels r
  ∧ mergedPodLabels r !! k
    = match runtimeLabels r !! k with Some v => Some v | None => pm_Labels pm !! k end.
Proof.
  intros Hpm Hord. split.
  - rewrite mergeLoop_union, mergedPodLabels_union, Hpm. simpl. f_equal.
    rewrite <-(list_to_map_to_list (pm_Labels pm)). apply list_to_map_proper; [|done].
    rewrite Hord. apply NoDup_fst_map_to_list.
  - rewrite mergedPodLabels_union, Hpm. simpl. rewrite lookup_union.
    by destruct (runtimeLabels r !! k), (pm_Labels pm !! k).
Qed.

Lemma pod_labels_merge_witness :
  let entries := [("app.kubernetes.io/name", "other"); ("team", "ai")] in
  mergeLoop (runtimeLabels sampleRuntime) entries = mergedPodLabels sampleRuntime
  ∧ mergedPodLabels sampleRuntime !! "team" = Some "ai".
Proof.
  destruct (pod_labels_merge sampleRuntime
    (mkPodMetadata {["team" := "ai"; "app.kubernetes.io/name" := "other"]} ∅)
    [("app.kubernetes.io/name", "other"); ("team", "ai")] "team" eq_refl) as [H1 H2].
  - apply (bool_decide_unpack _). vm_compute. exact I.
  - split; [exact H1|]. rewrite H2. reflexivity.
Defined.

(** C33. The selector used by the Deployment, the Service, the
    PodDisruptionBudget and the NetworkPolicy matches the Pods of its own runtime and never those of a runtime with another name,
    even if the latter's user labels try to imitate it. *)
Theorem selectors_isolate_runtimes `{K8sLib} (r1 r2 : TrussiumRuntime)
    (np : RuntimeNetworkPolicySpec) :
  let podLabels r := om_Labels (pt_Meta (ds_Template (d_Spec (buildDeployment r)))) in
  let selectors :=
    [ls_MatchLabels (ds_Selector (d_Spec (buildDeployment r1)));
     ss_Selector (svc_Spec (buildService r1));
     from_option ls_MatchLabels ∅ (pdbs_Selector (pdb_Spec (buildPodDisruptionBudget r1)));
     ls_MatchLabels (nps_PodSelector (np_Spec (buildNetworkPolicy r1 np)))] in
  Forall (λ sel, sel ⊆ podLabels r1 ∧ (sel ⊆ podLabels r2 → rt_Name r1 = rt_Name r2)) selectors.
Proof.
  intros podLabels selectors.
  assert (Hsel : runtimeSelectorLabels r1 ⊆ mergedPodLabels r1
    ∧ (runtimeSelectorLabels r1 ⊆ mergedPodLabels r2 → rt_Name r1 = rt_Name r2)).
  { split; [apply selector_selects_own_pods|]. intros Hsub.
    assert (Hi : runtimeSelectorLabels r1 !! "app.kubernetes.io/instance" = Some (rt_Name r1))
      by reflexivity.
    eapply lookup_weaken in Hi; [|exact Hsub].
    rewrite mergedPodLabels_union in Hi.
    erewrite lookup_union_Some_l in Hi by reflexivity. by injection Hi. }
  repeat constructor; apply Hsel.
Qed.

(** ** Configuration data *)

(** The environment variables the ConfigMap may define. *)
Definition configKeys : list string :=
  [envEnvironment; envRuntimeHost; envRuntimePort; envProviderName; envProviderBaseURL;
   envProviderRequestSeconds; envProviderStreamIdle; envRuntimeShutdownSeconds].

Definition settingOf (f : RuntimeSettingsSpec → option Z) (r : TrussiumRuntime) : option string :=
  s ← spec_Runtime (rt_Spec r); Itoa <$> f s.

(** The contents of the ConfigMap as the documentation tabulates them. *)
Definition configTable (r : TrussiumRuntime) (k : string) : option string :=
  if decide (k = envEnvironment) then Some "production"
  else if decide (k = envRuntimeHost) then Some "0.0.0.0"
  else if decide (k = envRuntimePort) then Some "9000"
  else if decide (k = envProviderName) then Some (prov_Type (spec_Provider (rt_Spec r)))
  else if decide (k = envProviderBaseURL) then prov_BaseURL (spec_Provider (rt_Spec r))
  else if decide (k = envProviderRequestSeconds) then settingOf rs_ProviderRequestTimeoutSeconds r
  else if decide (k = envProviderStreamIdle) then settingOf rs_StreamIdleTimeoutSeconds r
  else if decide (k = envRuntimeShutdownSeconds) then settingOf rs_ShutdownDrainTimeoutSeconds r
  else None.

Section ConfigData.

Lemma lookup_optional_insert (o : option string) (i j : string) (m : gmap string string) :
  m !! i = None →
  (match o with Some x => <[i := x]> m | None => m end) !! j
  = if decide (j = i) then o else m !! j.
Proof.
  intros Hm. destruct o; case_decide; subst;
    by rewrite ?lookup_insert_eq, ?lookup_insert_ne by done.
Qed.

Lemma lookup_optional_insert_Itoa (o : option Z) (i j : string) (m : gmap string string) :
  m !! i = None →
  (match o with Some x => <[i := Itoa x]> m | None => m end) !! j
  = if decide (j = i) then Itoa <$> o else m !! j.
Proof.
  intros Hm. rewrite <-(lookup_optional_insert (Itoa <$> o)) by done. by destruct o.
Qed.

Lemma base_config_lookup (p k : string) :
  (list_to_map
     [(envEnvironment, defaultRuntimeEnvironment); (envRuntimeHost, defaultRuntimeHost);
      (envRuntimePort, Itoa runtimeHTTPPort); (envProviderName, p)] : gmap string string) !! k
  = if decide (k = envEnvironment) then Some "production"
    else if decide (k = envRuntimeHost) then Some "0.0.0.0"
    else if decide (k = envRuntimePort) then Some "9000"
    else if decide (k = envProviderName) then Some p
    else None.
Proof.
  simpl. rewrite !lookup_insert, lookup_empty.
  repeat (case_decide; subst; try done).
Qed.

End ConfigData.

(** Computes a lookup in a map built by optional insertions. *)
Ltac config_lookup :=
  repeat first
    [ rewrite lookup_optional_insert_Itoa; [|solve [config_lookup]]
    | rewrite lookup_optional_insert; [|solve [config_lookup]]
    | rewrite base_config_lookup ];
  repeat (case_decide; subst; try done); try done.

Lemma config_data_lookup r k : runtimeConfigData r !! k = configTable r k.
Proof.
  unfold runtimeConfigData, configTable, settingOf.
  destruct (spec_Runtime (rt_Spec r)) as [s|]; cbv beta iota zeta; config_lookup.
Qed.

(** The ConfigMap holds exactly the documented environment variables: four
    always, the base URL and the three timeouts only when they are configured,
    in decimal, and nothing else; in particular never the provider API key. *)
Theorem config_data_table (r : TrussiumRuntime) (k : string) :
  runtimeConfigData r !! k = configTable r k
  ∧ runtimeConfigData r !! envProviderAPIKey = None.
Proof. split; [apply config_data_lookup|]. by rewrite config_data_lookup. Qed.

(** ** Defaults and bounds *)

(** The runtime after the API server has applied the schema defaults. *)
Definition defaulted (r : TrussiumRuntime) : TrussiumRuntime :=
  mkRuntime (rt_TypeMeta r) (rt_Meta r) (defaultSpec (rt_Spec r)) (rt_Status r).

(** Defaulting in the code after defaulting by the schema changes nothing. *)
Lemma orDefaultZ_idem z d :
  d ≠ 0%Z →
  (if (orDefaultZ z d =? 0)%Z then d else orDefaultZ z d) = if (z =? 0)%Z then d else z.
Proof.
  intros Hd. unfold orDefaultZ.
  case_decide as Hz; [subst; by rewrite (proj2 (Z.eqb_neq d 0) Hd)|].
  by rewrite (proj2 (Z.eqb_neq z 0) Hz).
Qed.

(** The defaults written into the code agree with the schema defaults: for
    an object that never went through the API server, the ConfigMap, the
    ServiceAccount, the Service, the PodDisruptionBudget, the
    HorizontalPodAutoscaler and the scale of the Deployment are those of the
    defaulted object. *)
Theorem code_defaults_match_schema (r : TrussiumRuntime) (d : option Deployment) :
  buildConfigMap (defaulted r) = buildConfigMap r
  ∧ buildServiceAccount (defaulted r) = buildServiceAccount r
  ∧ buildService (defaulted r) = buildService r
  ∧ buildPodDisruptionBudget (defaulted r) = buildPodDisruptionBudget r
  ∧ buildHorizontalPodAutoscaler (defaulted r) = buildHorizontalPodAutoscaler r
  ∧ desiredReplicaCount (defaulted r) d = desiredReplicaCount r d.
Proof.
  assert (Has : autoscalingEnabled (defaulted r) = autoscalingEnabled r
    ∧ desiredAutoscalingMinReplicas (defaulted r) = desiredAutoscalingMinReplicas r
    ∧ desiredAutoscalingMaxReplicas (defaulted r) = desiredAutoscalingMaxReplicas r
    ∧ desiredTargetCPUUtilization (defaulted r) = desiredTargetCPUUtilization r).
  { unfold autoscalingEnabled, desiredAutoscalingMinReplicas, desiredAutoscalingMaxReplicas,
      desiredTargetCPUUtilization. simpl.
    destruct (spec_Autoscaling (rt_Spec r)) as [a|]; simpl; [|done].
    by rewrite !orDefaultZ_idem. }
  destruct Has as (He & Hmin & Hmax & Hcpu).
  assert (Hrep : initialDeploymentReplicas (defaulted r) = initialDeploymentReplicas r).
  { unfold initialDeploymentReplicas, desiredReplicas. rewrite He, Hmin. simpl.
    by destruct (spec_Replicas (rt_Spec r)). }
  split_and!; try done.
  - unfold buildService, desiredServiceType, desiredServicePort. simpl.
    rewrite orDefaultZ_idem by done. unfold orDefaultString.
    do 2 f_equal. repeat case_decide; done.
  - unfold buildHorizontalPodAutoscaler. by rewrite Hmin, Hmax, Hcpu.
  - unfold desiredReplicaCount. by rewrite He, Hrep.
Qed.

Section Bounds.
Context (r : TrussiumRuntime).

Lemma grace_of_drain s t :
  spec_Runtime (rt_Spec r) = Some s → rs_ShutdownDrainTimeoutSeconds s = Some t →
  optionValid validSettings (spec_Runtime (rt_Spec r)) = true →
  (1 <= t <= 3600)%Z ∧ terminationGracePeriodSeconds r = (t + 6)%Z.
Proof.
  intros Hs Ht Hv. unfold terminationGracePeriodSeconds. rewrite Hs in *. simpl in Hv.
  unfold validSettings in Hv. rewrite !andb_true_iff in Hv. destruct Hv as [_ Hv].
  rewrite Ht in *. simpl in Hv. apply inRange_spec in Hv. split; [done|].
  unfold terminationGraceMarginSeconds.
  apply wrap64_id. unfold is_int64, int64_min, int64_max. lia.
Qed.

Lemma grace_bounds :
  optionValid validSettings (spec_Runtime (rt_Spec r)) = true →
  (7 <= terminationGracePeriodSeconds r <= 3606)%Z.
Proof.
  intros Hv.
  destruct (spec_Runtime (rt_Spec r)) as [s|] eqn:Hs;
    [destruct (rs_ShutdownDrainTimeoutSeconds s) as [t|] eqn:Ht|].
  - destruct (grace_of_drain s t Hs Ht) as [? ->]; [by rewrite Hs|lia].
  - unfold terminationGracePeriodSeconds. by rewrite Hs, Ht.
  - unfold terminationGracePeriodSeconds. by rewrite Hs.
Qed.

Lemma service_port_bounds :
  validRuntimeService (spec_Service (rt_Spec r)) = true →
  (1 <= desiredServicePort r <= 65535)%Z.
Proof.
  unfold validRuntimeService, desiredServicePort. rewrite andb_true_iff, inRange_spec.
  intros [_ ?]. destruct (Z.eqb_spec (rsvc_Port (spec_Service (rt_Spec r))) 0); lia.
Qed.

Lemma replica_bounds :
  optionInRange 0 1000 (spec_Replicas (rt_Spec r)) = true → (0 <= desiredReplicas r <= 1000)%Z.
Proof.
  unfold desiredReplicas. destruct (spec_Replicas (rt_Spec r)); [|done]. apply inRange_spec.
Qed.

Lemma autoscaling_bounds :
  optionValid validAutoscaling (spec_Autoscaling (rt_Spec r)) = true →
  (1 <= desiredAutoscalingMinReplicas r <= desiredAutoscalingMaxReplicas r)%Z
  ∧ (desiredAutoscalingMaxReplicas r <= 1000)%Z
  ∧ (1 <= desiredTargetCPUUtilization r <= 100)%Z.
Proof.
  unfold desiredAutoscalingMinReplicas, desiredAutoscalingMaxReplicas,
    desiredTargetCPUUtilization.
  destruct (spec_Autoscaling (rt_Spec r)) as [a|]; simpl; [|lia].
  unfold validAutoscaling. rewrite !andb_true_iff, !inRange_spec, Z.leb_le.
  destruct (Z.eqb_spec (as_MinReplicas a) 0), (Z.eqb_spec (as_MaxReplicas a) 0),
    (Z.eqb_spec (as_TargetCPUUtilizationPercentage a) 0); lia.
Qed.

End Bounds.

(** C34. For a specification the API server accepts, every numeric field of the
    managed objects is in range and no arithmetic wraps: a configured drain
    timeout reaches the runtime through the ConfigMap and the grace period
    exceeds it by exactly the margin, the Service port is a TCP port, the
    replica count is at most 1000 and the autoscaler's bounds are ordered. *)
Theorem valid_spec_bounds (r : TrussiumRuntime) :
  validSpec (rt_Spec r) = true →
  (7 <= terminationGracePeriodSeconds r <= 3606)%Z
  ∧ (∀ s t, spec_Runtime (rt_Spec r) = Some s → rs_ShutdownDrainTimeoutSeconds s = Some t →
      runtimeConfigData r !! envRuntimeShutdownSeconds = Some (Itoa t)
      ∧ terminationGracePeriodSeconds r = (t + 6)%Z)
  ∧ (1 <= desiredServicePort r <= 65535)%Z
  ∧ (0 <= desiredReplicas r <= 1000)%Z
  ∧ (1 <= desiredAutoscalingMinReplicas r <= desiredAutoscalingMaxReplicas r)%Z
  ∧ (desiredAutoscalingMaxReplicas r <= 1000)%Z
  ∧ (1 <= desiredTargetCPUUtilization r <= 100)%Z.
Proof.
  intros Hv. apply validSpec_parts in Hv as (_ & Hrep & _ & _ & Hset & Hsvc & _ & Has).
  split; [by apply grace_bounds|]. split.
  - intros s t Hs Ht. split; [|by eapply grace_of_drain].
    rewrite config_data_lookup. unfold configTable, settingOf. rewrite Hs. simpl. by rewrite Ht.
  - split; [by apply service_port_bounds|]. split; [by apply replica_bounds|].
    by apply autoscaling_bounds.
Qed.

Lemma valid_spec_bounds_witness :
  terminationGracePeriodSeconds sampleRuntime = 51%Z ∧ (1 <= desiredServicePort sampleRuntime)%Z.
Proof.
  destruct (valid_spec_bounds sampleRuntime) as (_ & Hd & Hp & _); [by vm_compute|].
  split; [by apply (Hd _ 45%Z eq_refl)|apply Hp].
Defined.

(** ** Image references *)

Section Images.

Fixpoint strContains (x : ascii) (s : string) : bool :=
  match s with
  | EmptyString => false
  | String c s => Ascii.eqb c x || strContains x s
  end.

Lemma strAll_not_contains (p : ascii → bool) x s :
  p x = false → strAll p s = true → strContains x s = false.
Proof.
  intros Hx. induction s as [|c s IH]; simpl; [done|]. rewrite andb_true_iff. intros [Hc Hs].
  rewrite IH by done. rewrite orb_false_r. apply Ascii.eqb_neq. congruence.
Qed.

Lemma strContains_app x a b : strContains x (a +:+ b) = strContains x a || strContains x b.
Proof.
  induction a as [|c a IH]; [done|]. rewrite str_app_cons. simpl. by rewrite IH, orb_assoc.
Qed.

(** A string splits uniquely at the first occurrence of a character. *)
Lemma split_first x a1 b1 a2 b2 :
  strContains x a1 = false → strContains x a2 = false →
  a1 +:+ String x b1 = a2 +:+ String x b2 → a1 = a2 ∧ b1 = b2.
Proof.
  revert a2. induction a1 as [|c1 a1 IH]; intros [|c2 a2]; rewrite ?str_app_cons, ?str_app_nil_l;
    simpl; rewrite ?orb_false_iff, ?Ascii.eqb_neq; intros H1 H2 He;
    apply str_cons_inj in He as [Hc He].
  - done.
  - naive_solver.
  - naive_solver.
  - destruct (IH a2) as [-> ->]; [naive_solver..|]. by subst.
Qed.

(** And uniquely at the last one. *)
Lemma split_last x a1 b1 a2 b2 :
  strContains x b1 = false → strContains x b2 = false →
  a1 +:+ String x b1 = a2 +:+ String x b2 → a1 = a2 ∧ b1 = b2.
Proof.
  assert (Hno : ∀ a b c, strContains x c = false → a +:+ String x b ≠ c).
  { intros a b c Hc <-. rewrite strContains_app in Hc. simpl in Hc.
    rewrite Ascii.eqb_refl in Hc. by destruct (strContains x a). }
  intros H1 H2. revert a2.
  induction a1 as [|c1 a1 IH]; intros [|c2 a2]; rewrite ?str_app_cons, ?str_app_nil_l;
    intros He; apply str_cons_inj in He as [Hc He].
  - done.
  - by destruct (Hno a2 b2 b1).
  - by destruct (Hno a1 b1 b2).
  - destruct (IH _ He) as [-> ->]. by subst.
Qed.

Lemma validRepository_no_at s : validRepository s = true → strContains "@"%char s = false.
Proof.
  unfold validRepository. destruct s as [|c s]; [done|].
  rewrite !andb_true_iff. intros (_ & Hc & Hs).
  apply (strAll_not_contains isRepositoryChar); [done|]. simpl.
  apply andb_true_iff. split; [|done]. unfold isRepositoryChar. by rewrite Hc.
Qed.

Lemma validTag_chars s : validTag s = true → strAll isTagChar s = true.
Proof.
  unfold validTag. destruct s as [|c s]; [done|].
  rewrite !andb_true_iff. intros (_ & Hc & Hs). simpl.
  apply andb_true_iff. split; [|done].
  apply orb_true_iff in Hc as [Hc|Hc%Ascii.eqb_eq]; [|by subst].
  unfold isTagChar. by rewrite Hc.
Qed.

End Images.

(** A rendered image reference identifies the image specification: two
    specifications accepted by the API server that render to the same string
    have the same repository, tag and digest.  Comparing rendered strings, as
    upgrade detection does, therefore compares images. *)
Theorem runtime_image_injective (i1 i2 : RuntimeImageSpec) :
  validImage i1 = true → validImage i2 = true → runtimeImage i1 = runtimeImage i2 →
  img_Repository i1 = img_Repository i2 ∧ img_Tag i1 = img_Tag i2
  ∧ img_Digest i1 = img_Digest i2.
Proof.
  unfold validImage, runtimeImage. rewrite !andb_true_iff.
  intros [[Hr1 Hi1] _] [[Hr2 Hi2] _].
  apply validRepository_no_at in Hr1, Hr2.
  destruct (img_Tag i1) as [t1|], (img_Digest i1) as [d1|],
    (img_Tag i2) as [t2|], (img_Digest i2) as [d2|]; try done;
    rewrite !str_app_cons, !str_app_nil_l; intros He.
  - apply split_last in He as [-> ->]; [done| |];
      (eapply strAll_not_contains; [|by apply validTag_chars]); done.
  - apply validTag_chars in Hi1.
    apply (f_equal (strContains "@"%char)) in He. rewrite !strContains_app in He. simpl in He.
    rewrite Hr1, orb_true_r in He. simpl in He.
    by rewrite (strAll_not_contains isTagChar "@"%char) in He.
  - apply validTag_chars in Hi2.
    apply (f_equal (strContains "@"%char)) in He. rewrite !strContains_app in He. simpl in He.
    rewrite Hr2, orb_true_r in He. simpl in He.
    by rewrite (strAll_not_contains isTagChar "@"%char) in He.
  - apply split_first in He as [-> ->]; done.
Qed.

Lemma runtime_image_injective_witness :
  img_Tag sampleImage = img_Tag (mkImage "ghcr.io/trussiumhq/trussium" (Some "v1.22.0") None "Always").
Proof.
  apply (runtime_image_injective sampleImage
           (mkImage "ghcr.io/trussiumhq/trussium" (Some "v1.22.0") None "Always"));
    vm_compute; reflexivity.
Defined.
