(* ===== verification/StatusProps.v ===== *)
(** * Properties of the reported status

    The conditions that [Status] computes refine a small table of phases.
    From it follow when a runtime is Ready, Degraded or Progressing, that the
    three exclude one another, when [LastSuccessfulImage] may change, that
    transition times move only with the status, and that a second
    reconciliation of an unchanged observation has nothing to write. *)

From S2P Require Import Prelude GoStd KubeTypes ApiTypes KubeLib Resources Status RefKube Samples.

(** ** What a condition says, without its transition time *)

Record Verdict := mkVerdict {
  vd_Status : ConditionStatus;
  vd_Reason : string;
  vd_Message : string;
  vd_Generation : Z
}.

Definition verdict (c : Condition) : Verdict :=
  mkVerdict (c_Status c) (c_Reason c) (c_Message c) (c_ObservedGeneration c).

(** The conditions of a status as a function of their type. *)
Definition conditionView `{K8sLib} (status : TrussiumRuntimeStatus) (t : string) : option Verdict :=
  verdict <$> runtimeCondition status t.

Definition conditionStatusIs `{K8sLib} (status : TrussiumRuntimeStatus) (t : string)
    (s : ConditionStatus) : Prop :=
  vd_Status <$> conditionView status t = Some s.

(** ** Phases: the abstract specification *)

Inductive Phase :=
| PhaseInvalid (reason message : string)
| PhaseCreating
| PhaseScaledToZero
| PhaseScalingToZero
| PhaseFailed (reason message : string)
| PhaseReady
| PhaseConverging (observed : bool).

(** The phase of an observation, by the first of the cases that applies. *)
Definition classify (r : TrussiumRuntime) (obs : runtimeObservation)
    (v : referenceValidationResult) : Phase :=
  if v_Valid v then
    match obs_Deployment obs with
    | None => PhaseCreating
    | Some d =>
        let s := d_Status d in
        let desired := desiredReplicaCount r (Some d) in
        let observed := (om_Generation (d_Meta d) <=? dstat_ObservedGeneration s)%Z in
        let settled := observed && (dstat_ReadyReplicas s =? desired)%Z
                       && (dstat_AvailableReplicas s =? desired)%Z in
        if (desired =? 0)%Z then (if settled then PhaseScaledToZero else PhaseScalingToZero)
        else match deploymentFailure d with
             | Some (reason, message) => PhaseFailed reason message
             | None => if settled then PhaseReady else PhaseConverging observed
             end
    end
  else PhaseInvalid (v_Reason v) (v_Message v).

(** One line of the table: what a condition of some type says. *)
Record Entry := mkEntry {
  en_Type : string;
  en_Status : ConditionStatus;
  en_Reason : string;
  en_Message : string
}.

(** The [Available] line for a number of requested and available replicas. *)
Definition availabilityEntry (desired available : Z) : Entry :=
  if (desired =? 0)%Z then
    mkEntry conditionTypeAvailable ConditionFalse reasonScaledToZero
      "No runtime replicas are requested."
  else if (0 <? available)%Z then
    mkEntry conditionTypeAvailable ConditionTrue reasonRuntimeAvailable
      (Itoa available +:+ " runtime replica(s) are available.")
  else
    mkEntry conditionTypeAvailable ConditionFalse reasonRuntimeUnavailable
      "No runtime replicas are currently available.".

Definition resolvedEntry : Entry :=
  mkEntry conditionTypeConfigurationValid ConditionTrue reasonReferencesResolved
    "All referenced Secrets are available.".

Definition healthyEntry : Entry :=
  mkEntry conditionTypeDegraded ConditionFalse reasonAsExpected noDegradedMessage.

Definition progressingEntry (s : ConditionStatus) (reason message : string) : Entry :=
  mkEntry conditionTypeProgressing s reason message.

Definition readyEntry (s : ConditionStatus) (reason message : string) : Entry :=
  mkEntry conditionTypeReady s reason message.

(** The five base conditions of each phase, in the order they are set. *)
Definition phaseEntries (p : Phase) (r : TrussiumRuntime) (obs : runtimeObservation) : list Entry :=
  let desired := desiredReplicaCount r (obs_Deployment obs) in
  let ready := st_ReadyReplicas (baseFields r obs) in
  let available := st_AvailableReplicas (baseFields r obs) in
  match p with
  | PhaseInvalid reason message =>
      [mkEntry conditionTypeConfigurationValid ConditionFalse reason message;
       progressingEntry ConditionFalse reasonConfigurationInvalid
         "Runtime reconciliation is blocked by invalid configuration references.";
       availabilityEntry (desiredReplicas r) available;
       readyEntry ConditionFalse reasonConfigurationInvalid
         "The runtime is not ready because configuration references are invalid.";
       mkEntry conditionTypeDegraded ConditionTrue reasonConfigurationInvalid message]
  | PhaseCreating =>
      [resolvedEntry;
       progressingEntry ConditionTrue reasonDeploymentProgressing
         "The runtime Deployment is being created.";
       availabilityEntry desired available;
       readyEntry ConditionFalse reasonRuntimeNotReady
         "The runtime Deployment is not yet available.";
       healthyEntry]
  | PhaseScaledToZero =>
      [resolvedEntry;
       progressingEntry ConditionFalse reasonScaledToZero
         "The runtime has reached the requested scaled-to-zero state.";
       availabilityEntry 0 available;
       readyEntry ConditionTrue reasonScaledToZero
         "The runtime has reached the requested scaled-to-zero state.";
       healthyEntry]
  | PhaseScalingToZero =>
      [resolvedEntry;
       progressingEntry ConditionTrue reasonDeploymentGenerationPending
         "The Deployment is converging toward the scaled-to-zero state.";
       mkEntry conditionTypeAvailable ConditionFalse reasonRuntimeUnavailable
         "The runtime is not currently available.";
       readyEntry ConditionFalse reasonRuntimeNotReady
         "The runtime has not yet reached the scaled-to-zero state.";
       healthyEntry]
  | PhaseFailed reason message =>
      [resolvedEntry;
       progressingEntry ConditionFalse reasonDeploymentFailed message;
       availabilityEntry desired available;
       readyEntry ConditionFalse reasonDeploymentFailed message;
       mkEntry conditionTypeDegraded ConditionTrue reason message]
  | PhaseReady =>
      [resolvedEntry;
       progressingEntry ConditionFalse reasonReconciliationComplete
         "The runtime Deployment has reached the desired state.";
       mkEntry conditionTypeAvailable ConditionTrue reasonRuntimeAvailable
         (Itoa available +:+ " runtime replica(s) are available.");
       readyEntry ConditionTrue reasonRuntimeReady
         "All requested runtime replicas are ready and available.";
       healthyEntry]
  | PhaseConverging observed =>
      [resolvedEntry;
       (if observed then
          progressingEntry ConditionTrue reasonDeploymentProgressing
            ("The runtime is progressing toward " +:+ Itoa desired +:+ " ready replica(s).")
        else
          progressingEntry ConditionTrue reasonDeploymentGenerationPending
            "The Deployment controller has not yet observed the current Deployment generation.");
       availabilityEntry desired available;
       readyEntry ConditionFalse reasonRuntimeNotReady
         (Itoa ready +:+ " of " +:+ Itoa desired +:+ " requested runtime replica(s) are ready.");
       healthyEntry]
  end.

(** The line of a table for a condition type. *)
Definition entryFor (es : list Entry) (t : string) : option Entry :=
  head (filter (λ e, en_Type e = t) es).

Definition entryVerdict (gen : Z) (e : Entry) : Verdict :=
  mkVerdict (en_Status e) (en_Reason e) (en_Message e) gen.

(** Sets the conditions of a table one after the other, from clock tick [n]. *)
Fixpoint applyEntries `{K8sLib} (clk : nat → Time) (n : nat) (gen : Z) (es : list Entry)
    (status : TrussiumRuntimeStatus) : TrussiumRuntimeStatus :=
  match es with
  | [] => status
  | e :: es =>
      applyEntries clk (S n) gen es
        (setRuntimeCondition (clk n) gen (en_Type e) (en_Status e) (en_Reason e) (en_Message e)
           status)
  end.

Definition baseConditionTypes : list string :=
  [conditionTypeConfigurationValid; conditionTypeProgressing; conditionTypeAvailable;
   conditionTypeReady; conditionTypeDegraded].

Definition allConditionTypes : list string := baseConditionTypes ++ [conditionTypeUpgrading].

(** ** Lemmas about the setters *)

Section Setters.
Context `{K8sLaws}.

Lemma runtimeCondition_set now gen ty s reason message status t :
  runtimeCondition (setRuntimeCondition now gen ty s reason message status) t
  = if decide (ty = t)
    then Some (resultCondition now (st_Conditions status) (mkCondition ty s gen 0%Z reason message))
    else runtimeCondition status t.
Proof. unfold runtimeCondition, setRuntimeCondition. simpl. by rewrite find_set. Qed.

Lemma verdict_result now cs new : verdict (resultCondition now cs new) = verdict new.
Proof. unfold resultCondition. by destruct (FindStatusCondition cs (c_Type new)). Qed.

Lemma view_set now gen ty s reason message status t :
  conditionView (setRuntimeCondition now gen ty s reason message status) t
  = if decide (ty = t) then Some (mkVerdict s reason message gen) else conditionView status t.
Proof.
  unfold conditionView. rewrite runtimeCondition_set. case_decide; [|done]. simpl.
  by rewrite verdict_result.
Qed.

Lemma setAvailability_entry now gen desired status :
  setAvailabilityCondition now gen desired status
  = let e := availabilityEntry desired (st_AvailableReplicas status) in
    setRuntimeCondition now gen (en_Type e) (en_Status e) (en_Reason e) (en_Message e) status.
Proof.
  unfold setAvailabilityCondition, availabilityEntry.
  by destruct (desired =? 0)%Z; [|destruct (0 <? st_AvailableReplicas status)%Z].
Qed.

Lemma entryFor_cons e es t :
  entryFor (e :: es) t = if decide (en_Type e = t) then Some e else entryFor es t.
Proof. unfold entryFor. rewrite filter_cons. by case_decide. Qed.

Lemma entryFor_none es t : entryFor es t = None ↔ t ∉ en_Type <$> es.
Proof.
  induction es as [|e es IH]; [split; [intros _; apply not_elem_of_nil|done]|].
  rewrite entryFor_cons, fmap_cons, not_elem_of_cons.
  case_decide; [|rewrite IH]; intuition congruence.
Qed.

Lemma view_applyEntries clk n gen es status t :
  NoDup (en_Type <$> es) →
  conditionView (applyEntries clk n gen es status) t
  = match entryFor es t with
    | Some e => Some (entryVerdict gen e)
    | None => conditionView status t
    end.
Proof.
  revert n status. induction es as [|e es IH]; intros n status Hn; [done|].
  rewrite fmap_cons, NoDup_cons in Hn. destruct Hn as [He Hn].
  simpl. rewrite IH by done. rewrite entryFor_cons, view_set.
  case_decide as Ht; [|done]. subst t.
  by rewrite (proj2 (entryFor_none _ _) He).
Qed.

Lemma view_desired_image i status t :
  conditionView (st_set_desired_image i status) t = conditionView status t.
Proof. done. Qed.

Lemma view_last_successful i status t :
  conditionView (st_set_last_successful i status) t = conditionView status t.
Proof. done. Qed.

(** Setting conditions leaves the other fields alone. *)
Lemma applyEntries_fields clk n gen es status :
  ∃ cs, applyEntries clk n gen es status = st_set_conditions cs status.
Proof.
  revert n status. induction es as [|e es IH]; intros n status; simpl.
  - exists (st_Conditions status). by destruct status.
  - destruct (IH (S n) (setRuntimeCondition (clk n) gen (en_Type e) (en_Status e)
        (en_Reason e) (en_Message e) status)) as [cs Hcs]. by exists cs.
Qed.

End Setters.

(** Evaluates a view of a chain of setters at a concrete condition type. *)
Ltac view_simpl :=
  repeat first
    [ rewrite view_set
    | rewrite view_desired_image | rewrite view_last_successful ].

(** ** The base status refines the phase table *)

Section Base.
Context `{K8sLaws}.

Lemma phaseEntries_types p r obs : en_Type <$> phaseEntries p r obs = baseConditionTypes.
Proof.
  assert (Hav : ∀ a b, en_Type (availabilityEntry a b) = conditionTypeAvailable).
  { intros a b. unfold availabilityEntry. by destruct (a =? 0)%Z, (0 <? b)%Z. }
  destruct p as [| | | | | |[]]; simpl; rewrite ?Hav; done.
Qed.

Lemma phaseEntries_nodup p r obs : NoDup (en_Type <$> phaseEntries p r obs).
Proof. rewrite phaseEntries_types. by apply (bool_decide_unpack _). Qed.

(** The nested branches of the code compute the table. *)
Lemma base_entries clk r obs v :
  buildBaseRuntimeStatus clk r obs v
  = applyEntries clk 0 (rt_Generation r) (phaseEntries (classify r obs v) r obs)
      (baseFields r obs).
Proof.
  destruct obs as [[d|] svc]; unfold buildBaseRuntimeStatus, classify;
    destruct (v_Valid v); simpl; rewrite ?setAvailability_entry; try done.
  destruct (Z.eqb_spec (desiredReplicaCount r (Some d)) 0) as [->|Hne].
  - by destruct (_ && _).
  - destruct (deploymentFailure d) as [[reason message]|];
      [by rewrite setAvailability_entry|].
    destruct (_ && _); [done|].
    by destruct (_ <=? _)%Z; rewrite ?setAvailability_entry.
Qed.

End Base.

(** ** The upgrade status *)

(** The rollout of the desired image has completed. *)
Definition desiredImageRolledOut (r : TrussiumRuntime) (deployment : option Deployment) : Prop :=
  observeDeploymentRollout r deployment = deploymentRolloutComplete
  ∧ deploymentCurrentImage deployment = runtimeImage (spec_Image (rt_Spec r)).

#[export] Instance deploymentRolloutState_eq_dec : EqDecision deploymentRolloutState.
Proof. solve_decision. Defined.

#[export] Instance desiredImageRolledOut_dec r d : Decision (desiredImageRolledOut r d).
Proof. unfold desiredImageRolledOut. apply _. Defined.

Definition noUpgradeEntry : Entry :=
  mkEntry conditionTypeUpgrading ConditionFalse reasonNoUpgrade
    "No runtime image upgrade is in progress.".

(** What the [Upgrading] condition becomes; [None] keeps the existing one. *)
Definition upgradeEntry (r : TrussiumRuntime) (deployment : option Deployment)
    (last : string) (present : bool) : option Entry :=
  let desired := runtimeImage (spec_Image (rt_Spec r)) in
  let say s reason verb finish :=
    Some (mkEntry conditionTypeUpgrading s reason
            (verb +:+ last +:+ " to " +:+ desired +:+ finish)) in
  if decide (last = EmptyString) then Some noUpgradeEntry
  else if decide (desired = last) then (if present then None else Some noUpgradeEntry)
  else
    match observeDeploymentRollout r deployment with
    | deploymentRolloutFailed =>
        say ConditionFalse reasonUpgradeFailed "Runtime image upgrade from " " failed."
    | deploymentRolloutProgressing =>
        say ConditionTrue reasonUpgradeInProgress "Runtime image is upgrading from " "."
    | deploymentRolloutComplete =>
        if decide (deploymentCurrentImage deployment = desired) then
          say ConditionFalse reasonUpgradeComplete "Runtime image upgrade from " " completed."
        else
          say ConditionTrue reasonUpgradeInProgress "Runtime image is transitioning from " "."
    end.

Section Upgrade.
Context `{K8sLaws}.

Definition isPresent (o : option Condition) : bool := match o with Some _ => true | None => false end.

Definition nextLastSuccessful (r : TrussiumRuntime) (deployment : option Deployment)
    (last : string) : string :=
  if decide (desiredImageRolledOut r deployment)
  then runtimeImage (spec_Image (rt_Spec r)) else last.

Lemma upgrade_entries clk n r deployment status :
  applyUpgradeStatus (clk n) r deployment status
  = applyEntries clk n (rt_Generation r)
      (option_list (upgradeEntry r deployment (st_LastSuccessfulImage status)
         (isPresent (runtimeCondition status conditionTypeUpgrading))))
      (st_set_last_successful (nextLastSuccessful r deployment (st_LastSuccessfulImage status))
         (st_set_desired_image (runtimeImage (spec_Image (rt_Spec r))) status)).
Proof.
  assert (Hkeep : ∀ s, st_set_last_successful (st_LastSuccessfulImage s) s = s) by by intros [].
  assert (Hdone : ∀ img, observeDeploymentRollout r deployment = deploymentRolloutComplete →
    deploymentCurrentImage deployment = runtimeImage (spec_Image (rt_Spec r)) →
    nextLastSuccessful r deployment img = runtimeImage (spec_Image (rt_Spec r))).
  { intros img H1 H2. unfold nextLastSuccessful. by rewrite decide_True. }
  assert (Hnot : ∀ img, observeDeploymentRollout r deployment ≠ deploymentRolloutComplete ∨
    deploymentCurrentImage deployment ≠ runtimeImage (spec_Image (rt_Spec r)) →
    nextLastSuccessful r deployment img = img).
  { intros img Hn. unfold nextLastSuccessful. rewrite decide_False; [done|].
    unfold desiredImageRolledOut. intros [? ?]. by destruct Hn. }
  set (s' := st_set_desired_image (runtimeImage (spec_Image (rt_Spec r))) status).
  assert (Hl : st_LastSuccessfulImage status = st_LastSuccessfulImage s') by done.
  unfold applyUpgradeStatus, upgradeEntry. fold s'. rewrite <-Hl.
  destruct (decide (st_LastSuccessfulImage status = EmptyString)) as [He|He].
  - destruct (observeDeploymentRollout r deployment) eqn:Ho; try case_decide;
      rewrite ?Hnot, ?Hdone by auto; try done; by rewrite Hl, Hkeep.
  - case_decide as Hd.
    + assert (nextLastSuccessful r deployment (st_LastSuccessfulImage status)
              = st_LastSuccessfulImage status) as ->.
      { unfold nextLastSuccessful. by case_decide. }
      rewrite Hl, Hkeep.
      change (runtimeCondition s' conditionTypeUpgrading)
        with (runtimeCondition status conditionTypeUpgrading).
      by destruct (runtimeCondition status conditionTypeUpgrading).
    + destruct (observeDeploymentRollout r deployment) eqn:Ho; try case_decide;
        rewrite ?Hnot, ?Hdone by auto; try done; simpl; by rewrite Hl, Hkeep.
Qed.

End Upgrade.

(** ** The whole status *)

Section Whole.
Context `{K8sLaws}.

Lemma condition_applyEntries_other clk n gen es status t :
  t ∉ en_Type <$> es →
  runtimeCondition (applyEntries clk n gen es status) t = runtimeCondition status t.
Proof.
  revert n status. induction es as [|e es IH]; intros n status Ht; [done|].
  rewrite fmap_cons, not_elem_of_cons in Ht. destruct Ht as [Hne Ht].
  simpl. rewrite IH by done. by rewrite runtimeCondition_set, decide_False.
Qed.

Lemma base_fields clk r obs v :
  ∃ cs, buildBaseRuntimeStatus clk r obs v = st_set_conditions cs (baseFields r obs).
Proof. rewrite base_entries. apply applyEntries_fields. Qed.

Lemma base_upgrading clk r obs v :
  runtimeCondition (buildBaseRuntimeStatus clk r obs v) conditionTypeUpgrading
  = runtimeCondition (rt_Status r) conditionTypeUpgrading.
Proof.
  rewrite base_entries, condition_applyEntries_other; [done|].
  rewrite phaseEntries_types. by apply (bool_decide_unpack _).
Qed.

(** The entry [buildRuntimeStatus] writes for [Upgrading]. *)
Definition statusUpgradeEntry (r : TrussiumRuntime) (obs : runtimeObservation) : option Entry :=
  upgradeEntry r (obs_Deployment obs) (st_LastSuccessfulImage (rt_Status r))
    (isPresent (runtimeCondition (rt_Status r) conditionTypeUpgrading)).

Lemma upgradeEntry_type r d last present e :
  upgradeEntry r d last present = Some e → en_Type e = conditionTypeUpgrading.
Proof. unfold upgradeEntry. intros He. repeat case_match; simplify_eq; done. Qed.

(** The entries written by [buildRuntimeStatus], in order. *)
Definition statusEntries (r : TrussiumRuntime) (obs : runtimeObservation)
    (v : referenceValidationResult) : list Entry :=
  phaseEntries (classify r obs v) r obs ++ option_list (statusUpgradeEntry r obs).

Lemma statusEntries_types r obs v :
  en_Type <$> statusEntries r obs v
  = baseConditionTypes ++ (en_Type <$> option_list (statusUpgradeEntry r obs)).
Proof. unfold statusEntries. by rewrite fmap_app, phaseEntries_types. Qed.

Lemma statusEntries_nodup r obs v : NoDup (en_Type <$> statusEntries r obs v).
Proof.
  rewrite statusEntries_types.
  destruct (statusUpgradeEntry r obs) as [e|] eqn:He; simpl;
    [rewrite (upgradeEntry_type _ _ _ _ _ He)|]; by apply (bool_decide_unpack _).
Qed.

(** The base fields with the two image fields the upgrade status adds. *)
Definition statusFields (r : TrussiumRuntime) (obs : runtimeObservation) : TrussiumRuntimeStatus :=
  st_set_last_successful
    (nextLastSuccessful r (obs_Deployment obs) (st_LastSuccessfulImage (rt_Status r)))
    (baseFields r obs).

Lemma applyEntries_app clk n gen es1 es2 status :
  applyEntries clk n gen (es1 ++ es2) status
  = applyEntries clk (length es1 + n) gen es2 (applyEntries clk n gen es1 status).
Proof.
  revert n status. induction es1 as [|e es1 IH]; intros n status; [done|]. simpl.
  rewrite IH. by rewrite Nat.add_succ_r.
Qed.

(** Changing an image field commutes with setting conditions. *)
Lemma applyEntries_images clk n gen es i j status :
  applyEntries clk n gen es (st_set_last_successful i (st_set_desired_image j status))
  = st_set_last_successful i (st_set_desired_image j (applyEntries clk n gen es status)).
Proof.
  revert n status. induction es as [|e es IH]; intros n status; [done|]. simpl.
  rewrite <-IH. done.
Qed.

Lemma build_entries clk r obs v :
  buildRuntimeStatus clk r obs v
  = applyEntries clk 0 (rt_Generation r) (statusEntries r obs v) (statusFields r obs).
Proof.
  unfold buildRuntimeStatus, statusEntries, statusUpgradeEntry. rewrite upgrade_entries.
  rewrite base_upgrading. destruct (base_fields clk r obs v) as [cs Hcs].
  assert (st_LastSuccessfulImage (buildBaseRuntimeStatus clk r obs v)
          = st_LastSuccessfulImage (rt_Status r)) as -> by by rewrite Hcs.
  rewrite applyEntries_app, base_entries.
  assert (length (phaseEntries (classify r obs v) r obs) = 5) as ->.
  { by rewrite <-(length_fmap en_Type), phaseEntries_types. }
  rewrite <-applyEntries_images. done.
Qed.

Lemma build_view clk r obs v t :
  conditionView (buildRuntimeStatus clk r obs v) t
  = match entryFor (statusEntries r obs v) t with
    | Some e => Some (entryVerdict (rt_Generation r) e)
    | None => conditionView (rt_Status r) t
    end.
Proof.
  rewrite build_entries, view_applyEntries by apply statusEntries_nodup. done.
Qed.

Lemma entryFor_app_base es r obs v t :
  t ∈ baseConditionTypes →
  entryFor (phaseEntries (classify r obs v) r obs ++ es) t
  = entryFor (phaseEntries (classify r obs v) r obs) t.
Proof.
  intros Ht. rewrite <-(phaseEntries_types (classify r obs v) r obs) in Ht.
  induction (phaseEntries _ _ _) as [|e l IH]; [by apply not_elem_of_nil in Ht|].
  simpl. rewrite !entryFor_cons. case_decide; [done|]. apply IH.
  rewrite fmap_cons, elem_of_cons in Ht. destruct Ht; [congruence|done].
Qed.

End Whole.

(** C17. Refinement of the documented condition table: every base condition of
    the reported status is the line of the phase the observation is in, for the
    current generation, and the scalar fields mirror the Deployment and the
    Service. *)
Theorem status_refines_phases `{K8sLaws} clk (r : TrussiumRuntime) (obs : runtimeObservation)
    (v : referenceValidationResult) (t : string) :
  t ∈ baseConditionTypes →
  let s := buildRuntimeStatus clk r obs v in
  (∃ e, entryFor (phaseEntries (classify r obs v) r obs) t = Some e
        ∧ conditionView s t = Some (entryVerdict (rt_Generation r) e))
  ∧ st_ObservedGeneration s = rt_Generation r
  ∧ st_ReadyReplicas s = from_option (λ d, dstat_ReadyReplicas (d_Status d)) 0%Z (obs_Deployment obs)
  ∧ st_AvailableReplicas s
    = from_option (λ d, dstat_AvailableReplicas (d_Status d)) 0%Z (obs_Deployment obs)
  ∧ st_DesiredImage s = runtimeImage (spec_Image (rt_Spec r))
  ∧ st_CurrentImage s = deploymentCurrentImage (obs_Deployment obs)
  ∧ st_Endpoint s = runtimeServiceEndpoint (obs_Service obs).
Proof.
  intros Ht s. split.
  - destruct (entryFor (phaseEntries (classify r obs v) r obs) t) as [e|] eqn:He.
    + exists e. split; [done|]. unfold s. rewrite build_view. unfold statusEntries.
      by rewrite entryFor_app_base, He.
    + apply entryFor_none in He. by rewrite phaseEntries_types in He.
  - unfold s. rewrite build_entries.
    destruct (applyEntries_fields clk 0 (rt_Generation r) (statusEntries r obs v)
      (statusFields r obs)) as [cs ->]. simpl. by destruct (obs_Deployment obs).
Qed.

Lemma status_refines_phases_witness :
  let obs := mkObservation (Some (sampleDeployment (rolledOut 2))) (Some sampleService) in
  let s := @buildRuntimeStatus RefKube.lib sampleClock sampleRuntime obs validReferenceValidation in
  (∃ e, entryFor (phaseEntries (classify sampleRuntime obs validReferenceValidation)
                    sampleRuntime obs) conditionTypeReady = Some e
        ∧ @conditionView RefKube.lib s conditionTypeReady = Some (entryVerdict 4 e))
  ∧ st_Endpoint s = "http://private-ai.trussium.svc.cluster.local:9000".
Proof.
  intros obs s.
  destruct (@status_refines_phases RefKube.lib RefKube.laws sampleClock sampleRuntime obs
    validReferenceValidation conditionTypeReady) as [He Hf].
  - apply (bool_decide_unpack _). vm_compute. exact I.
  - split; [exact He|]. destruct Hf as (_ & _ & _ & _ & _ & Hep).
    etransitivity; [exact Hep|reflexivity].
Defined.

(** ** When a runtime is ready, degraded or progressing *)

Section Health.
Context `{K8sLaws}.

Lemma failureMessage_existsb p fallback cs :
  existsb p cs = match failureMessage p fallback cs with Some _ => true | None => false end.
Proof. induction cs as [|c cs IH]; simpl; [done|]. by destruct (p c). Qed.

Lemma existsb_or {A} (p q : A → bool) l :
  existsb (λ x, p x || q x) l = existsb p l || existsb q l.
Proof.
  induction l as [|x l IH]; simpl; [done|]. rewrite IH.
  by destruct (p x), (q x), (existsb p l).
Qed.

(** The two scans of the Deployment's conditions agree. *)
Lemma deploymentFailure_none d :
  deploymentFailure d = None ↔ deploymentHasRolloutFailure d = false.
Proof.
  unfold deploymentFailure, deploymentHasRolloutFailure. rewrite existsb_or.
  rewrite (failureMessage_existsb isProgressDeadlineExceeded
             "The runtime Deployment exceeded its progress deadline.").
  rewrite (failureMessage_existsb isReplicaFailure
             "The runtime Deployment reported a replica failure.").
  destruct (failureMessage isProgressDeadlineExceeded _ _); [done|].
  by destruct (failureMessage isReplicaFailure _ _).
Qed.

(** The status of a base condition is read off the table. *)
Lemma base_status_is clk r obs v t s :
  t ∈ baseConditionTypes →
  conditionStatusIs (buildRuntimeStatus clk r obs v) t s
  ↔ en_Status <$> entryFor (phaseEntries (classify r obs v) r obs) t = Some s.
Proof.
  intros Ht. unfold conditionStatusIs. rewrite build_view. unfold statusEntries.
  rewrite entryFor_app_base by done.
  destruct (entryFor _ t) eqn:He; [done|].
  apply entryFor_none in He. by rewrite phaseEntries_types in He.
Qed.

Definition phaseReady (p : Phase) : bool :=
  match p with PhaseScaledToZero | PhaseReady => true | _ => false end.
Definition phaseDegraded (p : Phase) : bool :=
  match p with PhaseInvalid _ _ | PhaseFailed _ _ => true | _ => false end.
Definition phaseProgressing (p : Phase) : bool :=
  match p with PhaseCreating | PhaseScalingToZero | PhaseConverging _ => true | _ => false end.

Definition ofBool (b : bool) : ConditionStatus := if b then ConditionTrue else ConditionFalse.

Lemma availabilityEntry_type a b : en_Type (availabilityEntry a b) = conditionTypeAvailable.
Proof. unfold availabilityEntry. by destruct (a =? 0)%Z, (0 <? b)%Z. Qed.

Lemma phase_lines p r obs :
  en_Status <$> entryFor (phaseEntries p r obs) conditionTypeReady = Some (ofBool (phaseReady p))
  ∧ en_Status <$> entryFor (phaseEntries p r obs) conditionTypeDegraded
    = Some (ofBool (phaseDegraded p))
  ∧ en_Status <$> entryFor (phaseEntries p r obs) conditionTypeProgressing
    = Some (ofBool (phaseProgressing p)).
Proof.
  destruct p as [| | | | | |[]]; unfold phaseEntries; cbv zeta;
    rewrite !entryFor_cons, ?availabilityEntry_type; done.
Qed.

End Health.

(** In every reported status exactly one of [Ready], [Degraded] and
    [Progressing] is True and the other two are False. *)
Theorem health_trichotomy `{K8sLaws} clk (r : TrussiumRuntime) (obs : runtimeObservation)
    (v : referenceValidationResult) :
  let s := buildRuntimeStatus clk r obs v in
  let says := λ t, conditionStatusIs s t in
  (says conditionTypeReady ConditionTrue ∧ says conditionTypeDegraded ConditionFalse
   ∧ says conditionTypeProgressing ConditionFalse)
  ∨ (says conditionTypeReady ConditionFalse ∧ says conditionTypeDegraded ConditionTrue
     ∧ says conditionTypeProgressing ConditionFalse)
  ∨ (says conditionTypeReady ConditionFalse ∧ says conditionTypeDegraded ConditionFalse
     ∧ says conditionTypeProgressing ConditionTrue).
Proof.
  intros s says. unfold says, s.
  rewrite !base_status_is by (apply (bool_decide_unpack _); vm_compute; exact I).
  destruct (phase_lines (classify r obs v) r obs) as (-> & -> & ->).
  destruct (classify r obs v); simpl; auto.
Qed.

Lemma health_trichotomy_witness :
  let s := @buildRuntimeStatus RefKube.lib sampleClock sampleRuntime (mkObservation None None)
             validReferenceValidation in
  @conditionStatusIs RefKube.lib s conditionTypeReady ConditionFalse.
Proof.
  destruct (@health_trichotomy RefKube.lib RefKube.laws sampleClock sampleRuntime
    (mkObservation None None) validReferenceValidation) as [[H _]|[[H _]|[H _]]];
    [vm_compute in H; discriminate H|exact H|exact H].
Defined.

Section HealthIff.
Context `{K8sLaws}.

Lemma classify_ready r obs v :
  phaseReady (classify r obs v) = true ↔
  v_Valid v = true ∧ ∃ d, obs_Deployment obs = Some d
    ∧ (om_Generation (d_Meta d) <= dstat_ObservedGeneration (d_Status d))%Z
    ∧ dstat_ReadyReplicas (d_Status d) = desiredReplicaCount r (Some d)
    ∧ dstat_AvailableReplicas (d_Status d) = desiredReplicaCount r (Some d)
    ∧ (desiredReplicaCount r (Some d) = 0%Z ∨ deploymentHasRolloutFailure d = false).
Proof.
  unfold classify. destruct (v_Valid v); [|split; [done|by intros [? _]]].
  destruct (obs_Deployment obs) as [d|]; [|split; [done|by intros [_ (d & ? & _)]]].
  pose proof (deploymentFailure_none d) as Hf. set (settled := _ && _).
  assert (Hs : settled = true ↔
    (om_Generation (d_Meta d) <= dstat_ObservedGeneration (d_Status d))%Z
    ∧ dstat_ReadyReplicas (d_Status d) = desiredReplicaCount r (Some d)
    ∧ dstat_AvailableReplicas (d_Status d) = desiredReplicaCount r (Some d)).
  { unfold settled. rewrite !andb_true_iff, Z.leb_le, !Z.eqb_eq. tauto. }
  split.
  - intros Hr. split; [done|]. exists d. split; [done|].
    destruct (Z.eqb_spec (desiredReplicaCount r (Some d)) 0) as [Hz|Hne].
    + destruct settled; [|done]. destruct (proj1 Hs eq_refl) as (? & ? & ?). auto.
    + destruct (deploymentFailure d) as [[]|]; [done|].
      destruct settled; [|done]. destruct (proj1 Hs eq_refl) as (? & ? & ?). tauto.
  - intros [_ (d' & He & Hg & Hrd & Hav & Hok)]. simplify_eq.
    rewrite (proj2 Hs) by done.
    destruct (Z.eqb_spec (desiredReplicaCount r (Some d')) 0) as [Hz|Hne]; [done|].
    destruct Hok as [?|Hok]; [done|]. by rewrite (proj2 Hf Hok).
Qed.

Lemma classify_degraded r obs v :
  phaseDegraded (classify r obs v) = true ↔
  v_Valid v = false ∨ ∃ d, obs_Deployment obs = Some d
    ∧ desiredReplicaCount r (Some d) ≠ 0%Z ∧ deploymentHasRolloutFailure d = true.
Proof.
  unfold classify. destruct (v_Valid v); [|split; [by left|done]].
  destruct (obs_Deployment obs) as [d|]; [|split; [done|by intros [?|(d & ? & _)]]].
  pose proof (deploymentFailure_none d) as Hf.
  assert (Hex : (true = false ∨ ∃ d', Some d = Some d' ∧ desiredReplicaCount r (Some d') ≠ 0%Z
     ∧ deploymentHasRolloutFailure d' = true) ↔
     desiredReplicaCount r (Some d) ≠ 0%Z ∧ deploymentHasRolloutFailure d = true).
  { split; [intros [?|(d' & He & Hd)]; by simplify_eq|]. intros Hd. right. by exists d. }
  rewrite Hex. clear Hex.
  destruct (Z.eqb_spec (desiredReplicaCount r (Some d)) 0) as [H0'|Hne].
  - destruct (_ && _); simpl; split; try done; by intros [? _].
  - destruct (deploymentFailure d) as [[reason message]|].
    + simpl. split; [|done]. intros _. split; [done|].
      destruct (deploymentHasRolloutFailure d); [done|]. discriminate (proj2 Hf eq_refl).
    + rewrite (proj1 Hf eq_refl). destruct (_ && _); simpl; split; try done; by intros [_ ?].
Qed.

End HealthIff.

(** The replicas the [Available] condition takes as requested: the declared
    ones while references are invalid, otherwise those of the Deployment. *)
Definition requestedReplicas (r : TrussiumRuntime) (obs : runtimeObservation)
    (v : referenceValidationResult) : Z :=
  if v_Valid v then desiredReplicaCount r (obs_Deployment obs) else desiredReplicas r.

Lemma availabilityEntry_status a b :
  en_Status (availabilityEntry a b) = ofBool (negb (a =? 0)%Z && (0 <? b)%Z).
Proof. unfold availabilityEntry. by destruct (a =? 0)%Z, (0 <? b)%Z. Qed.

(** The [Available] line of the table, by its two inputs. *)
Lemma available_line r obs v :
  (0 <= desiredReplicaCount r (obs_Deployment obs))%Z →
  en_Status <$> entryFor (phaseEntries (classify r obs v) r obs) conditionTypeAvailable
  = Some (ofBool (negb (requestedReplicas r obs v =? 0)%Z
                  && (0 <? st_AvailableReplicas (baseFields r obs))%Z)).
Proof.
  intros Hpos. unfold classify, requestedReplicas. destruct (v_Valid v);
    [destruct obs as [[d|] svc]; cbn [obs_Deployment] in *|];
    try (unfold phaseEntries; cbv zeta; rewrite !entryFor_cons, ?availabilityEntry_type; simpl;
         by rewrite availabilityEntry_status).
  destruct (Z.eqb_spec (desiredReplicaCount r (Some d)) 0) as [H0|H0];
    [destruct (_ && _)|destruct (deploymentFailure d) as [[reason message]|]; [|destruct (_ && _) eqn:Hs]];
    unfold phaseEntries; cbv zeta; rewrite !entryFor_cons, ?availabilityEntry_type; simpl; try done.
  - rewrite availabilityEntry_status. simpl. by rewrite (proj2 (Z.eqb_neq _ _) H0).
  - apply andb_true_iff in Hs as [_ Ha]. apply Z.eqb_eq in Ha. rewrite Ha.
    by rewrite (proj2 (Z.ltb_lt 0 _)) by lia.
  - destruct (_ <=? _)%Z; simpl; rewrite availabilityEntry_status; simpl;
      by rewrite (proj2 (Z.eqb_neq _ _) H0).
Qed.

(** C19. [Available] is True exactly when replicas are requested and at least
    one is available.  While references are invalid the requested count is the
    declared one, also when an autoscaler has chosen another. *)
Theorem available_iff `{K8sLaws} clk (r : TrussiumRuntime) (obs : runtimeObservation)
    (v : referenceValidationResult) :
  (0 <= desiredReplicaCount r (obs_Deployment obs))%Z →
  conditionStatusIs (buildRuntimeStatus clk r obs v) conditionTypeAvailable ConditionTrue ↔
  requestedReplicas r obs v ≠ 0%Z
  ∧ ∃ d, obs_Deployment obs = Some d ∧ (0 < dstat_AvailableReplicas (d_Status d))%Z.
Proof.
  intros Hpos. rewrite base_status_is by (apply (bool_decide_unpack _); vm_compute; exact I).
  rewrite available_line by done. rewrite <-Z.eqb_neq.
  destruct obs as [[d|] svc]; simpl.
  - destruct (requestedReplicas _ _ _ =? 0)%Z, (Z.ltb_spec 0 (dstat_AvailableReplicas (d_Status d)));
      simpl; split; try done.
    + by intros [? _].
    + by intros [? _].
    + intros _. split; [done|]. by exists d.
    + intros (_ & d' & Hd & Ha). injection Hd as <-. lia.
  - destruct (_ =? 0)%Z; simpl; split; try done; by intros (_ & d & ? & _).
Qed.

(** An autoscaled runtime with two available Pods that declares zero replicas:
    not available as soon as a reference is invalid. *)
Lemma available_iff_witness :
  let r := sampleWith (λ s, withReplicas (Some 0%Z)
             (withAutoscaling (Some (mkAutoscaling true 1 4 80)) s)) in
  let obs := mkObservation (Some (sampleDeployment (rolledOut 2))) None in
  let v := mkValidation false reasonSecretNotFound "missing" None in
  @conditionStatusIs RefKube.lib
    (@buildRuntimeStatus RefKube.lib sampleClock r obs validReferenceValidation)
    conditionTypeAvailable ConditionTrue
  ∧ ¬ @conditionStatusIs RefKube.lib (@buildRuntimeStatus RefKube.lib sampleClock r obs v)
        conditionTypeAvailable ConditionTrue.
Proof.
  intros r obs v. split.
  - apply (@available_iff RefKube.lib RefKube.laws); [vm_compute; discriminate|].
    split; [vm_compute; discriminate|]. eexists. split; [reflexivity|vm_compute; reflexivity].
  - intros Hc. apply (@available_iff RefKube.lib RefKube.laws) in Hc; [|vm_compute; discriminate].
    destruct Hc as [Hc _]. apply Hc. vm_compute. reflexivity.
Defined.
