(* ===== verification/DeepCopyProps.v ===== *)
(** * Deep copies are independent

    What a structure of the API types denotes, field by field, and that every
    generated copy method returns a structure that denotes the same value and
    shares no memory with the original. *)

From S2P Require Import Prelude KubeTypes ApiTypes Memory DeepCopy.

Declare Scope rep_scope.
Notation "R ⊗ S" := (repPair R S) (at level 40, left associativity) : rep_scope.
Notation "c ⊙ d" := (copyPair c d) (at level 40, left associativity) : rep_scope.
Open Scope rep_scope.

(** ** What the structures denote *)

Section Denotations.
Context `{ExternalCopies}.

Definition repPodMetadataSpec : Rep Cell PodMetadataSpecM PodMetadataSpec :=
  repFields (λ a, (pmM_Labels a, pmM_Annotations a)) (λ v, (pm_Labels v, pm_Annotations v))
    (repMap ⊗ repMap).

Definition repProviderSpec : Rep Cell ProviderSpecM ProviderSpec :=
  repFields
    (λ a, (provM_Type a, provM_Model a, provM_BaseURL a, provM_CredentialsSecretRef a))
    (λ v, (prov_Type v, prov_Model v, prov_BaseURL v, prov_CredentialsSecretRef v))
    (repFlat ⊗ repFlat ⊗ repPtr repFlat ⊗ repPtr repFlat).

Definition repRuntimeImageSpec : Rep Cell RuntimeImageSpecM RuntimeImageSpec :=
  repFields (λ a, (imgM_Repository a, imgM_Tag a, imgM_Digest a, imgM_PullPolicy a))
    (λ v, (img_Repository v, img_Tag v, img_Digest v, img_PullPolicy v))
    (repFlat ⊗ repPtr repFlat ⊗ repPtr repFlat ⊗ repFlat).

Definition repIngressRule
    : Rep Cell RuntimeNetworkPolicyIngressRuleM RuntimeNetworkPolicyIngressRule :=
  repFields (λ a, (riM_NamespaceSelector a, riM_PodSelector a))
    (λ v, (ri_NamespaceSelector v, ri_PodSelector v))
    (repLabelSelector ⊗ repPtr repLabelSelector).

Definition repRuntimeNetworkPolicySpec : Rep Cell RuntimeNetworkPolicySpecM RuntimeNetworkPolicySpec :=
  repFields (λ a, (rnpM_Enabled a, rnpM_Ingress a)) (λ v, (rnp_Enabled v, rnp_Ingress v))
    (repFlat ⊗ repSlice repIngressRule).

Definition repRuntimeSettingsSpec : Rep Cell RuntimeSettingsSpecM RuntimeSettingsSpec :=
  repFields
    (λ a, (rsM_ProviderRequestTimeoutSeconds a, rsM_StreamIdleTimeoutSeconds a,
           rsM_ShutdownDrainTimeoutSeconds a))
    (λ v, (rs_ProviderRequestTimeoutSeconds v, rs_StreamIdleTimeoutSeconds v,
           rs_ShutdownDrainTimeoutSeconds v))
    (repPtr repFlat ⊗ repPtr repFlat ⊗ repPtr repFlat).

Definition repSchedulingSpec : Rep Cell SchedulingSpecM SchedulingSpec :=
  repFields (λ a, (schM_NodeSelector a, schM_Tolerations a, schM_Affinity a))
    (λ v, (sch_NodeSelector v, sch_Tolerations v, sch_Affinity v))
    (repMap ⊗ repSlice repToleration ⊗ repPtr repAffinity).

Definition repTrussiumRuntimeSpec : Rep Cell TrussiumRuntimeSpecM TrussiumRuntimeSpec :=
  repFields
    (λ a, (specM_Image a, specM_Replicas a, specM_ImagePullSecrets a, specM_Provider a,
           specM_Runtime a, specM_Service a, specM_NetworkPolicy a, specM_Autoscaling a,
           specM_Resources a, specM_PodMetadata a, specM_Scheduling a))
    (λ v, (spec_Image v, spec_Replicas v, spec_ImagePullSecrets v, spec_Provider v,
           spec_Runtime v, spec_Service v, spec_NetworkPolicy v, spec_Autoscaling v,
           spec_Resources v, spec_PodMetadata v, spec_Scheduling v))
    (repRuntimeImageSpec ⊗ repPtr repFlat ⊗ repSlice repFlat ⊗ repProviderSpec
     ⊗ repPtr repRuntimeSettingsSpec ⊗ repFlat ⊗ repPtr repRuntimeNetworkPolicySpec
     ⊗ repPtr repFlat ⊗ repResourceRequirements ⊗ repPtr repPodMetadataSpec
     ⊗ repPtr repSchedulingSpec).

Definition repTrussiumRuntimeStatus : Rep Cell TrussiumRuntimeStatusM TrussiumRuntimeStatus :=
  repFields
    (λ a, (stM_ObservedGeneration a, stM_ReadyReplicas a, stM_AvailableReplicas a,
           stM_DesiredImage a, stM_CurrentImage a, stM_LastSuccessfulImage a, stM_Endpoint a,
           stM_Conditions a))
    (λ v, (st_ObservedGeneration v, st_ReadyReplicas v, st_AvailableReplicas v,
           st_DesiredImage v, st_CurrentImage v, st_LastSuccessfulImage v, st_Endpoint v,
           st_Conditions v))
    (repFlat ⊗ repFlat ⊗ repFlat ⊗ repFlat ⊗ repFlat ⊗ repFlat ⊗ repFlat ⊗ repSlice repFlat).

Definition repTrussiumRuntime : Rep Cell TrussiumRuntimeM TrussiumRuntime :=
  repFields (λ a, (rtM_TypeMeta a, rtM_ObjectMeta a, rtM_Spec a, rtM_Status a))
    (λ v, (rt_TypeMeta v, rt_Meta v, rt_Spec v, rt_Status v))
    (repFlat ⊗ repObjectMeta ⊗ repTrussiumRuntimeSpec ⊗ repTrussiumRuntimeStatus).

Definition repTrussiumRuntimeList : Rep Cell TrussiumRuntimeListM TrussiumRuntimeList :=
  repFields (λ a, (rtlM_TypeMeta a, rtlM_ListMeta a, rtlM_Items a))
    (λ v, (rl_TypeMeta v, rl_Meta v, rl_Items v))
    (repFlat ⊗ repListMeta ⊗ repSlice repTrussiumRuntime).

End Denotations.

(** ** Every generated method copies *)

Create HintDb copies.
#[export] Hint Resolve copy_flat copy_ptr copy_map copy_slice copy_pair : copies.
#[export] Hint Resolve copy_object_meta copy_list_meta copy_label_selector copy_toleration
  copy_affinity copy_resource_requirements copy_condition : copies.

(** Copying the fields in order is what the method does. *)
Ltac same_fields :=
  intros [] h; unfold copyPair, mbind, Mem_bind, mret, Mem_ret; simpl;
  repeat match goal with
  | |- context [match ?m with Some _ => _ | None => _ end] =>
      lazymatch m with
      | context [match _ with Some _ => _ | None => _ end] => fail
      | _ => destruct m as [[? ?]|]; simpl
      end
  end; done.

Section Copies.
Context `{ExternalCopyLaws}.

Lemma copy_PodMetadataSpec : CopyOk repPodMetadataSpec DeepCopyInto_PodMetadataSpec.
Proof.
  apply (copy_fields _ (λ '(x0, x1),
    mkPodMetadataM x0 x1) _ _
    (copyMap ⊙ copyMap));
    [eauto 20 with copies|by intros [? ?]|unfold DeepCopyInto_PodMetadataSpec; same_fields].
Qed.
#[local] Hint Resolve copy_PodMetadataSpec : copies.

Lemma copy_ProviderSpec : CopyOk repProviderSpec DeepCopyInto_ProviderSpec.
Proof.
  apply (copy_fields _ (λ '(x0, x1, x2, x3),
    mkProviderM x0 x1 x2 x3) _ _
    (mret ⊙ mret ⊙ copyPtr (A := string) mret ⊙ copyPtr (A := SecretKeyReference) mret));
    [eauto 20 with copies|by intros [[[? ?] ?] ?]|unfold DeepCopyInto_ProviderSpec; same_fields].
Qed.
#[local] Hint Resolve copy_ProviderSpec : copies.

Lemma copy_RuntimeImageSpec : CopyOk repRuntimeImageSpec DeepCopyInto_RuntimeImageSpec.
Proof.
  apply (copy_fields _ (λ '(x0, x1, x2, x3),
    mkImageM x0 x1 x2 x3) _ _
    (mret ⊙ copyPtr (A := string) mret ⊙ copyPtr (A := string) mret ⊙ mret));
    [eauto 20 with copies|by intros [[[? ?] ?] ?]|unfold DeepCopyInto_RuntimeImageSpec; same_fields].
Qed.
#[local] Hint Resolve copy_RuntimeImageSpec : copies.

Lemma copy_RuntimeNetworkPolicyIngressRule : CopyOk repIngressRule DeepCopyInto_RuntimeNetworkPolicyIngressRule.
Proof.
  apply (copy_fields _ (λ '(x0, x1),
    mkRuntimeIngressM x0 x1) _ _
    (copyLabelSelector ⊙ copyPtr copyLabelSelector));
    [eauto 20 with copies|by intros [? ?]|unfold DeepCopyInto_RuntimeNetworkPolicyIngressRule; same_fields].
Qed.
#[local] Hint Resolve copy_RuntimeNetworkPolicyIngressRule : copies.

Lemma copy_RuntimeNetworkPolicySpec : CopyOk repRuntimeNetworkPolicySpec DeepCopyInto_RuntimeNetworkPolicySpec.
Proof.
  apply (copy_fields _ (λ '(x0, x1),
    mkRuntimeNetworkPolicyM x0 x1) _ _
    (mret ⊙ copySlice DeepCopyInto_RuntimeNetworkPolicyIngressRule));
    [eauto 20 with copies|by intros [? ?]|unfold DeepCopyInto_RuntimeNetworkPolicySpec; same_fields].
Qed.
#[local] Hint Resolve copy_RuntimeNetworkPolicySpec : copies.

Lemma copy_RuntimeSettingsSpec : CopyOk repRuntimeSettingsSpec DeepCopyInto_RuntimeSettingsSpec.
Proof.
  apply (copy_fields _ (λ '(x0, x1, x2),
    mkSettingsM x0 x1 x2) _ _
    (copyPtr (A := Z) mret ⊙ copyPtr (A := Z) mret ⊙ copyPtr (A := Z) mret));
    [eauto 20 with copies|by intros [[? ?] ?]|unfold DeepCopyInto_RuntimeSettingsSpec; same_fields].
Qed.
#[local] Hint Resolve copy_RuntimeSettingsSpec : copies.

Lemma copy_SchedulingSpec : CopyOk repSchedulingSpec DeepCopyInto_SchedulingSpec.
Proof.
  apply (copy_fields _ (λ '(x0, x1, x2),
    mkSchedulingM x0 x1 x2) _ _
    (copyMap ⊙ copySlice copyToleration ⊙ copyPtr copyAffinity));
    [eauto 20 with copies|by intros [[? ?] ?]|unfold DeepCopyInto_SchedulingSpec; same_fields].
Qed.
#[local] Hint Resolve copy_SchedulingSpec : copies.

Lemma copy_TrussiumRuntimeSpec : CopyOk repTrussiumRuntimeSpec DeepCopyInto_TrussiumRuntimeSpec.
Proof.
  apply (copy_fields _ (λ '(x0, x1, x2, x3, x4, x5, x6, x7, x8, x9, x10),
    mkSpecM x0 x1 x2 x3 x4 x5 x6 x7 x8 x9 x10) _ _
    (DeepCopyInto_RuntimeImageSpec ⊙ copyPtr (A := Z) mret ⊙ copySlice (A := NamedReference)
     mret ⊙ DeepCopyInto_ProviderSpec ⊙ copyPtr DeepCopyInto_RuntimeSettingsSpec ⊙ mret ⊙
     copyPtr DeepCopyInto_RuntimeNetworkPolicySpec ⊙ copyPtr (A := RuntimeAutoscalingSpec)
     mret ⊙ copyResourceRequirements ⊙ copyPtr DeepCopyInto_PodMetadataSpec ⊙ copyPtr
     DeepCopyInto_SchedulingSpec));
    [eauto 20 with copies|by intros [[[[[[[[[[? ?] ?] ?] ?] ?] ?] ?] ?] ?] ?]|unfold DeepCopyInto_TrussiumRuntimeSpec; same_fields].
Qed.
#[local] Hint Resolve copy_TrussiumRuntimeSpec : copies.

Lemma copy_TrussiumRuntimeStatus : CopyOk repTrussiumRuntimeStatus DeepCopyInto_TrussiumRuntimeStatus.
Proof.
  apply (copy_fields _ (λ '(x0, x1, x2, x3, x4, x5, x6, x7),
    mkStatusM x0 x1 x2 x3 x4 x5 x6 x7) _ _
    (mret ⊙ mret ⊙ mret ⊙ mret ⊙ mret ⊙ mret ⊙ mret ⊙ copySlice copyCondition));
    [eauto 20 with copies|by intros [[[[[[[? ?] ?] ?] ?] ?] ?] ?]|unfold DeepCopyInto_TrussiumRuntimeStatus; same_fields].
Qed.
#[local] Hint Resolve copy_TrussiumRuntimeStatus : copies.

Lemma copy_TrussiumRuntime : CopyOk repTrussiumRuntime DeepCopyInto_TrussiumRuntime.
Proof.
  apply (copy_fields _ (λ '(x0, x1, x2, x3),
    mkRuntimeM x0 x1 x2 x3) _ _
    (mret ⊙ copyObjectMeta ⊙ DeepCopyInto_TrussiumRuntimeSpec ⊙
     DeepCopyInto_TrussiumRuntimeStatus));
    [eauto 20 with copies|by intros [[[? ?] ?] ?]|unfold DeepCopyInto_TrussiumRuntime; same_fields].
Qed.
#[local] Hint Resolve copy_TrussiumRuntime : copies.

Lemma copy_TrussiumRuntimeList : CopyOk repTrussiumRuntimeList DeepCopyInto_TrussiumRuntimeList.
Proof.
  apply (copy_fields _ (λ '(x0, x1, x2),
    mkRuntimeListM x0 x1 x2) _ _
    (mret ⊙ copyListMeta ⊙ copySlice DeepCopyInto_TrussiumRuntime));
    [eauto 20 with copies|by intros [[? ?] ?]|unfold DeepCopyInto_TrussiumRuntimeList; same_fields].
Qed.
#[local] Hint Resolve copy_TrussiumRuntimeList : copies.

End Copies.

#[export] Hint Resolve copy_PodMetadataSpec copy_ProviderSpec copy_RuntimeImageSpec
  copy_RuntimeNetworkPolicyIngressRule copy_RuntimeNetworkPolicySpec copy_RuntimeSettingsSpec
  copy_SchedulingSpec copy_TrussiumRuntimeSpec copy_TrussiumRuntimeStatus copy_TrussiumRuntime
  copy_TrussiumRuntimeList : copies.

(** ** Independence *)

(** A method that returns nil for nil and otherwise a structure that denotes
    the same value, changes nothing that existed, and whose result keeps its
    value whatever is written outside of it, as the original does whatever is
    written to the copy. *)
Definition independentCopy {Cell A V} `{!Storable Cell A} (R : Rep Cell A V)
    (copy : option loc → Mem Cell (option loc)) : Prop :=
  ∀ h p v F, repPtr R h p v F →
  ∃ p' h' F', copy p h = Some (p', h') ∧ (p' = None ↔ p = None)
    ∧ repPtr R h' p' v F' ∧ h ⊆ h' ∧ F' ## F
    ∧ (∀ h'', agree F' h' h'' → repPtr R h'' p' v F')
    ∧ (∀ h'', agree F h' h'' → repPtr R h'' p v F).

Lemma deep_copy_independent {Cell A V} `{!Storable Cell A} (R : Rep Cell A V) c :
  CopyOk R c → independentCopy R (DeepCopy c).
Proof.
  intros Hc h p v F Hr. pose proof (copy_ptr R c Hc) as Hp.
  destruct (rep_copy _ _ Hp _ _ _ _ Hr) as (p' & h' & F' & Hcp & Hr' & Hs & Hd).
  exists p', h', F'. rewrite deep_copy_ptr. split; [done|]. split.
  { destruct p as [l|]; simpl in *; [|by injection Hcp as <- _].
    split; [|done]. intros ->. destruct Hr as (a & w & G & _ & _ & -> & _). by destruct Hr'. }
  pose proof (rep_dom _ _ Hp _ _ _ _ Hr) as Hdom.
  split; [done|]. split; [done|]. split; [set_solver|]. split; intros h'' Ha.
  - by eapply (rep_local _ _ Hp).
  - eapply (rep_local _ _ Hp); [|exact Ha]. by eapply rep_grow.
Qed.

Lemma independent_object {Cell A V} `{!Storable Cell A} (R : Rep Cell A V)
    (copy : option loc → Mem Cell (option loc)) :
  independentCopy R copy →
  independentCopy R (λ p, c ← copy p; match c with Some l => mret (Some l) | None => mret None end).
Proof.
  intros Hc h p v F Hr. destruct (Hc h p v F Hr) as (p' & h' & F' & Hcp & Hrest).
  exists p', h', F'. split; [|exact Hrest]. rewrite (bind_some _ _ _ _ _ Hcp). by destruct p'.
Qed.

(** C13. Every generated deep copy is independent of its original: it denotes
    the same value, it is nil exactly for nil, making it changes no existing
    memory, no location is reachable from both, and writes through the original
    are invisible through the copy and the other way round.  In particular no
    reference field of a type is forgotten. *)
Theorem deep_copies_independent `{ExternalCopyLaws} :
  independentCopy repTrussiumRuntime DeepCopyObject_TrussiumRuntime
  ∧ independentCopy repTrussiumRuntimeList DeepCopyObject_TrussiumRuntimeList
  ∧ independentCopy repTrussiumRuntime DeepCopy_TrussiumRuntime
  ∧ independentCopy repTrussiumRuntimeList DeepCopy_TrussiumRuntimeList
  ∧ independentCopy repTrussiumRuntimeSpec DeepCopy_TrussiumRuntimeSpec
  ∧ independentCopy repTrussiumRuntimeStatus DeepCopy_TrussiumRuntimeStatus
  ∧ independentCopy repRuntimeImageSpec DeepCopy_RuntimeImageSpec
  ∧ independentCopy repProviderSpec DeepCopy_ProviderSpec
  ∧ independentCopy repRuntimeSettingsSpec DeepCopy_RuntimeSettingsSpec
  ∧ independentCopy repIngressRule DeepCopy_RuntimeNetworkPolicyIngressRule
  ∧ independentCopy repRuntimeNetworkPolicySpec DeepCopy_RuntimeNetworkPolicySpec
  ∧ independentCopy repPodMetadataSpec DeepCopy_PodMetadataSpec
  ∧ independentCopy repSchedulingSpec DeepCopy_SchedulingSpec
  ∧ independentCopy (repFlat (A := NamedReference)) DeepCopy_NamedReference
  ∧ independentCopy (repFlat (A := SecretKeyReference)) DeepCopy_SecretKeyReference
  ∧ independentCopy (repFlat (A := RuntimeServiceSpec)) DeepCopy_RuntimeServiceSpec
  ∧ independentCopy (repFlat (A := RuntimeAutoscalingSpec)) DeepCopy_RuntimeAutoscalingSpec.
Proof.
  split_and!; try (apply deep_copy_independent; by eauto with copies).
  - apply independent_object, deep_copy_independent, copy_TrussiumRuntime.
  - apply independent_object, deep_copy_independent, copy_TrussiumRuntimeList.
Qed.

(** ** External types as plain values

    One layout of the external types: label selectors refer to a map, the
    others are plain values. *)
Module PlainTypes.

#[export] Instance types : ExternalTypes := {|
  xObjectMeta := ObjectMeta;
  xListMeta := ListMeta;
  xLabelSelector := option loc * list RawJSON;
  xToleration := Toleration;
  xAffinity := Affinity;
  xResourceRequirements := ResourceRequirements;
  xCell := Empty_set
|}.

#[export] Instance copies : ExternalCopies := {|
  repObjectMeta := repFlat; copyObjectMeta := mret;
  repListMeta := repFlat; copyListMeta := mret;
  repLabelSelector :=
    repFields (λ a, a) (λ v, (ls_MatchLabels v, ls_MatchExpressions v)) (repMap ⊗ repFlat);
  copyLabelSelector := copyMap ⊙ mret;
  repToleration := repFlat; copyToleration := mret;
  repAffinity := repFlat; copyAffinity := mret;
  repResourceRequirements := repFlat; copyResourceRequirements := mret;
  copyCondition := mret
|}.

#[export] Instance laws : @ExternalCopyLaws types copies.
Proof.
  split; simpl; try apply copy_flat.
  apply (copy_fields _ (λ b, b) _ _ (copyMap ⊙ mret)); [eauto with copies|done|same_fields].
Qed.

End PlainTypes.

(** An image whose tag is overwritten after the copy: the copy keeps its tag. *)
Lemma deep_copies_independent_witness :
  let image := @mkImageM "ghcr.io/trussiumhq/trussium" (Some 2%positive) None "IfNotPresent" in
  let h : Heap (@Cell PlainTypes.types) := <[1%positive := CImage image]> {[2%positive := CString "v1.22.0"]} in
  let v := mkImage "ghcr.io/trussiumhq/trussium" (Some "v1.22.0") None "IfNotPresent" in
  ∃ l h' F, @DeepCopy_RuntimeImageSpec PlainTypes.types (Some 1%positive) h = Some (Some l, h')
    ∧ repPtr repRuntimeImageSpec (<[2%positive := CString "v1.23.0"]> h') (Some l) (Some v) F.
Proof.
  intros image h v.
  assert (Hr : repPtr repRuntimeImageSpec h (Some 1%positive) (Some v) {[1%positive; 2%positive]}).
  { exists image, v, {[2%positive]}. split; [done|]. split; [|done].
    exists {[2%positive]}, ∅. split; [|split; [done|set_solver]].
    exists {[2%positive]}, ∅. split; [|split; [done|set_solver]].
    exists ∅, {[2%positive]}. split; [done|]. split; [|set_solver].
    exists "v1.22.0", "v1.22.0", ∅. repeat split. }
  destruct (@deep_copies_independent _ _ PlainTypes.laws) as (_ & _ & _ & _ & _ & _ & Himage & _).
  destruct (Himage _ _ _ _ Hr) as (p' & h' & F' & Hc & Hn & Hr' & _ & Hd & Hkeep & _).
  destruct p' as [l|]; [|destruct Hn as [Hn _]; discriminate (Hn eq_refl)].
  exists l, h', F'. split; [exact Hc|]. apply Hkeep. intros k Hk.
  apply lookup_insert_ne. set_solver.
Defined.
