(* ===== verification/StatusMemory.v ===== *)
(** * The status in memory

    [Status] computes with values; the Go code works on slices of conditions in
    place.  Here are the functions of runtime_status.go that share or copy
    these slices, on the heap of [Memory]: [copyRuntimeStatus] clones the
    conditions, [setRuntimeCondition] changes or appends an element through
    [meta.SetStatusCondition], and [preserveRuntimeConditionTransitionTimes]
    overwrites elements of its clone in a loop.  The theorem relates them to the
    functions on values: the new status is computed as there, and the status of
    the runtime it is later compared with is not touched on the way. *)

From S2P Require Import Prelude GoStd KubeTypes ApiTypes Memory DeepCopy KubeLib Resources Status.
From S2P Require Import RefKube Samples StatusProps DeepCopyProps.

(** [meta.SetStatusCondition] on a slice of conditions: it returns the header
    that the slice variable then holds. *)
Class ConditionMemory `{ExternalTypes} :=
  SetStatusConditionM : Time → option Slice → Condition → Mem Cell (option Slice).

Section Definitions.
Context `{K8sLib} `{ConditionMemory}.

(** The spare capacity [append] leaves for a slice of the given length. *)
Variable spare : nat → nat.

(** What spare capacity holds; it is never read. *)
Definition zeroCondition : Condition :=
  mkCondition EmptyString ConditionUnknown 0%Z 0%Z EmptyString EmptyString.

(** [slices.Clone] on conditions. *)
Definition slicesClone (s : option Slice) : Mem Cell (option Slice) :=
  match s with
  | None => mret None
  | Some _ =>
      xs ← elements (A := Condition) s;
      l ← alloc (xs ++ replicate (spare (length xs)) zeroCondition);
      mret (Some (mkSlice l 0 (length xs)))
  end.

Definition stM_set_conditions (s : option Slice) (a : TrussiumRuntimeStatusM) : TrussiumRuntimeStatusM :=
  mkStatusM (stM_ObservedGeneration a) (stM_ReadyReplicas a) (stM_AvailableReplicas a)
    (stM_DesiredImage a) (stM_CurrentImage a) (stM_LastSuccessfulImage a) (stM_Endpoint a) s.

Definition copyRuntimeStatusM (status : TrussiumRuntimeStatusM) : Mem Cell TrussiumRuntimeStatusM :=
  conditions ← slicesClone (stM_Conditions status);
  mret (stM_set_conditions conditions status).

Definition setRuntimeConditionM (now : Time) (observedGeneration : Z) (conditionType : string)
    (conditionStatus : ConditionStatus) (reason message : string) (status : TrussiumRuntimeStatusM)
    : Mem Cell TrussiumRuntimeStatusM :=
  conditions ← SetStatusConditionM now (stM_Conditions status)
    (mkCondition conditionType conditionStatus observedGeneration 0%Z reason message);
  mret (stM_set_conditions conditions status).

(** One iteration: the pointer to the element of the normalized status, the
    lookup in the current status, and the assignment through the pointer. *)
Definition preserveTransitionTimeM (current : option Slice) (normalized : Slice) (index : nat)
    : Mem Cell unit :=
  arr ← load (A := list Condition) (sl_Array normalized);
  match arr !! (sl_Off normalized + index) with
  | None => λ _, None
  | Some desired =>
      cs ← elements (A := Condition) current;
      match FindStatusCondition cs (c_Type desired) with
      | None => mret tt
      | Some cur =>
          if decide (c_Status cur = c_Status desired) then
            store (sl_Array normalized)
              (<[sl_Off normalized + index :=
                   mkCondition (c_Type desired) (c_Status desired) (c_ObservedGeneration desired)
                     (c_LastTransitionTime cur) (c_Reason desired) (c_Message desired)]> arr)
          else mret tt
      end
  end.

Fixpoint forIndices (body : nat → Mem Cell unit) (indices : list nat) : Mem Cell unit :=
  match indices with
  | [] => mret tt
  | i :: indices => _ ← body i; forIndices body indices
  end.

Definition preserveRuntimeConditionTransitionTimesM
    (currentStatus desiredStatus : TrussiumRuntimeStatusM) : Mem Cell TrussiumRuntimeStatusM :=
  normalized ← copyRuntimeStatusM desiredStatus;
  match stM_Conditions normalized with
  | None => mret normalized
  | Some s =>
      _ ← forIndices (preserveTransitionTimeM (stM_Conditions currentStatus) s) (seq 0 (sl_Len s));
      mret normalized
  end.

Definition stM_set_desired_image (i : string) (a : TrussiumRuntimeStatusM) : TrussiumRuntimeStatusM :=
  mkStatusM (stM_ObservedGeneration a) (stM_ReadyReplicas a) (stM_AvailableReplicas a)
    i (stM_CurrentImage a) (stM_LastSuccessfulImage a) (stM_Endpoint a) (stM_Conditions a).

Definition stM_set_last_successful (i : string) (a : TrussiumRuntimeStatusM) : TrussiumRuntimeStatusM :=
  mkStatusM (stM_ObservedGeneration a) (stM_ReadyReplicas a) (stM_AvailableReplicas a)
    (stM_DesiredImage a) (stM_CurrentImage a) i (stM_Endpoint a) (stM_Conditions a).

Definition setAvailabilityConditionM (now : Time) (observedGeneration : Z)
    (desiredReplicaCount : Z) (status : TrussiumRuntimeStatusM) : Mem Cell TrussiumRuntimeStatusM :=
  if (desiredReplicaCount =? 0)%Z then
    setRuntimeConditionM now observedGeneration conditionTypeAvailable ConditionFalse
      reasonScaledToZero "No runtime replicas are requested." status
  else if (0 <? stM_AvailableReplicas status)%Z then
    setRuntimeConditionM now observedGeneration conditionTypeAvailable ConditionTrue
      reasonRuntimeAvailable
      (Itoa (stM_AvailableReplicas status) +:+ " runtime replica(s) are available.") status
  else
    setRuntimeConditionM now observedGeneration conditionTypeAvailable ConditionFalse
      reasonRuntimeUnavailable "No runtime replicas are currently available." status.

(** [stored] is [runtimeResource.Status] in memory. *)
Definition baseFieldsM (r : TrussiumRuntime) (obs : runtimeObservation)
    (stored : TrussiumRuntimeStatusM) : Mem Cell TrussiumRuntimeStatusM :=
  status ← copyRuntimeStatusM stored;
  mret (mkStatusM (rt_Generation r)
    (match obs_Deployment obs with
     | Some d => dstat_ReadyReplicas (d_Status d) | None => 0 end)
    (match obs_Deployment obs with
     | Some d => dstat_AvailableReplicas (d_Status d) | None => 0 end)
    (runtimeImage (spec_Image (rt_Spec r)))
    (deploymentCurrentImage (obs_Deployment obs))
    (stM_LastSuccessfulImage status)
    (runtimeServiceEndpoint (obs_Service obs))
    (stM_Conditions status)).

Definition buildBaseRuntimeStatusM (clk : nat → Time) (r : TrussiumRuntime)
    (obs : runtimeObservation) (validation : referenceValidationResult)
    (stored : TrussiumRuntimeStatusM) : Mem Cell TrussiumRuntimeStatusM :=
  let gen := rt_Generation r in
  status ← baseFieldsM r obs stored;
  if negb (v_Valid validation) then
    status ← setRuntimeConditionM (clk 0) gen conditionTypeConfigurationValid
      ConditionFalse (v_Reason validation) (v_Message validation) status;
    status ← setRuntimeConditionM (clk 1) gen conditionTypeProgressing
      ConditionFalse reasonConfigurationInvalid
      "Runtime reconciliation is blocked by invalid configuration references." status;
    status ← setAvailabilityConditionM (clk 2) gen (desiredReplicas r) status;
    status ← setRuntimeConditionM (clk 3) gen conditionTypeReady
      ConditionFalse reasonConfigurationInvalid
      "The runtime is not ready because configuration references are invalid." status;
    setRuntimeConditionM (clk 4) gen conditionTypeDegraded
      ConditionTrue reasonConfigurationInvalid (v_Message validation) status
  else
  status ← setRuntimeConditionM (clk 0) gen conditionTypeConfigurationValid
    ConditionTrue reasonReferencesResolved "All referenced Secrets are available." status;
  let deployment := obs_Deployment obs in
  let desired := desiredReplicaCount r deployment in
  match deployment with
  | None =>
      status ← setRuntimeConditionM (clk 1) gen conditionTypeProgressing
        ConditionTrue reasonDeploymentProgressing
        "The runtime Deployment is being created." status;
      status ← setAvailabilityConditionM (clk 2) gen desired status;
      status ← setRuntimeConditionM (clk 3) gen conditionTypeReady
        ConditionFalse reasonRuntimeNotReady
        "The runtime Deployment is not yet available." status;
      setRuntimeConditionM (clk 4) gen conditionTypeDegraded
        ConditionFalse reasonAsExpected noDegradedMessage status
  | Some d =>
      let deploymentObserved :=
        (om_Generation (d_Meta d) <=? dstat_ObservedGeneration (d_Status d))%Z in
      if (desired =? 0)%Z then
        if deploymentObserved && (stM_ReadyReplicas status =? 0)%Z
           && (stM_AvailableReplicas status =? 0)%Z then
          status ← setRuntimeConditionM (clk 1) gen conditionTypeProgressing
            ConditionFalse reasonScaledToZero
            "The runtime has reached the requested scaled-to-zero state." status;
          status ← setRuntimeConditionM (clk 2) gen conditionTypeAvailable
            ConditionFalse reasonScaledToZero
            "No runtime replicas are requested." status;
          status ← setRuntimeConditionM (clk 3) gen conditionTypeReady
            ConditionTrue reasonScaledToZero
            "The runtime has reached the requested scaled-to-zero state." status;
          setRuntimeConditionM (clk 4) gen conditionTypeDegraded
            ConditionFalse reasonAsExpected noDegradedMessage status
        else
          status ← setRuntimeConditionM (clk 1) gen conditionTypeProgressing
            ConditionTrue reasonDeploymentGenerationPending
            "The Deployment is converging toward the scaled-to-zero state." status;
          status ← setRuntimeConditionM (clk 2) gen conditionTypeAvailable
            ConditionFalse reasonRuntimeUnavailable
            "The runtime is not currently available." status;
          status ← setRuntimeConditionM (clk 3) gen conditionTypeReady
            ConditionFalse reasonRuntimeNotReady
            "The runtime has not yet reached the scaled-to-zero state." status;
          setRuntimeConditionM (clk 4) gen conditionTypeDegraded
            ConditionFalse reasonAsExpected noDegradedMessage status
      else
      match deploymentFailure d with
      | Some (failureReason, failureMsg) =>
          status ← setRuntimeConditionM (clk 1) gen conditionTypeProgressing
            ConditionFalse reasonDeploymentFailed failureMsg status;
          status ← setAvailabilityConditionM (clk 2) gen desired status;
          status ← setRuntimeConditionM (clk 3) gen conditionTypeReady
            ConditionFalse reasonDeploymentFailed failureMsg status;
          setRuntimeConditionM (clk 4) gen conditionTypeDegraded
            ConditionTrue failureReason failureMsg status
      | None =>
          let runtimeReady := deploymentObserved
            && (stM_ReadyReplicas status =? desired)%Z
            && (stM_AvailableReplicas status =? desired)%Z in
          if runtimeReady then
            status ← setRuntimeConditionM (clk 1) gen conditionTypeProgressing
              ConditionFalse reasonReconciliationComplete
              "The runtime Deployment has reached the desired state." status;
            status ← setRuntimeConditionM (clk 2) gen conditionTypeAvailable
              ConditionTrue reasonRuntimeAvailable
              (Itoa (stM_AvailableReplicas status) +:+ " runtime replica(s) are available.")
              status;
            status ← setRuntimeConditionM (clk 3) gen conditionTypeReady
              ConditionTrue reasonRuntimeReady
              "All requested runtime replicas are ready and available." status;
            setRuntimeConditionM (clk 4) gen conditionTypeDegraded
              ConditionFalse reasonAsExpected noDegradedMessage status
          else
            let progressReason :=
              if deploymentObserved then reasonDeploymentProgressing
              else reasonDeploymentGenerationPending in
            let progressMessage :=
              if deploymentObserved then
                "The runtime is progressing toward " +:+ Itoa desired +:+ " ready replica(s)."
              else
                "The Deployment controller has not yet observed the current Deployment generation." in
            status ← setRuntimeConditionM (clk 1) gen conditionTypeProgressing
              ConditionTrue progressReason progressMessage status;
            status ← setAvailabilityConditionM (clk 2) gen desired status;
            status ← setRuntimeConditionM (clk 3) gen conditionTypeReady
              ConditionFalse reasonRuntimeNotReady
              (Itoa (stM_ReadyReplicas status) +:+ " of " +:+ Itoa desired +:+
               " requested runtime replica(s) are ready.") status;
            setRuntimeConditionM (clk 4) gen conditionTypeDegraded
              ConditionFalse reasonAsExpected noDegradedMessage status
      end
  end.

Definition applyUpgradeStatusM (now : Time) (r : TrussiumRuntime)
    (deployment : option Deployment) (status : TrussiumRuntimeStatusM)
    : Mem Cell TrussiumRuntimeStatusM :=
  let gen := rt_Generation r in
  let desiredImage := runtimeImage (spec_Image (rt_Spec r)) in
  let status := stM_set_desired_image desiredImage status in
  let rolloutState := observeDeploymentRollout r deployment in
  let lastSuccessfulImage := stM_LastSuccessfulImage status in
  let setUpgrading s reason message status :=
    setRuntimeConditionM now gen conditionTypeUpgrading s reason message status in
  if decide (lastSuccessfulImage = EmptyString) then
    let status :=
      match rolloutState with
      | deploymentRolloutComplete =>
          if decide (deploymentCurrentImage deployment = desiredImage)
          then stM_set_last_successful desiredImage status
          else status
      | _ => status
      end in
    setUpgrading ConditionFalse reasonNoUpgrade
      "No runtime image upgrade is in progress." status
  else if decide (desiredImage = lastSuccessfulImage) then
    cs ← elements (A := Condition) (stM_Conditions status);
    match FindStatusCondition cs conditionTypeUpgrading with
    | None =>
        setUpgrading ConditionFalse reasonNoUpgrade
          "No runtime image upgrade is in progress." status
    | Some _ => mret status
    end
  else
    match rolloutState with
    | deploymentRolloutFailed =>
        setUpgrading ConditionFalse reasonUpgradeFailed
          ("Runtime image upgrade from " +:+ lastSuccessfulImage +:+ " to " +:+
           desiredImage +:+ " failed.") status
    | deploymentRolloutComplete =>
        if decide (deploymentCurrentImage deployment = desiredImage) then
          setUpgrading ConditionFalse reasonUpgradeComplete
            ("Runtime image upgrade from " +:+ lastSuccessfulImage +:+ " to " +:+
             desiredImage +:+ " completed.")
            (stM_set_last_successful desiredImage status)
        else
          setUpgrading ConditionTrue reasonUpgradeInProgress
            ("Runtime image is transitioning from " +:+ lastSuccessfulImage +:+ " to " +:+
             desiredImage +:+ ".") status
    | deploymentRolloutProgressing =>
        setUpgrading ConditionTrue reasonUpgradeInProgress
          ("Runtime image is upgrading from " +:+ lastSuccessfulImage +:+ " to " +:+
           desiredImage +:+ ".") status
    end.

Definition buildRuntimeStatusM (clk : nat → Time) (r : TrussiumRuntime)
    (obs : runtimeObservation) (validation : referenceValidationResult)
    (stored : TrussiumRuntimeStatusM) : Mem Cell TrussiumRuntimeStatusM :=
  status ← buildBaseRuntimeStatusM clk r obs validation stored;
  applyUpgradeStatusM (clk 5) r (obs_Deployment obs) status.

Definition buildReconciliationFailureStatusM (clk : nat → Time) (r : TrussiumRuntime)
    (obs : runtimeObservation) (reconciliationError : GoError)
    (stored : TrussiumRuntimeStatusM) : Mem Cell TrussiumRuntimeStatusM :=
  let gen := rt_Generation r in
  status ← buildRuntimeStatusM clk r obs validReferenceValidation stored;
  let message := "Runtime reconciliation failed: " +:+ errorText reconciliationError in
  status ← setRuntimeConditionM (clk 6) gen conditionTypeProgressing
    ConditionFalse reasonReconciliationFailed message status;
  status ← setRuntimeConditionM (clk 7) gen conditionTypeReady
    ConditionFalse reasonReconciliationFailed message status;
  setRuntimeConditionM (clk 8) gen conditionTypeDegraded
    ConditionTrue reasonReconciliationFailed message status.

(** The status a report compares with the stored one. *)
Definition normalizedStatusM (clk : nat → Time) (r : TrussiumRuntime) (obs : runtimeObservation)
    (v : referenceValidationResult) (stored : TrussiumRuntimeStatusM)
    : Mem Cell TrussiumRuntimeStatusM :=
  desired ← buildRuntimeStatusM clk r obs v stored;
  preserveRuntimeConditionTransitionTimesM stored desired.

(** The same after a failed reconciliation. *)
Definition normalizedFailureStatusM (clk : nat → Time) (r : TrussiumRuntime)
    (obs : runtimeObservation) (e : GoError) (stored : TrussiumRuntimeStatusM)
    : Mem Cell TrussiumRuntimeStatusM :=
  desired ← buildReconciliationFailureStatusM clk r obs e stored;
  preserveRuntimeConditionTransitionTimesM stored desired.

End Definitions.

(** The scalar fields of a status with the conditions of [a]. *)
Definition assignFields (s : TrussiumRuntimeStatus) (a : TrussiumRuntimeStatusM) : TrussiumRuntimeStatusM :=
  mkStatusM (st_ObservedGeneration s) (st_ReadyReplicas s) (st_AvailableReplicas s)
    (st_DesiredImage s) (st_CurrentImage s) (st_LastSuccessfulImage s) (st_Endpoint s)
    (stM_Conditions a).

(** [SetStatusCondition] does on the slice what it does on the list, and writes
    only to the backing array of the slice or to new memory. *)
Class ConditionMemoryLaws `{K8sLib} `{ConditionMemory} : Prop :=
  set_status_condition_memory now s new cs F h :
    repSlice (A := Condition) repFlat h s cs F →
    ∃ s' h' F', SetStatusConditionM now s new h = Some (s', h')
      ∧ repSlice (A := Condition) repFlat h' s' (SetStatusCondition now cs new) F'
      ∧ (∀ l, l ∈ dom h → l ∉ F → h' !! l = h !! l)
      ∧ (∀ l, l ∈ F' → l ∈ dom h → l ∈ F).

Section Conditions.
Context `{ExternalTypes}.
Implicit Types (h : Heap Cell) (F : gset loc).

Lemma repList_flat {A} h (xs vs : list A) F : repList repFlat h xs vs F ↔ xs = vs ∧ F = ∅.
Proof.
  revert vs F. induction xs as [|x xs IH]; intros [|v vs] F; simpl; [tauto|by split; [|intros []]..|].
  split.
  - intros (G & G' & [-> ->] & [-> ->]%IH & ->). split; [done|set_solver].
  - intros [Heq ->]. injection Heq as <- <-. exists ∅, ∅. split; [done|]. split; [by apply IH|set_solver].
Qed.

Lemma copy_conditions : CopyOk (repSlice (A := Condition) repFlat) (copySlice (A := Condition) mret).
Proof. apply copy_slice, copy_flat. Qed.

(** A slice of conditions, spelled out. *)
Lemma repConditions_some h s cs F :
  repSlice (A := Condition) repFlat h (Some s) cs F ↔
  ∃ arr, h !! sl_Array s = Some (CConditions arr) ∧ sl_Off s + sl_Len s ≤ length arr
    ∧ cs = window s arr ∧ F = {[sl_Array s]}.
Proof.
  simpl. setoid_rewrite repList_flat. split.
  - intros (arr & G & Hl & Hn & [<- ->] & ->). exists arr. rewrite (right_id_L ∅ (∪)). done.
  - intros (arr & Hl & Hn & -> & ->). exists arr, ∅. rewrite (right_id_L ∅ (∪)). done.
Qed.

Lemma load_conditions l (arr : list Condition) h :
  h !! l = Some (CConditions arr) → load l h = Some (arr, h).
Proof. exact (load_cell (A := list Condition) l arr h). Qed.

Lemma elements_conditions h s cs F :
  repSlice (A := Condition) repFlat h s cs F → elements s h = Some (cs, h).
Proof.
  destruct s as [s|]; [|by intros [-> _]]. rewrite repConditions_some.
  intros (arr & Hl & _ & -> & _). unfold elements. by rewrite (bind_some _ _ _ _ _ (load_conditions _ arr _ Hl)).
Qed.

Lemma clone_conditions spare h s cs F :
  repSlice (A := Condition) repFlat h s cs F →
  ∃ s' h' F', slicesClone spare s h = Some (s', h')
    ∧ repSlice (A := Condition) repFlat h' s' cs F' ∧ h ⊆ h' ∧ F' ## dom h.
Proof.
  intros Hr. destruct s as [s|]; [|exists None, h, F; destruct Hr as [-> ->]; split_and!; try done; set_solver].
  pose proof (elements_conditions _ _ _ _ Hr) as He. unfold slicesClone.
  rewrite (bind_some _ _ _ _ _ He).
  destruct (alloc_fresh (cs ++ replicate (spare (length cs)) zeroCondition) h) as (l & h' & Ha & Hl & Hs & Hn).
  rewrite (bind_some _ _ _ _ _ Ha). exists (Some (mkSlice l 0 (length cs))), h', {[l]}.
  split; [done|]. split; [|split; [done|set_solver]].
  apply repConditions_some. eexists. split; [exact Hl|]. simpl. rewrite length_app.
  split; [lia|]. split; [|done]. unfold window. simpl. by rewrite drop_0, take_app_length.
Qed.

End Conditions.

(** ** The functions on the heap refine those on values *)

Section Refinement.
Context `{K8sLaws} `{ExternalTypes} `{!ConditionMemory} `{!ConditionMemoryLaws}.
Context (spare : nat → nat).
Implicit Types (h : Heap Cell) (F : gset loc).

Notation repConditions := (repSlice (A := Condition) repFlat).

(** Everything outside [F] that existed is unchanged. *)
Definition untouched (F : gset loc) (h h' : Heap Cell) : Prop :=
  ∀ l, l ∈ dom h → l ∉ F → h' !! l = h !! l.

(** A slice of conditions that [set] calls may change, next to one they may not. *)
Lemma set_keeps_other now s new cs F h t ds G :
  repConditions h s cs F → repConditions h t ds G → F ## G →
  ∃ s' h' F', SetStatusConditionM now s new h = Some (s', h')
    ∧ repConditions h' s' (SetStatusCondition now cs new) F'
    ∧ repConditions h' t ds G ∧ F' ## G.
Proof.
  intros Hs Ht Hd. pose proof (rep_dom _ _ copy_conditions _ _ _ _ Ht) as Hdom.
  destruct (set_status_condition_memory now s new cs F h Hs) as (s' & h' & F' & Hr & Hs' & Hu & Hn).
  exists s', h', F'. split; [done|]. split; [done|]. split.
  - eapply (rep_local _ _ copy_conditions); [exact Ht|]. intros l Hl. apply Hu; set_solver.
  - rewrite elem_of_disjoint in *. intros l HF HG. apply (Hd l); [|done]. apply Hn; [done|]. by apply Hdom.
Qed.

(** The loop rewrites its window of the array, element by element. *)
Lemma preserve_loop current cur G s i pre mid post h :
  repConditions h (stM_Conditions current) (st_Conditions cur) G → sl_Array s ∉ G →
  h !! sl_Array s = Some (CConditions (pre ++ mid ++ post)) → sl_Off s + i = length pre →
  forIndices (preserveTransitionTimeM (stM_Conditions current) s) (seq i (length mid)) h
  = Some (tt, <[sl_Array s := CConditions (pre ++ map (preserveTransitionTime cur) mid ++ post)]> h).
Proof.
  revert i pre h. induction mid as [|c mid IH]; intros i pre h Hc Hn Hl Hi; simpl.
  { by rewrite insert_id. }
  rewrite <-app_comm_cons in Hl.   set (c' := preserveTransitionTime cur c).
  assert (Hstep : preserveTransitionTimeM (stM_Conditions current) s i h
    = Some (tt, <[sl_Array s := CConditions (pre ++ c' :: mid ++ post)]> h)).
  { unfold preserveTransitionTimeM. rewrite (bind_some _ _ _ _ _ (load_conditions _ _ _ Hl)).
    rewrite Hi, list_lookup_middle by done.
    rewrite (bind_some _ _ _ _ _ (elements_conditions _ _ _ _ Hc)).
    unfold c', preserveTransitionTime, runtimeCondition.
    destruct (FindStatusCondition (st_Conditions cur) (c_Type c)) as [x|]; [|by rewrite insert_id].
    destruct (decide (c_Status x = c_Status c)); [|by rewrite insert_id].
    unfold store. rewrite Hl. simpl. rewrite <-(Nat.add_0_r (length pre)), insert_app_r. done. }
  rewrite (bind_some _ _ _ _ _ Hstep).
  rewrite (IH (S i) (pre ++ [c'])).
  - by rewrite insert_insert_eq, <-app_assoc.
  - eapply (rep_local _ _ copy_conditions); [exact Hc|]. intros l Hlg.
    apply lookup_insert_ne. congruence.
  - done.
  - by rewrite lookup_insert_eq, <-app_assoc.
  - rewrite length_app. simpl. lia.
Qed.

Lemma window_split {A} (s : Slice) (arr : list A) :
  arr = take (sl_Off s) arr ++ window s arr ++ drop (sl_Off s + sl_Len s) arr.
Proof.
  unfold window. rewrite <-(drop_drop arr (sl_Len s) (sl_Off s)) at 1.
  by rewrite take_drop, take_drop.
Qed.

(** Replacing the elements of a slice in its array. *)
Lemma window_replace {A} (s : Slice) (arr xs : list A) :
  sl_Off s + sl_Len s ≤ length arr → length xs = sl_Len s →
  let arr' := take (sl_Off s) arr ++ xs ++ drop (sl_Off s + sl_Len s) arr in
  window s arr' = xs ∧ length arr' = length arr.
Proof.
  intros Hn Hx arr'. unfold arr'. split.
  - unfold window. rewrite drop_app_length' by (rewrite length_take; lia). by rewrite take_app_length'.
  - rewrite !length_app, length_drop, length_take. lia.
Qed.

Lemma length_window {A} (s : Slice) (arr : list A) :
  sl_Off s + sl_Len s ≤ length arr → length (window s arr) = sl_Len s.
Proof. intros Hn. unfold window. rewrite length_take, length_drop. lia. Qed.

Lemma copy_status_memory a cs F h :
  repConditions h (stM_Conditions a) cs F →
  ∃ s h' F', copyRuntimeStatusM spare a h = Some (stM_set_conditions s a, h')
    ∧ repConditions h' s cs F' ∧ h ⊆ h' ∧ F' ## dom h.
Proof.
  intros Ha. destruct (clone_conditions spare _ _ _ _ Ha) as (s & h1 & F1 & Hc & Hrest).
  exists s, h1, F1. unfold copyRuntimeStatusM. by rewrite (bind_some _ _ _ _ _ Hc).
Qed.

(** The in-place loop computes the map of the function on values. *)
Lemma preserve_memory a b cur ds F G h :
  repConditions h (stM_Conditions a) (st_Conditions cur) G → repConditions h (stM_Conditions b) ds F →
  ∃ s h' F', preserveRuntimeConditionTransitionTimesM spare a b h = Some (stM_set_conditions s b, h')
    ∧ repConditions h' s (map (preserveTransitionTime cur) ds) F'
    ∧ repConditions h' (stM_Conditions a) (st_Conditions cur) G ∧ F' ## G.
Proof.
  intros Ha Hb. pose proof (rep_dom _ _ copy_conditions _ _ _ _ Ha) as Hdom.
  destruct (copy_status_memory b ds F h Hb) as (s & h1 & F1 & Hc & Hr1 & Hs1 & Hd1).
  pose proof (rep_grow _ _ _ _ _ _ _ copy_conditions Ha Hs1) as Ha1.
  unfold preserveRuntimeConditionTransitionTimesM. rewrite (bind_some _ _ _ _ _ Hc). simpl.
  destruct s as [s|].
  2:{ exists None, h1, F1. destruct Hr1 as [-> ->]. split_and!; done. }
  apply repConditions_some in Hr1 as (arr & Hl & Hn & -> & ->).
  pose proof (length_window s arr Hn) as Hlen.
  assert (Hlg : sl_Array s ∉ G) by set_solver.
  pose proof (preserve_loop a cur G s 0 (take (sl_Off s) arr) (window s arr)
    (drop (sl_Off s + sl_Len s) arr) h1 Ha1 Hlg) as Hloop.
  rewrite <-window_split, Hlen in Hloop.
  rewrite (bind_some _ _ _ _ _ (Hloop Hl ltac:(rewrite length_take; lia))).
  eexists (Some s), _, {[sl_Array s]}. split; [done|]. split.
  - apply repConditions_some. eexists. rewrite lookup_insert_eq. split; [done|].
    destruct (window_replace s arr (map (preserveTransitionTime cur) (window s arr)) Hn) as [Hw ->];
      [by rewrite length_map|]. done.
  - split; [|set_solver]. eapply (rep_local _ _ copy_conditions); [exact Ha1|].
    intros l Hlm. apply lookup_insert_ne. congruence.
Qed.

End Refinement.

Lemma repStatus_fields `{ExternalTypes} (h : Heap Cell) a v F :
  repTrussiumRuntimeStatus h a v F ↔
  a = assignFields v a ∧ repSlice (A := Condition) repFlat h (stM_Conditions a) (st_Conditions v) F.
Proof.
  destruct a as [a1 a2 a3 a4 a5 a6 a7 s], v as [b1 b2 b3 b4 b5 b6 b7 cs].
  unfold repTrussiumRuntimeStatus, repFields, assignFields. simpl. split.
  - intros (G & Gs & H1 & Hs & ->). simpl in *.
    repeat match goal with Hp : repPair _ _ _ _ _ _ |- _ => destruct Hp as (? & ? & Hp & [? ->] & ->) end.
    simpl in *. destruct H1 as [? ->]. subst. split; [done|].
    by rewrite !(left_id_L ∅ (∪)).
  - intros [Heq Hs]. injection Heq as -> -> -> -> -> -> ->.
    exists ∅, F. split; [|split; [done|set_solver]].
    repeat (exists ∅, ∅; split; [|split; [done|set_solver]]). done.
Qed.

(** ** The status builders, statement by statement *)

Section Builders.
Context `{K8sLaws} `{ExternalTypes} `{!ConditionMemory} `{!ConditionMemoryLaws}.
Context (spare : nat → nat) (t : option Slice) (ds : list Condition) (G : gset loc).

Notation repConditions := (repSlice (A := Condition) repFlat).

(** In [h] the structure [a] is the status [s], apart from the slice [t] of the
    conditions [ds], which is as it was. *)
Definition holds (h : Heap Cell) (a : TrussiumRuntimeStatusM) (s : TrussiumRuntimeStatus) : Prop :=
  a = assignFields s a ∧ repConditions h t ds G
  ∧ ∃ F, repConditions h (stM_Conditions a) (st_Conditions s) F ∧ F ## G.

(** The computation does not panic and leaves the status [s]. *)
Definition computes (h : Heap Cell) (m : Mem Cell TrussiumRuntimeStatusM)
    (s : TrussiumRuntimeStatus) : Prop :=
  ∃ a h', m h = Some (a, h') ∧ holds h' a s.

Lemma computes_ret h a s : holds h a s → computes h (mret a) s.
Proof. intros Hs. by exists a, h. Qed.

Lemma computes_bind h m k s s' :
  computes h m s → (∀ h' a, holds h' a s → computes h' (k a) s') →
  computes h (a ← m; k a) s'.
Proof.
  intros (a & h1 & Hm & Hs) Hk. destruct (Hk h1 a Hs) as (b & h2 & Hb & Hs2).
  exists b, h2. by rewrite (bind_some _ _ _ _ _ Hm).
Qed.

Lemma computes_set now gen ty st reason message h a s :
  holds h a s →
  computes h (setRuntimeConditionM now gen ty st reason message a)
    (setRuntimeCondition now gen ty st reason message s).
Proof.
  intros (Ha & Ht & F & Hc & Hd).
  destruct (set_keeps_other now (stM_Conditions a) (mkCondition ty st gen 0%Z reason message)
    (st_Conditions s) F h t ds G Hc Ht Hd) as (s1 & h1 & F1 & Hs1 & Hr1 & Ht1 & Hd1).
  exists (stM_set_conditions s1 a), h1. split.
  - unfold setRuntimeConditionM. by rewrite (bind_some _ _ _ _ _ Hs1).
  - split; [rewrite Ha at 1; done|]. split; [done|]. by exists F1.
Qed.

Lemma holds_available h a s : holds h a s → stM_AvailableReplicas a = st_AvailableReplicas s.
Proof. intros [-> _]. done. Qed.
Lemma holds_ready h a s : holds h a s → stM_ReadyReplicas a = st_ReadyReplicas s.
Proof. intros [-> _]. done. Qed.
Lemma holds_last h a s : holds h a s → stM_LastSuccessfulImage a = st_LastSuccessfulImage s.
Proof. intros [-> _]. done. Qed.

Lemma holds_desired_image i h a s :
  holds h a s → holds h (stM_set_desired_image i a) (st_set_desired_image i s).
Proof. intros [-> Hr]. by split. Qed.
Lemma holds_last_successful i h a s :
  holds h a s → holds h (stM_set_last_successful i a) (st_set_last_successful i s).
Proof. intros [-> Hr]. by split. Qed.

Lemma computes_availability now gen n h a s :
  holds h a s → computes h (setAvailabilityConditionM now gen n a) (setAvailabilityCondition now gen n s).
Proof.
  intros Hs. unfold setAvailabilityConditionM, setAvailabilityCondition.
  rewrite (holds_available h a s Hs). destruct (n =? 0)%Z; [by apply computes_set|].
  destruct (0 <? _)%Z; by apply computes_set.
Qed.

(** One statement after the other. *)
Ltac statements :=
  repeat first
    [ apply computes_set; eassumption
    | apply computes_availability; eassumption
    | eapply computes_bind;
      [ first [apply computes_set; eassumption | apply computes_availability; eassumption]
      | intros ? ? ?;
        repeat match goal with
        | Hs : holds ?h ?a ?s |- context [stM_AvailableReplicas ?a] => rewrite (holds_available h a s Hs)
        | Hs : holds ?h ?a ?s |- context [stM_ReadyReplicas ?a] => rewrite (holds_ready h a s Hs)
        end ] ].

Lemma computes_base clk r obs v stored h :
  repConditions h (stM_Conditions stored) (st_Conditions (rt_Status r)) G →
  stored = assignFields (rt_Status r) stored → t = stM_Conditions stored →
  ds = st_Conditions (rt_Status r) →
  computes h (buildBaseRuntimeStatusM spare clk r obs v stored) (buildBaseRuntimeStatus clk r obs v).
Proof.
  intros Hr Hf Ht Hds. unfold buildBaseRuntimeStatusM, buildBaseRuntimeStatus. cbv zeta.
  apply (computes_bind _ _ _ (baseFields r obs)).
  { destruct (copy_status_memory spare stored _ G h Hr) as (s & h1 & F1 & Hc & Hr1 & Hs1 & Hd1).
    pose proof (rep_grow _ _ _ _ _ _ _ copy_conditions Hr Hs1) as Hr2.
    pose proof (rep_dom _ _ copy_conditions _ _ _ _ Hr) as Hdom.
    unfold baseFieldsM. eexists _, h1. rewrite (bind_some _ _ _ _ _ Hc). split; [done|].
    split; [|split; [rewrite Ht, Hds; exact Hr2|exists F1; split; [exact Hr1|set_solver]]].
    unfold assignFields, baseFields. simpl. rewrite Hf at 1. done. }
  intros h1 a Ha. destruct (negb (v_Valid v)); [statements|].
  destruct (obs_Deployment obs) as [d|]; [|statements].
  eapply computes_bind; [by apply computes_set|]. intros h2 a2 Ha2.
  rewrite (holds_ready h2 a2 _ Ha2), (holds_available h2 a2 _ Ha2).
  destruct (desiredReplicaCount r (Some d) =? 0)%Z; [destruct (_ && _); statements|].
  destruct (deploymentFailure d) as [[reason message]|]; [statements|].
  destruct (_ && _); statements.
Qed.

Lemma computes_upgrade now r deployment h a s :
  holds h a s → computes h (applyUpgradeStatusM now r deployment a) (applyUpgradeStatus now r deployment s).
Proof.
  intros Hs. unfold applyUpgradeStatusM, applyUpgradeStatus. cbv zeta.
  set (image := runtimeImage (spec_Image (rt_Spec r))).
  apply (holds_desired_image image) in Hs.
  rewrite (holds_last h _ _ Hs).
  destruct (decide (st_LastSuccessfulImage (st_set_desired_image image s) = EmptyString)).
  { apply computes_set. destruct (observeDeploymentRollout r deployment); try done.
    destruct (decide _); [by apply holds_last_successful|done]. }
  destruct (decide (image = _)).
  { destruct Hs as (Ha & Ht & F & Hc & Hd).
    pose proof (elements_conditions _ _ _ _ Hc) as He. unfold runtimeCondition.
    destruct (FindStatusCondition (st_Conditions (st_set_desired_image image s)) conditionTypeUpgrading)
      as [c|] eqn:Hu.
    - exists (stM_set_desired_image image a), h. rewrite (bind_some _ _ _ _ _ He), Hu. split; [done|].
      split; [done|]. split; [done|]. by exists F.
    - destruct (computes_set now (rt_Generation r) conditionTypeUpgrading ConditionFalse reasonNoUpgrade
        "No runtime image upgrade is in progress." h _ _ (conj Ha (conj Ht (ex_intro _ F (conj Hc Hd)))))
        as (b & h1 & Hb & Hs1).
      exists b, h1. by rewrite (bind_some _ _ _ _ _ He), Hu. }
  destruct (observeDeploymentRollout r deployment); [by apply computes_set| |by apply computes_set].
  destruct (decide _); apply computes_set; [by apply holds_last_successful|done].
Qed.

Lemma computes_build clk r obs v stored h :
  repConditions h (stM_Conditions stored) (st_Conditions (rt_Status r)) G →
  stored = assignFields (rt_Status r) stored → t = stM_Conditions stored →
  ds = st_Conditions (rt_Status r) →
  computes h (buildRuntimeStatusM spare clk r obs v stored) (buildRuntimeStatus clk r obs v).
Proof.
  intros Hr Hf Ht Hds. unfold buildRuntimeStatusM, buildRuntimeStatus.
  eapply computes_bind; [by apply computes_base|]. intros h' a Ha. by apply computes_upgrade.
Qed.

Lemma computes_failure clk r obs e stored h :
  repConditions h (stM_Conditions stored) (st_Conditions (rt_Status r)) G →
  stored = assignFields (rt_Status r) stored → t = stM_Conditions stored →
  ds = st_Conditions (rt_Status r) →
  computes h (buildReconciliationFailureStatusM spare clk r obs e stored)
    (buildReconciliationFailureStatus clk r obs e).
Proof.
  intros Hr Hf Ht Hds. unfold buildReconciliationFailureStatusM, buildReconciliationFailureStatus.
  cbv zeta. eapply computes_bind; [by apply computes_build|]. intros h' a Ha. statements.
Qed.

(** What is built is normalized against the stored status. *)
Lemma computes_normalized r (m : Mem Cell TrussiumRuntimeStatusM) s stored h :
  stored = assignFields (rt_Status r) stored → t = stM_Conditions stored →
  ds = st_Conditions (rt_Status r) → computes h m s →
  ∃ n h' F', (desired ← m; preserveRuntimeConditionTransitionTimesM spare stored desired) h = Some (n, h')
    ∧ repTrussiumRuntimeStatus h' n (preserveRuntimeConditionTransitionTimes (rt_Status r) s) F'
    ∧ repTrussiumRuntimeStatus h' stored (rt_Status r) G ∧ F' ## G.
Proof.
  intros Hf Ht Hds (a & h1 & Hm & Ha & Hst & F & Hc & Hd). rewrite Ht, Hds in Hst.
  destruct (preserve_memory spare stored a (rt_Status r) (st_Conditions s) F G h1 Hst Hc)
    as (s3 & h3 & F3 & Hp & Hr3 & Ha3 & Hd3).
  exists (stM_set_conditions s3 a), h3, F3. rewrite (bind_some _ _ _ _ _ Hm). split; [exact Hp|].
  split; [|split; [by apply repStatus_fields|done]].
  apply repStatus_fields. split; [rewrite Ha at 1; done|exact Hr3].
Qed.

End Builders.

(** C14. The status computation in memory: copying the stored status, setting
    the conditions in place, and rewriting transition times in a loop over the
    clone cannot panic, computes the status of the functions on values, and
    leaves the stored status as it was, sharing nothing with the result, so that
    the comparison that decides on an update compares the old with the new; so
    does the computation of the status after a failed reconciliation. *)
Theorem status_memory_refines `{K8sLaws} `{ExternalTypes} `{!ConditionMemory}
    `{!ConditionMemoryLaws} spare clk (r : TrussiumRuntime) (obs : runtimeObservation)
    (v : referenceValidationResult) (a : TrussiumRuntimeStatusM) (F : gset loc) (h : Heap Cell) :
  repTrussiumRuntimeStatus h a (rt_Status r) F →
  (∃ n h' F', normalizedStatusM spare clk r obs v a h = Some (n, h')
    ∧ repTrussiumRuntimeStatus h' n
        (preserveRuntimeConditionTransitionTimes (rt_Status r) (buildRuntimeStatus clk r obs v)) F'
    ∧ repTrussiumRuntimeStatus h' a (rt_Status r) F ∧ F' ## F)
  ∧ ∀ e, ∃ n h' F', normalizedFailureStatusM spare clk r obs e a h = Some (n, h')
    ∧ repTrussiumRuntimeStatus h' n
        (preserveRuntimeConditionTransitionTimes (rt_Status r)
           (buildReconciliationFailureStatus clk r obs e)) F'
    ∧ repTrussiumRuntimeStatus h' a (rt_Status r) F ∧ F' ## F.
Proof.
  intros Ha. apply repStatus_fields in Ha as [Hf Ha]. split.
  - apply (computes_normalized spare (stM_Conditions a) (st_Conditions (rt_Status r)) F r); try done.
    by apply computes_build.
  - intros e. apply (computes_normalized spare (stM_Conditions a) (st_Conditions (rt_Status r)) F r);
      try done. by apply computes_failure.
Qed.

(** ** An implementation of [SetStatusCondition] in memory *)

Module RefConditions.

(** The position of the first condition of a type. *)
Fixpoint position (t : string) (cs : list Condition) : option nat :=
  match cs with
  | [] => None
  | c :: cs => if decide (c_Type c = t) then Some 0 else S <$> position t cs
  end.

(** Updates the condition in the array, or appends to a new one. *)
#[export] Instance set `{ExternalTypes} : ConditionMemory := λ now s new,
  cs ← elements (A := Condition) s;
  match s, position (c_Type new) cs with
  | Some s', Some i =>
      arr ← load (A := list Condition) (sl_Array s');
      match arr !! (sl_Off s' + i) with
      | None => λ _, None
      | Some old =>
          _ ← store (sl_Array s') (<[sl_Off s' + i := updatedCondition now old new]> arr);
          mret s
      end
  | _, _ =>
      l ← alloc (cs ++ [addedCondition now new]);
      mret (Some (mkSlice l 0 (S (length cs))))
  end.

Lemma position_set now cs new :
  RefKube.set now cs new
  = match position (c_Type new) cs with
    | Some i => alter (λ old, updatedCondition now old new) i cs
    | None => cs ++ [addedCondition now new]
    end.
Proof.
  induction cs as [|c cs IH]; simpl; [done|]. case_decide; [done|].
  rewrite IH. by destruct (position (c_Type new) cs).
Qed.

Lemma position_lookup t cs i : position t cs = Some i → is_Some (cs !! i).
Proof.
  revert i. induction cs as [|c cs IH]; intros i; simpl; [done|].
  case_decide; [by intros [= <-]|]. destruct (position t cs) as [j|]; [|done].
  intros [= <-]. by apply IH.
Qed.

Lemma window_insert {A} (s : Slice) (arr : list A) i x :
  sl_Off s + sl_Len s ≤ length arr → i < sl_Len s →
  window s (<[sl_Off s + i := x]> arr) = <[i := x]> (window s arr).
Proof.
  intros Hn Hi.
  destruct (window_replace s arr (<[i := x]> (window s arr)) Hn) as [Hw _];
    [by rewrite length_insert, length_window|].
  rewrite <-Hw. f_equal. rewrite (window_split s arr) at 1.
  rewrite insert_app_r_alt by (rewrite length_take; lia).
  rewrite insert_app_l by (rewrite length_window by done; rewrite length_take; lia).
  do 3 f_equal. rewrite length_take. lia.
Qed.

#[export] Instance laws `{ExternalTypes} : @ConditionMemoryLaws RefKube.lib _ set.
Proof.
  intros now s new cs F h Hr. unfold SetStatusConditionM, set.
  pose proof (elements_conditions _ _ _ _ Hr) as He.
  rewrite (bind_some _ _ _ _ _ He). simpl (SetStatusCondition now cs new). rewrite position_set.
  assert (Happend : position (c_Type new) cs = None ∨ s = None →
    ∃ s' h' F', (l ← alloc (cs ++ [addedCondition now new]);
                 mret (Some (mkSlice l 0 (S (length cs))))) h = Some (s', h')
      ∧ repSlice (A := Condition) repFlat h' s' (cs ++ [addedCondition now new]) F'
      ∧ (∀ l, l ∈ dom h → l ∉ F → h' !! l = h !! l) ∧ (∀ l, l ∈ F' → l ∈ dom h → l ∈ F)).
  { intros _. destruct (alloc_fresh (cs ++ [addedCondition now new]) h) as (l & h' & Ha & Hl & Hs & Hn).
    rewrite (bind_some _ _ _ _ _ Ha). eexists _, h', {[l]}. split; [done|]. split.
    - apply repConditions_some. eexists. split; [exact Hl|]. rewrite length_app. simpl.
      split; [lia|]. split; [|done]. unfold window. simpl.
      rewrite drop_0, take_ge; [done|]. rewrite length_app. simpl. lia.
    - split; [|set_solver]. intros k Hk _. apply elem_of_dom in Hk as [c Hk]. rewrite Hk.
      by eapply lookup_weaken. }
  destruct s as [s|]; [|destruct Hr as [-> _]; apply Happend; by right].
  destruct (position (c_Type new) cs) as [i|] eqn:Hp; [|apply Happend; by left].
  apply repConditions_some in Hr as (arr & Hl & Hn & -> & ->).
  rewrite (bind_some _ _ _ _ _ (load_conditions _ _ _ Hl)).
  destruct (position_lookup _ _ _ Hp) as [old Ho].
  assert (Hi : i < sl_Len s) by (rewrite <-(length_window s arr Hn); by apply lookup_lt_Some in Ho).
  assert (Harr : arr !! (sl_Off s + i) = Some old).
  { rewrite <-Ho. unfold window. rewrite lookup_take_lt by done. by rewrite lookup_drop. }
  rewrite Harr. eexists (Some s), _, {[sl_Array s]}. split.
  { unfold store. erewrite bind_some; [|by rewrite Hl]. done. }
  split; [|split; [|done]].
  - apply repConditions_some. eexists. rewrite lookup_insert_eq. split; [done|].
    rewrite length_insert. split; [done|]. split; [|done].
    rewrite window_insert, list_insert_alter by done.
    apply list_alter_ext; [|done]. intros x Hx. rewrite Ho in Hx. by injection Hx as <-.
  - intros l _ Hne. apply lookup_insert_ne. set_solver.
Qed.

End RefConditions.

(** A stored Ready condition in an array of its own: computing the next status
    leaves the array as it is. *)
Lemma status_memory_refines_witness :
  let ready := mkCondition conditionTypeReady ConditionFalse 3 5%Z reasonRuntimeNotReady "waiting" in
  let r := rt_set_status (st_set_conditions [ready] emptyStatus) sampleRuntime in
  let a := assignFields emptyStatus (mkStatusM 0 0 0 EmptyString EmptyString EmptyString EmptyString
             (Some (mkSlice 1%positive 0 1))) in
  let h : Heap (@Cell PlainTypes.types) := {[1%positive := CConditions [ready]]} in
  let obs := mkObservation (Some (sampleDeployment (rolledOut 2))) None in
  ∃ n h' F', @normalizedStatusM RefKube.lib _ RefConditions.set (λ n, n) sampleClock r obs
      validReferenceValidation a h = Some (n, h')
    ∧ repTrussiumRuntimeStatus h' a (rt_Status r) {[1%positive]}
    ∧ F' ## ({[1%positive]} : gset loc).
Proof.
  intros ready r a h obs.
  assert (Hr : repTrussiumRuntimeStatus h a (rt_Status r) {[1%positive]}).
  { apply repStatus_fields. split; [reflexivity|]. apply repConditions_some.
    exists [ready]. split; [reflexivity|]. split; [simpl; lia|]. split; reflexivity. }
  destruct (@status_memory_refines RefKube.lib RefKube.laws PlainTypes.types RefConditions.set
    RefConditions.laws (λ n, n) sampleClock r obs validReferenceValidation a {[1%positive]} h Hr)
    as [(n & h' & F' & Hn & _ & Ha & Hd) _].
  exists n, h', F'. split; [exact Hn|]. split; [exact Ha|exact Hd].
Defined.
