(* ===== verification/UpgradeProps.v ===== *)
(** * Properties of the upgrade lifecycle

    When a rollout counts as complete, when [LastSuccessfulImage] advances and
    what the [Upgrading] condition says in each situation. *)

From S2P Require Import Prelude GoStd KubeTypes ApiTypes KubeLib Resources Status.
From S2P Require Import RefKube Samples StatusProps.

(** A Deployment of the sample runtime whose rollout failed. *)
Definition failedDeployment : Deployment :=
  sampleDeployment (mkDeploymentStatus 1 2 1 1 1 1 [deadlineExceeded]).

Definition oldImage : string := "ghcr.io/trussiumhq/trussium:v1.17.0".

(** The sample runtime after [oldImage] was rolled out. *)
Definition upgradingRuntime : TrussiumRuntime :=
  rt_set_status (st_set_last_successful oldImage emptyStatus) sampleRuntime.

(** The five comparisons of [observeDeploymentRollout], in both of its branches. *)
Lemma rollout_complete_spec (r : TrussiumRuntime) (d : Deployment) :
  let s := d_Status d in
  let desired := desiredReplicaCount r (Some d) in
  observeDeploymentRollout r (Some d) = deploymentRolloutComplete ↔
  deploymentHasRolloutFailure d = false
  ∧ (om_Generation (d_Meta d) <= dstat_ObservedGeneration s)%Z
  ∧ dstat_UpdatedReplicas s = desired ∧ dstat_Replicas s = desired
  ∧ dstat_ReadyReplicas s = desired ∧ dstat_AvailableReplicas s = desired
  ∧ dstat_UnavailableReplicas s = 0%Z.
Proof.
  intros s desired. unfold observeDeploymentRollout. fold s desired.
  destruct (deploymentHasRolloutFailure d); [split; [done|by intros [? _]]|].
  destruct (Z.ltb_spec (dstat_ObservedGeneration s) (om_Generation (d_Meta d)));
    [split; [done|lia]|].
  destruct (Z.eqb_spec desired 0) as [->|Hd].
  - destruct (_ || _) eqn:Hb.
    + split; [done|]. intros (_ & _ & Hu & Ht & Hr & Ha & Hn). by rewrite Hu, Ht, Hr, Ha, Hn in Hb.
    + rewrite !orb_false_iff, !negb_false_iff, !Z.eqb_eq in Hb. tauto.
  - repeat (match goal with
            | |- context [Z.eqb ?a ?b] => destruct (Z.eqb_spec a b); simpl
            end; [|by split; [done|intros (? & ? & ? & ? & ? & ? & ?)]]).
    done.
Qed.

(** A rollout is complete exactly when no failure is reported, the
    Deployment's generation is observed, the updated, total, ready and
    available replicas all equal the requested number and none is unavailable;
    for a runtime scaled to zero this says that all counts are zero. *)
Theorem rollout_complete_iff (r : TrussiumRuntime) (d : Deployment) :
  let s := d_Status d in
  let desired := desiredReplicaCount r (Some d) in
  observeDeploymentRollout r (Some d) = deploymentRolloutComplete ↔
  deploymentHasRolloutFailure d = false
  ∧ (om_Generation (d_Meta d) <= dstat_ObservedGeneration s)%Z
  ∧ dstat_UpdatedReplicas s = desired ∧ dstat_Replicas s = desired
  ∧ dstat_ReadyReplicas s = desired ∧ dstat_AvailableReplicas s = desired
  ∧ dstat_UnavailableReplicas s = 0%Z.
Proof. apply rollout_complete_spec. Qed.

(** C24. [LastSuccessfulImage] advances to the desired image exactly when the
    rollout of that image has completed, whatever the outcome of the Secret
    check; in every other case, failures included, it keeps its value. *)
Theorem last_successful_image_advances `{K8sLaws} clk (r : TrussiumRuntime)
    (obs : runtimeObservation) (v : referenceValidationResult) (e : GoError) :
  let next :=
    if decide (desiredImageRolledOut r (obs_Deployment obs))
    then runtimeImage (spec_Image (rt_Spec r))
    else st_LastSuccessfulImage (rt_Status r) in
  st_LastSuccessfulImage (buildRuntimeStatus clk r obs v) = next
  ∧ st_LastSuccessfulImage (buildReconciliationFailureStatus clk r obs e) = next.
Proof.
  intros next.
  assert (Hb : ∀ v, st_LastSuccessfulImage (buildRuntimeStatus clk r obs v) = next).
  { intros v'. rewrite build_entries.
    by destruct (applyEntries_fields clk 0 (rt_Generation r) (statusEntries r obs v')
      (statusFields r obs)) as [cs ->]. }
  split; apply Hb.
Qed.

Lemma last_successful_image_advances_witness :
  st_LastSuccessfulImage
    (@buildRuntimeStatus RefKube.lib sampleClock upgradingRuntime
       (mkObservation (Some failedDeployment) None) validReferenceValidation) = oldImage
  ∧ st_LastSuccessfulImage
      (@buildRuntimeStatus RefKube.lib sampleClock upgradingRuntime
         (mkObservation (Some (sampleDeployment (rolledOut 2))) None) validReferenceValidation)
    = "ghcr.io/trussiumhq/trussium:v1.22.0".
Proof.
  pose (e := ErrApi (mkApiError EmptyString EmptyString)).
  split.
  - rewrite (proj1 (@last_successful_image_advances RefKube.lib RefKube.laws sampleClock
      upgradingRuntime (mkObservation (Some failedDeployment) None) validReferenceValidation e)).
    vm_compute. reflexivity.
  - rewrite (proj1 (@last_successful_image_advances RefKube.lib RefKube.laws sampleClock
      upgradingRuntime (mkObservation (Some (sampleDeployment (rolledOut 2))) None)
      validReferenceValidation e)).
    vm_compute. reflexivity.
Defined.

(** ** The Upgrading condition *)

Section Upgrading.
Context `{K8sLaws}.

Lemma upgrading_not_base p r obs :
  entryFor (phaseEntries p r obs) conditionTypeUpgrading = None.
Proof. apply entryFor_none. rewrite phaseEntries_types. by apply (bool_decide_unpack _). Qed.

Lemma entryFor_app es1 es2 t :
  entryFor es1 t = None → entryFor (es1 ++ es2) t = entryFor es2 t.
Proof.
  induction es1 as [|e es1 IH]; [done|]. simpl. rewrite !entryFor_cons.
  case_decide; [done|]. apply IH.
Qed.

(** The reported [Upgrading] condition is the entry of the table, and the
    stored condition where the table has none. *)
Lemma build_upgrading clk r obs v :
  conditionView (buildRuntimeStatus clk r obs v) conditionTypeUpgrading
  = match statusUpgradeEntry r obs with
    | Some e => Some (entryVerdict (rt_Generation r) e)
    | None => conditionView (rt_Status r) conditionTypeUpgrading
    end.
Proof.
  rewrite build_view. unfold statusEntries. rewrite entryFor_app by apply upgrading_not_base.
  destruct (statusUpgradeEntry r obs) as [e|] eqn:He; [|done]. simpl.
  by rewrite entryFor_cons, decide_True by by eapply upgradeEntry_type.
Qed.

Lemma view_absent status t : isPresent (runtimeCondition status t) = false ↔ conditionView status t = None.
Proof. unfold conditionView. by destruct (runtimeCondition status t). Qed.

End Upgrading.

(** [Upgrading] is True exactly when an image was rolled out before, the
    desired image is another one, its rollout has neither completed nor
    failed; or when the desired image is the last successful one and
    [Upgrading] was already True. *)
Theorem upgrading_true_iff `{K8sLaws} clk (r : TrussiumRuntime) (obs : runtimeObservation)
    (v : referenceValidationResult) :
  let last := st_LastSuccessfulImage (rt_Status r) in
  let desired := runtimeImage (spec_Image (rt_Spec r)) in
  let d := obs_Deployment obs in
  conditionStatusIs (buildRuntimeStatus clk r obs v) conditionTypeUpgrading ConditionTrue ↔
  last ≠ EmptyString ∧
  ((desired ≠ last ∧ observeDeploymentRollout r d ≠ deploymentRolloutFailed
    ∧ ¬ desiredImageRolledOut r d)
   ∨ (desired = last
      ∧ conditionStatusIs (rt_Status r) conditionTypeUpgrading ConditionTrue)).
Proof.
  intros last desired d. unfold conditionStatusIs at 1. rewrite build_upgrading.
  unfold statusUpgradeEntry, upgradeEntry. fold last desired d.
  destruct (decide (last = EmptyString)) as [He|He]; [by split; [|intros [? _]]|].
  destruct (decide (desired = last)) as [Hd|Hd].
  - destruct (isPresent _) eqn:Hp.
    + split; [by auto|]. intros [_ [[? _]|[_ ?]]]; done.
    + split; [done|]. intros [_ [[? _]|[_ Hs]]]; [done|].
      apply view_absent in Hp. unfold conditionStatusIs in Hs. by rewrite Hp in Hs.
  - unfold desiredImageRolledOut. fold desired.
    destruct (observeDeploymentRollout r d); try case_decide; simpl; split; try done;
      try (intros _; split; [done|]; left; repeat split; try done; by intros [? ?]);
      by intros [_ [(? & ? & Hn)|[? _]]]; try (exfalso; apply Hn).
Qed.

Lemma upgrading_true_iff_witness :
  @conditionStatusIs RefKube.lib
    (@buildRuntimeStatus RefKube.lib sampleClock upgradingRuntime
       (mkObservation None None) validReferenceValidation)
    conditionTypeUpgrading ConditionTrue.
Proof.
  apply (@upgrading_true_iff RefKube.lib RefKube.laws). split; [vm_compute; discriminate|].
  left. split; [vm_compute; discriminate|]. split; [vm_compute; discriminate|].
  intros [Ho _]. vm_compute in Ho. discriminate Ho.
Defined.

Section RolledOut.
Context `{K8sLaws}.

(** A complete rollout meets every condition for readiness. *)
Lemma rolled_out_ready r obs v :
  v_Valid v = true → desiredImageRolledOut r (obs_Deployment obs) →
  phaseReady (classify r obs v) = true.
Proof.
  intros Hv [Ho _]. apply classify_ready. split; [done|].
  destruct (obs_Deployment obs) as [d|] eqn:Hd; [|done]. exists d. split; [done|].
  apply rollout_complete_spec in Ho as (Hf & Hg & _ & _ & Hrd & Hav & _). auto.
Qed.

End RolledOut.

(** Once the desired image is rolled out and the references resolve, the
    runtime is Ready, neither Degraded nor Progressing, the image is recorded
    as last successful, and an upgrade from another image is reported as
    completed for the current generation. *)
Theorem rolled_out_upgrade_completes `{K8sLaws} clk (r : TrussiumRuntime)
    (obs : runtimeObservation) (v : referenceValidationResult) :
  v_Valid v = true → desiredImageRolledOut r (obs_Deployment obs) →
  let s := buildRuntimeStatus clk r obs v in
  let last := st_LastSuccessfulImage (rt_Status r) in
  let desired := runtimeImage (spec_Image (rt_Spec r)) in
  conditionStatusIs s conditionTypeReady ConditionTrue
  ∧ conditionStatusIs s conditionTypeDegraded ConditionFalse
  ∧ conditionStatusIs s conditionTypeProgressing ConditionFalse
  ∧ st_CurrentImage s = desired ∧ st_LastSuccessfulImage s = desired
  ∧ (last ≠ EmptyString → last ≠ desired →
     conditionView s conditionTypeUpgrading
     = Some (mkVerdict ConditionFalse reasonUpgradeComplete
               ("Runtime image upgrade from " +:+ last +:+ " to " +:+ desired +:+ " completed.")
               (rt_Generation r))).
Proof.
  intros Hv Hd s last desired. pose proof (rolled_out_ready r obs v Hv Hd) as Hr.
  pose proof (phase_lines (classify r obs v) r obs) as (Hl1 & Hl2 & Hl3).
  unfold s. rewrite !base_status_is, Hl1, Hl2, Hl3
    by (apply (bool_decide_unpack _); vm_compute; exact I).
  rewrite build_upgrading, build_entries.
  destruct (applyEntries_fields clk 0 (rt_Generation r) (statusEntries r obs v)
    (statusFields r obs)) as [cs ->].
  split_and!; try by destruct (classify r obs v).
  - apply Hd.
  - unfold statusFields, nextLastSuccessful. simpl. by rewrite decide_True.
  - intros He Hne. unfold statusUpgradeEntry, upgradeEntry. fold last desired.
    rewrite decide_False, decide_False by congruence.
    destruct Hd as [-> Hi]. by rewrite decide_True.
Qed.

Lemma rolled_out_upgrade_completes_witness :
  let s := @buildRuntimeStatus RefKube.lib sampleClock upgradingRuntime
             (mkObservation (Some (sampleDeployment (rolledOut 2))) None)
             validReferenceValidation in
  @conditionStatusIs RefKube.lib s conditionTypeReady ConditionTrue
  ∧ (vd_Reason <$> @conditionView RefKube.lib s conditionTypeUpgrading)
    = Some reasonUpgradeComplete.
Proof.
  intros s.
  destruct (@rolled_out_upgrade_completes RefKube.lib RefKube.laws sampleClock upgradingRuntime
    (mkObservation (Some (sampleDeployment (rolledOut 2))) None) validReferenceValidation)
    as (Hr & _ & _ & _ & _ & Hu).
  - reflexivity.
  - split; vm_compute; reflexivity.
  - split; [exact Hr|]. unfold s. rewrite Hu; [reflexivity| |]; vm_compute; discriminate.
Defined.

(** C36. When the specification returns to the last successful image, an
    existing [Upgrading] condition is carried over unchanged, with its status,
    reason, message, transition time and observed generation, whatever the
    rollout does: an upgrade that was in progress or had failed stays reported
    after the rollback has completed. *)
Theorem rollback_keeps_upgrading_condition `{K8sLaws} clk (r : TrussiumRuntime)
    (obs : runtimeObservation) (v : referenceValidationResult) (c : Condition) :
  st_LastSuccessfulImage (rt_Status r) ≠ EmptyString →
  runtimeImage (spec_Image (rt_Spec r)) = st_LastSuccessfulImage (rt_Status r) →
  runtimeCondition (rt_Status r) conditionTypeUpgrading = Some c →
  runtimeCondition (buildRuntimeStatus clk r obs v) conditionTypeUpgrading = Some c.
Proof.
  intros He Hd Hc. rewrite build_entries, condition_applyEntries_other; [exact Hc|].
  rewrite statusEntries_types. unfold statusUpgradeEntry, upgradeEntry.
  rewrite decide_False, decide_True, Hc by done. by apply (bool_decide_unpack _).
Qed.

(** The sample runtime, rolled back to its last successful image while an
    upgrade of generation 3 was in progress. *)
Definition rolledBackRuntime : TrussiumRuntime :=
  rt_set_status
    (st_set_conditions
       [mkCondition conditionTypeUpgrading ConditionTrue 3%Z 17%Z reasonUpgradeInProgress
          "Runtime image is upgrading."]
       (st_set_last_successful "ghcr.io/trussiumhq/trussium:v1.22.0" emptyStatus)) sampleRuntime.

Lemma rollback_keeps_upgrading_condition_witness :
  let obs := mkObservation (Some (sampleDeployment (rolledOut 2))) None in
  desiredImageRolledOut rolledBackRuntime (obs_Deployment obs)
  ∧ @runtimeCondition RefKube.lib
      (@buildRuntimeStatus RefKube.lib sampleClock rolledBackRuntime obs validReferenceValidation)
      conditionTypeUpgrading
    = Some (mkCondition conditionTypeUpgrading ConditionTrue 3%Z 17%Z reasonUpgradeInProgress
              "Runtime image is upgrading.").
Proof.
  intros obs. split; [split; vm_compute; reflexivity|].
  apply (@rollback_keeps_upgrading_condition RefKube.lib RefKube.laws).
  - vm_compute. discriminate.
  - vm_compute. reflexivity.
  - vm_compute. reflexivity.
Defined.

(** ** The status of a failed reconciliation *)

(** The three conditions a failed reconciliation overrides. *)
Definition failureEntries (e : GoError) : list Entry :=
  let message := "Runtime reconciliation failed: " +:+ errorText e in
  [mkEntry conditionTypeProgressing ConditionFalse reasonReconciliationFailed message;
   mkEntry conditionTypeReady ConditionFalse reasonReconciliationFailed message;
   mkEntry conditionTypeDegraded ConditionTrue reasonReconciliationFailed message].

Section Failure.
Context `{K8sLaws}.

Lemma failure_entries clk r obs e :
  buildReconciliationFailureStatus clk r obs e
  = applyEntries clk 6 (rt_Generation r) (failureEntries e)
      (buildRuntimeStatus clk r obs validReferenceValidation).
Proof. done. Qed.

Lemma failureEntries_nodup e : NoDup (en_Type <$> failureEntries e).
Proof. by apply (bool_decide_unpack _). Qed.

Lemma failure_view clk r obs e t :
  conditionView (buildReconciliationFailureStatus clk r obs e) t
  = match entryFor (failureEntries e) t with
    | Some x => Some (entryVerdict (rt_Generation r) x)
    | None => conditionView (buildRuntimeStatus clk r obs validReferenceValidation) t
    end.
Proof. rewrite failure_entries. apply view_applyEntries, failureEntries_nodup. Qed.

End Failure.

(** C35. After a failed reconciliation the runtime is not Ready, not
    Progressing and Degraded, each with the text of the error, while
    [Available] and [Upgrading] still report what was observed.
    [ConfigurationValid] says that the references resolve, also when the
    failure is that they could not be checked. *)
Theorem failure_status_conditions `{K8sLaws} clk (r : TrussiumRuntime)
    (obs : runtimeObservation) (e : GoError) :
  let s := buildReconciliationFailureStatus clk r obs e in
  let observed := buildRuntimeStatus clk r obs validReferenceValidation in
  let failed b := Some (mkVerdict b reasonReconciliationFailed
                    ("Runtime reconciliation failed: " +:+ errorText e) (rt_Generation r)) in
  conditionView s conditionTypeReady = failed ConditionFalse
  ∧ conditionView s conditionTypeProgressing = failed ConditionFalse
  ∧ conditionView s conditionTypeDegraded = failed ConditionTrue
  ∧ conditionView s conditionTypeAvailable = conditionView observed conditionTypeAvailable
  ∧ conditionView s conditionTypeUpgrading = conditionView observed conditionTypeUpgrading
  ∧ conditionView s conditionTypeConfigurationValid
    = Some (mkVerdict ConditionTrue reasonReferencesResolved
              "All referenced Secrets are available." (rt_Generation r)).
Proof.
  intros s observed failed. unfold s. rewrite !failure_view. split_and!; try done.
  change (entryFor (failureEntries e) conditionTypeConfigurationValid) with (@None Entry).
  rewrite build_view. unfold statusEntries. rewrite entryFor_app_base;
    [|apply (bool_decide_unpack _); vm_compute; exact I].
  assert (Hc : entryFor (phaseEntries (classify r obs validReferenceValidation) r obs)
                 conditionTypeConfigurationValid = Some resolvedEntry); [|by rewrite Hc].
  assert (Hp : ∀ x y, classify r obs validReferenceValidation ≠ PhaseInvalid x y).
  { intros x y. unfold classify. simpl. repeat case_match; done. }
  by destruct (classify r obs validReferenceValidation) as [x y| | | | | |[]];
    [destruct (Hp x y)|..].
Qed.

Lemma failure_status_conditions_witness :
  vd_Status <$> @conditionView RefKube.lib
    (@buildReconciliationFailureStatus RefKube.lib sampleClock sampleRuntime
       (mkObservation None None) (ErrApi (mkApiError "Forbidden" "secrets is forbidden")))
    conditionTypeConfigurationValid
  = Some ConditionTrue.
Proof.
  destruct (@failure_status_conditions RefKube.lib RefKube.laws sampleClock sampleRuntime
    (mkObservation None None) (ErrApi (mkApiError "Forbidden" "secrets is forbidden")))
    as (_ & _ & _ & _ & _ & Hc).
  rewrite Hc. reflexivity.
Defined.
