(* ===== verification/ConvergenceProps.v ===== *)
(** * The status across reconciliations

    A runtime is reconciled again and again: each reconciliation starts from
    the status the previous one stored.  This file describes the statuses that
    can be stored as an inductive relation, proves invariants of all of them by
    rule induction, shows that transition times move only with the status of
    their condition, and that a reconciliation of an unchanged observation
    writes nothing. *)

From S2P Require Import Prelude GoStd KubeTypes ApiTypes KubeLib Resources Effects Status.
From S2P Require Import Events Reconciler RefKube Samples StatusProps UpgradeProps.

(** ** What a reconciliation reports *)

(** A reconciliation ends with a validated configuration or with an error. *)
Inductive Outcome :=
| Observed (v : referenceValidationResult)
| Failed (e : GoError).

Definition outcomeValidation (o : Outcome) : referenceValidationResult :=
  match o with Observed v => v | Failed _ => validReferenceValidation end.

Definition outcomeEntries (o : Outcome) : list Entry :=
  match o with Observed _ => [] | Failed e => failureEntries e end.

Section Reported.
Context `{K8sLib}.

(** The status that is handed to [updateRuntimeStatus]. *)
Definition desiredStatusFor (clk : nat → Time) (r : TrussiumRuntime) (obs : runtimeObservation)
    (o : Outcome) : TrussiumRuntimeStatus :=
  match o with
  | Observed v => buildRuntimeStatus clk r obs v
  | Failed e => buildReconciliationFailureStatus clk r obs e
  end.

(** The status that [updateRuntimeStatus] leaves in the runtime. *)
Definition reportedStatus (clk : nat → Time) (r : TrussiumRuntime) (obs : runtimeObservation)
    (o : Outcome) : TrussiumRuntimeStatus :=
  preserveRuntimeConditionTransitionTimes (rt_Status r) (desiredStatusFor clk r obs o).

(** [Reported s images]: [s] can be the stored status of a runtime after some
    reconciliations, in which the rollouts of [images] completed, the latest
    first.  Between reconciliations the specification, the generation and the
    cluster may change in any way; the status is written by the operator
    alone. *)
Inductive Reported : TrussiumRuntimeStatus → list string → Prop :=
| Reported_new : Reported emptyStatus []
| Reported_step clk r obs o images :
    Reported (rt_Status r) images →
    Reported (reportedStatus clk r obs o)
      (if decide (desiredImageRolledOut r (obs_Deployment obs))
       then runtimeImage (spec_Image (rt_Spec r)) :: images else images).

End Reported.

Section ReportedLemmas.
Context `{K8sLaws}.

Lemma desired_entries clk r obs o :
  desiredStatusFor clk r obs o
  = applyEntries clk 6 (rt_Generation r) (outcomeEntries o)
      (applyEntries clk 0 (rt_Generation r) (statusEntries r obs (outcomeValidation o))
         (statusFields r obs)).
Proof.
  rewrite <-build_entries. by destruct o.
Qed.

Lemma desired_view clk r obs o t :
  conditionView (desiredStatusFor clk r obs o) t
  = match entryFor (outcomeEntries o) t with
    | Some x => Some (entryVerdict (rt_Generation r) x)
    | None => conditionView (buildRuntimeStatus clk r obs (outcomeValidation o)) t
    end.
Proof. destruct o as [v|e]; [done|apply failure_view]. Qed.

Lemma desired_fields clk r obs o :
  ∃ cs, desiredStatusFor clk r obs o = st_set_conditions cs (statusFields r obs).
Proof.
  rewrite desired_entries.
  destruct (applyEntries_fields clk 0 (rt_Generation r)
    (statusEntries r obs (outcomeValidation o)) (statusFields r obs)) as [cs ->].
  destruct (applyEntries_fields clk 6 (rt_Generation r) (outcomeEntries o)
    (st_set_conditions cs (statusFields r obs))) as [cs' ->]. by exists cs'.
Qed.

(** ** Preserving transition times *)

Lemma find_map_preserve cur cs t :
  FindStatusCondition (map (preserveTransitionTime cur) cs) t
  = preserveTransitionTime cur <$> FindStatusCondition cs t.
Proof.
  induction cs as [|c cs IH]; simpl; [by rewrite find_nil|]. rewrite !find_cons, IH.
  assert (c_Type (preserveTransitionTime cur c) = c_Type c) as ->.
  { unfold preserveTransitionTime. repeat case_match; done. }
  by case_decide.
Qed.

Lemma condition_preserve cur desired t :
  runtimeCondition (preserveRuntimeConditionTransitionTimes cur desired) t
  = preserveTransitionTime cur <$> runtimeCondition desired t.
Proof. apply find_map_preserve. Qed.

Lemma verdict_preserve cur c : verdict (preserveTransitionTime cur c) = verdict c.
Proof. unfold preserveTransitionTime. by repeat case_match. Qed.

Lemma type_preserve cur c : c_Type (preserveTransitionTime cur c) = c_Type c.
Proof. unfold preserveTransitionTime. by repeat case_match. Qed.

Lemma view_preserve cur desired t :
  conditionView (preserveRuntimeConditionTransitionTimes cur desired) t = conditionView desired t.
Proof.
  unfold conditionView. rewrite condition_preserve.
  destruct (runtimeCondition desired t); [|done]. simpl. by rewrite verdict_preserve.
Qed.

Lemma types_preserve cur desired :
  c_Type <$> st_Conditions (preserveRuntimeConditionTransitionTimes cur desired)
  = c_Type <$> st_Conditions desired.
Proof.
  change (st_Conditions (preserveRuntimeConditionTransitionTimes cur desired))
    with (preserveTransitionTime cur <$> st_Conditions desired).
  rewrite <-list_fmap_compose. apply list_fmap_ext. intros i c _. apply type_preserve.
Qed.

Lemma preserve_fields cur desired :
  ∃ cs, preserveRuntimeConditionTransitionTimes cur desired = st_set_conditions cs desired.
Proof. by eexists. Qed.

(** ** The types of the conditions *)

Definition statusTypes (s : TrussiumRuntimeStatus) : list string := c_Type <$> st_Conditions s.

Lemma statusTypes_set now gen ty s reason message status :
  ty ∈ statusTypes status →
  statusTypes (setRuntimeCondition now gen ty s reason message status) = statusTypes status.
Proof.
  intros Hin. unfold statusTypes, setRuntimeCondition. simpl. rewrite set_types. simpl.
  by rewrite decide_True, app_nil_r.
Qed.

Lemma statusTypes_apply clk n gen es status :
  (∀ t, t ∈ en_Type <$> es → t ∈ statusTypes status) →
  statusTypes (applyEntries clk n gen es status) = statusTypes status.
Proof.
  revert n status. induction es as [|e es IH]; intros n status Hin; [done|].
  assert (Hs := statusTypes_set (clk n) gen (en_Type e) (en_Status e) (en_Reason e)
    (en_Message e) status (Hin _ ltac:(simpl; by left))).
  simpl. rewrite IH, Hs; [done|]. intros t Ht. rewrite Hs. apply Hin. simpl. by right.
Qed.

Lemma outcomeEntries_types o t : t ∈ en_Type <$> outcomeEntries o → t ∈ baseConditionTypes.
Proof.
  destruct o as [v|e]; simpl; intros Ht; [by apply not_elem_of_nil in Ht|].
  revert t Ht. apply Forall_forall.
  repeat constructor; apply (bool_decide_unpack _); vm_compute; exact I.
Qed.

Lemma statusEntries_types_all r obs v t :
  t ∈ en_Type <$> statusEntries r obs v → t ∈ allConditionTypes.
Proof.
  rewrite statusEntries_types. unfold allConditionTypes. rewrite !elem_of_app.
  intros [?|Ht]; [by left|right]. revert Ht.
  destruct (statusUpgradeEntry r obs) as [e|] eqn:He; simpl.
  - by rewrite (upgradeEntry_type _ _ _ _ _ He).
  - intros Hn. by apply not_elem_of_nil in Hn.
Qed.

(** Reporting on a status that has all the conditions adds none. *)
Lemma desired_types_full clk r obs o :
  (∀ t, t ∈ allConditionTypes → t ∈ statusTypes (rt_Status r)) →
  statusTypes (desiredStatusFor clk r obs o) = statusTypes (rt_Status r).
Proof.
  intros Hall. rewrite desired_entries.
  assert (H1 : statusTypes (applyEntries clk 0 (rt_Generation r)
                 (statusEntries r obs (outcomeValidation o)) (statusFields r obs))
               = statusTypes (rt_Status r)).
  { rewrite statusTypes_apply; [done|]. intros t Ht.
    by eapply Hall, statusEntries_types_all. }
  rewrite statusTypes_apply; [done|]. intros t Ht. rewrite H1.
  apply Hall, elem_of_app. left. by eapply outcomeEntries_types.
Qed.

Lemma statusTypes_apply_new clk n gen es status :
  NoDup (statusTypes status ++ (en_Type <$> es)) →
  statusTypes (applyEntries clk n gen es status) = statusTypes status ++ (en_Type <$> es).
Proof.
  revert n status. induction es as [|e es IH]; intros n status Hn; [by rewrite app_nil_r|].
  assert (Hs : statusTypes (setRuntimeCondition (clk n) gen (en_Type e) (en_Status e)
                 (en_Reason e) (en_Message e) status) = statusTypes status ++ [en_Type e]).
  { unfold statusTypes, setRuntimeCondition. simpl. rewrite set_types. simpl.
    rewrite decide_False; [done|]. intros Hin.
    apply NoDup_app in Hn as (_ & Hd & _). apply (Hd _ Hin). simpl. by left. }
  simpl. rewrite IH; rewrite Hs, <-app_assoc; done.
Qed.

(** The first report on a new runtime sets all six conditions, in order. *)
Lemma desired_types_new clk r obs o :
  st_Conditions (rt_Status r) = [] →
  statusTypes (desiredStatusFor clk r obs o) = allConditionTypes.
Proof.
  intros He. rewrite desired_entries.
  assert (H1 : statusTypes (applyEntries clk 0 (rt_Generation r)
                 (statusEntries r obs (outcomeValidation o)) (statusFields r obs))
               = allConditionTypes).
  { assert (H2 : statusTypes (statusFields r obs) = []).
    { unfold statusTypes. simpl. by rewrite He. }
    rewrite statusTypes_apply_new; rewrite H2; simpl; [|apply statusEntries_nodup].
    rewrite statusEntries_types. unfold allConditionTypes. f_equal.
    unfold statusUpgradeEntry. unfold runtimeCondition at 1. rewrite He, find_nil. simpl.
    destruct (upgradeEntry _ _ _ false) as [x|] eqn:Hx; simpl.
    - by rewrite (upgradeEntry_type _ _ _ _ _ Hx).
    - unfold upgradeEntry in Hx. repeat case_match; done. }
  rewrite statusTypes_apply; [done|]. intros t Ht. rewrite H1.
  apply elem_of_app. left. by eapply outcomeEntries_types.
Qed.

Lemma reported_types clk r obs o :
  st_Conditions (rt_Status r) = [] ∨ statusTypes (rt_Status r) = allConditionTypes →
  statusTypes (reportedStatus clk r obs o) = allConditionTypes.
Proof.
  intros Hc. unfold reportedStatus, statusTypes at 1. rewrite types_preserve.
  destruct Hc as [Hc|Hc]; [by apply desired_types_new|].
  etransitivity; [apply desired_types_full|done]. by rewrite Hc.
Qed.

Lemma reported_last clk r obs o :
  st_LastSuccessfulImage (reportedStatus clk r obs o)
  = nextLastSuccessful r (obs_Deployment obs) (st_LastSuccessfulImage (rt_Status r)).
Proof.
  unfold reportedStatus.
  destruct (desired_fields clk r obs o) as [cs ->]. by destruct (preserve_fields
    (rt_Status r) (st_set_conditions cs (statusFields r obs))) as [cs' ->].
Qed.

Lemma reported_upgrading clk r obs o :
  conditionView (reportedStatus clk r obs o) conditionTypeUpgrading
  = match statusUpgradeEntry r obs with
    | Some e => Some (entryVerdict (rt_Generation r) e)
    | None => conditionView (rt_Status r) conditionTypeUpgrading
    end.
Proof.
  unfold reportedStatus. rewrite view_preserve, desired_view.
  assert (entryFor (outcomeEntries o) conditionTypeUpgrading = None) as ->.
  { apply entryFor_none. intros Ht%outcomeEntries_types. revert Ht.
    by apply (bool_decide_unpack _). }
  apply build_upgrading.
Qed.

End ReportedLemmas.

(** ** Invariants of every stored status *)

(** Exactly one of the three health conditions is True. *)
Definition oneHealth `{K8sLib} (s : TrussiumRuntimeStatus) : Prop :=
  ∃ ready degraded progressing : bool,
    conditionStatusIs s conditionTypeReady (ofBool ready)
    ∧ conditionStatusIs s conditionTypeDegraded (ofBool degraded)
    ∧ conditionStatusIs s conditionTypeProgressing (ofBool progressing)
    ∧ Nat.b2n ready + Nat.b2n degraded + Nat.b2n progressing = 1.

(** What an [Upgrading] condition may say when [images] were rolled out. *)
Definition upgradingConsistent (images : list string) (vd : Verdict) : Prop :=
  vd_Reason vd ∈ [reasonNoUpgrade; reasonUpgradeInProgress; reasonUpgradeComplete;
                  reasonUpgradeFailed]
  ∧ (vd_Status vd = ConditionTrue ↔ vd_Reason vd = reasonUpgradeInProgress)
  ∧ (vd_Reason vd ≠ reasonNoUpgrade → images ≠ []).

Section Invariants.
Context `{K8sLaws}.

Lemma reported_status_is clk r obs o t s :
  conditionStatusIs (reportedStatus clk r obs o) t s
  ↔ conditionStatusIs (desiredStatusFor clk r obs o) t s.
Proof. unfold conditionStatusIs, reportedStatus. by rewrite view_preserve. Qed.

Lemma reported_one_health clk r obs o : oneHealth (reportedStatus clk r obs o).
Proof.
  unfold oneHealth. setoid_rewrite reported_status_is. destruct o as [v|e].
  - pose proof (phase_lines (classify r obs v) r obs) as (H1 & H2 & H3).
    exists (phaseReady (classify r obs v)), (phaseDegraded (classify r obs v)),
      (phaseProgressing (classify r obs v)).
    simpl. rewrite !base_status_is, H1, H2, H3
      by (apply (bool_decide_unpack _); vm_compute; exact I).
    repeat split. by destruct (classify r obs v).
  - exists false, true, false. unfold conditionStatusIs. rewrite !desired_view. done.
Qed.

Lemma upgradeEntry_consistent r d last present e gen images :
  (last ≠ EmptyString → images ≠ []) →
  upgradeEntry r d last present = Some e → upgradingConsistent images (entryVerdict gen e).
Proof.
  intros Him He.
  assert (Hok : ∀ s reason m, e = mkEntry conditionTypeUpgrading s reason m →
    reason ∈ [reasonNoUpgrade; reasonUpgradeInProgress; reasonUpgradeComplete;
              reasonUpgradeFailed] →
    (s = ConditionTrue ↔ reason = reasonUpgradeInProgress) →
    (reason = reasonNoUpgrade ∨ last ≠ EmptyString) →
    upgradingConsistent images (entryVerdict gen e)).
  { intros s reason m -> Hin Hs Hl. split; [done|]. split; [done|]. simpl. intros Hn.
    destruct Hl; [done|auto]. }
  unfold upgradeEntry in He. repeat case_match; try done; injection He as <-;
    (eapply Hok; [done|by apply (bool_decide_unpack _)|done|]); auto.
Qed.

Lemma upgradingConsistent_mono images images' vd :
  (images ≠ [] → images' ≠ []) →
  upgradingConsistent images vd → upgradingConsistent images' vd.
Proof. intros Hi (H1 & H2 & H3). split_and!; auto. Qed.

End Invariants.

(** C18. A reconciliation reports [Ready] as True exactly when it did not fail, the
    references are valid, the Deployment exists, its controller has observed its
    generation, ready and available replicas both equal the requested number, and
    no rollout failure is reported unless zero replicas are requested. *)
Theorem ready_iff `{K8sLaws} clk (r : TrussiumRuntime) (obs : runtimeObservation) (o : Outcome) :
  conditionStatusIs (reportedStatus clk r obs o) conditionTypeReady ConditionTrue ↔
  ∃ v, o = Observed v ∧ v_Valid v = true ∧ ∃ d, obs_Deployment obs = Some d
    ∧ (om_Generation (d_Meta d) <= dstat_ObservedGeneration (d_Status d))%Z
    ∧ dstat_ReadyReplicas (d_Status d) = desiredReplicaCount r (Some d)
    ∧ dstat_AvailableReplicas (d_Status d) = desiredReplicaCount r (Some d)
    ∧ (desiredReplicaCount r (Some d) = 0%Z ∨ deploymentHasRolloutFailure d = false).
Proof.
  rewrite reported_status_is. destruct o as [v|e].
  - cbn [desiredStatusFor].
    rewrite base_status_is by (apply (bool_decide_unpack _); vm_compute; exact I).
    rewrite (proj1 (phase_lines _ r obs)). transitivity (phaseReady (classify r obs v) = true).
    + destruct (phaseReady _); simpl; split; congruence.
    + rewrite classify_ready. split; [by exists v|]. by intros (v' & [= ->] & Hv).
  - unfold conditionStatusIs. rewrite desired_view. split; [done|]. by intros (v & [=] & _).
Qed.

Lemma ready_iff_witness :
  @conditionStatusIs RefKube.lib
    (@reportedStatus RefKube.lib sampleClock sampleRuntime
       (mkObservation (Some (sampleDeployment (rolledOut 2))) None)
       (Observed validReferenceValidation))
    conditionTypeReady ConditionTrue.
Proof.
  apply (@ready_iff RefKube.lib RefKube.laws). eexists. split; [reflexivity|].
  split; [reflexivity|]. eexists. split; [reflexivity|].
  split; [vm_compute; discriminate|]. split; [reflexivity|]. split; [reflexivity|].
  right. reflexivity.
Defined.

(** C23. A reconciliation reports [Degraded] as True exactly when it failed, a
    referenced Secret is missing, or the Deployment of a runtime with requested
    replicas reports a failed rollout. *)
Theorem degraded_iff `{K8sLaws} clk (r : TrussiumRuntime) (obs : runtimeObservation) (o : Outcome) :
  conditionStatusIs (reportedStatus clk r obs o) conditionTypeDegraded ConditionTrue ↔
  (∃ e, o = Failed e)
  ∨ ∃ v, o = Observed v ∧ (v_Valid v = false ∨ ∃ d, obs_Deployment obs = Some d
      ∧ desiredReplicaCount r (Some d) ≠ 0%Z ∧ deploymentHasRolloutFailure d = true).
Proof.
  rewrite reported_status_is. destruct o as [v|e].
  - cbn [desiredStatusFor].
    rewrite base_status_is by (apply (bool_decide_unpack _); vm_compute; exact I).
    rewrite (proj1 (proj2 (phase_lines _ r obs))).
    transitivity (phaseDegraded (classify r obs v) = true).
    + destruct (phaseDegraded _); simpl; split; congruence.
    + rewrite classify_degraded. split; [right; by exists v|].
      intros [(e & [=])|(v' & [= ->] & Hv)]. exact Hv.
  - unfold conditionStatusIs. rewrite desired_view. split; [left; by exists e|done].
Qed.

Lemma degraded_iff_witness :
  @conditionStatusIs RefKube.lib
    (@reportedStatus RefKube.lib sampleClock sampleRuntime
       (mkObservation (Some (sampleDeployment (mkDeploymentStatus 1 2 2 0 0 2 [deadlineExceeded])))
          None) (Observed validReferenceValidation))
    conditionTypeDegraded ConditionTrue.
Proof.
  apply (@degraded_iff RefKube.lib RefKube.laws). right. eexists. split; [reflexivity|]. right.
  eexists. split; [reflexivity|]. split; [vm_compute; discriminate|reflexivity].
Defined.

(** C11. Every status the operator can have stored, after any sequence of
    reconciliations, with or without errors, of a runtime whose specification
    and cluster change in any way in between: it has no conditions yet or
    exactly the six documented ones, in order; exactly one of Ready, Degraded
    and Progressing is True; [LastSuccessfulImage] is the image whose rollout
    completed most recently; [Upgrading] is True exactly with reason
    [UpgradeInProgress] and reports an upgrade only after some rollout
    completed. *)
Theorem stored_status_invariant `{K8sLaws} (s : TrussiumRuntimeStatus) (images : list string) :
  Reported s images →
  (s = emptyStatus ∨ (statusTypes s = allConditionTypes ∧ oneHealth s))
  ∧ st_LastSuccessfulImage s = default EmptyString (head images)
  ∧ (∀ vd, conditionView s conditionTypeUpgrading = Some vd → upgradingConsistent images vd).
Proof.
  induction 1 as [|clk r obs o images _ (Hty & Hlast & Hup)].
  - split; [by left|]. split; [done|]. intros vd. unfold conditionView, runtimeCondition.
    simpl. by rewrite find_nil.
  - split; [right; split; [|apply reported_one_health]; apply reported_types|].
    { destruct Hty as [->|[Hty _]]; auto. }
    split.
    + rewrite reported_last. unfold nextLastSuccessful. by case_decide.
    + intros vd. rewrite reported_upgrading.
      assert (Hne : images ≠ [] →
        (if decide (desiredImageRolledOut r (obs_Deployment obs))
         then runtimeImage (spec_Image (rt_Spec r)) :: images else images) ≠ [])
        by by case_decide.
      destruct (statusUpgradeEntry r obs) as [e|] eqn:He; intros Hvd.
      * injection Hvd as <-. eapply upgradingConsistent_mono; [exact Hne|].
        eapply upgradeEntry_consistent; [|exact He]. intros Hl ->. by rewrite Hlast in Hl.
      * by eapply upgradingConsistent_mono, Hup.
Qed.

(** Two reconciliations of the sample runtime: the rollout completes, then the
    Deployment disappears. *)
Lemma stored_status_invariant_witness :
  let s1 := @reportedStatus RefKube.lib sampleClock sampleRuntime
              (mkObservation (Some (sampleDeployment (rolledOut 2))) None)
              (Observed validReferenceValidation) in
  let s2 := @reportedStatus RefKube.lib sampleClock (rt_set_status s1 sampleRuntime)
              (mkObservation None None) (Observed validReferenceValidation) in
  @statusTypes s2 = allConditionTypes
  ∧ st_LastSuccessfulImage s2 = "ghcr.io/trussiumhq/trussium:v1.22.0".
Proof.
  intros s1 s2.
  assert (Hr : @Reported RefKube.lib s2 ["ghcr.io/trussiumhq/trussium:v1.22.0"]).
  { apply (@Reported_step RefKube.lib sampleClock (rt_set_status s1 sampleRuntime)
      (mkObservation None None) (Observed validReferenceValidation)).
    apply (@Reported_step RefKube.lib sampleClock sampleRuntime
      (mkObservation (Some (sampleDeployment (rolledOut 2))) None)
      (Observed validReferenceValidation) []).
    apply Reported_new. }
  destruct (@stored_status_invariant RefKube.lib RefKube.laws s2 _ Hr) as ([He|[Ht _]] & Hl & _).
  - vm_compute in He. discriminate He.
  - split; [exact Ht|exact Hl].
Defined.

(** ** Transition times *)

Section Times.
Context `{K8sLaws}.

(** A condition kept its status and time since [prev], or was stamped with a
    clock reading of this reconciliation. *)
Definition timedSince (prev : TrussiumRuntimeStatus) (clk : nat → Time) (c : Condition) : Prop :=
  (∃ c0, runtimeCondition prev (c_Type c) = Some c0 ∧ c_Status c0 = c_Status c
         ∧ c_LastTransitionTime c0 = c_LastTransitionTime c)
  ∨ ∃ i, i < 9 ∧ c_LastTransitionTime c = clk i.

Definition allTimedSince (prev : TrussiumRuntimeStatus) (clk : nat → Time)
    (s : TrussiumRuntimeStatus) : Prop :=
  ∀ t c, runtimeCondition s t = Some c → timedSince prev clk c.

Lemma timed_set prev clk i gen ty st reason message s :
  i < 9 → allTimedSince prev clk s →
  allTimedSince prev clk (setRuntimeCondition (clk i) gen ty st reason message s).
Proof.
  intros Hi Hs t c. rewrite runtimeCondition_set. case_decide as Ht; [|apply Hs].
  subst t. intros Hc. apply (inj Some) in Hc as <-. unfold resultCondition. simpl.
  destruct (FindStatusCondition (st_Conditions s) ty) as [old|] eqn:Hf.
  - unfold updatedCondition, timedSince. simpl. case_decide as He; [|right; by exists i].
    pose proof (find_type _ _ _ Hf) as Hty.
    destruct (Hs ty old Hf) as [(c0 & H1 & H2 & H3)|Hclk]; [|by right].
    left. exists c0. split; [done|]. split; congruence.
  - right. by exists i.
Qed.

Lemma timed_apply prev clk n gen es s :
  n + length es ≤ 9 → allTimedSince prev clk s →
  allTimedSince prev clk (applyEntries clk n gen es s).
Proof.
  revert n s. induction es as [|e es IH]; intros n s Hn Hs; [done|]. simpl in *.
  apply IH; [lia|]. apply timed_set; [lia|done].
Qed.

Lemma statusEntries_length r obs v : length (statusEntries r obs v) ≤ 6.
Proof.
  rewrite <-(length_fmap en_Type), statusEntries_types.
  destruct (statusUpgradeEntry r obs); simpl; lia.
Qed.

Lemma outcomeEntries_length o : length (outcomeEntries o) ≤ 3.
Proof. destruct o; simpl; lia. Qed.

Lemma desired_timed clk r obs o :
  allTimedSince (rt_Status r) clk (desiredStatusFor clk r obs o).
Proof.
  rewrite desired_entries. apply timed_apply; [pose proof (outcomeEntries_length o); lia|].
  apply timed_apply; [pose proof (statusEntries_length r obs (outcomeValidation o)); lia|].
  intros t c Hc. left. exists c.
  change (runtimeCondition (statusFields r obs) t)
    with (runtimeCondition (rt_Status r) t) in Hc.
  by rewrite (find_type _ _ _ Hc).
Qed.

End Times.

(** C25. The transition time of a reported condition is the stored one when the
    status of the condition is unchanged, and a clock reading of this
    reconciliation when the status changed or the condition is new; also when a
    failure overrides a condition that was just recomputed. *)
Theorem transition_time_follows_status `{K8sLaws} clk (r : TrussiumRuntime)
    (obs : runtimeObservation) (o : Outcome) (t : string) (c : Condition) :
  runtimeCondition (reportedStatus clk r obs o) t = Some c →
  match runtimeCondition (rt_Status r) t with
  | Some stored =>
      if decide (c_Status stored = c_Status c)
      then c_LastTransitionTime c = c_LastTransitionTime stored
      else ∃ i, i < 9 ∧ c_LastTransitionTime c = clk i
  | None => ∃ i, i < 9 ∧ c_LastTransitionTime c = clk i
  end.
Proof.
  unfold reportedStatus. rewrite condition_preserve. intros Hc.
  destruct (runtimeCondition (desiredStatusFor clk r obs o) t) as [d|] eqn:Hd; [|done].
  apply (inj Some) in Hc as <-. pose proof (find_type _ _ _ Hd) as Ht.
  pose proof (desired_timed clk r obs o t d Hd) as Htm.
  unfold timedSince in Htm. unfold preserveTransitionTime. rewrite Ht in *.
  destruct (runtimeCondition (rt_Status r) t) as [s|] eqn:Hs.
  - destruct (decide (c_Status s = c_Status d)) as [He|He]; simpl.
    + by rewrite decide_True.
    + rewrite decide_False by done. destruct Htm as [(c0 & H1 & H2 & _)|Hi]; [|done].
      apply (inj Some) in H1 as <-. done.
  - by destruct Htm as [(c0 & H1 & _)|Hi].
Qed.

(** A Ready runtime whose reconciliation fails: the failure is new, the
    upgrade status is not. *)
Lemma transition_time_follows_status_witness :
  let r := rt_set_status
             (@reportedStatus RefKube.lib sampleClock sampleRuntime
                (mkObservation (Some (sampleDeployment (rolledOut 2))) None)
                (Observed validReferenceValidation)) sampleRuntime in
  let s := @reportedStatus RefKube.lib (λ i, 2000 + Z.of_nat i)%Z r (mkObservation None None)
             (Failed (ErrApi (mkApiError EmptyString "timeout"))) in
  ∃ c, @runtimeCondition RefKube.lib s conditionTypeUpgrading = Some c
       ∧ c_LastTransitionTime c = 1005%Z.
Proof.
  intros r s.
  destruct (@runtimeCondition RefKube.lib s conditionTypeUpgrading) as [c|] eqn:Hc;
    [|vm_compute in Hc; discriminate Hc].
  exists c. split; [reflexivity|].
  pose proof (@transition_time_follows_status RefKube.lib RefKube.laws
    (λ i, 2000 + Z.of_nat i)%Z r (mkObservation None None)
    (Failed (ErrApi (mkApiError EmptyString "timeout"))) conditionTypeUpgrading c Hc) as Ht.
  vm_compute in Hc. injection Hc as <-. vm_compute in Ht. exact Ht.
Defined.

(** ** A second reconciliation writes nothing *)

Definition timeless (c : Condition) : Condition :=
  mkCondition (c_Type c) (c_Status c) (c_ObservedGeneration c) 0%Z (c_Reason c) (c_Message c).

(** The same status up to the transition times of its conditions, as after a
    serialisation that rounds times to seconds. *)
Definition sameButTimes (a b : TrussiumRuntimeStatus) : Prop :=
  st_set_conditions (timeless <$> st_Conditions a) a
  = st_set_conditions (timeless <$> st_Conditions b) b.

#[export] Instance sameButTimes_equiv : Equivalence sameButTimes.
Proof.
  unfold sameButTimes. split; [done|intros a b ->; done|intros a b c -> ->; done].
Qed.

Section Idempotence.
Context `{K8sLaws}.

Lemma find_timeless cs t :
  FindStatusCondition (timeless <$> cs) t = timeless <$> FindStatusCondition cs t.
Proof.
  induction cs as [|c cs IH]; [by simpl; rewrite find_nil|]. rewrite fmap_cons, !find_cons, IH.
  simpl. by case_decide.
Qed.

#[export] Instance conditionView_proper :
  Proper (sameButTimes ==> eq ==> eq) conditionView.
Proof.
  assert (Hv : ∀ s t, conditionView s t
                = verdict <$> FindStatusCondition (timeless <$> st_Conditions s) t).
  { intros s t. unfold conditionView, runtimeCondition. rewrite find_timeless.
    by destruct (FindStatusCondition (st_Conditions s) t). }
  intros a b Hab t ? <-. apply (f_equal st_Conditions) in Hab. simpl in Hab.
  by rewrite !Hv, Hab.
Qed.

#[export] Instance statusTypes_proper : Proper (sameButTimes ==> eq) statusTypes.
Proof.
  assert (Hv : ∀ s, statusTypes s = c_Type <$> (timeless <$> st_Conditions s)).
  { intros s. by rewrite <-list_fmap_compose. }
  intros a b Hab. apply (f_equal st_Conditions) in Hab. simpl in Hab. by rewrite !Hv, Hab.
Qed.

Lemma sameButTimes_fields a b :
  sameButTimes a b → st_set_conditions [] a = st_set_conditions [] b.
Proof. intros Hab. by apply (f_equal (st_set_conditions [])) in Hab. Qed.

(** A desired status that says the same about the same conditions as the
    current one is normalised to it. *)
Lemma preserve_fixpoint cur desired :
  NoDup (statusTypes cur) → statusTypes desired = statusTypes cur →
  (∀ t, conditionView desired t = conditionView cur t) →
  st_set_conditions [] desired = st_set_conditions [] cur →
  preserveRuntimeConditionTransitionTimes cur desired = cur.
Proof.
  intros Hn Ht Hv Hf.
  assert (Hc : st_Conditions (preserveRuntimeConditionTransitionTimes cur desired)
               = st_Conditions cur).
  { apply conditions_ext.
    - rewrite types_preserve. fold (statusTypes desired). by rewrite Ht.
    - rewrite types_preserve. exact Ht.
    - intros t. change (runtimeCondition (preserveRuntimeConditionTransitionTimes cur desired) t
                        = runtimeCondition cur t).
      rewrite condition_preserve. specialize (Hv t). unfold conditionView in Hv.
      destruct (runtimeCondition desired t) as [d|] eqn:Hd,
        (runtimeCondition cur t) as [c|] eqn:Hcur; try done.
      pose proof (find_type _ _ _ Hd) as Htd. pose proof (find_type _ _ _ Hcur) as Htc.
      simpl in *. injection Hv as H1 H2 H3 H4. f_equal.
      unfold preserveTransitionTime. rewrite Htd, Hcur, decide_True by done.
      destruct c, d. simpl in *. by subst. }
  destruct (preserve_fields cur desired) as [cs Hcs]. rewrite Hcs in Hc |- *.
  simpl in Hc. subst cs. apply (f_equal (st_set_conditions (st_Conditions cur))) in Hf.
  etransitivity; [exact Hf|]. by destruct cur.
Qed.

Lemma nodup_apply clk n gen es s :
  NoDup (statusTypes s) → NoDup (statusTypes (applyEntries clk n gen es s)).
Proof.
  revert n s. induction es as [|e es IH]; intros n s Hn; [done|]. simpl.
  apply IH. by apply set_types_nodup.
Qed.

Lemma reported_nodup clk r obs o :
  NoDup (statusTypes (rt_Status r)) → NoDup (statusTypes (reportedStatus clk r obs o)).
Proof.
  intros Hn. unfold reportedStatus, statusTypes. rewrite types_preserve.
  rewrite desired_entries. by apply nodup_apply, nodup_apply.
Qed.

Lemma view_some_type s t : conditionView s t ≠ None → t ∈ statusTypes s.
Proof.
  intros Hv. destruct (decide (t ∈ statusTypes s)) as [|Hn]; [done|]. exfalso. apply Hv.
  unfold conditionView, runtimeCondition. by rewrite (proj2 (find_none_types _ _) Hn).
Qed.

(** Every report has all six conditions. *)
Lemma reported_all clk r obs o t :
  t ∈ allConditionTypes → t ∈ statusTypes (reportedStatus clk r obs o).
Proof.
  intros Ht. apply view_some_type. unfold allConditionTypes in Ht. apply elem_of_app in Ht as [Ht|Ht].
  - unfold reportedStatus. rewrite view_preserve, desired_view.
    destruct (entryFor (outcomeEntries o) t); [done|]. rewrite build_view.
    destruct (entryFor (statusEntries r obs (outcomeValidation o)) t) eqn:He; [done|].
    apply entryFor_none in He. destruct He. rewrite statusEntries_types. apply elem_of_app. by left.
  - apply list_elem_of_singleton in Ht as ->. rewrite reported_upgrading.
    destruct (statusUpgradeEntry r obs) as [e|] eqn:He; [done|].
    unfold statusUpgradeEntry, upgradeEntry in He. unfold conditionView.
    destruct (runtimeCondition (rt_Status r) conditionTypeUpgrading); [done|].
    repeat case_match; done.
Qed.

(** The upgrade status that a report leaves behind is stable. *)
Lemma upgrade_stable r d last present e :
  runtimeImage (spec_Image (rt_Spec r)) ≠ EmptyString →
  upgradeEntry r d (nextLastSuccessful r d last) true = Some e →
  upgradeEntry r d last present = Some e.
Proof.
  intros Hi. unfold nextLastSuccessful, desiredImageRolledOut. case_decide as Hd.
  - unfold upgradeEntry. rewrite decide_False, decide_True by done. done.
  - unfold upgradeEntry. case_decide; [done|]. case_decide; [done|done].
Qed.

Lemma nextLastSuccessful_idem r d last :
  nextLastSuccessful r d (nextLastSuccessful r d last) = nextLastSuccessful r d last.
Proof. unfold nextLastSuccessful. by case_decide. Qed.

(** The runtime with the status that was stored for its last report. *)
Section Again.
Context (clk clk' : nat → Time) (r : TrussiumRuntime) (obs : runtimeObservation) (o : Outcome).
Context (stored : TrussiumRuntimeStatus).
Context (Himage : runtimeImage (spec_Image (rt_Spec r)) ≠ EmptyString).
Context (Hstored : sameButTimes stored (reportedStatus clk r obs o)).

Lemma again_upgrade_entry e :
  statusUpgradeEntry (rt_set_status stored r) obs = Some e → statusUpgradeEntry r obs = Some e.
Proof.
  unfold statusUpgradeEntry at 1.
  assert (st_LastSuccessfulImage (rt_Status (rt_set_status stored r))
          = nextLastSuccessful r (obs_Deployment obs) (st_LastSuccessfulImage (rt_Status r))) as ->.
  { apply sameButTimes_fields, (f_equal st_LastSuccessfulImage) in Hstored.
    etransitivity; [exact Hstored|]. apply reported_last. }
  assert (isPresent (runtimeCondition stored conditionTypeUpgrading) = true) as Hp.
  { destruct (isPresent _) eqn:Hn; [done|]. apply view_absent in Hn.
    unfold conditionView, runtimeCondition in Hn.
    destruct (FindStatusCondition (st_Conditions stored) conditionTypeUpgrading) eqn:Hf; [done|].
    apply find_none_types in Hf. destruct Hf. fold (statusTypes stored). rewrite Hstored.
    apply reported_all. by apply (bool_decide_unpack _). }
  simpl. rewrite Hp. intros He. by apply (upgrade_stable r).
Qed.

Lemma again_view t :
  conditionView (desiredStatusFor clk' (rt_set_status stored r) obs o) t
  = conditionView (reportedStatus clk r obs o) t.
Proof.
  unfold reportedStatus. rewrite view_preserve, !desired_view.
  destruct (entryFor (outcomeEntries o) t) as [x|] eqn:Ho; [done|].
  destruct (decide (t = conditionTypeUpgrading)) as [->|Hne].
  - rewrite !build_upgrading.
    destruct (statusUpgradeEntry (rt_set_status stored r) obs) as [e|] eqn:He.
    + by rewrite (again_upgrade_entry e He).
    + simpl. rewrite Hstored. apply reported_upgrading.
  - rewrite !build_view.
    assert (Hu : ∀ r', entryFor (option_list (statusUpgradeEntry r' obs)) t = None).
    { intros r'. apply entryFor_none. destruct (statusUpgradeEntry r' obs) as [e|] eqn:He; simpl;
        [|apply not_elem_of_nil].
      rewrite (upgradeEntry_type _ _ _ _ _ He). by rewrite list_elem_of_singleton. }
    assert (Hb : ∀ r', entryFor (statusEntries r' obs (outcomeValidation o)) t
      = entryFor (phaseEntries (classify r' obs (outcomeValidation o)) r' obs) t).
    { intros r'. unfold statusEntries.
      destruct (decide (t ∈ baseConditionTypes)) as [Hin|Hout]; [by apply entryFor_app_base|].
      assert (Hnone : entryFor (phaseEntries (classify r' obs (outcomeValidation o)) r' obs) t
                      = None).
      { apply entryFor_none. by rewrite phaseEntries_types. }
      rewrite entryFor_app by done. by rewrite Hu, Hnone. }
    rewrite !Hb.
    change (phaseEntries (classify (rt_set_status stored r) obs (outcomeValidation o))
              (rt_set_status stored r) obs)
      with (phaseEntries (classify r obs (outcomeValidation o)) r obs).
    destruct (entryFor (phaseEntries _ _ _) t) as [e|] eqn:He; [done|].
    simpl. rewrite Hstored. unfold reportedStatus.
    rewrite view_preserve, desired_view, Ho, build_view, Hb, He. done.
Qed.

Lemma again_fields :
  st_set_conditions [] (desiredStatusFor clk' (rt_set_status stored r) obs o)
  = st_set_conditions [] stored.
Proof.
  pose proof (sameButTimes_fields _ _ Hstored) as Hf. rewrite Hf.
  unfold reportedStatus.
  destruct (preserve_fields (rt_Status r) (desiredStatusFor clk r obs o)) as [c1 ->].
  destruct (desired_fields clk r obs o) as [c2 ->].
  destruct (desired_fields clk' (rt_set_status stored r) obs o) as [c3 ->].
  assert (Hl : st_LastSuccessfulImage stored
    = nextLastSuccessful r (obs_Deployment obs) (st_LastSuccessfulImage (rt_Status r))).
  { apply (f_equal st_LastSuccessfulImage) in Hf. etransitivity; [exact Hf|].
    apply reported_last. }
  unfold statusFields, st_set_conditions, st_set_last_successful. simpl. rewrite Hl.
  change (nextLastSuccessful (rt_set_status stored r)) with (nextLastSuccessful r).
  by rewrite nextLastSuccessful_idem.
Qed.

Lemma again_fixpoint :
  NoDup (statusTypes (rt_Status r)) →
  preserveRuntimeConditionTransitionTimes stored
    (desiredStatusFor clk' (rt_set_status stored r) obs o) = stored.
Proof.
  intros Hn. apply preserve_fixpoint.
  - rewrite Hstored. by apply reported_nodup.
  - apply (desired_types_full clk' (rt_set_status stored r)). intros t Ht. simpl.
    rewrite Hstored. by apply reported_all.
  - intros t. rewrite again_view. by rewrite (conditionView_proper _ _ Hstored t t eq_refl).
  - apply again_fields.
Qed.

End Again.

End Idempotence.

(** C12. Reconciliation is idempotent: once the status of a reconciliation is
    stored, possibly with rounded transition times, a reconciliation that
    observes the same cluster with the same outcome, at any later time, leaves
    the status alone: it sends no update to the API server and reports no
    change, so that no event is recorded. *)
Theorem status_update_idempotent `{K8sLaws} (clk clk' : nat → Time) (r : TrussiumRuntime)
    (obs : runtimeObservation) (o : Outcome) (stored : TrussiumRuntimeStatus) :
  NoDup (statusTypes (rt_Status r)) →
  runtimeImage (spec_Image (rt_Spec r)) ≠ EmptyString →
  sameButTimes stored (reportedStatus clk r obs o) →
  let r' := rt_set_status stored r in
  updateRuntimeStatus r' (desiredStatusFor clk' r' obs o) = mret (false, None, r').
Proof.
  intros Hn Hi Hs r'. unfold updateRuntimeStatus.
  change (rt_Status r') with stored. unfold r'. rewrite (again_fixpoint clk clk') by done.
  by rewrite (proj2 (deep_equal_spec stored stored) eq_refl).
Qed.

Lemma status_update_idempotent_witness :
  let obs := mkObservation (Some (sampleDeployment (rolledOut 2))) (Some sampleService) in
  let o := Observed validReferenceValidation in
  let r' := rt_set_status (@reportedStatus RefKube.lib sampleClock upgradingRuntime obs o)
              upgradingRuntime in
  @updateRuntimeStatus RefKube.lib r' (@desiredStatusFor RefKube.lib (λ _, 5000%Z) r' obs o)
  = mret (false, None, r').
Proof.
  intros obs o r'.
  apply (@status_update_idempotent RefKube.lib RefKube.laws sampleClock (λ _, 5000%Z)
    upgradingRuntime obs o (@reportedStatus RefKube.lib sampleClock upgradingRuntime obs o)).
  - apply (bool_decide_unpack _). vm_compute. exact I.
  - vm_compute. discriminate.
  - reflexivity.
Defined.
