(* ===== verification/EventProps.v ===== *)
(** * Properties of the recorded events

    The handlers of [Events] perform nothing but recorder calls, so that they
    are determined by the list of events they record.  The theorems tie that
    list to the transition from the stored status to the reported one. *)

From S2P Require Import Prelude GoStd KubeTypes ApiTypes KubeLib Resources Effects Status.
From S2P Require Import Events Reconciler RefKube Samples StatusProps UpgradeProps.
From S2P Require Import ConvergenceProps.

(** ** Programs that only record events *)

Fixpoint onlyEvents (p : Prog unit) : Prop :=
  match p with
  | Ret _ => True
  | Do o k =>
      match o as o return (Resp o → Prog unit) → Prop with
      | OpEventf _ => λ k, onlyEvents (k tt)
      | _ => λ _, False
      end k
  end.

(** The events such a program records, in order. *)
Fixpoint eventsOf (p : Prog unit) : list Event :=
  match p with
  | Ret _ => []
  | Do o k =>
      match o as o return (Resp o → Prog unit) → list Event with
      | OpEventf e => λ k, e :: eventsOf (k tt)
      | _ => λ _, []
      end k
  end.

Definition eventCall (e : Event) : Call := mkCall (OpEventf e) tt.

Lemma exec_onlyEvents p tr u :
  onlyEvents p → exec p tr u ↔ tr = map eventCall (eventsOf p).
Proof.
  revert tr. induction p as [[]|o k IH]; intros tr Ho; simpl in *.
  - destruct u. intuition.
  - destruct o; try done. split.
    + intros ([] & tr' & -> & Hx). apply (IH tt) in Hx; [|done]. by subst.
    + intros ->. exists tt, (map eventCall (eventsOf (k tt))). split; [done|].
      by apply (IH tt).
Qed.

Lemma onlyEvents_bind (p q : Prog unit) :
  onlyEvents p → onlyEvents q → onlyEvents (p ≫= λ _, q).
Proof.
  intros Hp Hq. induction p as [a|o k IH]; simpl in *; [done|].
  destruct o; try done. by apply IH.
Qed.

Lemma eventsOf_bind (p q : Prog unit) :
  onlyEvents p → eventsOf (p ≫= λ _, q) = eventsOf p ++ eventsOf q.
Proof.
  intros Hp. induction p as [a|o k IH]; simpl in *; [done|].
  destruct o; try done. simpl. f_equal. by apply IH.
Qed.

Section Handlers.
Context `{K8sLib}.

Lemma onlyEvents_upgradeEvent r c s t reason verb i j :
  onlyEvents (upgradeEvent r c s t reason verb i j).
Proof. unfold upgradeEvent. by repeat case_match. Qed.
#[local] Hint Resolve onlyEvents_upgradeEvent : trussium.

Lemma onlyEvents_config r p c : onlyEvents (recordConfigurationTransition r p c).
Proof. unfold recordConfigurationTransition. by repeat case_match. Qed.

Lemma onlyEvents_upgrade r p c : onlyEvents (recordUpgradeTransition r p c).
Proof.
  unfold recordUpgradeTransition. destruct (negb _); [done|].
  destruct (runtimeCondition _ _); [|done].
  repeat (case_decide; [auto with trussium|]). done.
Qed.

Lemma onlyEvents_degraded r p c : onlyEvents (recordDegradedTransition r p c).
Proof. unfold recordDegradedTransition. by repeat case_match. Qed.

Lemma onlyEvents_progressing r p c : onlyEvents (recordProgressingTransition r p c).
Proof. unfold recordProgressingTransition. by repeat case_match. Qed.

Lemma onlyEvents_ready r p c : onlyEvents (recordReadyTransition r p c).
Proof. unfold recordReadyTransition. by repeat case_match. Qed.
#[local] Hint Resolve onlyEvents_config onlyEvents_upgrade onlyEvents_degraded
  onlyEvents_progressing onlyEvents_ready onlyEvents_bind : trussium.

Lemma onlyEvents_transitions rc r p c : onlyEvents (recordStatusTransitionEvents rc r p c).
Proof.
  unfold recordStatusTransitionEvents. destruct (rc_HasRecorder rc); [|done].
  repeat apply onlyEvents_bind; auto with trussium.
Qed.

Lemma onlyEvents_failure rc r e : onlyEvents (recordReconciliationFailure rc r e).
Proof. unfold recordReconciliationFailure. by destruct (rc_HasRecorder rc). Qed.

(** With a recorder, the five handlers contribute one after the other. *)
Lemma transition_events rc r p c :
  eventsOf (recordStatusTransitionEvents rc r p c)
  = if rc_HasRecorder rc then
      eventsOf (recordConfigurationTransition r p c) ++
      eventsOf (recordUpgradeTransition r p c) ++
      eventsOf (recordDegradedTransition r p c) ++
      eventsOf (recordProgressingTransition r p c) ++
      eventsOf (recordReadyTransition r p c)
    else [].
Proof.
  unfold recordStatusTransitionEvents. destruct (rc_HasRecorder rc); [|done].
  by rewrite !eventsOf_bind by auto with trussium.
Qed.

End Handlers.

(** ** Changes between two statuses *)

(** A condition says the same, with the same reason, in both statuses. *)
Definition sameSaid `{K8sLib} (prev cur : TrussiumRuntimeStatus) (t : string) : Prop :=
  (λ vd, (vd_Status vd, vd_Reason vd)) <$> conditionView prev t
  = (λ vd, (vd_Status vd, vd_Reason vd)) <$> conditionView cur t.

#[export] Instance sameSaid_dec `{K8sLib} prev cur t : Decision (sameSaid prev cur t).
Proof. unfold sameSaid. apply _. Defined.

Section Changes.
Context `{K8sLib}.

Lemma conditionChanged_spec prev cur t c :
  runtimeCondition cur t = Some c →
  conditionChanged prev cur t = negb (bool_decide (sameSaid prev cur t)).
Proof.
  intros Hc. unfold conditionChanged. rewrite Hc.
  assert (Hs : sameSaid prev cur t ↔ ∃ p, runtimeCondition prev t = Some p
             ∧ c_Status p = c_Status c ∧ c_Reason p = c_Reason c).
  { unfold sameSaid, conditionView. rewrite Hc. destruct (runtimeCondition prev t) as [p|]; simpl.
    - split; [intros [= H1 H2]; by exists p|]. intros (p' & [= <-] & H1 & H2). by rewrite H1, H2.
    - split; [done|]. by intros (p & ? & _). }
  destruct (runtimeCondition prev t) as [p|].
  - rewrite <-negb_andb, <-bool_decide_and. f_equal. apply bool_decide_ext. rewrite Hs.
    split; [intros [? ?]; by exists p|]. by intros (p' & [= <-] & ? & ?).
  - symmetry. apply negb_true_iff, bool_decide_eq_false. rewrite Hs. by intros (p & ? & _).
Qed.

Lemma status_condition s t st :
  conditionStatusIs s t st ↔ ∃ c, runtimeCondition s t = Some c ∧ c_Status c = st.
Proof.
  unfold conditionStatusIs, conditionView. destruct (runtimeCondition s t) as [c|]; simpl.
  - split; [intros [= <-]; by exists c|]. intros (c' & [= <-] & <-). done.
  - split; [done|]. by intros (c' & ? & _).
Qed.

(** The reasons of the events recorded for the three health conditions. *)
Definition degradedReasons (prev cur : TrussiumRuntimeStatus) (c : Condition) : list string :=
  if decide (sameSaid prev cur conditionTypeDegraded) then []
  else if decide (c_Status c = ConditionTrue) then [eventReasonRuntimeDegraded]
  else match runtimeCondition prev conditionTypeDegraded with
       | Some p =>
           if decide (c_Status p = ConditionTrue) then [eventReasonRuntimeRecovered] else []
       | None => []
       end.

Definition progressingReasons (prev cur : TrussiumRuntimeStatus) (c : Condition) : list string :=
  if decide (sameSaid prev cur conditionTypeProgressing) then []
  else if decide (c_Status c = ConditionTrue) then [eventReasonRuntimeProgressing] else [].

Definition readyReason (c : Condition) : string :=
  if decide (c_Reason c = reasonScaledToZero)
  then eventReasonRuntimeScaledToZero else eventReasonRuntimeReady.

Definition readyReasons (prev cur : TrussiumRuntimeStatus) (c : Condition) : list string :=
  if decide (sameSaid prev cur conditionTypeReady) then []
  else if decide (c_Status c = ConditionTrue) then [readyReason c] else [].

Lemma degraded_reasons r prev cur c :
  runtimeCondition cur conditionTypeDegraded = Some c →
  e_Reason <$> eventsOf (recordDegradedTransition r prev cur) = degradedReasons prev cur c.
Proof.
  intros Hc. unfold recordDegradedTransition, degradedReasons.
  rewrite (conditionChanged_spec _ _ _ c Hc), negb_involutive, Hc, bool_decide_decide.
  by repeat (case_decide || case_match).
Qed.

Lemma progressing_reasons r prev cur c :
  runtimeCondition cur conditionTypeProgressing = Some c →
  e_Reason <$> eventsOf (recordProgressingTransition r prev cur) = progressingReasons prev cur c.
Proof.
  intros Hc. unfold recordProgressingTransition, progressingReasons.
  rewrite (conditionChanged_spec _ _ _ c Hc), negb_involutive, Hc, bool_decide_decide.
  by repeat case_decide.
Qed.

Lemma ready_reasons r prev cur c :
  runtimeCondition cur conditionTypeReady = Some c →
  e_Reason <$> eventsOf (recordReadyTransition r prev cur) = readyReasons prev cur c.
Proof.
  intros Hc. unfold recordReadyTransition, readyReasons, readyReason.
  rewrite (conditionChanged_spec _ _ _ c Hc), negb_involutive, Hc, bool_decide_decide.
  by repeat case_decide.
Qed.

Definition healthReasons : list string :=
  [eventReasonRuntimeDegraded; eventReasonRuntimeRecovered; eventReasonRuntimeProgressing;
   eventReasonRuntimeReady; eventReasonRuntimeScaledToZero].

(** The configuration and upgrade handlers record no health event. *)
Lemma config_reasons r prev cur :
  filter (.∈ healthReasons) (e_Reason <$> eventsOf (recordConfigurationTransition r prev cur))
  = [].
Proof. unfold recordConfigurationTransition. by repeat case_match. Qed.

Lemma upgradeEvent_reasons r c s t reason verb i j :
  reason ∉ healthReasons →
  filter (.∈ healthReasons) (e_Reason <$> eventsOf (upgradeEvent r c s t reason verb i j)) = [].
Proof.
  intros Hr. unfold upgradeEvent. repeat case_match; try done. simpl.
  rewrite filter_cons. by rewrite decide_False.
Qed.

Lemma upgrade_reasons r prev cur :
  filter (.∈ healthReasons) (e_Reason <$> eventsOf (recordUpgradeTransition r prev cur)) = [].
Proof.
  unfold recordUpgradeTransition. destruct (negb _); [done|].
  destruct (runtimeCondition _ _); [|done].
  repeat (case_decide; [apply upgradeEvent_reasons; by apply (bool_decide_unpack _)|]). done.
Qed.

End Changes.

(** The event reason that announces a health condition that is True. *)
Inductive HealthReason (cur : TrussiumRuntimeStatus) `{K8sLib} : string → string → Prop :=
| HealthDegraded : HealthReason cur conditionTypeDegraded eventReasonRuntimeDegraded
| HealthProgressing : HealthReason cur conditionTypeProgressing eventReasonRuntimeProgressing
| HealthReady c :
    runtimeCondition cur conditionTypeReady = Some c →
    HealthReason cur conditionTypeReady (readyReason c).

Section Health.
Context `{K8sLaws}.

Definition recoveredReasons (prev cur : TrussiumRuntimeStatus) : list string :=
  if decide (vd_Status <$> conditionView prev conditionTypeDegraded = Some ConditionTrue ∧
             vd_Status <$> conditionView cur conditionTypeDegraded = Some ConditionFalse)
  then [eventReasonRuntimeRecovered] else [].

Lemma health_reason_list rc r prev cur :
  rc_HasRecorder rc = true → ∀ cd cp cr,
  runtimeCondition cur conditionTypeDegraded = Some cd →
  runtimeCondition cur conditionTypeProgressing = Some cp →
  runtimeCondition cur conditionTypeReady = Some cr →
  filter (.∈ healthReasons)
    (e_Reason <$> eventsOf (recordStatusTransitionEvents rc r prev cur))
  = degradedReasons prev cur cd ++ progressingReasons prev cur cp ++ readyReasons prev cur cr.
Proof.
  intros Hrc cd cp cr Hd Hp Hr. rewrite transition_events, Hrc.
  rewrite !fmap_app, !filter_app, config_reasons, upgrade_reasons. simpl.
  rewrite (degraded_reasons _ _ _ _ Hd), (progressing_reasons _ _ _ _ Hp),
    (ready_reasons _ _ _ _ Hr).
  f_equal; [|f_equal]; unfold degradedReasons, progressingReasons, readyReasons, readyReason;
    repeat (case_decide || case_match); done.
Qed.

(** A degraded condition that is False was announced, if at all, as recovered. *)
Lemma degraded_false_reasons prev cur c :
  runtimeCondition cur conditionTypeDegraded = Some c → c_Status c = ConditionFalse →
  degradedReasons prev cur c = recoveredReasons prev cur.
Proof.
  intros Hc Hs. unfold degradedReasons, recoveredReasons.
  rewrite Hs, (decide_False (P := ConditionFalse = ConditionTrue)) by done.
  case_decide as Hsame; case_decide as Hrec; unfold sameSaid, conditionView in Hsame, Hrec;
    rewrite Hc in Hsame, Hrec; simpl in Hsame, Hrec;
    destruct (runtimeCondition prev conditionTypeDegraded) as [p|]; simpl in Hsame, Hrec;
    rewrite ?Hs in Hsame; rewrite ?Hs in Hrec; try case_decide; naive_solver congruence.
Qed.

End Health.

(** C26. Each reconciliation that reports a change records at most one event
    about the health of the runtime, for the one condition among Ready,
    Degraded and Progressing that is True, and only when that condition was
    not reported with this reason before; and it records RuntimeRecovered
    exactly when a degraded runtime stops being degraded. *)
Theorem health_events `{K8sLaws} rc clk (r r' : TrussiumRuntime) (obs : runtimeObservation)
    (o : Outcome) :
  rc_HasRecorder rc = true →
  let prev := rt_Status r in
  let cur := reportedStatus clk r obs o in
  ∃ t reason,
    HealthReason cur t reason ∧ conditionStatusIs cur t ConditionTrue
    ∧ filter (.∈ healthReasons) (e_Reason <$> eventsOf (recordStatusTransitionEvents rc r' prev cur))
      = recoveredReasons prev cur ++ (if decide (sameSaid prev cur t) then [] else [reason]).
Proof.
  intros Hrc prev cur.
  destruct (reported_one_health clk r obs o) as (ready & degraded & progressing & Hr & Hd & Hp & Hsum).
  fold cur in Hr, Hd, Hp.
  pose proof Hr as (cr & Hcr & Hsr)%status_condition.
  pose proof Hd as (cd & Hcd & Hsd)%status_condition.
  pose proof Hp as (cp & Hcp & Hsp)%status_condition.
  rewrite (health_reason_list rc r' prev cur Hrc cd cp cr Hcd Hcp Hcr).
  unfold progressingReasons, readyReasons. rewrite Hsr, Hsp.
  destruct degraded.
  - exists conditionTypeDegraded, eventReasonRuntimeDegraded. split; [constructor|].
    split; [done|]. destruct ready, progressing; try done.
    unfold degradedReasons, recoveredReasons, conditionStatusIs in *. rewrite Hd, Hsd. simpl.
    rewrite (decide_False (P := _ ∧ Some ConditionTrue = _)) by (by intros [_ ?]).
    by repeat case_decide.
  - rewrite (degraded_false_reasons prev cur cd Hcd Hsd). destruct ready, progressing; try done.
    + exists conditionTypeReady, (readyReason cr). split; [by constructor|]. split; [done|].
      f_equal. by repeat case_decide.
    + exists conditionTypeProgressing, eventReasonRuntimeProgressing. split; [constructor|].
      split; [done|]. f_equal. by repeat case_decide.
Qed.

(** A new runtime whose rollout is observed complete is announced as ready. *)
Lemma health_events_witness :
  let prev := rt_Status sampleRuntime in
  let cur := @reportedStatus RefKube.lib sampleClock sampleRuntime
               (mkObservation (Some (sampleDeployment (rolledOut 2))) None)
               (Observed validReferenceValidation) in
  ∃ t reason, @conditionStatusIs RefKube.lib cur t ConditionTrue
    ∧ filter (.∈ healthReasons)
        (e_Reason <$> eventsOf (@recordStatusTransitionEvents RefKube.lib (mkReconciler true)
                                  sampleRuntime prev cur)) = [reason].
Proof.
  intros prev cur.
  destruct (@health_events RefKube.lib RefKube.laws (mkReconciler true) sampleClock sampleRuntime
    sampleRuntime (mkObservation (Some (sampleDeployment (rolledOut 2))) None)
    (Observed validReferenceValidation) eq_refl) as (t & reason & _ & Hs & Hl).
  exists t, reason. split; [exact Hs|]. unfold prev, cur. rewrite Hl.
  rewrite decide_False; [reflexivity|]. intros Hc. unfold sameSaid in Hc.
  unfold conditionStatusIs in Hs. simpl in Hc.
  change (@conditionView RefKube.lib emptyStatus t) with (@None Verdict) in Hc.
  destruct (@conditionView RefKube.lib (reportedStatus _ _ _ _) t); discriminate.
Defined.

(** ** Upgrade events *)

(** The upgrade events of a report on [r], regarding [r']. *)
Definition upgradeEvents `{K8sLib} (r r' : TrussiumRuntime) (obs : runtimeObservation) : list Event :=
  let last := st_LastSuccessfulImage (rt_Status r) in
  let desired := runtimeImage (spec_Image (rt_Spec r)) in
  let say status reason type eventReason verb :=
    if decide ((λ vd, (vd_Status vd, vd_Reason vd)) <$>
                 conditionView (rt_Status r) conditionTypeUpgrading = Some (status, reason))
    then []
    else [mkEvent r' type eventReason eventActionUpgradeRuntime
            ("Runtime image upgrade " +:+ verb +:+ " from " +:+ last +:+ " to " +:+ desired +:+ ".")] in
  if decide (last = EmptyString ∨ desired = EmptyString ∨ desired = last) then []
  else if decide (desiredImageRolledOut r (obs_Deployment obs)) then
    say ConditionFalse reasonUpgradeComplete EventTypeNormal
      eventReasonRuntimeUpgradeCompleted "completed"
  else if decide (observeDeploymentRollout r (obs_Deployment obs) = deploymentRolloutFailed) then
    say ConditionFalse reasonUpgradeFailed EventTypeWarning
      eventReasonRuntimeUpgradeFailed "failed"
  else
    say ConditionTrue reasonUpgradeInProgress EventTypeNormal
      eventReasonRuntimeUpgradeStarted "started".

Section UpgradeEvents.
Context `{K8sLaws}.

Lemma config_not_upgrade r p c :
  filter (λ e, e_Action e = eventActionUpgradeRuntime)
    (eventsOf (recordConfigurationTransition r p c)) = [].
Proof. unfold recordConfigurationTransition. by repeat case_match. Qed.
Lemma degraded_not_upgrade r p c :
  filter (λ e, e_Action e = eventActionUpgradeRuntime)
    (eventsOf (recordDegradedTransition r p c)) = [].
Proof. unfold recordDegradedTransition. by repeat case_match. Qed.
Lemma progressing_not_upgrade r p c :
  filter (λ e, e_Action e = eventActionUpgradeRuntime)
    (eventsOf (recordProgressingTransition r p c)) = [].
Proof. unfold recordProgressingTransition. by repeat case_match. Qed.
Lemma ready_not_upgrade r p c :
  filter (λ e, e_Action e = eventActionUpgradeRuntime)
    (eventsOf (recordReadyTransition r p c)) = [].
Proof. unfold recordReadyTransition. by repeat case_match. Qed.
Lemma upgrade_all_upgrade r p c :
  filter (λ e, e_Action e = eventActionUpgradeRuntime)
    (eventsOf (recordUpgradeTransition r p c)) = eventsOf (recordUpgradeTransition r p c).
Proof. unfold recordUpgradeTransition, upgradeEvent. by repeat case_match. Qed.

Lemma validImages_true a b :
  validUpgradeEventImages a b = true ↔ a ≠ EmptyString ∧ b ≠ EmptyString ∧ a ≠ b.
Proof.
  unfold validUpgradeEventImages. rewrite !andb_true_iff, !bool_decide_eq_true. tauto.
Qed.

(** The upgrade handler, by the status and reason of the new condition. *)
Lemma upgrade_handler r prev cur st reason :
  (λ vd, (vd_Status vd, vd_Reason vd)) <$> conditionView cur conditionTypeUpgrading
  = Some (st, reason) →
  eventsOf (recordUpgradeTransition r prev cur)
  = if decide ((λ vd, (vd_Status vd, vd_Reason vd)) <$>
                 conditionView prev conditionTypeUpgrading = Some (st, reason))
    then []
    else
      let c := mkCondition conditionTypeUpgrading st 0%Z 0%Z reason EmptyString in
      let i := st_LastSuccessfulImage prev in
      let j := st_DesiredImage cur in
      if decide (reason = reasonUpgradeInProgress) then
        eventsOf (upgradeEvent r c ConditionTrue EventTypeNormal
          eventReasonRuntimeUpgradeStarted "started" i j)
      else if decide (reason = reasonUpgradeComplete) then
        eventsOf (upgradeEvent r c ConditionFalse EventTypeNormal
          eventReasonRuntimeUpgradeCompleted "completed" i j)
      else if decide (reason = reasonUpgradeFailed) then
        eventsOf (upgradeEvent r c ConditionFalse EventTypeWarning
          eventReasonRuntimeUpgradeFailed "failed" i j)
      else [].
Proof.
  intros Hc. unfold recordUpgradeTransition.
  destruct (runtimeCondition cur conditionTypeUpgrading) as [c|] eqn:Hf;
    [|unfold conditionView in Hc; by rewrite Hf in Hc].
  rewrite (conditionChanged_spec _ _ _ c Hf), negb_involutive.
  assert (Hi : sameSaid prev cur conditionTypeUpgrading ↔
    (λ vd, (vd_Status vd, vd_Reason vd)) <$> conditionView prev conditionTypeUpgrading
    = Some (st, reason)) by (unfold sameSaid; by rewrite Hc).
  rewrite (bool_decide_ext _ _ Hi), bool_decide_decide. case_decide; [done|].
  unfold conditionView in Hc. rewrite Hf in Hc. simpl in Hc. injection Hc as <- <-.
  by repeat case_decide.
Qed.

(** What the upgrade entry says of an image that is not the last successful. *)
Lemma upgradeEntry_says r d last present :
  last ≠ EmptyString → runtimeImage (spec_Image (rt_Spec r)) ≠ last →
  (λ e, (en_Status e, en_Reason e)) <$> upgradeEntry r d last present
  = Some (if decide (desiredImageRolledOut r d) then (ConditionFalse, reasonUpgradeComplete)
          else if decide (observeDeploymentRollout r d = deploymentRolloutFailed)
          then (ConditionFalse, reasonUpgradeFailed)
          else (ConditionTrue, reasonUpgradeInProgress)).
Proof.
  intros Hl Hd. unfold upgradeEntry. rewrite decide_False, decide_False by done.
  destruct (decide (desiredImageRolledOut r d)) as [[-> Hi]|Hn].
  - by rewrite decide_True.
  - unfold desiredImageRolledOut in Hn.
    destruct (observeDeploymentRollout r d); [done| |done].
    rewrite decide_False; [done|]. tauto.
Qed.

Lemma upgradeEvent_images r c st type reason verb i j :
  c_Status c = st → i ≠ EmptyString → j ≠ i →
  eventsOf (upgradeEvent r c st type reason verb i j)
  = if decide (j = EmptyString) then []
    else [mkEvent r type reason eventActionUpgradeRuntime
            ("Runtime image upgrade " +:+ verb +:+ " from " +:+ i +:+ " to " +:+ j +:+ ".")].
Proof.
  intros Hs Hi Hj. unfold upgradeEvent. rewrite decide_True by done.
  pose proof (validImages_true i j) as Hv. destruct (decide (j = EmptyString)) as [He|He].
  - destruct (validUpgradeEventImages i j); [|done].
    destruct (proj1 Hv eq_refl) as (_ & ? & _). done.
  - rewrite (proj2 Hv); [done|]. auto.
Qed.

(** A report that says [NoUpgrade] or keeps the condition announces nothing. *)
Lemma no_upgrade_event r prev cur gen (e : option Entry) :
  match e with Some e => en_Reason e = reasonNoUpgrade | None => True end →
  conditionView cur conditionTypeUpgrading
  = match e with
    | Some e => Some (entryVerdict gen e)
    | None => conditionView prev conditionTypeUpgrading
    end →
  eventsOf (recordUpgradeTransition r prev cur) = [].
Proof.
  destruct e as [e|]; intros He Hv.
  - erewrite upgrade_handler; [|by rewrite Hv]. simpl. rewrite He. by repeat case_decide.
  - unfold recordUpgradeTransition.
    destruct (runtimeCondition cur conditionTypeUpgrading) as [c|] eqn:Hf; [|by destruct (negb _)].
    rewrite (conditionChanged_spec _ _ _ c Hf), negb_involutive, bool_decide_true; [done|].
    unfold sameSaid. by rewrite Hv.
Qed.

End UpgradeEvents.

(** C27. The upgrade events of a reconciliation, exactly: nothing before a
    first image was rolled out or while the desired image is the last
    successful one; otherwise one event that names both images and says
    completed, failed or started according to the rollout, unless the
    [Upgrading] condition already said so. *)
Theorem upgrade_events_exact `{K8sLaws} rc clk (r r' : TrussiumRuntime)
    (obs : runtimeObservation) (o : Outcome) :
  rc_HasRecorder rc = true →
  filter (λ e, e_Action e = eventActionUpgradeRuntime)
    (eventsOf (recordStatusTransitionEvents rc r' (rt_Status r) (reportedStatus clk r obs o)))
  = upgradeEvents r r' obs.
Proof.
  intros Hrc. rewrite transition_events, Hrc, !filter_app.
  rewrite config_not_upgrade, degraded_not_upgrade, progressing_not_upgrade, ready_not_upgrade.
  rewrite upgrade_all_upgrade, app_nil_l, !app_nil_r.
  pose proof (reported_upgrading clk r obs o) as Hu.
  assert (Hdes : st_DesiredImage (reportedStatus clk r obs o) = runtimeImage (spec_Image (rt_Spec r))).
  { unfold reportedStatus. by destruct (desired_fields clk r obs o) as [cs ->]. }
  unfold upgradeEvents, statusUpgradeEntry in *.
  destruct (decide (st_LastSuccessfulImage (rt_Status r) = EmptyString)) as [Hl|Hl].
  { rewrite (decide_True (P := _ ∨ _)) by auto. unfold upgradeEntry in Hu.
    rewrite decide_True in Hu by done. by eapply (no_upgrade_event _ _ _ _ (Some noUpgradeEntry)). }
  destruct (decide (runtimeImage (spec_Image (rt_Spec r)) = st_LastSuccessfulImage (rt_Status r)))
    as [Hd|Hd].
  { rewrite (decide_True (P := _ ∨ _)) by auto. unfold upgradeEntry in Hu.
    rewrite decide_False, decide_True in Hu by done.
    destruct (isPresent _); [by eapply (no_upgrade_event _ _ _ 0%Z None)|].
    by eapply (no_upgrade_event _ _ _ _ (Some noUpgradeEntry)). }
  pose proof (upgradeEntry_says r (obs_Deployment obs) _
    (isPresent (runtimeCondition (rt_Status r) conditionTypeUpgrading)) Hl Hd) as Hsays.
  destruct (upgradeEntry _ _ _ _) as [e|]; [|done]. simpl in Hsays.
  destruct (decide (runtimeImage (spec_Image (rt_Spec r)) = EmptyString)) as [Hz|Hz];
    [rewrite (decide_True (P := _ ∨ _)) by auto|rewrite (decide_False (P := _ ∨ _)) by tauto];
    (destruct (decide (desiredImageRolledOut r (obs_Deployment obs)));
     [|destruct (decide (observeDeploymentRollout r (obs_Deployment obs) = deploymentRolloutFailed))]);
    (erewrite upgrade_handler; [|rewrite Hu; exact Hsays]);
    cbv zeta; rewrite Hdes; repeat case_decide; try done;
    rewrite upgradeEvent_images by done; by case_decide.
Qed.

(** A failed rollout of the new image is announced by one warning. *)
Lemma upgrade_events_exact_witness :
  filter (λ e, e_Action e = eventActionUpgradeRuntime)
    (eventsOf (@recordStatusTransitionEvents RefKube.lib (mkReconciler true) upgradingRuntime
       (rt_Status upgradingRuntime)
       (@reportedStatus RefKube.lib sampleClock upgradingRuntime
          (mkObservation (Some failedDeployment) None) (Observed validReferenceValidation))))
  = [mkEvent upgradingRuntime EventTypeWarning eventReasonRuntimeUpgradeFailed
       eventActionUpgradeRuntime
       "Runtime image upgrade failed from ghcr.io/trussiumhq/trussium:v1.17.0 to ghcr.io/trussiumhq/trussium:v1.22.0."].
Proof.
  rewrite (@upgrade_events_exact RefKube.lib RefKube.laws (mkReconciler true) sampleClock
    upgradingRuntime upgradingRuntime _ _ eq_refl).
  vm_compute. reflexivity.
Defined.
