(* ===== verification/ReconcileProps.v ===== *)
(** * Properties of a reconciliation

    Theorems about the operations that [Reconcile] performs, for every possible
    answer of the API server: what it writes and in which order, what it never
    writes, which errors it returns, which metrics and failure events it
    emits, and which runtimes a change of a Secret enqueues. *)

From S2P Require Import Prelude GoStd KubeTypes ApiTypes KubeLib Resources Effects Status.
From S2P Require Import Events Reconciler RefKube Samples StatusProps UpgradeProps.
From S2P Require Import ConvergenceProps EventProps.

(** ** Views of a trace *)

(** The managed object an operation writes or deletes. *)
Definition resourceWrite (o : Op) : option (Kind * NamespacedName) :=
  match o with
  | OpCreateOrUpdate k current _ => Some (k, obj_key k current)
  | OpDelete k key => Some (k, key)
  | _ => None
  end.

Definition resourceWrites (tr : list Call) : list (Kind * NamespacedName) :=
  omap (λ c, resourceWrite (call_op c)) tr.

Definition eventOf (o : Op) : option Event :=
  match o with OpEventf e => Some e | _ => None end.

Definition recordedEvents (tr : list Call) : list Event := omap (λ c, eventOf (call_op c)) tr.

Definition metricOf (o : Op) : option MetricResult :=
  match o with
  | OpCountReconciliation l => Some l
  | OpObserveDuration l _ => Some l
  | _ => None
  end.

(** The error of a call that is a failure for the operator: a missing object
    is none where it reads or deletes. *)
Definition failureOf `{K8sLib} (c : Call) : option GoError :=
  match c with
  | mkCall o resp =>
      match o as o return Resp o → option GoError with
      | OpGet _ _ => λ resp, resp' ← result_err resp; if IsNotFound resp' then None else Some resp'
      | OpListRuntimes _ => λ resp, result_err resp
      | OpCreateOrUpdate _ _ _ => λ resp, resp
      | OpDelete _ _ => λ resp, resp' ← resp; if IsNotFound resp' then None else Some resp'
      | OpStatusUpdate _ => λ resp, result_err resp
      | _ => λ _, None
      end resp
  end.

Definition failures `{K8sLib} (tr : list Call) : list GoError := omap failureOf tr.

(** Every operation of a program satisfies [P], whatever the answers. *)
Fixpoint allOps {A} (P : Op → Prop) (p : Prog A) : Prop :=
  match p with
  | Ret _ => True
  | Do o k => P o ∧ ∀ r, allOps P (k r)
  end.

Section Traces.

Lemma allOps_bind {A B} P (p : Prog A) (f : A → Prog B) :
  allOps P p → (∀ a, allOps P (f a)) → allOps P (p ≫= f).
Proof.
  intros Hp Hf. induction p as [a|o k IH]; simpl in *; [by apply Hf|].
  destruct Hp as [Ho Hk]. split; [done|]. intros r. by apply IH.
Qed.

Lemma allOps_exec {A} P (p : Prog A) tr a :
  allOps P p → exec p tr a → Forall (λ c, P (call_op c)) tr.
Proof.
  revert tr. induction p as [x|o k IH]; intros tr Hp He; simpl in *.
  - destruct He as [-> _]. constructor.
  - destruct Hp as [Ho Hk]. destruct He as (r & tr' & -> & He). constructor; [done|].
    by eapply IH.
Qed.

Lemma resourceWrites_app tr1 tr2 :
  resourceWrites (tr1 ++ tr2) = resourceWrites tr1 ++ resourceWrites tr2.
Proof. apply omap_app. Qed.

Lemma recordedEvents_app tr1 tr2 :
  recordedEvents (tr1 ++ tr2) = recordedEvents tr1 ++ recordedEvents tr2.
Proof. apply omap_app. Qed.

Lemma failures_app `{K8sLib} tr1 tr2 : failures (tr1 ++ tr2) = failures tr1 ++ failures tr2.
Proof. apply omap_app. Qed.

Lemma omap_none {A B} (f : A → option B) l : Forall (λ x, f x = None) l → omap f l = [].
Proof. induction 1 as [|x l Hx _ IH]; [done|]. simpl. by rewrite Hx. Qed.

(** A program that writes no managed object. *)
Definition quiet {A} (p : Prog A) : Prop := allOps (λ o, resourceWrite o = None) p.

Lemma quiet_writes {A} (p : Prog A) tr a : quiet p → exec p tr a → resourceWrites tr = [].
Proof. intros Hq He. apply omap_none. exact (allOps_exec _ p tr a Hq He). Qed.

Lemma onlyEvents_allOps (P : Op → Prop) p : (∀ e, P (OpEventf e)) → onlyEvents p → allOps P p.
Proof.
  intros HP. induction p as [a|o k IH]; simpl; [done|]. destruct o; try done.
  intros Hk. split; [done|]. intros []. by apply IH.
Qed.

Lemma recordedEvents_calls es : recordedEvents (map eventCall es) = es.
Proof. induction es as [|e es IH]; simpl; [done|]. unfold recordedEvents in *. simpl. by rewrite IH. Qed.

Lemma onlyEvents_recorded p tr u : onlyEvents p → exec p tr u → recordedEvents tr = eventsOf p.
Proof. intros Ho He. apply exec_onlyEvents in He as ->; [|done]. apply recordedEvents_calls. Qed.

End Traces.

(** Unfolds [allOps] of a handler and splits it into its operations. *)
Ltac all_ops :=
  repeat first
    [ progress intros
    | apply allOps_bind
    | match goal with |- allOps _ (match ?x with _ => _ end) => destruct x end
    | match goal with |- allOps _ (perform _) => split; [try done|by intros] end
    | done ].

(** ** What each phase of a reconciliation may do *)

(** Operations of the Secret check. *)
Definition secretOp (o : Op) : Prop :=
  match o with OpGet KSecret _ => True | _ => False end.

(** Operations that observe, report and record. *)
Definition reportOp (o : Op) : Prop :=
  match o with
  | OpGet KDeployment _ | OpGet KService _ | OpStatusUpdate _ | OpEventf _ => True
  | _ => False
  end.

Lemma allOps_mono {A} (P Q : Op → Prop) (p : Prog A) :
  (∀ o, P o → Q o) → allOps P p → allOps Q p.
Proof.
  intros HPQ. induction p as [a|o k IH]; simpl; [done|]. intros [Ho Hk]. auto.
Qed.

Section Phases.
Context `{K8sLib}.

Lemma validateSecrets_ops r names : allOps secretOp (validateSecrets r names).
Proof. induction names as [|n names IH]; simpl; all_ops. split; [done|]. by all_ops. Qed.

Lemma load_ops r : allOps reportOp (loadRuntimeObservation r).
Proof. unfold loadRuntimeObservation. by all_ops. Qed.

Lemma updateStatus_ops r s : allOps reportOp (updateRuntimeStatus r s).
Proof. unfold updateRuntimeStatus. by all_ops. Qed.

Lemma transitions_ops rc r p c : allOps reportOp (recordStatusTransitionEvents rc r p c).
Proof. by apply onlyEvents_allOps, onlyEvents_transitions. Qed.

Lemma recordFailure_ops rc r e : allOps reportOp (recordReconciliationFailure rc r e).
Proof. by apply onlyEvents_allOps, onlyEvents_failure. Qed.

#[local] Hint Resolve load_ops updateStatus_ops transitions_ops recordFailure_ops : trussium.

Lemma handleFailure_ops rc clk r p e : allOps reportOp (handleReconciliationFailure rc clk r p e).
Proof.
  unfold handleReconciliationFailure. apply allOps_bind; [auto with trussium|]. intros loaded.
  apply allOps_bind; [auto with trussium|]. intros [[[] err] r']; all_ops; auto with trussium.
Qed.

Lemma reportStatus_ops rc clk r p v : allOps reportOp (reportStatus rc clk r p v).
Proof.
  unfold reportStatus. apply allOps_bind; [auto with trussium|]. intros [obs|e].
  - apply allOps_bind; [auto with trussium|]. intros [[[] [err|]] r']; all_ops; auto with trussium.
  - apply handleFailure_ops.
Qed.

Lemma secretOp_no_write o : secretOp o → resourceWrite o = None.
Proof. by destruct o as [[]| | | | | | | |]. Qed.

Lemma reportOp_no_write o : reportOp o → resourceWrite o = None.
Proof. by destruct o as [[]| | | | | | | |]. Qed.

End Phases.

(** ** Order of the writes *)

Definition managedKinds : list Kind :=
  [KConfigMap; KServiceAccount; KService; KDeployment; KPodDisruptionBudget; KNetworkPolicy;
   KHorizontalPodAutoscaler].

Definition managedWrites (r : TrussiumRuntime) : list (Kind * NamespacedName) :=
  (λ k, (k, rt_key r)) <$> managedKinds.

Section Order.
Context `{K8sLib}.

(** The writes of every run are a prefix of [ws], all of [ws] without error. *)
Definition writesInOrder (p : Prog (option GoError)) (ws : list (Kind * NamespacedName)) : Prop :=
  ∀ tr res, exec p tr res →
  resourceWrites tr `prefix_of` ws ∧ (res = None → resourceWrites tr = ws).

Lemma writesInOrder_step r kind step rest w ws :
  (∀ tr e, exec (step r) tr e → resourceWrites tr = [w]) →
  writesInOrder rest ws → writesInOrder (reconcileStep r kind step rest) (w :: ws).
Proof.
  intros Hstep Hrest tr res He. unfold reconcileStep in He.
  apply exec_bind in He as (tr1 & tr2 & err & -> & He1 & He2).
  rewrite resourceWrites_app, (Hstep _ _ He1). destruct err as [e|].
  - apply exec_ret in He2 as [-> ->]. split; [|done]. simpl. apply prefix_cons, prefix_nil.
  - destruct (Hrest _ _ He2) as [Hp Hall]. split; [by apply prefix_cons|].
    intros Hn. simpl. by rewrite Hall.
Qed.

Lemma single_write (o : Op) w :
  resourceWrite o = Some w →
  ∀ tr (e : Resp o), exec (perform o) tr e → resourceWrites tr = [w].
Proof. intros Hw tr e He. apply exec_perform in He as ->. unfold resourceWrites. simpl. by rewrite Hw. Qed.

Lemma delete_write k key tr e :
  exec (err ← perform (OpDelete k key); mret (ignoreNotFound err)) tr e →
  resourceWrites tr = [(k, key)].
Proof. intros He. exec_inv. done. Qed.

Lemma networkPolicy_write r tr e :
  exec (reconcileNetworkPolicy r) tr e → resourceWrites tr = [(KNetworkPolicy, rt_key r)].
Proof.
  unfold reconcileNetworkPolicy.
  destruct (spec_NetworkPolicy (rt_Spec r)) as [np|]; [destruct (rnp_Enabled np)|];
    try apply delete_write. by apply single_write.
Qed.

Lemma autoscaler_write r tr e :
  exec (reconcileHorizontalPodAutoscaler r) tr e →
  resourceWrites tr = [(KHorizontalPodAutoscaler, rt_key r)].
Proof.
  unfold reconcileHorizontalPodAutoscaler. destruct (autoscalingEnabled r);
    [by apply single_write|apply delete_write].
Qed.

Lemma core_writes r : writesInOrder (reconcileCoreResources r) (managedWrites r).
Proof.
  unfold reconcileCoreResources, managedWrites, managedKinds. rewrite !fmap_cons.
  do 5 (apply writesInOrder_step; [intros tr e; by apply single_write|]).
  apply writesInOrder_step; [apply networkPolicy_write|].
  apply writesInOrder_step; [apply autoscaler_write|].
  intros tr res He. apply exec_ret in He as [-> ->]. done.
Qed.

End Order.

(** ** The course of a reconciliation *)

Definition getRuntime (req : NamespacedName) (resp : result TrussiumRuntime) : Call :=
  mkCall (OpGet KTrussiumRuntime req) resp.

Definition getSecret (r : TrussiumRuntime) (name : string) (resp : result Secret) : Call :=
  mkCall (OpGet KSecret (mkKey (rt_Namespace r) name)) resp.

Section Course.
Context `{K8sLib}.

(** The four ways a reconciliation can go, with the trace of each part. *)
Inductive Course (rc : TrussiumRuntimeReconciler) (clk : nat → Time) (req : NamespacedName)
    : list Call → option GoError → Prop :=
| CourseUnread e : Course rc clk req [getRuntime req (Err e)] (IgnoreNotFound e)
| CourseDeleting r :
    IsZero (om_DeletionTimestamp (rt_Meta r)) = false →
    Course rc clk req [getRuntime req (Ok r)] None
| CourseBlocked r v tr1 tr2 res :
    IsZero (om_DeletionTimestamp (rt_Meta r)) = true →
    exec (validateSecretReferences r) tr1 v → v_Valid v = false →
    exec (match v_Err v with
          | Some err => handleReconciliationFailure rc clk r (copyRuntimeStatus (rt_Status r)) err
          | None => reportStatus rc clk r (copyRuntimeStatus (rt_Status r)) v
          end) tr2 res →
    Course rc clk req (getRuntime req (Ok r) :: tr1 ++ tr2) res
| CourseApplied r tr1 tr2 tr3 err res :
    IsZero (om_DeletionTimestamp (rt_Meta r)) = true →
    exec (validateSecretReferences r) tr1 validReferenceValidation →
    exec (reconcileCoreResources r) tr2 err →
    exec (match err with
          | Some err => handleReconciliationFailure rc clk r (copyRuntimeStatus (rt_Status r)) err
          | None => reportStatus rc clk r (copyRuntimeStatus (rt_Status r)) validReferenceValidation
          end) tr3 res →
    Course rc clk req (getRuntime req (Ok r) :: tr1 ++ tr2 ++ tr3) res.

(** The secrets are read in order until one cannot be read. *)
Lemma validate_exec r names tr v :
  exec (validateSecrets r names) tr v →
  (v = validReferenceValidation ∧ ∃ ss, length ss = length names
     ∧ tr = zip_with (λ n s, getSecret r n (Ok s)) names ss)
  ∨ (v_Valid v = false ∧ ∃ name e pre, name ∈ names ∧ tr = pre ++ [getSecret r name (Err e)]
     ∧ Forall (λ c, ∃ n s, c = getSecret r n (Ok s)) pre
     ∧ (if IsNotFound e then v_Err v = None
        else ∃ p, v_Err v = Some (Errorf p e))).
Proof.
  revert tr v. induction names as [|name names IH]; intros tr v He.
  - apply exec_ret in He as [-> ->]. left. split; [done|]. by exists [].
  - apply exec_bind in He as (tr1 & tr2 & resp & -> & H1 & H2). apply exec_perform in H1 as ->.
    destruct resp as [s|e].
    + destruct (IH _ _ H2) as [(-> & ss & Hl & ->)|(Hv & n & e & pre & Hn & -> & Hpre & Hdef)].
      * left. split; [done|]. exists (s :: ss). simpl. auto.
      * right. split; [done|]. exists n, e, (getSecret r name (Ok s) :: pre).
        split; [by right|]. split; [done|]. split; [|done]. constructor; [by exists name, s|done].
    + right. destruct (IsNotFound e) eqn:Hnf; apply exec_ret in H2 as [-> ->]; (split; [done|]);
        exists name, e, []; rewrite Hnf; (split; [by left|]); split_and!; try done. by eexists.
Qed.

Lemma body_course rc clk req tr res :
  exec (reconcileBody rc clk req) tr res → Course rc clk req tr res.
Proof.
  intros He. unfold reconcileBody in He. apply exec_bind in He as (t1 & t2 & got & -> & H1 & H2).
  apply exec_perform in H1 as ->. destruct got as [r|e].
  - destruct (negb (IsZero (om_DeletionTimestamp (rt_Meta r)))) eqn:Hdel.
    { apply exec_ret in H2 as [-> ->]. apply CourseDeleting. by apply negb_true_iff. }
    apply negb_false_iff in Hdel.
    apply exec_bind in H2 as (t3 & t4 & v & -> & Hv & H2).
    destruct (validate_exec _ _ _ _ Hv) as [[-> _]|[Hinv _]].
    + cbn [v_Err v_Valid validReferenceValidation negb] in H2. apply exec_bind in H2 as (t5 & t6 & err & -> & Hc & H2). simpl.
      eapply CourseApplied; [done|done|exact Hc|]. by destruct err.
    + simpl. eapply CourseBlocked; [done|exact Hv|done|]. rewrite Hinv in H2.
      by destruct (v_Err v).
  - apply exec_ret in H2 as [-> ->]. constructor.
Qed.

(** [Reconcile] adds the clock readings and the metrics. *)
Lemma reconcile_course rc clk req tr res :
  exec (Reconcile rc clk req) tr res →
  ∃ t1 t2 body,
    Course rc clk req body res
    ∧ let l := match res with Some _ => MetricError | None => MetricSuccess end in
      tr = mkCall OpNow t1 :: body ++
           [mkCall (OpCountReconciliation l) tt; mkCall OpNow t2;
            mkCall (OpObserveDuration l (t2 - t1)%Z) tt].
Proof.
  intros He. unfold Reconcile in He.
  apply exec_bind in He as (x1 & y1 & t1 & -> & H1 & He). apply exec_perform in H1 as ->.
  apply exec_bind in He as (body & y2 & res' & -> & Hb & He). apply body_course in Hb.
  apply exec_bind in He as (x3 & y3 & [] & -> & H1 & He). apply exec_perform in H1 as ->.
  apply exec_bind in He as (x4 & y4 & t2 & -> & H1 & He). apply exec_perform in H1 as ->.
  apply exec_bind in He as (x5 & y5 & [] & -> & H1 & He). apply exec_perform in H1 as ->.
  apply exec_ret in He as [-> ->]. exists t1, t2, body. split; [done|]. done.
Qed.

End Course.

Section Writes.
Context `{K8sLib}.

Lemma validate_writes r tr v : exec (validateSecretReferences r) tr v → resourceWrites tr = [].
Proof.
  apply quiet_writes. eapply allOps_mono; [apply secretOp_no_write|apply validateSecrets_ops].
Qed.

Lemma report_writes {A} (p : Prog A) tr a : allOps reportOp p → exec p tr a → resourceWrites tr = [].
Proof. intros Hp. apply quiet_writes. eapply allOps_mono; [apply reportOp_no_write|done]. Qed.

Lemma handler_writes rc clk r prev v (err : option GoError) tr res :
  exec (match err with
        | Some err => handleReconciliationFailure rc clk r prev err
        | None => reportStatus rc clk r prev v
        end) tr res → resourceWrites tr = [].
Proof. apply report_writes. destruct err; [apply handleFailure_ops|apply reportStatus_ops]. Qed.

(** The metrics around the body write nothing. *)
Lemma reconcile_writes rc clk req tr res :
  exec (Reconcile rc clk req) tr res →
  ∃ t1 body post, Course rc clk req body res ∧ tr = mkCall OpNow t1 :: body ++ post
    ∧ resourceWrites tr = resourceWrites body.
Proof.
  intros (t1 & t2 & body & Hb & ->)%reconcile_course. exists t1, body. eexists.
  split; [done|]. split; [done|].
  change (resourceWrites (?c :: ?l)) with (resourceWrites ([c] ++ l)).
  rewrite !resourceWrites_app. simpl. by rewrite app_nil_r.
Qed.

(** A failed reconciliation returns an error. *)
Lemma handleFailure_some rc clk r prev e tr res :
  exec (handleReconciliationFailure rc clk r prev e) tr res → res ≠ None.
Proof.
  intros He ->. unfold handleReconciliationFailure in He.
  apply exec_bind in He as (x1 & y1 & loaded & -> & _ & He).
  apply exec_bind in He as (x2 & y2 & [[su se] r'] & -> & _ & He).
  apply exec_bind in He as (x3 & y3 & [] & -> & _ & He).
  apply exec_bind in He as (x4 & y4 & [] & -> & _ & He).
  apply exec_ret in He as [_ ?]. done.
Qed.

End Writes.

(** Three reconciliations of the sample runtime, for the witnesses. *)
Definition sampleReconcile : Prog (option GoError) :=
  @Reconcile RefKube.lib (mkReconciler true) sampleClock (rt_key sampleRuntime).

Definition healthyRun : list Call * option GoError := replay healthyAnswers sampleReconcile.
Definition noSecretRun : list Call * option GoError := replay noSecretAnswers sampleReconcile.
Definition readOnlyRun : list Call * option GoError := replay readOnlyAnswers sampleReconcile.

Lemma healthyRun_exec : exec sampleReconcile healthyRun.1 healthyRun.2.
Proof. exact (exec_replay healthyAnswers sampleReconcile). Qed.
Lemma noSecretRun_exec : exec sampleReconcile noSecretRun.1 noSecretRun.2.
Proof. exact (exec_replay noSecretAnswers sampleReconcile). Qed.
Lemma readOnlyRun_exec : exec sampleReconcile readOnlyRun.1 readOnlyRun.2.
Proof. exact (exec_replay readOnlyAnswers sampleReconcile). Qed.

(** C8. If a reconciliation writes any managed object, then it has read a
    runtime that is not being deleted and has read every Secret the runtime
    references before the first write; the writes are a prefix of ConfigMap,
    ServiceAccount, Service, Deployment, PodDisruptionBudget, NetworkPolicy and
    HorizontalPodAutoscaler, each under the name and namespace of the runtime;
    and all seven happened if no error is returned. *)
Theorem writes_ordered_after_checks `{K8sLib} rc clk (req : NamespacedName) (tr : list Call)
    (res : option GoError) :
  exec (Reconcile rc clk req) tr res → resourceWrites tr ≠ [] →
  ∃ r pre post, tr = pre ++ post ∧ resourceWrites pre = []
    ∧ getRuntime req (Ok r) ∈ pre ∧ IsZero (om_DeletionTimestamp (rt_Meta r)) = true
    ∧ (∀ name, name ∈ referencedSecretNames r → ∃ s, getSecret r name (Ok s) ∈ pre)
    ∧ resourceWrites tr `prefix_of` managedWrites r
    ∧ (res = None → resourceWrites tr = managedWrites r).
Proof.
  intros (t1 & body & post & Hb & Htr & Hw)%reconcile_writes Hne.
  rewrite Hw in Hne |- *. destruct Hb as [e|r Hd|r v tr1 tr2 res Hd H1 Hv H2|r tr1 tr2 tr3 err res Hd H1 H2 H3];
    try done.
  - destruct Hne. change (getRuntime req (Ok r) :: tr1 ++ tr2) with ([getRuntime req (Ok r)] ++ tr1 ++ tr2).
    by rewrite !resourceWrites_app, (validate_writes _ _ _ H1), (handler_writes _ _ _ _ _ _ _ _ H2).
  - exists r, (mkCall OpNow t1 :: getRuntime req (Ok r) :: tr1), (tr2 ++ tr3 ++ post).
    assert (Hall : resourceWrites (getRuntime req (Ok r) :: tr1 ++ tr2 ++ tr3) = resourceWrites tr2).
    { change (?c :: tr1 ++ tr2 ++ tr3) with ([c] ++ tr1 ++ tr2 ++ tr3).
      by rewrite !resourceWrites_app, (validate_writes _ _ _ H1),
        (handler_writes _ _ _ _ _ _ _ _ H3), app_nil_r. }
    rewrite Hall. destruct (core_writes r tr2 err H2) as [Hp Hfull].
    destruct (validate_exec _ _ _ _ H1) as [(_ & ss & Hl & Hz)|[Hf _]]; [|done].
    split_and!; try done.
    + rewrite Htr. simpl. by rewrite <-!app_assoc.
    + change (resourceWrites (?c :: ?d :: tr1)) with (resourceWrites ([c; d] ++ tr1)).
      by rewrite resourceWrites_app, (validate_writes _ _ _ H1).
    + right. by left.
    + intros name Hn. apply list_elem_of_lookup in Hn as [i Hi].
      destruct (lookup_lt_is_Some_2 ss i) as [s Hs];
        [rewrite Hl; by eapply lookup_lt_Some|].
      exists s. right. right. rewrite Hz. apply list_elem_of_lookup. exists i.
      by rewrite lookup_zip_with, Hi, Hs.
    + intros ->. destruct err as [e|]; [|by apply Hfull]. by apply handleFailure_some in H3.
Qed.

Lemma writes_ordered_after_checks_witness :
  healthyRun.2 = None ∧ ∃ r, resourceWrites healthyRun.1 = managedWrites r.
Proof.
  split; [vm_compute; reflexivity|].
  destruct (@writes_ordered_after_checks RefKube.lib (mkReconciler true) sampleClock
    (rt_key sampleRuntime) healthyRun.1 healthyRun.2 healthyRun_exec)
    as (r & _ & _ & _ & _ & _ & _ & _ & _ & Hw).
  - vm_compute. discriminate.
  - exists r. apply Hw. vm_compute. reflexivity.
Defined.

(** ** Reads of Secrets and writes of the status *)

Definition secretRead (c : Call) : option (NamespacedName * result Secret) :=
  match c with
  | mkCall o resp =>
      match o as o return Resp o → option (NamespacedName * result Secret) with
      | OpGet k key =>
          match k as k return result (obj k) → option (NamespacedName * result Secret) with
          | KSecret => λ resp, Some (key, resp)
          | _ => λ _, None
          end
      | _ => λ _, None
      end resp
  end.

Definition runtimeRead (c : Call) : option (result TrussiumRuntime) :=
  match c with
  | mkCall o resp =>
      match o as o return Resp o → option (result TrussiumRuntime) with
      | OpGet k _ =>
          match k as k return result (obj k) → option (result TrussiumRuntime) with
          | KTrussiumRuntime => λ resp, Some resp
          | _ => λ _, None
          end
      | _ => λ _, None
      end resp
  end.

Definition runtimeReads (tr : list Call) : list (result TrussiumRuntime) := omap runtimeRead tr.

Definition secretReads (tr : list Call) : list (NamespacedName * result Secret) :=
  omap secretRead tr.

Definition statusUpdate (c : Call) : option (TrussiumRuntime * result TrussiumRuntime) :=
  match c with
  | mkCall o resp =>
      match o as o return Resp o → option (TrussiumRuntime * result TrussiumRuntime) with
      | OpStatusUpdate r => λ resp, Some (r, resp)
      | _ => λ _, None
      end resp
  end.

Definition statusUpdates (tr : list Call) : list (TrussiumRuntime * result TrussiumRuntime) :=
  omap statusUpdate tr.

Section Reports.
Context `{K8sLib}.

Lemma secretReads_app tr1 tr2 : secretReads (tr1 ++ tr2) = secretReads tr1 ++ secretReads tr2.
Proof. apply omap_app. Qed.

Lemma statusUpdates_app tr1 tr2 : statusUpdates (tr1 ++ tr2) = statusUpdates tr1 ++ statusUpdates tr2.
Proof. apply omap_app. Qed.

Lemma omap_ops {A B} (f : Call → option B) (P : Op → Prop) (p : Prog A) tr a :
  (∀ o r, P o → f (mkCall o r) = None) → allOps P p → exec p tr a → omap f tr = [].
Proof.
  intros Hf Hp He. apply omap_none. pose proof (allOps_exec P p tr a Hp He) as Hall.
  eapply Forall_impl; [exact Hall|]. intros [o r]. apply Hf.
Qed.

Lemma report_no_secrets {A} (p : Prog A) tr a :
  allOps reportOp p → exec p tr a → secretReads tr = [].
Proof. apply omap_ops. intros o x Ho. by destruct o as [[]| | | | | | | |]. Qed.

(** Writes of managed objects are the only operations of the core step. *)
Lemma core_ops r : allOps (λ o, is_Some (resourceWrite o)) (reconcileCoreResources r).
Proof.
  assert (Hstep : ∀ kind step rest,
    allOps (λ o, is_Some (resourceWrite o)) (step r) →
    allOps (λ o, is_Some (resourceWrite o)) rest →
    allOps (λ o, is_Some (resourceWrite o)) (reconcileStep r kind step rest)).
  { intros kind step rest Hs Hr. unfold reconcileStep. apply allOps_bind; [done|].
    by intros [e|]. }
  unfold reconcileCoreResources. repeat apply Hstep; try done;
    try (split; [by eexists|by intros]).
  - unfold reconcileNetworkPolicy. all_ops; split; try (by eexists); by intros.
  - unfold reconcileHorizontalPodAutoscaler. all_ops; split; try (by eexists); by intros.
Qed.

Lemma core_no_secrets r tr a : exec (reconcileCoreResources r) tr a → secretReads tr = [].
Proof.
  eapply omap_ops; [|apply core_ops]. intros o x [w Hw]. by destruct o as [[]| | | | | | | |].
Qed.

(** The status is written at most once, with normalised times. *)
Lemma update_exec r s tr b err r' :
  exec (updateRuntimeStatus r s) tr (b, err, r') →
  let n := preserveRuntimeConditionTransitionTimes (rt_Status r) s in
  (DeepEqual (rt_Status r) n = true ∧ tr = [] ∧ b = false ∧ err = None ∧ r' = r)
  ∨ (DeepEqual (rt_Status r) n = false ∧ ∃ resp,
       tr = [mkCall (OpStatusUpdate (rt_set_status n r)) resp]
       ∧ match resp with
         | Ok stored => b = true ∧ err = None ∧ r' = stored
         | Err e => b = false ∧ r' = rt_set_status n r ∧ ∃ p, err = Some (Errorf p e)
         end).
Proof.
  unfold updateRuntimeStatus. destruct (DeepEqual _ _); intros He.
  - apply exec_ret in He as [-> Heq]. injection Heq as -> -> ->. by left.
  - right. split; [done|]. apply exec_bind in He as (x & y & resp & -> & H1 & He).
    apply exec_perform in H1 as ->. exists resp.
    destruct resp as [stored|e]; apply exec_ret in He as [-> Heq]; injection Heq as -> -> ->.
    + done.
    + split; [done|]. split; [done|]. split; [done|]. by eexists.
Qed.

Lemma report_exec rc clk r prev v tr res :
  exec (reportStatus rc clk r prev v) tr res →
  ∃ tr1 tr2 loaded, tr = tr1 ++ tr2 ∧ exec (loadRuntimeObservation r) tr1 loaded ∧
  match loaded with
  | Err e => exec (handleReconciliationFailure rc clk r prev e) tr2 res
  | Ok obs =>
      ∃ b err r' tu es, tr2 = tu ++ map eventCall es
        ∧ exec (updateRuntimeStatus r (buildRuntimeStatus clk r obs v)) tu (b, err, r')
        ∧ res = err
        ∧ es = match err with
               | Some e => eventsOf (recordReconciliationFailure rc r' e)
               | None => if b : bool
                         then eventsOf (recordStatusTransitionEvents rc r' prev (rt_Status r'))
                         else []
               end
  end.
Proof.
  intros He. unfold reportStatus in He.
  apply exec_bind in He as (tr1 & tr2 & loaded & -> & Hl & He).
  exists tr1, tr2, loaded. split; [done|]. split; [done|]. destruct loaded as [obs|e]; [|done].
  apply exec_bind in He as (tu & te & [[b err] r'] & -> & Hu & He). exists b, err, r', tu.
  destruct err as [e|].
  - apply exec_bind in He as (x & y & [] & -> & Hx & He). apply exec_ret in He as [-> ->].
    apply exec_onlyEvents in Hx as ->; [|apply onlyEvents_failure].
    eexists. split; [by rewrite app_nil_r|]. done.
  - apply exec_bind in He as (x & y & [] & -> & Hx & He). apply exec_ret in He as [-> ->].
    destruct b.
    + apply exec_onlyEvents in Hx as ->; [|apply onlyEvents_transitions].
      eexists. split; [by rewrite app_nil_r|]. done.
    + apply exec_ret in Hx as [-> _]. exists []. by rewrite !app_nil_r.
Qed.

End Reports.

(** ** Accounting for errors *)

(** The API errors that error values were built from. *)
Definition leaves (es : list GoError) : list ApiError := concat (map errorLeaves es).

Lemma leaves_app es1 es2 : leaves (es1 ++ es2) = leaves es1 ++ leaves es2.
Proof. unfold leaves. by rewrite map_app, concat_app. Qed.

Lemma leaves_single e : leaves [e] = errorLeaves e.
Proof. unfold leaves. simpl. apply app_nil_r. Qed.

Lemma leaves_join e o : errorLeaves (joinErr e o) = errorLeaves e ++ leaves (option_list o).
Proof. destruct o as [e'|]; simpl; [by rewrite leaves_single|by rewrite app_nil_r]. Qed.

Section Accounting.
Context `{K8sLaws}.

(** The error in the result of a program accounts for its failed calls. *)
Definition accounts {A} (f : A → option GoError) (p : Prog A) : Prop :=
  ∀ tr a, exec p tr a → leaves (option_list (f a)) = leaves (failures tr).

Lemma validate_accounts r : accounts v_Err (validateSecretReferences r).
Proof.
  intros tr v He. destruct (validate_exec _ _ _ _ He)
    as [(-> & ss & _ & ->)|(_ & name & e & pre & _ & -> & Hpre & Hv)].
  - assert (Hz : ∀ ns, failures (zip_with (λ n s, getSecret r n (Ok s)) ns ss) = []).
    { clear He. induction ss as [|s ss IH]; intros [|n ns]; [done..|]. apply IH. }
    by rewrite Hz.
  - rewrite failures_app.
    assert (failures pre = []) as ->.
    { apply omap_none. eapply Forall_impl; [exact Hpre|]. by intros c (n & s & ->). }
    unfold failures, getSecret. simpl. destruct (IsNotFound e); [by rewrite Hv|].
    destruct Hv as [p ->]. done.
Qed.

Lemma load_accounts r : accounts result_err (loadRuntimeObservation r).
Proof.
  intros tr res He. unfold loadRuntimeObservation in He.
  apply exec_bind in He as (x1 & y1 & d & -> & H1 & He). apply exec_perform in H1 as ->.
  rewrite failures_app.
  assert (Hservice : ∀ (od : option Deployment) tr res,
    exec (service ← perform (OpGet KService (rt_key r));
          match service with
          | Ok s => mret (Ok (mkObservation od (Some s)))
          | Err err =>
              if IsNotFound err then mret (Ok (mkObservation od None))
              else mret (Err (Errorf ("get managed Service " +:+
                     slashed (key_Namespace (rt_key r)) (key_Name (rt_key r)) +:+ ": ") err))
          end) tr res →
    leaves (option_list (result_err res)) = leaves (failures tr)).
  { intros od tr' res' He'. apply exec_bind in He' as (x2 & y2 & s & -> & H2 & He').
    apply exec_perform in H2 as ->. rewrite failures_app. unfold failures at 1. simpl.
    destruct s as [s|e]; [by apply exec_ret in He' as [-> ->]|]. simpl.
    destruct (IsNotFound e); apply exec_ret in He' as [-> ->]; done. }
  destruct d as [d|e]; [apply (Hservice _ _ _ He)|]. unfold failures at 1. simpl.
  destruct (IsNotFound e); [apply (Hservice _ _ _ He)|]. apply exec_ret in He as [-> ->]. done.
Qed.

Lemma update_accounts r s : accounts (λ res, res.1.2) (updateRuntimeStatus r s).
Proof.
  intros tr [[b err] r'] He. simpl.
  destruct (update_exec _ _ _ _ _ _ He) as [(_ & -> & _ & -> & _)|(_ & resp & -> & Hr)]; [done|].
  destruct resp as [stored|e].
  - destruct Hr as (_ & -> & _). done.
  - destruct Hr as (_ & _ & p & ->). done.
Qed.

Lemma events_failures es : failures (map eventCall es) = [].
Proof. apply omap_none. by induction es; constructor. Qed.

Lemma step_accounts r kind step rest :
  accounts id (step r) → accounts id rest → accounts id (reconcileStep r kind step rest).
Proof.
  intros Hs Hr tr res He. unfold reconcileStep in He.
  apply exec_bind in He as (x & y & err & -> & H1 & He). rewrite failures_app, leaves_app.
  rewrite <-(Hs _ _ H1). destruct err as [e|].
  - apply exec_ret in He as [-> ->]. simpl. rewrite !leaves_single. by rewrite app_nil_r.
  - apply (Hr _ _ He).
Qed.

Lemma write_accounts k cur m : accounts id (perform (OpCreateOrUpdate k cur m)).
Proof. intros tr res He. apply exec_perform in He as ->. unfold failures. simpl. by destruct res. Qed.

Lemma delete_accounts k key :
  accounts id (err ← perform (OpDelete k key); mret (ignoreNotFound err)).
Proof.
  intros tr res He. apply exec_bind in He as (x & y & err & -> & H1 & He).
  apply exec_perform in H1 as ->. apply exec_ret in He as [-> ->].
  unfold failures. simpl. destruct err as [e|]; [|done]. simpl. rewrite ignore_not_found.
  by destruct (IsNotFound e).
Qed.

Lemma core_accounts r : accounts id (reconcileCoreResources r).
Proof.
  unfold reconcileCoreResources. repeat apply step_accounts; try apply write_accounts.
  - unfold reconcileNetworkPolicy.
    destruct (spec_NetworkPolicy (rt_Spec r)) as [np|]; [destruct (rnp_Enabled np)|];
      first [apply write_accounts|apply delete_accounts].
  - unfold reconcileHorizontalPodAutoscaler. destruct (autoscalingEnabled r);
      [apply write_accounts|apply delete_accounts].
  - intros tr res He. apply exec_ret in He as [-> ->]. done.
Qed.

(** A failure handler: it observes, writes the failure status once, records
    events, the last of which is the failure, and returns all errors joined. *)
Lemma handle_exec rc clk r prev e tr res :
  exec (handleReconciliationFailure rc clk r prev e) tr res →
  ∃ tr1 tu es loaded b err r' e',
    tr = tr1 ++ tu ++ map eventCall (es ++ eventsOf (recordReconciliationFailure rc r' e'))
    ∧ exec (loadRuntimeObservation r) tr1 loaded
    ∧ exec (updateRuntimeStatus r
              (buildReconciliationFailureStatus clk r
                 (match loaded with Ok o => o | Err _ => mkObservation None None end)
                 (joinErr e (result_err loaded)))) tu (b, err, r')
    ∧ e' = joinErr (joinErr e (result_err loaded)) err ∧ res = Some e'
    ∧ es = (if b : bool then eventsOf (recordStatusTransitionEvents rc r' prev (rt_Status r'))
            else []).
Proof.
  intros He. unfold handleReconciliationFailure in He.
  apply exec_bind in He as (tr1 & y1 & loaded & -> & Hl & He).
  apply exec_bind in He as (tu & y2 & [[b err] r'] & -> & Hu & He).
  apply exec_bind in He as (x3 & y3 & [] & -> & Hx & He).
  apply exec_bind in He as (x4 & y4 & [] & -> & Hf & He). apply exec_ret in He as [-> ->].
  apply exec_onlyEvents in Hf as ->; [|apply onlyEvents_failure].
  exists tr1, tu, (if b then eventsOf (recordStatusTransitionEvents rc r' prev (rt_Status r')) else []).
  exists loaded, b, err, r', (joinErr (joinErr e (result_err loaded)) err).
  split_and!; try done. rewrite app_nil_r, map_app. do 2 f_equal.
  destruct b; [|by apply exec_ret in Hx as [-> _]].
  apply exec_onlyEvents in Hx as ->; [done|apply onlyEvents_transitions].
Qed.

Lemma handle_accounts rc clk r prev e tr res :
  exec (handleReconciliationFailure rc clk r prev e) tr res →
  leaves (option_list res) = errorLeaves e ++ leaves (failures tr).
Proof.
  intros (tr1 & tu & es & loaded & b & err & r' & e' & -> & Hl & Hu & -> & -> & _)%handle_exec.
  rewrite !failures_app, events_failures, app_nil_r, leaves_app.
  rewrite <-(load_accounts _ _ _ Hl), <-(update_accounts _ _ _ _ Hu). simpl.
  by rewrite leaves_single, !leaves_join, <-app_assoc.
Qed.

Lemma report_accounts rc clk r prev v : accounts id (reportStatus rc clk r prev v).
Proof.
  intros tr res (tr1 & tr2 & loaded & -> & Hl & He)%report_exec.
  rewrite failures_app, leaves_app, <-(load_accounts _ _ _ Hl). destruct loaded as [obs|e].
  - destruct He as (b & err & r' & tu & es & -> & Hu & -> & _).
    rewrite failures_app, events_failures, app_nil_r. apply (update_accounts _ _ _ _ Hu).
  - simpl. rewrite leaves_single. apply (handle_accounts _ _ _ _ _ _ _ He).
Qed.

Lemma handler_accounts rc clk r prev v (err : option GoError) tr res :
  exec (match err with
        | Some err => handleReconciliationFailure rc clk r prev err
        | None => reportStatus rc clk r prev v
        end) tr res →
  leaves (option_list res) = leaves (option_list err) ++ leaves (failures tr).
Proof.
  destruct err as [e|]; intros He.
  - simpl. rewrite leaves_single. apply (handle_accounts _ _ _ _ _ _ _ He).
  - apply (report_accounts _ _ _ _ _ _ _ He).
Qed.

Lemma course_accounts rc clk req tr res :
  Course rc clk req tr res → leaves (option_list res) = leaves (failures tr).
Proof.
  intros [e|r Hd|r v tr1 tr2 res' Hd H1 Hv H2|r tr1 tr2 tr3 err res' Hd H1 H2 H3].
  - rewrite ignore_not_found. unfold failures. simpl. by destruct (IsNotFound e).
  - done.
  - change (getRuntime req (Ok r) :: tr1 ++ tr2) with ([getRuntime req (Ok r)] ++ tr1 ++ tr2).
    rewrite !failures_app, !leaves_app. simpl.
    by rewrite (handler_accounts _ _ _ _ _ _ _ _ H2), (validate_accounts _ _ _ H1).
  - change (?c :: tr1 ++ tr2 ++ tr3) with ([c] ++ tr1 ++ tr2 ++ tr3).
    rewrite !failures_app, !leaves_app. simpl.
    rewrite (handler_accounts _ _ _ _ _ _ _ _ H3), <-(core_accounts _ _ _ H2).
    rewrite <-(validate_accounts _ _ _ H1). done.
Qed.

Lemma reconcile_accounts rc clk req tr res :
  exec (Reconcile rc clk req) tr res → leaves (option_list res) = leaves (failures tr).
Proof.
  intros (t1 & t2 & body & Hb & ->)%reconcile_course.
  rewrite (course_accounts _ _ _ _ _ Hb).
  change (failures (?c :: ?l)) with (failures ([c] ++ l)).
  rewrite !failures_app. simpl. by rewrite app_nil_r.
Qed.

Lemma leaves_nil es : leaves es = [] → es = [].
Proof.
  destruct es as [|e es]; [done|]. unfold leaves. simpl. intros [He _]%app_nil.
  by apply errorLeaves_nonempty in He.
Qed.

End Accounting.

(** C9. No failure is swallowed and none is invented: the error of a
    reconciliation is built from exactly the API errors of its failed calls, in
    the order in which they happened, where a missing object is no failure of a
    read or a delete; in particular the result is nil exactly when no call
    failed. *)
Theorem reconcile_error_exact `{K8sLaws} rc clk (req : NamespacedName) (tr : list Call)
    (res : option GoError) :
  exec (Reconcile rc clk req) tr res →
  default [] (errorLeaves <$> res) = concat (errorLeaves <$> failures tr)
  ∧ (res = None ↔ failures tr = []).
Proof.
  intros He. pose proof (reconcile_accounts _ _ _ _ _ He) as Ha. split.
  - etransitivity; [|exact Ha]. destruct res as [e|]; [|done]. simpl. by rewrite leaves_single.
  - split.
    + intros ->. by apply leaves_nil.
    + intros Hf. rewrite Hf in Ha. apply leaves_nil in Ha. by destruct res.
Qed.

Lemma reconcile_error_exact_witness :
  default [] (errorLeaves <$> readOnlyRun.2) = [mkApiError "Timeout" "timeout"].
Proof.
  rewrite (proj1 (@reconcile_error_exact RefKube.lib RefKube.laws (mkReconciler true) sampleClock
    (rt_key sampleRuntime) readOnlyRun.1 readOnlyRun.2 readOnlyRun_exec)).
  vm_compute. reflexivity.
Defined.

(** ** Missing Secrets *)

Definition missingSecret (name : string) : referenceValidationResult :=
  mkValidation false reasonSecretNotFound
    ("Referenced Secret " +:+ quote name +:+ " was not found.") None.

Section Missing.
Context `{K8sLib}.

Lemma secretRead_ok r name s : secretRead (getSecret r name s) = Some (mkKey (rt_Namespace r) name, s).
Proof. done. Qed.

(** The one failing read of the Secret check decides its result. *)
Lemma validate_failed r tr v key e :
  exec (validateSecretReferences r) tr v → (key, Err e) ∈ secretReads tr →
  v_Valid v = false ∧ key_Namespace key = rt_Namespace r
  ∧ key_Name key ∈ referencedSecretNames r
  ∧ (IsNotFound e = true → v = missingSecret (key_Name key)).
Proof.
  unfold validateSecretReferences. generalize (referencedSecretNames r). intros names.
  revert tr v. induction names as [|name names IH]; intros tr v He Hin.
  { apply exec_ret in He as [-> ->]. by apply not_elem_of_nil in Hin. }
  apply exec_bind in He as (x & y & resp & -> & H1 & He). apply exec_perform in H1 as ->.
  rewrite secretReads_app in Hin. apply elem_of_app in Hin as [Hin|Hin].
  - apply list_elem_of_singleton in Hin. injection Hin as -> <-.
    destruct (IsNotFound e); apply exec_ret in He as [-> ->];
      (split; [done|]); (split; [done|]); (split; [by left|]); done.
  - destruct resp as [s|e'].
    + destruct (IH _ _ He Hin) as (? & ? & ? & ?). split_and!; try done. by right.
    + destruct (IsNotFound e'); apply exec_ret in He as [-> _]; by apply not_elem_of_nil in Hin.
Qed.

(** A failed read of a Secret happens only in the Secret check, which blocks. *)
Lemma course_secret_failure rc clk req body res key e :
  Course rc clk req body res → (key, Err e) ∈ secretReads body →
  ∃ r v tr1 tr2, body = getRuntime req (Ok r) :: tr1 ++ tr2
    ∧ exec (validateSecretReferences r) tr1 v
    ∧ exec (match v_Err v with
            | Some err => handleReconciliationFailure rc clk r (copyRuntimeStatus (rt_Status r)) err
            | None => reportStatus rc clk r (copyRuntimeStatus (rt_Status r)) v
            end) tr2 res
    ∧ key_Name key ∈ referencedSecretNames r
    ∧ (IsNotFound e = true → v = missingSecret (key_Name key)).
Proof.
  assert (Hops : ∀ r v (err : option GoError), allOps reportOp
    (match err with
     | Some err => handleReconciliationFailure rc clk r (copyRuntimeStatus (rt_Status r)) err
     | None => reportStatus rc clk r (copyRuntimeStatus (rt_Status r)) v
     end)) by (intros r v [err|]; [apply handleFailure_ops|apply reportStatus_ops]).
  intros [e'|r Hd|r v tr1 tr2 res' Hd H1 Hv H2|r tr1 tr2 tr3 err res' Hd H1 H2 H3] Hin;
    try by apply not_elem_of_nil in Hin.
  - change (secretReads (?c :: tr1 ++ tr2)) with (secretReads (tr1 ++ tr2)) in Hin.
    rewrite secretReads_app, (report_no_secrets _ _ _ (Hops _ _ _) H2), app_nil_r in Hin.
    destruct (validate_failed _ _ _ _ _ H1 Hin) as (_ & _ & Hn & Hm).
    exists r, v, tr1, tr2. done.
  - change (secretReads (?c :: tr1 ++ tr2 ++ tr3)) with (secretReads (tr1 ++ tr2 ++ tr3)) in Hin.
    rewrite !secretReads_app, (report_no_secrets _ _ _ (Hops _ _ _) H3),
      (core_no_secrets _ _ _ H2), !app_nil_r in Hin.
    by destruct (validate_failed _ _ _ _ _ H1 Hin) as [? _].
Qed.

(** A reconciliation that ends without error leaves the reported status stored:
    it was there already or it is written, once. *)
Definition leavesStatus (tr : list Call) (r : TrussiumRuntime) (s : TrussiumRuntimeStatus) : Prop :=
  (statusUpdates tr = [] ∧ rt_Status r = s)
  ∨ ∃ stored, statusUpdates tr = [(rt_set_status s r, Ok stored)].

Lemma load_no_updates r tr a : exec (loadRuntimeObservation r) tr a → statusUpdates tr = [].
Proof.
  eapply (omap_ops statusUpdate (λ o, match o with OpGet _ _ => True | _ => False end)).
  - intros o x Ho. by destruct o.
  - unfold loadRuntimeObservation. by all_ops.
Qed.

Lemma events_no_updates es : statusUpdates (map eventCall es) = [].
Proof. apply omap_none. by induction es; constructor. Qed.

Lemma secrets_no_updates r tr v : exec (validateSecretReferences r) tr v → statusUpdates tr = [].
Proof.
  eapply (omap_ops statusUpdate secretOp); [|apply validateSecrets_ops].
  intros o x Ho. by destruct o as [[]| | | | | | | |].
Qed.

End Missing.

Section LeavesStatus.
Context `{K8sLaws}.

Lemma report_leaves rc clk r prev v tr :
  exec (reportStatus rc clk r prev v) tr None →
  ∃ obs, leavesStatus tr r (reportedStatus clk r obs (Observed v))
    ∧ ∃ tr1 tu es u, tr = tr1 ++ tu ++ map eventCall es
      ∧ exec (loadRuntimeObservation r) tr1 (Ok obs)
      ∧ exec (updateRuntimeStatus r (buildRuntimeStatus clk r obs v)) tu u.
Proof.
  intros (tr1 & tr2 & loaded & -> & Hl & He)%report_exec. destruct loaded as [obs|e];
    [|by apply handleFailure_some in He].
  exists obs. destruct He as (b & err & r' & tu & es & -> & Hu & <- & _).
  split; [|by exists tr1, tu, es, (b, None, r')]. unfold leavesStatus.
  rewrite !statusUpdates_app, (load_no_updates _ _ _ Hl), events_no_updates, app_nil_r. simpl.
  destruct (update_exec _ _ _ _ _ _ Hu) as [(Heq & -> & _)|(_ & resp & -> & Hresp)].
  - left. split; [done|]. by apply deep_equal_spec in Heq.
  - right. destruct resp as [stored|e]; [by exists stored|]. by destruct Hresp as (_ & _ & p & ?).
Qed.

End LeavesStatus.

(** C10. A referenced Secret that cannot be read blocks the reconciliation: no
    managed object is created, updated or deleted. If it does not exist and no
    call fails, nil is returned and the status that names the missing Secret is
    the stored one or is written, once. *)
Theorem missing_secret_blocks `{K8sLaws} rc clk (req : NamespacedName) (tr : list Call)
    (res : option GoError) (key : NamespacedName) (e : GoError) :
  exec (Reconcile rc clk req) tr res → (key, Err e) ∈ secretReads tr →
  resourceWrites tr = []
  ∧ (IsNotFound e = true → failures tr = [] →
     res = None ∧ ∃ r obs,
       getRuntime req (Ok r) ∈ tr ∧ key_Name key ∈ referencedSecretNames r
       ∧ leavesStatus tr r (reportedStatus clk r obs (Observed (missingSecret (key_Name key))))).
Proof.
  intros He Hin. pose proof (reconcile_accounts _ _ _ _ _ He) as Hacc.
  destruct (reconcile_course _ _ _ _ _ He) as (t1 & t2 & body & Hb & Htr). cbv zeta in Htr.
  set (post := [_; _; _]) in Htr.
  assert (Hbody : secretReads tr = secretReads body ∧ resourceWrites tr = resourceWrites body
    ∧ statusUpdates tr = statusUpdates body).
  { rewrite Htr. change (mkCall OpNow t1 :: ?l) with ([mkCall OpNow t1] ++ l).
    rewrite !secretReads_app, !resourceWrites_app, !statusUpdates_app. simpl.
    by rewrite !app_nil_r. }
  destruct Hbody as (Hs & Hw & Hu). rewrite Hs in Hin.
  destruct (course_secret_failure _ _ _ _ _ _ _ Hb Hin)
    as (r & v & tr1 & tr2 & Hbody & H1 & H2 & Hname & Hmiss).
  rewrite Hbody in Hw, Hu. split.
  - rewrite Hw. change (resourceWrites (getRuntime req (Ok r) :: ?l)) with (resourceWrites l).
    by rewrite resourceWrites_app, (validate_writes _ _ _ H1), (handler_writes _ _ _ _ _ _ _ _ H2).
  - intros Hnf Hf. rewrite Hf in Hacc. apply leaves_nil in Hacc. destruct res; [done|].
    split; [done|]. rewrite (Hmiss Hnf) in H1, H2.
    destruct (report_leaves _ _ _ _ _ _ H2) as (obs & Hobs & _). exists r, obs.
    split; [rewrite Htr, Hbody; right; by left|]. split; [done|]. unfold leavesStatus in *.
    rewrite Hu. change (statusUpdates (getRuntime req (Ok r) :: ?l)) with (statusUpdates l).
    by rewrite statusUpdates_app, (secrets_no_updates _ _ _ H1).
Qed.

Lemma missing_secret_blocks_witness :
  resourceWrites noSecretRun.1 = []
  ∧ ∃ r obs, @leavesStatus noSecretRun.1 r
      (@reportedStatus RefKube.lib sampleClock r obs
         (Observed (missingSecret "ghcr-credentials"))).
Proof.
  destruct (@missing_secret_blocks RefKube.lib RefKube.laws (mkReconciler true) sampleClock
    (rt_key sampleRuntime) noSecretRun.1 noSecretRun.2 (mkKey "trussium" "ghcr-credentials")
    notFound noSecretRun_exec) as [Hw Hr].
  - vm_compute. left.
  - split; [exact Hw|].
    destruct Hr as (_ & r & obs & _ & _ & Hl); [vm_compute; reflexivity|vm_compute; reflexivity|].
    exists r, obs. exact Hl.
Defined.

(** ** Metrics and failure events *)

Section Metrics.
Context `{K8sLib}.

Definition metrics (tr : list Call) : list MetricResult := omap (λ c, metricOf (call_op c)) tr.

Lemma metrics_app tr1 tr2 : metrics (tr1 ++ tr2) = metrics tr1 ++ metrics tr2.
Proof. apply omap_app. Qed.

Lemma metrics_ops {A} (P : Op → Prop) (p : Prog A) tr a :
  (∀ o, P o → metricOf o = None) → allOps P p → exec p tr a → metrics tr = [].
Proof. intros Hm. apply omap_ops. intros o r. apply Hm. Qed.

Lemma handler_metrics rc clk r prev v (err : option GoError) tr res :
  exec (match err with
        | Some err => handleReconciliationFailure rc clk r prev err
        | None => reportStatus rc clk r prev v
        end) tr res → metrics tr = [].
Proof.
  eapply (metrics_ops reportOp); [intros o Ho; by destruct o as [[]| | | | | | | |]|].
  destruct err; [apply handleFailure_ops|apply reportStatus_ops].
Qed.

Lemma course_metrics rc clk req tr res : Course rc clk req tr res → metrics tr = [].
Proof.
  assert (Hsec : ∀ r tr v, exec (validateSecretReferences r) tr v → metrics tr = []).
  { intros r tr' v. eapply (metrics_ops secretOp); [|apply validateSecrets_ops].
    intros o Ho. by destruct o as [[]| | | | | | | |]. }
  assert (Hcore : ∀ r tr e, exec (reconcileCoreResources r) tr e → metrics tr = []).
  { intros r tr' e. eapply metrics_ops; [|apply core_ops]. intros o [w Hw].
    by destruct o as [[]| | | | | | | |]. }
  intros [e|r Hd|r v tr1 tr2 res' Hd H1 Hv H2|r tr1 tr2 tr3 err res' Hd H1 H2 H3]; [done|done| |].
  - change (metrics (?c :: tr1 ++ tr2)) with (metrics (tr1 ++ tr2)).
    by rewrite metrics_app, (Hsec _ _ _ H1), (handler_metrics _ _ _ _ _ _ _ _ H2).
  - change (metrics (?c :: tr1 ++ tr2 ++ tr3)) with (metrics (tr1 ++ tr2 ++ tr3)).
    by rewrite !metrics_app, (Hsec _ _ _ H1), (Hcore _ _ _ H2),
      (handler_metrics _ _ _ _ _ _ _ _ H3).
Qed.

End Metrics.

(** C29. Every reconciliation is counted once and timed once, as its last
    actions, from its first clock reading to its last, both under the label
    error if it returns an error and success if it returns nil. *)
Theorem metrics_match_result `{K8sLib} rc clk (req : NamespacedName) (tr : list Call)
    (res : option GoError) :
  exec (Reconcile rc clk req) tr res →
  ∃ t1 t2 body, metrics body = []
    ∧ let l := match res with Some _ => MetricError | None => MetricSuccess end in
      tr = mkCall OpNow t1 :: body ++
           [mkCall (OpCountReconciliation l) tt; mkCall OpNow t2;
            mkCall (OpObserveDuration l (t2 - t1)%Z) tt].
Proof.
  intros (t1 & t2 & body & Hb & Htr)%reconcile_course. exists t1, t2, body.
  split; [by eapply course_metrics|done].
Qed.

Lemma metrics_match_result_witness :
  readOnlyRun.2 ≠ None ∧ metrics readOnlyRun.1 = [MetricError; MetricError].
Proof.
  split; [vm_compute; discriminate|].
  destruct (@metrics_match_result RefKube.lib (mkReconciler true) sampleClock
    (rt_key sampleRuntime) readOnlyRun.1 readOnlyRun.2 readOnlyRun_exec)
    as (t1 & t2 & body & Hm & Htr).
  rewrite Htr. change (mkCall OpNow t1 :: ?l) with ([mkCall OpNow t1] ++ l).
  rewrite !metrics_app, Hm. vm_compute. reflexivity.
Defined.

Section FailureEvents.
Context `{K8sLaws}.

(** The failure events among some events, by type and note. *)
Definition failureEvents (es : list Event) : list (EventType * string) :=
  (λ ev, (e_Type ev, e_Note ev)) <$>
  filter (λ ev, e_Reason ev = eventReasonReconciliationFailed) es.

Definition failureNote (res : option GoError) : list (EventType * string) :=
  match res with
  | Some e => [(EventTypeWarning, "Runtime reconciliation failed: " +:+ errorText e)]
  | None => []
  end.

Lemma failureEvents_app es1 es2 :
  failureEvents (es1 ++ es2) = failureEvents es1 ++ failureEvents es2.
Proof. unfold failureEvents. by rewrite filter_app, fmap_app. Qed.

Lemma transitions_no_failure rc r p c :
  failureEvents (eventsOf (recordStatusTransitionEvents rc r p c)) = [].
Proof.
  rewrite transition_events. destruct (rc_HasRecorder rc); [|done]. rewrite !failureEvents_app.
  assert (failureEvents (eventsOf (recordConfigurationTransition r p c)) = []) as ->
    by (unfold recordConfigurationTransition; by repeat case_match).
  assert (failureEvents (eventsOf (recordUpgradeTransition r p c)) = []) as ->
    by (unfold recordUpgradeTransition, upgradeEvent; by repeat case_match).
  assert (failureEvents (eventsOf (recordDegradedTransition r p c)) = []) as ->
    by (unfold recordDegradedTransition; by repeat case_match).
  assert (failureEvents (eventsOf (recordProgressingTransition r p c)) = []) as ->
    by (unfold recordProgressingTransition; by repeat case_match).
  unfold recordReadyTransition. repeat case_match; try done; case_decide; done.
Qed.

Lemma recordFailure_event rc r e :
  rc_HasRecorder rc = true →
  failureEvents (eventsOf (recordReconciliationFailure rc r e)) = failureNote (Some e).
Proof. intros Hrc. unfold recordReconciliationFailure. by rewrite Hrc. Qed.

Lemma quiet_events {A} (P : Op → Prop) (p : Prog A) tr a :
  (∀ o, P o → eventOf o = None) → allOps P p → exec p tr a → recordedEvents tr = [].
Proof. intros Hm. apply omap_ops. intros o r. apply Hm. Qed.

Lemma load_events r tr a : exec (loadRuntimeObservation r) tr a → recordedEvents tr = [].
Proof.
  eapply (quiet_events (λ o, match o with OpGet _ _ => True | _ => False end));
    [intros o Ho; by destruct o|]. unfold loadRuntimeObservation. by all_ops.
Qed.

Lemma update_events r s tr res : exec (updateRuntimeStatus r s) tr res → recordedEvents tr = [].
Proof.
  destruct res as [[b err] r']. intros He.
  by destruct (update_exec _ _ _ _ _ _ He) as [(_ & -> & _)|(_ & resp & -> & _)].
Qed.

Lemma handle_failure_events rc clk r prev e tr res :
  rc_HasRecorder rc = true →
  exec (handleReconciliationFailure rc clk r prev e) tr res →
  failureEvents (recordedEvents tr) = failureNote res.
Proof.
  intros Hrc (tr1 & tu & es & loaded & b & err & r' & e' & -> & Hl & Hu & -> & -> & ->)%handle_exec.
  rewrite !recordedEvents_app, (load_events _ _ _ Hl), (update_events _ _ _ _ Hu). simpl.
  rewrite recordedEvents_calls, failureEvents_app, recordFailure_event by done.
  destruct b; [by rewrite transitions_no_failure|done].
Qed.

Lemma handler_failure_events rc clk r prev v (err : option GoError) tr res :
  rc_HasRecorder rc = true →
  exec (match err with
        | Some err => handleReconciliationFailure rc clk r prev err
        | None => reportStatus rc clk r prev v
        end) tr res →
  failureEvents (recordedEvents tr) = failureNote res.
Proof.
  intros Hrc. destruct err as [e|]; [by apply handle_failure_events|].
  intros (tr1 & tr2 & loaded & -> & Hl & He)%report_exec.
  rewrite recordedEvents_app, (load_events _ _ _ Hl). simpl.
  destruct loaded as [obs|e]; [|by eapply handle_failure_events].
  destruct He as (b & err & r' & tu & es & -> & Hu & -> & ->).
  rewrite recordedEvents_app, (update_events _ _ _ _ Hu), recordedEvents_calls. simpl.
  destruct err as [e|]; [by apply recordFailure_event|].
  destruct b; [apply transitions_no_failure|done].
Qed.

End FailureEvents.

(** C28. With a recorder, a reconciliation that read the runtime records
    exactly one ReconciliationFailed warning, with the text of the returned
    error, if it returns an error, and none if it returns nil. *)
Theorem failure_event_matches_result `{K8sLaws} rc clk (req : NamespacedName) (tr : list Call)
    (res : option GoError) :
  exec (Reconcile rc clk req) tr res → rc_HasRecorder rc = true →
  (∃ r, Ok r ∈ runtimeReads tr) →
  failureEvents (recordedEvents tr) = failureNote res.
Proof.
  intros (t1 & t2 & body & Hb & ->)%reconcile_course Hrc [r0 Hread].
  assert (Hev : ∀ l, recordedEvents (mkCall OpNow t1 :: body ++
            [mkCall (OpCountReconciliation l) tt; mkCall OpNow t2;
             mkCall (OpObserveDuration l (t2 - t1)%Z) tt]) = recordedEvents body).
  { intros l. change (mkCall OpNow t1 :: ?x) with ([mkCall OpNow t1] ++ x).
    rewrite !recordedEvents_app. simpl. apply app_nil_r. }
  cbv zeta. rewrite Hev. clear Hev.
  assert (Hsec : ∀ r tr v, exec (validateSecretReferences r) tr v → recordedEvents tr = []).
  { intros r tr' v. eapply (quiet_events secretOp); [|apply validateSecrets_ops].
    intros o Ho. by destruct o as [[]| | | | | | | |]. }
  assert (Hcore : ∀ r tr e, exec (reconcileCoreResources r) tr e → recordedEvents tr = []).
  { intros r tr' e. eapply quiet_events; [|apply core_ops]. intros o [w Hw].
    by destruct o as [[]| | | | | | | |]. }
  destruct Hb as [e|r Hd|r v tr1 tr2 res Hd H1 Hv H2|r tr1 tr2 tr3 err res Hd H1 H2 H3].
  - simpl in Hread. by apply list_elem_of_singleton in Hread.
  - done.
  - change (recordedEvents (?c :: tr1 ++ tr2)) with (recordedEvents (tr1 ++ tr2)).
    rewrite recordedEvents_app, (Hsec _ _ _ H1). by eapply handler_failure_events.
  - change (recordedEvents (?c :: tr1 ++ tr2 ++ tr3)) with (recordedEvents (tr1 ++ tr2 ++ tr3)).
    rewrite !recordedEvents_app, (Hsec _ _ _ H1), (Hcore _ _ _ H2).
    by eapply handler_failure_events.
Qed.

Lemma failure_event_matches_result_witness :
  failureEvents (recordedEvents readOnlyRun.1)
  = [(EventTypeWarning,
      "Runtime reconciliation failed: reconcile ConfigMap trussium/private-ai: timeout")].
Proof.
  rewrite (@failure_event_matches_result RefKube.lib RefKube.laws (mkReconciler true) sampleClock
    (rt_key sampleRuntime) readOnlyRun.1 readOnlyRun.2 readOnlyRun_exec eq_refl).
  - vm_compute. reflexivity.
  - exists sampleRuntime. vm_compute. left.
Defined.
