(* ===== verification/ManagedProps.v ===== *)
(** * Properties of the managed objects and of the Secret watch

    What a write makes of an existing object, that a reconciliation without
    error leaves the status that belongs to what it observed, and that a
    change of a Secret enqueues every runtime that waits for it. *)

From S2P Require Import Prelude GoStd KubeTypes ApiTypes KubeLib Resources Effects Status.
From S2P Require Import Events Reconciler RefKube Samples StatusProps UpgradeProps.
From S2P Require Import ConvergenceProps EventProps ReconcileProps.

(** ** Ownership *)

(** A write under the key of [r] that may only label and own the metadata of
    the object it finds, and that fails on an object another controller owns.
    Nothing is said of a deletion, which claims nothing. *)
Definition claims (r : TrussiumRuntime) (o : Op) : Prop :=
  match o with
  | OpCreateOrUpdate k current mutate =>
      obj_key k current = rt_key r
      ∧ ∀ x,
          (∀ x', mutate x = Ok x' →
             ∃ refs, obj_meta k x'
                     = meta_set_owners refs (meta_set_labels (runtimeLabels r) (obj_meta k x))
                     ∧ GetControllerOf refs = Some (runtimeOwner r))
          ∧ (∀ ref, GetControllerOf (om_OwnerReferences (obj_meta k x)) = Some ref →
             or_Kind ref ≠ "TrussiumRuntime" ∨ or_Name ref ≠ rt_Name r →
             ∃ e, mutate x = Err e)
  | _ => True
  end.

Section Ownership.
Context `{K8sLaws}.

(** The common shape of the mutate functions. *)
Lemma claims_mutation r k cur mutate (assemble : ObjectMeta → obj k → obj k) :
  obj_key k cur = rt_key r →
  (∀ m x, obj_meta k (assemble m x) = m) →
  (∀ x, mutate x = match mutateMeta r (runtimeLabels r) (obj_meta k x) with
                   | Ok m => Ok (assemble m x)
                   | Err e => Err e
                   end) →
  claims r (OpCreateOrUpdate k cur mutate).
Proof.
  intros Hk Hm Hmut. split; [done|]. intros x. rewrite Hmut. unfold mutateMeta. split.
  - intros x' Hx. destruct (SetControllerReference _ _) as [m|e] eqn:Hs; [|done].
    injection Hx as <-. rewrite Hm. by apply set_controller_reference_ok in Hs.
  - intros ref Hc Hn.
    destruct (set_controller_reference_conflict r
      (meta_set_labels (runtimeLabels r) (obj_meta k x)) ref Hc Hn) as [e ->]. by exists e.
Qed.

Ltac claim_write f := split; [apply (claims_mutation _ _ _ _ f); done|by intros].

Lemma core_claims r : allOps (claims r) (reconcileCoreResources r).
Proof.
  assert (Hstep : ∀ kind step rest, allOps (claims r) (step r) → allOps (claims r) rest →
    allOps (claims r) (reconcileStep r kind step rest)).
  { intros kind step rest Hs Hr. unfold reconcileStep. apply allOps_bind; [done|]. by intros [e|]. }
  unfold reconcileCoreResources. repeat apply Hstep; [..|done].
  - claim_write (λ m (x : obj KConfigMap), mkConfigMap m (runtimeConfigData r) (cm_Raw x)).
  - claim_write (λ m (x : obj KServiceAccount),
      mkServiceAccount m (Some false) (imagePullSecrets r) (sa_Raw x)).
  - claim_write (λ m (x : obj KService),
      mkService m (mkServiceSpec (desiredServiceType r) (runtimeSelectorLabels r)
        (ss_Ports (svc_Spec (buildService r))) (ss_Raw (svc_Spec x))) (svc_Raw x)).
  - claim_write (λ m (x : obj KDeployment),
      mkDeployment m
        match autoscalingEnabled r, ds_Replicas (d_Spec x) with
        | true, Some n => ds_set_replicas (Some n) (d_Spec (buildDeployment r))
        | _, _ => d_Spec (buildDeployment r)
        end (d_Status x)).
  - claim_write (λ m (x : obj KPodDisruptionBudget),
      mkPDB m (pdb_Spec (buildPodDisruptionBudget r)) (pdb_Raw x)).
  - unfold reconcileNetworkPolicy.
    destruct (spec_NetworkPolicy (rt_Spec r)) as [np|]; [destruct (rnp_Enabled np)|]; try by all_ops.
    claim_write (λ m (x : obj KNetworkPolicy),
      mkNetworkPolicy m (np_Spec (buildNetworkPolicy r np)) (np_Raw x)).
  - unfold reconcileHorizontalPodAutoscaler. destruct (autoscalingEnabled r); [|by all_ops].
    claim_write (λ m (x : obj KHorizontalPodAutoscaler),
      mkHPA m (hpa_Spec (buildHorizontalPodAutoscaler r)) (hpa_Raw x)).
Qed.

Lemma reportOp_claims r o : reportOp o → claims r o.
Proof. by destruct o. Qed.
Lemma secretOp_claims r o : secretOp o → claims r o.
Proof. by destruct o. Qed.

End Ownership.

(** ** The runtime and the observation of a reconciliation *)

(** The course of a reconciliation that read the live runtime [r]: the Secret
    check, possibly the writes, and the report. *)
Definition LiveCourse `{K8sLib} rc clk (r : TrussiumRuntime) (tr : list Call)
    (res : option GoError) : Prop :=
  ∃ v tr1 tr2 tr3 err, tr = tr1 ++ tr2 ++ tr3
    ∧ exec (validateSecretReferences r) tr1 v
    ∧ (v = validReferenceValidation ∧ exec (reconcileCoreResources r) tr2 err
       ∨ v_Valid v = false ∧ tr2 = [] ∧ err = v_Err v)
    ∧ exec (match err with
            | Some err => handleReconciliationFailure rc clk r (copyRuntimeStatus (rt_Status r)) err
            | None => reportStatus rc clk r (copyRuntimeStatus (rt_Status r)) v
            end) tr3 res.

(** Operations around the live course of a reconciliation. *)
Definition outerOp (o : Op) : Prop :=
  match o with
  | OpNow | OpCountReconciliation _ | OpObserveDuration _ _ | OpGet KTrussiumRuntime _ => True
  | _ => False
  end.

Section Live.
Context `{K8sLib}.

Lemma omap_outer {B} (f : Call → option B) tr :
  (∀ o x, outerOp o → f (mkCall o x) = None) → Forall (λ c, outerOp (call_op c)) tr →
  omap f tr = [].
Proof. intros Hf Ho. apply omap_none. eapply Forall_impl; [exact Ho|]. intros [o x]. apply Hf. Qed.

Lemma runtimeReads_app tr1 tr2 : runtimeReads (tr1 ++ tr2) = runtimeReads tr1 ++ runtimeReads tr2.
Proof. apply omap_app. Qed.

Lemma live_no_runtime rc clk r tr res : LiveCourse rc clk r tr res → runtimeReads tr = [].
Proof.
  intros (v & tr1 & tr2 & tr3 & err & -> & H1 & H2 & H3). rewrite !runtimeReads_app.
  assert (runtimeReads tr1 = []) as ->.
  { eapply (omap_ops runtimeRead secretOp); [|apply validateSecrets_ops|exact H1].
    intros o x Ho. by destruct o as [[]| | | | | | | |]. }
  assert (runtimeReads tr2 = []) as ->.
  { destruct H2 as [[_ H2]|(_ & -> & _)]; [|done].
    eapply (omap_ops runtimeRead); [|apply core_ops|exact H2].
    intros o x [w Hw]. by destruct o as [[]| | | | | | | |]. }
  eapply (omap_ops runtimeRead reportOp); [| |exact H3].
  - intros o x Ho. by destruct o as [[]| | | | | | | |].
  - destruct err; [apply handleFailure_ops|apply reportStatus_ops].
Qed.

(** A reconciliation that read [r] goes its live course or stops because [r]
    is being deleted. *)
Lemma reconcile_live rc clk req tr res r :
  exec (Reconcile rc clk req) tr res → Ok r ∈ runtimeReads tr →
  ∃ pre body post, tr = pre ++ body ++ post
    ∧ Forall (λ c, outerOp (call_op c)) pre ∧ Forall (λ c, outerOp (call_op c)) post
    ∧ (if negb (IsZero (om_DeletionTimestamp (rt_Meta r))) then body = [] ∧ res = None
       else LiveCourse rc clk r body res).
Proof.
  intros (t1 & t2 & body & Hb & ->)%reconcile_course Hin. cbv zeta in *.
  set (post := [_; _; _]) in *.
  assert (Hin' : Ok r ∈ runtimeReads body).
  { change (mkCall OpNow t1 :: ?l) with ([mkCall OpNow t1] ++ l) in Hin.
    rewrite !runtimeReads_app in Hin. simpl in Hin. by rewrite app_nil_r in Hin. }
  assert (Hfinish : ∀ r0 b, runtimeReads b = [] → body = getRuntime req (Ok r0) :: b →
    (if negb (IsZero (om_DeletionTimestamp (rt_Meta r0))) then b = [] ∧ res = None else LiveCourse rc clk r0 b res) →
    ∃ pre body' post', mkCall OpNow t1 :: body ++ post = pre ++ body' ++ post'
      ∧ Forall (λ c, outerOp (call_op c)) pre ∧ Forall (λ c, outerOp (call_op c)) post'
      ∧ (if negb (IsZero (om_DeletionTimestamp (rt_Meta r))) then body' = [] ∧ res = None
         else LiveCourse rc clk r body' res)).
  { intros r0 b Hnr -> Hc. change (runtimeReads (getRuntime req (Ok r0) :: b))
      with (Ok r0 :: runtimeReads b) in Hin'.
    rewrite Hnr in Hin'. apply list_elem_of_singleton in Hin'. injection Hin' as <-.
    exists [mkCall OpNow t1; getRuntime req (Ok r)], b, post.
    split; [done|]. split; [by repeat constructor|]. split; [by repeat constructor|]. exact Hc. }
  destruct Hb as [e|r0 Hd|r0 v tr1 tr2 res Hd H1 Hv H2|r0 tr1 tr2 tr3 err res Hd H1 H2 H3].
  - by apply list_elem_of_singleton in Hin'.
  - apply (Hfinish r0 []); [done|done|]. by rewrite Hd.
  - assert (Hlive : LiveCourse rc clk r0 (tr1 ++ tr2) res).
    { exists v, tr1, [], tr2, (v_Err v). split; [done|]. split; [done|]. split; [by right|]. done. }
    apply (Hfinish r0 (tr1 ++ tr2)); [by eapply live_no_runtime|done|]. by rewrite Hd.
  - assert (Hlive : LiveCourse rc clk r0 (tr1 ++ tr2 ++ tr3) res).
    { exists validReferenceValidation, tr1, tr2, tr3, err. split; [done|]. split; [done|]. split; [by left|]. done. }
    apply (Hfinish r0 (tr1 ++ tr2 ++ tr3)); [by eapply live_no_runtime|done|]. by rewrite Hd.
Qed.

End Live.

(** C30. Every write of a reconciliation of [r] goes to the name and namespace
    of [r], changes no metadata of the object it finds except its labels and
    owner references, makes [r] its controller, and fails, leaving the object
    alone, if the object is controlled by somebody else. *)
Theorem writes_claim_ownership `{K8sLaws} rc clk (req : NamespacedName) (tr : list Call)
    (res : option GoError) (r : TrussiumRuntime) :
  exec (Reconcile rc clk req) tr res → Ok r ∈ runtimeReads tr →
  Forall (λ c, claims r (call_op c)) tr.
Proof.
  intros He Hr. destruct (reconcile_live _ _ _ _ _ _ He Hr) as (pre & body & post & -> & Hpre & Hpost & Hb).
  assert (Hq : ∀ l, Forall (λ c, outerOp (call_op c)) l → Forall (λ c, claims r (call_op c)) l).
  { intros l Hl. eapply Forall_impl; [exact Hl|]. intros [o x] Ho. by destruct o. }
  apply Forall_app. split; [by apply Hq|]. apply Forall_app. split; [|by apply Hq].
  destruct (negb (IsZero (om_DeletionTimestamp (rt_Meta r)))); [by destruct Hb as [-> _]|].
  destruct Hb as (v & tr1 & tr2 & tr3 & err & -> & H1 & H2 & H3). rewrite !Forall_app. split_and!.
  - eapply allOps_exec; [|exact H1]. eapply allOps_mono; [apply secretOp_claims|apply validateSecrets_ops].
  - destruct H2 as [[_ H2]|(_ & -> & _)]; [|done]. eapply allOps_exec; [apply core_claims|exact H2].
  - eapply allOps_exec; [|exact H3]. eapply allOps_mono; [apply reportOp_claims|].
    destruct err; [apply handleFailure_ops|apply reportStatus_ops].
Qed.

Lemma writes_claim_ownership_witness :
  length (resourceWrites healthyRun.1) = 7
  ∧ Forall (λ c, claims sampleRuntime (call_op c)) healthyRun.1.
Proof.
  split; [vm_compute; reflexivity|].
  apply (@writes_claim_ownership RefKube.lib RefKube.laws (mkReconciler true) sampleClock
    (rt_key sampleRuntime) healthyRun.1 healthyRun.2 sampleRuntime healthyRun_exec).
  vm_compute. left.
Defined.

(** ** The Deployment *)

Section DeploymentWrites.
Context `{K8sLaws}.

(** The replica count a write leaves in the Deployment it found as [x]. *)
Definition writtenReplicas (r : TrussiumRuntime) (x : Deployment) : Z :=
  if autoscalingEnabled r then default (desiredAutoscalingMinReplicas r) (ds_Replicas (d_Spec x))
  else desiredReplicas r.

Lemma mutateDeployment_spec r x x' :
  mutateDeployment r x = Ok x' →
  d_Spec x' = ds_set_replicas (Some (writtenReplicas r x)) (d_Spec (buildDeployment r))
  ∧ d_Status x' = d_Status x.
Proof.
  unfold mutateDeployment, writtenReplicas. destruct (mutateMeta _ _ _) as [m|e]; [|done].
  intros Hx. injection Hx as <-. split; [|done]. simpl.
  destruct (autoscalingEnabled r) eqn:Ha; [destruct (ds_Replicas (d_Spec x)); [done|]|];
    unfold buildDeployment, initialDeploymentReplicas; by rewrite Ha.
Qed.

(** On an object of the runtime's namespace that nobody controls, the write
    goes through. *)
Lemma mutate_free r (x : Deployment) (cm : ConfigMap) :
  om_Namespace (d_Meta x) = rt_Namespace r → om_OwnerReferences (d_Meta x) = [] →
  om_Namespace (cm_Meta cm) = rt_Namespace r → om_OwnerReferences (cm_Meta cm) = [] →
  (∃ x', mutateDeployment r x = Ok x') ∧ ∃ cm', mutateConfigMap r cm = Ok cm'.
Proof.
  assert (Hfree : ∀ l m, om_Namespace m = rt_Namespace r → om_OwnerReferences m = [] →
    ∃ m', mutateMeta r l m = Ok m').
  { intros l m Hn Ho. apply set_controller_reference_free; [done|]. simpl. by rewrite Ho. }
  intros Hn Ho Hn' Ho'. unfold mutateDeployment, mutateConfigMap. split.
  - destruct (Hfree (om_Labels (d_Meta (buildDeployment r))) _ Hn Ho) as [m' ->]. eauto.
  - destruct (Hfree (om_Labels (cm_Meta (buildConfigMap r))) _ Hn' Ho') as [m' ->]. eauto.
Qed.

End DeploymentWrites.

(** C31. A write of the Deployment keeps its status; sets the declared number
    of replicas, or keeps the number the autoscaler chose; the status
    computation then compares with exactly that number; the Pod template runs
    the desired image and is stamped with the checksum of the ConfigMap data
    written by the same reconciliation; and writing again changes the
    specification no further. *)
Theorem deployment_write `{K8sLaws} (r : TrussiumRuntime) (x x' : Deployment)
    (cm cm' : ConfigMap) :
  mutateDeployment r x = Ok x' → mutateConfigMap r cm = Ok cm' →
  d_Status x' = d_Status x
  ∧ ds_Replicas (d_Spec x') = Some (writtenReplicas r x)
  ∧ desiredReplicaCount r (Some x') = writtenReplicas r x
  ∧ deploymentCurrentImage (Some x') = runtimeImage (spec_Image (rt_Spec r))
  ∧ om_Annotations (pt_Meta (ds_Template (d_Spec x'))) !! runtimeConfigChecksumAnnotation
    = Some (runtimeConfigChecksum (cm_Data cm'))
  ∧ ∀ x'', mutateDeployment r x' = Ok x'' → d_Spec x'' = d_Spec x'.
Proof.
  intros Hx Hcm. destruct (mutateDeployment_spec _ _ _ Hx) as [Hspec Hstat].
  assert (Hrep : ds_Replicas (d_Spec x') = Some (writtenReplicas r x)) by by rewrite Hspec.
  assert (Hagain : writtenReplicas r x' = writtenReplicas r x).
  { unfold writtenReplicas in *. rewrite Hrep. by destruct (autoscalingEnabled r). }
  split_and!; try done.
  - unfold desiredReplicaCount. rewrite Hrep. unfold writtenReplicas, initialDeploymentReplicas.
    by destruct (autoscalingEnabled r).
  - unfold deploymentCurrentImage. by rewrite Hspec.
  - rewrite Hspec. unfold mutateConfigMap in Hcm.
    destruct (mutateMeta _ _ _); [|done]. injection Hcm as <-. apply lookup_insert_eq.
  - intros x'' Hx''. destruct (mutateDeployment_spec _ _ _ Hx'') as [-> _].
    by rewrite Hagain, Hspec.
Qed.

(** The Deployment the reconciler starts from when none exists. *)
Definition newDeployment : Deployment :=
  mkDeployment (nameOnly sampleRuntime) emptyDeploymentSpec zeroDeploymentStatus.

Lemma deployment_write_witness :
  ∃ x', @mutateDeployment RefKube.lib sampleRuntime newDeployment = Ok x'
        ∧ ds_Replicas (d_Spec x') = Some 2%Z.
Proof.
  destruct (@mutate_free RefKube.lib RefKube.laws sampleRuntime newDeployment
    (mkConfigMap (nameOnly sampleRuntime) ∅ noRaw) eq_refl eq_refl eq_refl eq_refl)
    as [[x' Hx] [cm' Hcm]].
  exists x'. split; [exact Hx|].
  destruct (@deployment_write RefKube.lib RefKube.laws sampleRuntime newDeployment x' _ cm' Hx Hcm)
    as (_ & Hr & _).
  exact Hr.
Defined.

(** ** What a reconciliation without error leaves behind *)

Definition deploymentRead (c : Call) : option (result Deployment) :=
  match c with
  | mkCall o resp =>
      match o as o return Resp o → option (result Deployment) with
      | OpGet k _ =>
          match k as k return result (obj k) → option (result Deployment) with
          | KDeployment => λ resp, Some resp
          | _ => λ _, None
          end
      | _ => λ _, None
      end resp
  end.

Definition serviceRead (c : Call) : option (result Service) :=
  match c with
  | mkCall o resp =>
      match o as o return Resp o → option (result Service) with
      | OpGet k _ =>
          match k as k return result (obj k) → option (result Service) with
          | KService => λ resp, Some resp
          | _ => λ _, None
          end
      | _ => λ _, None
      end resp
  end.

Definition result_ok {A} (r : result A) : option A :=
  match r with Ok a => Some a | Err _ => None end.

(** The observation is what the reads of the Deployment and the Service
    returned, where a failed read found nothing. *)
Definition observedIn (tr : list Call) (obs : runtimeObservation) : Prop :=
  result_ok <$> omap deploymentRead tr = [obs_Deployment obs]
  ∧ result_ok <$> omap serviceRead tr = [obs_Service obs].

Section Outcome.
Context `{K8sLaws}.

Lemma load_observed r tr obs : exec (loadRuntimeObservation r) tr (Ok obs) → observedIn tr obs.
Proof.
  intros He. unfold loadRuntimeObservation in He.
  apply exec_bind in He as (x1 & y1 & d & -> & H1 & He). apply exec_perform in H1 as ->.
  assert (Hservice : ∀ (od : option Deployment) tr,
    exec (service ← perform (OpGet KService (rt_key r));
          match service with
          | Ok s => mret (Ok (mkObservation od (Some s)))
          | Err err =>
              if IsNotFound err then mret (Ok (mkObservation od None))
              else mret (Err (Errorf ("get managed Service " +:+
                     slashed (key_Namespace (rt_key r)) (key_Name (rt_key r)) +:+ ": ") err))
          end) tr (Ok obs) →
    omap deploymentRead tr = [] ∧ od = obs_Deployment obs
    ∧ result_ok <$> omap serviceRead tr = [obs_Service obs]).
  { intros od tr' He'. apply exec_bind in He' as (x2 & y2 & s & -> & H2 & He').
    apply exec_perform in H2 as ->.
    destruct s as [s|e]; [|destruct (IsNotFound e)]; apply exec_ret in He' as [-> Heq];
      try done; injection Heq as ->; done. }
  destruct d as [d|e]; [|destruct (IsNotFound e)].
  - destruct (Hservice _ _ He) as (Hd & Ho & Hs). split; [|exact Hs].
    rewrite omap_app, Hd. simpl. by rewrite Ho.
  - destruct (Hservice _ _ He) as (Hd & Ho & Hs). split; [|exact Hs].
    rewrite omap_app, Hd. simpl. by rewrite Ho.
  - by apply exec_ret in He as [_ ?].
Qed.

(** Programs that read neither object keep an observation. *)
Lemma observedIn_around tr1 tr2 tr3 obs :
  omap deploymentRead tr1 = [] → omap serviceRead tr1 = [] →
  omap deploymentRead tr3 = [] → omap serviceRead tr3 = [] →
  observedIn tr2 obs → observedIn (tr1 ++ tr2 ++ tr3) obs.
Proof.
  intros H1 H2 H3 H4 [Hd Hs]. unfold observedIn. rewrite !omap_app, H1, H2, H3, H4. simpl.
  by rewrite !app_nil_r.
Qed.

Lemma events_no_reads es :
  omap deploymentRead (map eventCall es) = [] ∧ omap serviceRead (map eventCall es) = [].
Proof. split; apply omap_none; by induction es; constructor. Qed.

Lemma update_no_reads r s tr res :
  exec (updateRuntimeStatus r s) tr res →
  omap deploymentRead tr = [] ∧ omap serviceRead tr = [].
Proof.
  destruct res as [[b err] r']. intros He.
  by destruct (update_exec _ _ _ _ _ _ He) as [(_ & -> & _)|(_ & resp & -> & _)].
Qed.

(** The report of a reconciliation without error. *)
Lemma report_outcome rc clk r prev v tr :
  exec (reportStatus rc clk r prev v) tr None →
  ∃ obs, observedIn tr obs ∧ leavesStatus tr r (reportedStatus clk r obs (Observed v)).
Proof.
  intros (obs & Hleaves & tr1 & tu & es & u & -> & Hl & Hu)%report_leaves. exists obs.
  split; [|done]. destruct (update_no_reads _ _ _ _ Hu) as [H1 H2].
  destruct (events_no_reads es) as [H3 H4].
  apply (observedIn_around []); try done; [..|by eapply load_observed];
    rewrite omap_app; by rewrite ?H1, ?H2, ?H3, ?H4.
Qed.

(** The Secret check and the writes update no status and read no workload. *)
Lemma before_report r v tr1 tr2 (err : option GoError) :
  exec (validateSecretReferences r) tr1 v →
  (v = validReferenceValidation ∧ exec (reconcileCoreResources r) tr2 err
   ∨ v_Valid v = false ∧ tr2 = [] ∧ err = v_Err v) →
  statusUpdates (tr1 ++ tr2) = [] ∧ omap deploymentRead (tr1 ++ tr2) = []
  ∧ omap serviceRead (tr1 ++ tr2) = [].
Proof.
  intros H1 H2.
  assert (Hsec : ∀ B (f : Call → option B), (∀ o x, secretOp o → f (mkCall o x) = None) →
    omap f tr1 = []).
  { intros B f Hf. eapply (omap_ops f secretOp); [done|apply validateSecrets_ops|exact H1]. }
  assert (Hcore : ∀ B (f : Call → option B),
    (∀ o x, is_Some (resourceWrite o) → f (mkCall o x) = None) → omap f tr2 = []).
  { intros B f Hf. destruct H2 as [[_ H2]|(_ & -> & _)]; [|done].
    eapply (omap_ops f); [exact Hf|apply core_ops|exact H2]. }
  unfold statusUpdates.
  split_and!; (rewrite omap_app, Hsec, Hcore; [done|..]);
    intros o x Ho; try destruct Ho as [w Hw]; by destruct o as [[]| | | | | | | |].
Qed.

End Outcome.

Section Settled.
Context `{K8sLaws}.

(** A Secret check without error: every Secret exists or a missing one is
    named. *)
Lemma validate_outcome r tr v :
  exec (validateSecretReferences r) tr v → v_Err v = None →
  v = validReferenceValidation
  ∨ v_Valid v = false ∧ ∃ name, name ∈ referencedSecretNames r ∧ v = missingSecret name.
Proof.
  intros He Hn. destruct (validate_exec _ _ _ _ He) as [[-> _]|(Hv & name & e & pre & Hin & Htr & _ & Hif)];
    [by left|]. right. split; [done|]. exists name. split; [done|].
  assert (Hread : (mkKey (rt_Namespace r) name, Err e) ∈ secretReads tr).
  { rewrite Htr, secretReads_app. apply elem_of_app. right. by left. }
  destruct (validate_failed _ _ _ _ _ He Hread) as (_ & _ & _ & Hm). apply Hm.
  destruct (IsNotFound e); [done|]. destruct Hif as [p Hp]. congruence.
Qed.

End Settled.

(** C7. A reconciliation of a live runtime that returns nil either wrote all
    seven managed objects, or wrote none because it found a referenced Secret
    missing; in both cases the status computed from the Deployment and the
    Service it read is the stored status afterwards: it was stored before or
    was written, once. *)
Theorem successful_reconcile_outcome `{K8sLaws} rc clk (req : NamespacedName) (tr : list Call)
    (r : TrussiumRuntime) :
  exec (Reconcile rc clk req) tr None → Ok r ∈ runtimeReads tr →
  IsZero (om_DeletionTimestamp (rt_Meta r)) = true →
  ∃ v obs, observedIn tr obs ∧ leavesStatus tr r (reportedStatus clk r obs (Observed v))
    ∧ ((v = validReferenceValidation ∧ resourceWrites tr = managedWrites r)
       ∨ ∃ name, name ∈ referencedSecretNames r ∧ v = missingSecret name ∧ resourceWrites tr = []).
Proof.
  intros He Hr Hdel.
  destruct (reconcile_live _ _ _ _ _ _ He Hr) as (pre & body & post & -> & Hpre & Hpost & Hb).
  rewrite Hdel in Hb. destruct Hb as (v & tr1 & tr2 & tr3 & err & -> & H1 & H2 & H3).
  destruct err as [e|]; [by apply handleFailure_some in H3|].
  destruct (report_outcome _ _ _ _ _ _ H3) as (obs & Hobs & Hleaves).
  destruct (before_report _ _ _ _ _ H1 H2) as (Hu & Hd & Hs).
  assert (Hout : ∀ B (f : Call → option B), (∀ o x, outerOp o → f (mkCall o x) = None) →
    omap f pre = [] ∧ omap f post = []) by (intros B f Hf; split; by apply omap_outer).
  destruct (Hout _ statusUpdate) as [Hu1 Hu2]; [intros o x Ho; by destruct o|].
  destruct (Hout _ deploymentRead) as [Hd1 Hd2]; [intros o x Ho; by destruct o as [[]| | | | | | | |]|].
  destruct (Hout _ serviceRead) as [Hs1 Hs2]; [intros o x Ho; by destruct o as [[]| | | | | | | |]|].
  destruct (Hout _ (λ c, resourceWrite (call_op c))) as [Hw1 Hw2]; [intros o x Ho; by destruct o|].
  exists v, obs.
  replace (pre ++ (tr1 ++ tr2 ++ tr3) ++ post) with ((pre ++ tr1 ++ tr2) ++ tr3 ++ post)
    by by rewrite <-!app_assoc.
  split_and!.
  - apply observedIn_around; try done; rewrite omap_app; [by rewrite Hd1|by rewrite Hs1].
  - rewrite statusUpdates_app in Hu. apply app_nil in Hu as [Hua Hub]. unfold leavesStatus.
    fold (statusUpdates pre) in Hu1. fold (statusUpdates post) in Hu2.
    rewrite !statusUpdates_app, Hua, Hub, Hu1, Hu2. simpl. rewrite app_nil_r. exact Hleaves.
  - unfold resourceWrites in *. rewrite !omap_app, Hw1, Hw2, app_nil_r.
    assert (omap (λ c, resourceWrite (call_op c)) tr3 = []) as -> by exact (report_writes _ _ _ (reportStatus_ops _ _ _ _ _) H3).
    assert (omap (λ c, resourceWrite (call_op c)) tr1 = []) as -> by exact (validate_writes _ _ _ H1).
    simpl. rewrite app_nil_r. destruct H2 as [[-> H2]|(Hv & -> & Hn)].
    + left. split; [done|]. by apply (core_writes r tr2 None H2).
    + right. destruct (validate_outcome _ _ _ H1 (eq_sym Hn)) as [->|(_ & name & Hin & ->)]; [done|].
      by exists name.
Qed.

Lemma successful_reconcile_outcome_witness :
  ∃ v obs, @leavesStatus healthyRun.1 sampleRuntime
    (@reportedStatus RefKube.lib sampleClock sampleRuntime obs (Observed v)).
Proof.
  destruct (@successful_reconcile_outcome RefKube.lib RefKube.laws (mkReconciler true) sampleClock
    (rt_key sampleRuntime) healthyRun.1 sampleRuntime) as (v & obs & _ & Hl & _).
  - pose proof healthyRun_exec as He.
    assert (Hn : healthyRun.2 = None) by (vm_compute; reflexivity). rewrite Hn in He. exact He.
  - vm_compute. left.
  - reflexivity.
  - exists v, obs. exact Hl.
Defined.

(** ** The Secret watch *)

Section SecretWatch.

Lemma collect_names_elem (refs : list NamedReference) (m : gmap string ()) name :
  is_Some (foldl (λ acc ref, <[nr_Name ref := tt]> acc) m refs !! name)
  ↔ is_Some (m !! name) ∨ name ∈ nr_Name <$> refs.
Proof.
  revert m. induction refs as [|ref refs IH]; intros m; simpl.
  - split; [by left|]. intros [?|Hn]; [done|by apply not_elem_of_nil in Hn].
  - rewrite IH, elem_of_cons. destruct (decide (nr_Name ref = name)) as [<-|Hne].
    + rewrite lookup_insert_eq. split; [by auto|]. intros _. left. by eexists.
    + rewrite lookup_insert_ne by done. intuition congruence.
Qed.

Lemma referenced_elem r name :
  name ∈ referencedSecretNames r ↔
  skr_Name <$> prov_CredentialsSecretRef (spec_Provider (rt_Spec r)) = Some name
  ∨ name ∈ nr_Name <$> spec_ImagePullSecrets (rt_Spec r).
Proof.
  unfold referencedSecretNames. rewrite elem_of_sortStrings, elem_of_mapKeys, collect_names_elem.
  destruct (prov_CredentialsSecretRef (spec_Provider (rt_Spec r))) as [ref|]; simpl.
  - rewrite lookup_singleton_is_Some. split; (intros [Hx|Hx]; [left|by right]); congruence.
  - rewrite lookup_empty. split; (intros [Hx|Hx]; [|by right]); [by destruct Hx|done].
Qed.

Lemma collect_requests (f : TrussiumRuntime → bool) items acc :
  foldl (λ requests r, if f r then requests ++ [rt_key r] else requests) acc items
  = acc ++ (rt_key <$> filter (λ r, f r = true) items).
Proof.
  revert acc. induction items as [|r items IH]; intros acc; [by rewrite app_nil_r|]. simpl.
  rewrite IH, filter_cons. destruct (f r) eqn:Hf.
  - rewrite decide_True by done. by rewrite <-app_assoc.
  - by rewrite decide_False by done.
Qed.

End SecretWatch.

(** The Secret check reads each name the runtime references as provider
    credential or image pull secret, once each and in a fixed order. *)
Theorem referenced_secret_names_exact (r : TrussiumRuntime) :
  (∀ name, name ∈ referencedSecretNames r ↔
     skr_Name <$> prov_CredentialsSecretRef (spec_Provider (rt_Spec r)) = Some name
     ∨ name ∈ nr_Name <$> spec_ImagePullSecrets (rt_Spec r))
  ∧ NoDup (referencedSecretNames r)
  ∧ StronglySorted String.le (referencedSecretNames r).
Proof.
  split; [intros name; apply referenced_elem|]. split; [|apply sortStrings_sorted].
  unfold referencedSecretNames. rewrite sortStrings_perm. apply NoDup_mapKeys.
Qed.

(** A change of a Secret enqueues exactly the runtimes of its namespace
    that reference it, in list order; in particular every runtime whose last
    Secret check could not read this Secret is reconciled again. *)
Theorem secret_change_enqueues `{K8sLib} (secret : Secret) (tr : list Call)
    (reqs : list NamespacedName) :
  exec (mapSecretToRuntimes secret) tr reqs →
  ∃ resp, tr = [mkCall (OpListRuntimes (om_Namespace (sec_Meta secret))) resp]
    ∧ reqs = match resp with
             | Ok items => rt_key <$> filter
                 (λ r, om_Name (sec_Meta secret) ∈ referencedSecretNames r) items
             | Err _ => []
             end
    ∧ ∀ items r tr' v e, resp = Ok items → r ∈ items →
        exec (validateSecretReferences r) tr' v →
        (meta_key (sec_Meta secret), Err e) ∈ secretReads tr' → rt_key r ∈ reqs.
Proof.
  intros He. unfold mapSecretToRuntimes in He.
  apply exec_bind in He as (x & y & resp & -> & H1 & He). apply exec_perform in H1 as ->.
  exists resp.
  assert (Hreqs : y = [] ∧ reqs = match resp with
    | Ok items => rt_key <$> filter
        (λ r, om_Name (sec_Meta secret) ∈ referencedSecretNames r) items
    | Err _ => [] end).
  { destruct resp as [items|e]; apply exec_ret in He as [-> ->]; [|done]. split; [done|].
    rewrite collect_requests. simpl. f_equal. apply list_filter_iff.
    intros r. apply slicesContains_spec. }
  destruct Hreqs as [-> ->]. split; [done|]. split; [done|].
  intros items r tr' v e -> Hin Hv Hread. apply list_elem_of_fmap_2, list_elem_of_filter.
  split; [|done]. by destruct (validate_failed _ _ _ _ _ Hv Hread) as (_ & _ & Hname & _).
Qed.

Lemma secret_change_enqueues_witness :
  let run := replay healthyAnswers (mapSecretToRuntimes sampleSecret) in
  run.2 = [mkKey "trussium" "private-ai"; mkKey "trussium" "public-ai"].
Proof.
  intros run.
  destruct (@secret_change_enqueues RefKube.lib sampleSecret run.1 run.2
    (exec_replay healthyAnswers (mapSecretToRuntimes sampleSecret))) as (resp & Htr & Hr & _).
  rewrite Hr. apply (f_equal (omap (λ c, match c with
    | mkCall o x => match o as o return Resp o → option (result (list TrussiumRuntime)) with
        | OpListRuntimes _ => λ x, Some x | _ => λ _, None end x end))) in Htr.
  simpl in Htr. injection Htr as <-. vm_compute. reflexivity.
Defined.
