(* ===== verification/ManagerProps.v ===== *)
(** * Properties of the process set-up

    The permissions the operator asks for suffice for everything it does, the
    controller watches everything the reconciler reads or writes, and the
    options of the manager have safe defaults. *)

From S2P Require Import Prelude GoStd KubeTypes ApiTypes KubeLib Resources Effects Status.
From S2P Require Import Events Reconciler Manager CommandLine RefKube Samples StatusProps UpgradeProps.
From S2P Require Import ConvergenceProps EventProps ReconcileProps ManagedProps.

(** ** Permissions *)

(** The kind of object an operation reads or writes. *)
Definition touchedKind (o : Op) : option Kind :=
  match o with
  | OpGet k _ => Some k
  | OpListRuntimes _ => Some KTrussiumRuntime
  | OpCreateOrUpdate k _ _ => Some k
  | OpDelete k _ => Some k
  | OpStatusUpdate _ => Some KTrussiumRuntime
  | _ => None
  end.

Definition watchedKinds (s : ControllerSetup) : list Kind :=
  (cs_For s).1 :: cs_Owns s ++ (cs_Watches s).*1.

Section Operations.
Context `{K8sLib}.

(** A property that holds of each operation the reconciler uses holds of all
    its operations. *)
Lemma reconcile_ops (P : Op → Prop) rc clk req tr res :
  (∀ key, P (OpGet KTrussiumRuntime key)) → (∀ o, secretOp o → P o) → (∀ o, reportOp o → P o) →
  (∀ k cur m, k ∈ managedKinds → P (OpCreateOrUpdate k cur m)) →
  (∀ k key, k ∈ managedKinds → P (OpDelete k key)) →
  P OpNow → (∀ l, P (OpCountReconciliation l)) → (∀ l d, P (OpObserveDuration l d)) →
  exec (Reconcile rc clk req) tr res → Forall (λ c, P (call_op c)) tr.
Proof.
  intros Hrt Hsec Hrep Hcu Hdel Hnow Hcount Hobs (t1 & t2 & body & Hb & ->)%reconcile_course.
  assert (Hhandler : ∀ r v (err : option GoError) tr res,
    exec (match err with
          | Some err => handleReconciliationFailure rc clk r (copyRuntimeStatus (rt_Status r)) err
          | None => reportStatus rc clk r (copyRuntimeStatus (rt_Status r)) v
          end) tr res → Forall (λ c, P (call_op c)) tr).
  { intros r v err tr' res' He. eapply allOps_exec; [|exact He]. eapply allOps_mono; [apply Hrep|].
    destruct err; [apply handleFailure_ops|apply reportStatus_ops]. }
  assert (Hvalid : ∀ r tr v, exec (validateSecretReferences r) tr v →
    Forall (λ c, P (call_op c)) tr).
  { intros r tr' v He. eapply allOps_exec; [|exact He].
    eapply allOps_mono; [apply Hsec|apply validateSecrets_ops]. }
  assert (Hcore : ∀ r, allOps P (reconcileCoreResources r)).
  { intros r.
    assert (Hstep : ∀ kind step rest, allOps P (step r) → allOps P rest →
      allOps P (reconcileStep r kind step rest)).
    { intros kind step rest Hs Hr. unfold reconcileStep. apply allOps_bind; [done|]. by intros [e|]. }
    assert (Hin : ∀ k, bool_decide (k ∈ managedKinds) = true → k ∈ managedKinds)
      by (intros k; apply bool_decide_eq_true).
    unfold reconcileCoreResources. repeat apply Hstep; try done;
      try (split; [apply Hcu, Hin; reflexivity|by intros]).
    - unfold reconcileNetworkPolicy.
      destruct (spec_NetworkPolicy (rt_Spec r)) as [np|]; [destruct (rnp_Enabled np)|];
        all_ops; try split; try by intros; first [apply Hcu|apply Hdel]; apply Hin; reflexivity.
    - unfold reconcileHorizontalPodAutoscaler. destruct (autoscalingEnabled r);
        all_ops; try split; try by intros; first [apply Hcu|apply Hdel]; apply Hin; reflexivity. }
  cbv zeta. rewrite Forall_cons, Forall_app, !Forall_cons, Forall_nil. simpl.
  split; [done|]. split; [|auto].
  destruct Hb as [e|r t Hd|r v tr1 tr2 res Hd H1 Hv H2|r tr1 tr2 tr3 err res Hd H1 H2 H3];
    rewrite Forall_cons; (split; [apply Hrt|]); rewrite ?Forall_app; [done|done|..];
    split_and!; eauto using allOps_exec.
Qed.

End Operations.

(** C37. Whatever the API server answers, every operation of a reconciliation
    and of the Secret mapping is covered by the RBAC rules the operator asks
    for; in particular Secrets and the specification of runtimes are never
    written. *)
Theorem operations_permitted `{K8sLib} rc clk (req : NamespacedName) (secret : Secret)
    (tr1 tr2 : list Call) (res : option GoError) (reqs : list NamespacedName) :
  exec (Reconcile rc clk req) tr1 res → exec (mapSecretToRuntimes secret) tr2 reqs →
  Forall (λ c, permitted (call_op c) = true) (tr1 ++ tr2).
Proof.
  intros H1 H2. apply Forall_app. split.
  - eapply (reconcile_ops (λ o, permitted o = true)); [..|exact H1]; try done.
    + intros o Ho. destruct o as [[]| | | | | | | |]; try done; reflexivity.
    + intros o Ho. destruct o as [[]| | | | | | | |]; try done; reflexivity.
    + intros k cur m Hk. assert (Hall : Forall (λ k, ∀ cur m, permitted (OpCreateOrUpdate k cur m) = true) managedKinds)
        by (repeat constructor). by apply (proj1 (Forall_forall _ _) Hall k Hk).
    + intros k key Hk. assert (Hall : Forall (λ k, ∀ key, permitted (OpDelete k key) = true) managedKinds)
        by (repeat constructor). by apply (proj1 (Forall_forall _ _) Hall k Hk).
  - unfold mapSecretToRuntimes in H2. apply exec_bind in H2 as (x & y & resp & -> & Hp & He).
    apply exec_perform in Hp as ->. destruct resp; apply exec_ret in He as [-> _];
      constructor; done.
Qed.

Lemma operations_permitted_witness :
  Forall (λ c, permitted (call_op c) = true)
    (healthyRun.1 ++ (replay healthyAnswers (mapSecretToRuntimes sampleSecret)).1).
Proof.
  exact (@operations_permitted RefKube.lib (mkReconciler true) sampleClock (rt_key sampleRuntime)
    sampleSecret healthyRun.1 _ healthyRun.2 _ healthyRun_exec
    (exec_replay healthyAnswers (mapSecretToRuntimes sampleSecret))).
Defined.

(** The controller watches every kind of object that a reconciliation
    reads or writes, and owns every kind it creates, updates or deletes, so
    that outside changes of them reach the reconciler. *)
Theorem touched_kinds_watched `{K8sLib} rc clk (req : NamespacedName) (tr : list Call)
    (res : option GoError) :
  exec (Reconcile rc clk req) tr res →
  Forall (λ c, (∀ k, touchedKind (call_op c) = Some k → k ∈ watchedKinds SetupWithManager)
             ∧ (∀ k key, resourceWrite (call_op c) = Some (k, key) →
                         k ∈ cs_Owns SetupWithManager)) tr.
Proof.
  assert (Hin : ∀ k, k ∈ watchedKinds SetupWithManager).
  { intros k. apply (bool_decide_unpack _). by destruct k. }
  apply (reconcile_ops (λ o, (∀ k, touchedKind o = Some k → k ∈ watchedKinds SetupWithManager)
    ∧ (∀ k key, resourceWrite o = Some (k, key) → k ∈ cs_Owns SetupWithManager))); try done.
  - intros o Ho. split; [auto|]. by destruct o as [[]| | | | | | | |].
  - intros o Ho. split; [auto|]. by destruct o as [[]| | | | | | | |].
  - intros k cur m Hk. split; [auto|]. intros k' key Hw. by injection Hw as <- _.
  - intros k key Hk. split; [auto|]. intros k' key' Hw. by injection Hw as <- _.
Qed.

Lemma touched_kinds_watched_witness :
  Forall (λ c, ∀ k, touchedKind (call_op c) = Some k → k ∈ watchedKinds SetupWithManager)
    healthyRun.1.
Proof.
  eapply Forall_impl.
  - exact (@touched_kinds_watched RefKube.lib (mkReconciler true) sampleClock (rt_key sampleRuntime)
      healthyRun.1 healthyRun.2 healthyRun_exec).
  - intros c [Hc _]. exact Hc.
Defined.

(** ** Scheme *)

Lemma init_knows `{SchemeLaws} :
  ∃ scheme, init = Some scheme ∧ ∀ k, kindVersion k ∈ scheme.
Proof.
  destruct (client_go_adds ∅) as (s & Hs & Hk). unfold init, AddToScheme, SchemeBuilder.
  rewrite Hs, builder_add. unfold addKnownTypes. eexists. split; [done|].
  intros k. apply add_group_version_keeps. destruct (decide (k = KTrussiumRuntime)) as [->|Hne].
  - apply add_known_types. by left.
  - by apply add_known_types_keeps, Hk.
Qed.

(** Registration as insertion into the set. *)
Module RefScheme.

Definition builtin : list Kind :=
  [KSecret; KConfigMap; KServiceAccount; KService; KDeployment; KPodDisruptionBudget;
   KNetworkPolicy; KHorizontalPodAutoscaler].

#[export] Instance lib : SchemeLib := {|
  AddKnownTypes gv kinds s := list_to_set ((λ kind, (gv, kind)) <$> kinds) ∪ s;
  AddToGroupVersion gv s := {[(gv, "WatchEvent")]} ∪ s;
  BuilderAddToScheme fs s :=
    foldl (λ acc f, match acc with Ok s => f s | Err e => Err e end) (Ok s) fs;
  ClientGoAddToScheme s := Ok (list_to_set (kindVersion <$> builtin) ∪ s)
|}.

#[export] Instance laws : @SchemeLaws lib.
Proof.
  split; try done.
  - intros gv kinds s kind Hin. apply elem_of_union_l, elem_of_list_to_set.
    by apply (list_elem_of_fmap_2 (λ kind, (gv, kind))).
  - intros gv kinds s x Hx. unfold AddKnownTypes, lib. set_solver.
  - intros gv s x Hx. unfold AddToGroupVersion, lib. set_solver.
  - intros s. eexists. split; [done|]. intros k Hk. apply elem_of_union_l, elem_of_list_to_set.
    apply list_elem_of_fmap_2. apply (bool_decide_unpack _). by destruct k.
Qed.

End RefScheme.

(** A registry as the list of its collectors. *)
Module RefRegistry.

Definition register (c : Collector) (reg : option (list Collector)) : option (list Collector) :=
  l ← reg;
  if validCollector c && negb (bool_decide (collectorName c ∈ collectorName <$> l))
  then Some (c :: l) else None.

#[export] Instance lib : RegistryLib (list Collector) := {|
  MustRegister cs reg := foldr register (Some reg) cs;
  gathered reg := reg
|}.

#[export] Instance laws : RegistryLaws (list Collector).
Proof.
  intros cs reg. induction cs as [|c cs IH]; intros Hv Hnd Hnew; simpl.
  - exists reg. split; [done|]. set_solver.
  - apply Forall_cons in Hv as [Hc Hv]. apply NoDup_cons in Hnd as [Hn Hnd].
    destruct IH as (l & Hl & Hin); [done|done|set_solver|]. simpl in Hl. rewrite Hl. simpl.
    rewrite Hc, bool_decide_false; simpl.
    + exists (c :: l). split; [done|]. set_solver.
    + intros (c' & Heq & Hc')%list_elem_of_fmap. apply Hin in Hc' as [Hc'|Hc'].
      * apply Hn. rewrite Heq. by apply list_elem_of_fmap_2.
      * by apply (Hnew c c'); [left|..].
Qed.

End RefRegistry.

(** ** Manager options *)

(** The configuration of a server's connections after its options. *)
Definition negotiated (o : ServerOptions) (c : TLSConfig) : list string :=
  tls_NextProtos (foldl (λ c f, f c) c (so_TLSOpts o)).

(** The collectors are valid, so they can be registered beside others. *)
Lemma metrics_registered `{RegistryLaws R} (reg : R) :
  (∀ c, c ∈ gathered reg → collectorName c ≠ "trussium_operator_runtime_reconciliations_total"
     ∧ collectorName c ≠ "trussium_operator_runtime_reconciliation_duration_seconds") →
  ∃ reg', initMetrics reg = Some reg' ∧ runtimeReconciliationsTotal ∈ gathered reg'
    ∧ runtimeReconciliationDurationSeconds ∈ gathered reg'.
Proof.
  intros Hnew.
  destruct (must_register [runtimeReconciliationsTotal; runtimeReconciliationDurationSeconds] reg)
    as (reg' & Hreg & Hin).
  - by repeat constructor.
  - by apply (bool_decide_unpack _).
  - intros c c' Hc Hc'. destruct (Hnew c' Hc').
    apply elem_of_cons in Hc as [->|Hc]; [done|]. by apply list_elem_of_singleton in Hc as ->.
  - exists reg'. split; [exact Hreg|]. by split; apply Hin; left; [left|right; left].
Qed.

(** C38. Start-up: both servers refuse HTTP/2 unless the flag enables it; the
    metrics endpoint authenticates its clients exactly when it is served
    securely, which is the default; with a watch namespace the cache is limited
    to it; the arguments of the Helm chart are read as flags, to exactly the
    leader election and watch namespace its values ask for and a secured metrics
    endpoint on port 8443; the manager starts only after every earlier step succeeded, and the
    exit status is 0 exactly when no step failed.  The scheme is built without a
    panic and knows every kind of object the operator reads or writes, under the
    API version that owner references to the runtime carry; and both collectors
    are registered without a panic in a registry that does not know their names. *)
Theorem startup_safe `{SchemeLaws} `{LibraryFlags L} `{RegistryLaws R} (f : Flags) (c : TLSConfig)
    (outcome : StartupStep → option GoError) (z : L) :
  let o := managerOptions f in
  (∃ scheme, init = Some scheme ∧ (∀ k, kindVersion k ∈ scheme)
     ∧ ∀ r, (or_APIVersion (runtimeOwner r), or_Kind (runtimeOwner r)) ∈ scheme)
  ∧ (∀ reg : R,
       (∀ c, c ∈ gathered reg → collectorName c ≠ "trussium_operator_runtime_reconciliations_total"
          ∧ collectorName c ≠ "trussium_operator_runtime_reconciliation_duration_seconds") →
       ∃ reg', initMetrics reg = Some reg' ∧ runtimeReconciliationsTotal ∈ gathered reg'
         ∧ runtimeReconciliationDurationSeconds ∈ gathered reg')
  ∧ (enableHTTP2 f = false →
     negotiated (opt_Metrics o) c = ["http/1.1"] ∧ negotiated (opt_Webhook o) c = ["http/1.1"])
  ∧ (so_SecureServing (opt_Metrics o) = true ↔
     so_FilterProvider (opt_Metrics o) = Some WithAuthenticationAndAuthorization)
  ∧ so_SecureServing (opt_Metrics (managerOptions defaultFlags)) = true
  ∧ (watchNamespace f ≠ EmptyString → opt_DefaultNamespaces o = [watchNamespace f])
  ∧ (∀ leader ns, ∃ g, mainArgs (chartArgs leader ns) z outcome = main g outcome
     ∧ let o := managerOptions g in
       opt_LeaderElection o = leader ∧ opt_HealthProbeBindAddress o = ":8081"
       ∧ so_BindAddress (opt_Metrics o) = ":8443" ∧ so_SecureServing (opt_Metrics o) = true
       ∧ opt_DefaultNamespaces o = if decide (ns = EmptyString) then [] else [ns])
  ∧ (StepStart ∈ (main f outcome).1 →
     ∀ s, s ∈ startupSteps f → s ≠ StepStart → outcome s = None)
  ∧ ((main f outcome).2 = 0%Z ↔ ∀ s, s ∈ startupSteps f → outcome s = None).
Proof.
  intros o. split_and!.
  - destruct init_knows as (scheme & Hi & Hk). exists scheme. split; [done|]. split; [done|].
    intros r. exact (Hk KTrussiumRuntime).
  - apply metrics_registered.
  - intros Hh. unfold negotiated, o, managerOptions, metricsServerOptions, webhookServerOptions,
      withCerts, tlsOpts. simpl. rewrite Hh. by repeat case_decide.
  - unfold o, managerOptions, metricsServerOptions, withCerts. simpl.
    case_decide; simpl; by destruct (secureMetrics f).
  - done.
  - intros Hn. simpl. by rewrite decide_False.
  - intros leader ns. exists (mkFlags ":8443" ":8081" leader true EmptyString "tls.crt" "tls.key"
      EmptyString "tls.crt" "tls.key" false ns).
    split; [|done]. unfold chartArgs, mainArgs.
    destruct (decide (ns = EmptyString)) as [->|Hn]; by destruct leader.
  - unfold main, startupSteps. simpl.
    destruct (outcome StepGetConfig) eqn:Hcfg; [set_solver|].
    destruct (outcome (StepNewManager _)) eqn:Ho1; [set_solver|].
    destruct (outcome StepSetupController) eqn:Ho2; [set_solver|].
    destruct (outcome StepAddHealthz) eqn:Ho3; [set_solver|].
    destruct (outcome StepAddReadyz) eqn:Ho4; [set_solver|]. set_solver.
  - assert (Hrun : ∀ steps, (runSteps outcome steps).2 = 0%Z ↔ ∀ s, s ∈ steps → outcome s = None).
    { induction steps as [|s steps IH]; simpl; [set_solver|].
      destruct (outcome s) eqn:Hs; simpl.
      - split; [done|]. intros Hall. rewrite Hall in Hs by by left. done.
      - destruct (runSteps outcome steps) as [dn code]. simpl in *. rewrite IH. set_solver. }
    apply Hrun.
Qed.

Lemma startup_safe_witness :
  (∃ scheme, @init RefScheme.lib = Some scheme)
  ∧ (∃ reg, @initMetrics _ RefRegistry.lib [] = Some reg)
  ∧ negotiated (opt_Metrics (managerOptions defaultFlags)) (mkTLS ["h2"; "http/1.1"]) = ["http/1.1"]
  ∧ (main defaultFlags (λ _, None)).2 = 0%Z.
Proof.
  pose proof (@startup_safe RefScheme.lib RefScheme.laws _ RefFlags.flags
    _ RefRegistry.lib RefRegistry.laws defaultFlags
    (mkTLS ["h2"; "http/1.1"]) (λ _, None) []) as ((scheme & Hs & _) & Hm & Hh & _ & _ & _ & _ & _ & H0).
  split; [exists scheme; exact Hs|]. split.
  { destruct (Hm []) as (reg & Hreg & _); [intros c Hc; by apply not_elem_of_nil in Hc|].
    exists reg. exact Hreg. }
  split; [apply Hh; reflexivity|]. apply H0. reflexivity.
Defined.
