(* ===== verification/Cluster.v ===== *)
(** * The cluster as the operator relies on it

    The API server is not part of the repository.  [ApiServer] is the interface
    the convergence theorem needs of it: an environment for the operations of
    [Effects] with a view of the stored objects and its admission of writes, and
    [ApiServerLaws] its documented behaviour for a single writer, fresh reads
    and objects without finalizers: reads return what is stored,
    [CreateOrUpdate] hands the stored or initial object to the mutate function,
    and the server refuses the result, changing nothing, or stores it, keeping
    every field that is set and free to fill in the others; a status update
    stores the status, with times rounded. *)

From S2P Require Import Prelude GoStd KubeTypes ApiTypes KubeLib Resources Effects Status.
From S2P Require Import ConvergenceProps.

(** ** Fields a server keeps *)

(** A set optional field is kept. *)
Definition kept {A} (sent stored : option A) : Prop :=
  match sent with Some _ => stored = sent | None => True end.

(** A non-empty string or list field is kept. *)
Definition keptString (sent stored : string) : Prop := sent ≠ EmptyString → stored = sent.
Definition keptList {A} (sent stored : list A) : Prop := sent ≠ [] → stored = sent.

Definition metaKept (sent stored : ObjectMeta) : Prop :=
  om_Name stored = om_Name sent ∧ om_Namespace stored = om_Namespace sent
  ∧ om_Labels stored = om_Labels sent ∧ om_Annotations stored = om_Annotations sent
  ∧ om_OwnerReferences stored = om_OwnerReferences sent.

Definition portKept (sent stored : ServicePort) : Prop :=
  sp_Name stored = sp_Name sent ∧ sp_Port stored = sp_Port sent
  ∧ keptString (sp_Protocol sent) (sp_Protocol stored)
  ∧ (sp_TargetPort sent ≠ FromInt32 0 → sp_TargetPort stored = sp_TargetPort sent).

(** The fields of a container; the counts of a probe and the pull policy have
    defaults. *)
Definition keptZ (sent stored : Z) : Prop := sent ≠ 0%Z → stored = sent.

Definition probeKept (sent stored : option Probe) : Prop :=
  match sent with
  | Some s => ∃ o, stored = Some o
      ∧ keptString (hg_Path (pr_HTTPGet s)) (hg_Path (pr_HTTPGet o))
      ∧ hg_Port (pr_HTTPGet o) = hg_Port (pr_HTTPGet s)
      ∧ keptZ (pr_PeriodSeconds s) (pr_PeriodSeconds o)
      ∧ keptZ (pr_TimeoutSeconds s) (pr_TimeoutSeconds o)
      ∧ keptZ (pr_FailureThreshold s) (pr_FailureThreshold o)
  | None => stored = None
  end.

Definition containerPortKept (sent stored : ContainerPort) : Prop :=
  cp_Name stored = cp_Name sent ∧ cp_ContainerPort stored = cp_ContainerPort sent
  ∧ keptString (cp_Protocol sent) (cp_Protocol stored).

Definition containerKept (sent stored : Container) : Prop :=
  ct_Name stored = ct_Name sent ∧ ct_Image stored = ct_Image sent
  ∧ keptString (ct_ImagePullPolicy sent) (ct_ImagePullPolicy stored)
  ∧ kept (ct_SecurityContext sent) (ct_SecurityContext stored)
  ∧ Forall2 containerPortKept (ct_Ports sent) (ct_Ports stored)
  ∧ probeKept (ct_StartupProbe sent) (ct_StartupProbe stored)
  ∧ probeKept (ct_LivenessProbe sent) (ct_LivenessProbe stored)
  ∧ probeKept (ct_ReadinessProbe sent) (ct_ReadinessProbe stored)
  ∧ ct_EnvFrom stored = ct_EnvFrom sent ∧ ct_Env stored = ct_Env sent
  ∧ ct_Resources stored = ct_Resources sent.

(** The fields of a Pod specification. *)
Definition podSpecKept (sent stored : PodSpec) : Prop :=
  keptString (ps_ServiceAccountName sent) (ps_ServiceAccountName stored)
  ∧ kept (ps_AutomountServiceAccountToken sent) (ps_AutomountServiceAccountToken stored)
  ∧ kept (ps_EnableServiceLinks sent) (ps_EnableServiceLinks stored)
  ∧ kept (ps_TerminationGracePeriodSeconds sent) (ps_TerminationGracePeriodSeconds stored)
  ∧ kept (ps_SecurityContext sent) (ps_SecurityContext stored)
  ∧ ps_ImagePullSecrets stored = ps_ImagePullSecrets sent
  ∧ ps_NodeSelector stored = ps_NodeSelector sent
  ∧ ps_Tolerations stored = ps_Tolerations sent
  ∧ ps_Affinity stored = ps_Affinity sent
  ∧ ps_TopologySpreadConstraints stored = ps_TopologySpreadConstraints sent
  ∧ Forall2 containerKept (ps_Containers sent) (ps_Containers stored).

Definition deploymentSpecKept (sent stored : DeploymentSpec) : Prop :=
  let ts := ds_Template sent in
  let tr := ds_Template stored in
  kept (ds_Replicas sent) (ds_Replicas stored)
  ∧ kept (ds_ProgressDeadlineSeconds sent) (ds_ProgressDeadlineSeconds stored)
  ∧ kept (ds_RevisionHistoryLimit sent) (ds_RevisionHistoryLimit stored)
  ∧ ds_Selector stored = ds_Selector sent
  ∧ keptString (dst_Type (ds_Strategy sent)) (dst_Type (ds_Strategy stored))
  ∧ kept (dst_RollingUpdate (ds_Strategy sent)) (dst_RollingUpdate (ds_Strategy stored))
  ∧ om_Labels (pt_Meta tr) = om_Labels (pt_Meta ts)
  ∧ om_Annotations (pt_Meta tr) = om_Annotations (pt_Meta ts)
  ∧ podSpecKept (pt_Spec ts) (pt_Spec tr).

(** Ingress rules whose ports all name their protocol need no default. *)
Definition ingressSet (rules : list NetworkPolicyIngressRule) : Prop :=
  Forall (λ rule, Forall (λ p, nppt_Protocol p ≠ None) (npi_Ports rule)) rules.

(** The object a server stores for the one it was sent. *)
Definition keeps (k : Kind) : obj k → obj k → Prop :=
  match k with
  | KConfigMap => λ s o, metaKept (cm_Meta s) (cm_Meta o) ∧ cm_Data o = cm_Data s
  | KServiceAccount => λ s o,
      metaKept (sa_Meta s) (sa_Meta o)
      ∧ kept (sa_AutomountServiceAccountToken s) (sa_AutomountServiceAccountToken o)
      ∧ sa_ImagePullSecrets o = sa_ImagePullSecrets s
  | KService => λ s o,
      metaKept (svc_Meta s) (svc_Meta o)
      ∧ keptString (ss_Type (svc_Spec s)) (ss_Type (svc_Spec o))
      ∧ ss_Selector (svc_Spec o) = ss_Selector (svc_Spec s)
      ∧ Forall2 portKept (ss_Ports (svc_Spec s)) (ss_Ports (svc_Spec o))
  | KDeployment => λ s o,
      metaKept (d_Meta s) (d_Meta o) ∧ deploymentSpecKept (d_Spec s) (d_Spec o)
  | KPodDisruptionBudget => λ s o,
      metaKept (pdb_Meta s) (pdb_Meta o)
      ∧ kept (pdbs_MaxUnavailable (pdb_Spec s)) (pdbs_MaxUnavailable (pdb_Spec o))
      ∧ kept (pdbs_Selector (pdb_Spec s)) (pdbs_Selector (pdb_Spec o))
  | KNetworkPolicy => λ s o,
      metaKept (np_Meta s) (np_Meta o)
      ∧ nps_PodSelector (np_Spec o) = nps_PodSelector (np_Spec s)
      ∧ keptList (nps_PolicyTypes (np_Spec s)) (nps_PolicyTypes (np_Spec o))
      ∧ (ingressSet (nps_Ingress (np_Spec s)) → nps_Ingress (np_Spec o) = nps_Ingress (np_Spec s))
  | KHorizontalPodAutoscaler => λ s o,
      metaKept (hpa_Meta s) (hpa_Meta o)
      ∧ hpas_ScaleTargetRef (hpa_Spec o) = hpas_ScaleTargetRef (hpa_Spec s)
      ∧ kept (hpas_MinReplicas (hpa_Spec s)) (hpas_MinReplicas (hpa_Spec o))
      ∧ hpas_MaxReplicas (hpa_Spec o) = hpas_MaxReplicas (hpa_Spec s)
      ∧ keptList (hpas_Metrics (hpa_Spec s)) (hpas_Metrics (hpa_Spec o))
  | KTrussiumRuntime => λ s o, metaKept (rt_Meta s) (rt_Meta o)
  | KSecret => λ s o, metaKept (sec_Meta s) (sec_Meta o)
  end.

(** ** The server *)

Class ApiServer (W : Type) := {
  server_handle :: Environment W;
  (** The object of a kind that is stored under a key. *)
  stored : ∀ k : Kind, W → NamespacedName → option (obj k);
  (** Admission: whether the server takes an object in the place of what is
      stored under its key.  It validates objects and refuses to change some
      fields. *)
  admits : ∀ k : Kind, option (obj k) → obj k → Prop
}.
#[global] Arguments admits W {_} k old x.

(** An object that is stored already is not sent again. *)
Definition accepts (W : Type) `{ApiServer W} (k : Kind) (old : option (obj k)) (x : obj k) : Prop :=
  old = Some x ∨ admits W k old x.

(** Two cluster states with the same objects, but for one. *)
Definition sameExcept `{ApiServer W} (k : Kind) (key : NamespacedName) (w w' : W) : Prop :=
  ∀ k' key', (k', key') ≠ (k, key) → stored k' w' key' = stored k' w key'.

Definition sameObjects `{ApiServer W} (w w' : W) : Prop :=
  ∀ k key, stored k w' key = stored k w key.

(** What a status update returns for [r]: the server may change the version
    but not the identity, generation or specification. *)
Definition statusStored (r r' : TrussiumRuntime) : Prop :=
  rt_key r' = rt_key r ∧ om_UID (rt_Meta r') = om_UID (rt_Meta r)
  ∧ rt_Generation r' = rt_Generation r
  ∧ om_DeletionTimestamp (rt_Meta r') = om_DeletionTimestamp (rt_Meta r)
  ∧ rt_Spec r' = rt_Spec r ∧ sameButTimes (rt_Status r') (rt_Status r).

Class ApiServerLaws `{K8sLib} (W : Type) `{ApiServer W} : Prop := {
  stored_key k (w : W) key o : stored k w key = Some o → obj_key k o = key;
  get_found k (w : W) key o :
    stored k w key = Some o → handle (OpGet k key) w = (Ok o, w);
  get_missing k (w : W) key :
    stored k w key = None →
    ∃ e, handle (OpGet k key) w = (Err e, w) ∧ IsNotFound e = true;
  create_or_update k (w : W) current mutate x :
    mutate (default current (stored k w (obj_key k current))) = Ok x →
    obj_key k x = obj_key k current →
    (accepts W k (stored k w (obj_key k current)) x
     ∧ ∃ w' o, handle (OpCreateOrUpdate k current mutate) w = (None, w')
         ∧ stored k w' (obj_key k current) = Some o ∧ keeps k x o
         ∧ sameExcept k (obj_key k current) w w')
    ∨ (¬ accepts W k (stored k w (obj_key k current)) x
       ∧ ∃ e, handle (OpCreateOrUpdate k current mutate) w = (Some e, w));
  create_or_update_refused k (w : W) current mutate e :
    mutate (default current (stored k w (obj_key k current))) = Err e →
    handle (OpCreateOrUpdate k current mutate) w = (Some e, w);
  delete_found k (w : W) key o :
    stored k w key = Some o →
    ∃ w', handle (OpDelete k key) w = (None, w')
      ∧ stored k w' key = None ∧ sameExcept k key w w';
  delete_missing k (w : W) key :
    stored k w key = None →
    ∃ e, handle (OpDelete k key) w = (Some e, w) ∧ IsNotFound e = true;
  status_update (w : W) r r0 :
    stored KTrussiumRuntime w (rt_key r) = Some r0 →
    rt_Meta r0 = rt_Meta r → rt_Spec r0 = rt_Spec r →
    ∃ w' r', handle (OpStatusUpdate r) w = (Ok r', w')
      ∧ stored KTrussiumRuntime w' (rt_key r) = Some r' ∧ statusStored r r'
      ∧ sameExcept KTrussiumRuntime (rt_key r) w w';
  event_recorded (w : W) e : ∃ w', handle (OpEventf e) w = (tt, w') ∧ sameObjects w w';
  reconciliation_counted (w : W) l :
    ∃ w', handle (OpCountReconciliation l) w = (tt, w') ∧ sameObjects w w';
  duration_observed (w : W) l d :
    ∃ w', handle (OpObserveDuration l d) w = (tt, w') ∧ sameObjects w w';
  clock_read (w : W) : ∃ t w', handle OpNow w = (t, w') ∧ sameObjects w w'
}.

(** ** Repeated writes *)

(** [y] is the stored object [o] with the fields the operator sets as in [x]. *)
Definition resent (k : Kind) : obj k → obj k → obj k → Prop :=
  match k with
  | KConfigMap => λ x o y, y = mkConfigMap (cm_Meta o) (cm_Data x) (cm_Raw o)
  | KServiceAccount => λ x o y,
      y = mkServiceAccount (sa_Meta o) (sa_AutomountServiceAccountToken x) (sa_ImagePullSecrets x)
            (sa_Raw o)
  | KService => λ x o y,
      y = mkService (svc_Meta o)
            (mkServiceSpec (ss_Type (svc_Spec x)) (ss_Selector (svc_Spec x)) (ss_Ports (svc_Spec x))
               (ss_Raw (svc_Spec o))) (svc_Raw o)
  | KDeployment => λ x o y, y = mkDeployment (d_Meta o) (d_Spec x) (d_Status o)
  | KPodDisruptionBudget => λ x o y, y = mkPDB (pdb_Meta o) (pdb_Spec x) (pdb_Raw o)
  | KNetworkPolicy => λ x o y, y = mkNetworkPolicy (np_Meta o) (np_Spec x) (np_Raw o)
  | KHorizontalPodAutoscaler => λ x o y, y = mkHPA (hpa_Meta o) (hpa_Spec x) (hpa_Raw o)
  | KTrussiumRuntime | KSecret => λ _ _ _, False
  end.

(** Defaults are deterministic and an update that changes nothing is not
    stored: when an object [o] was made of [x] by a write that was accepted and
    is still there, sending the fields of [x] again leaves every object as it
    is. *)
Class ApiServerIdempotent `{K8sLib} (W : Type) `{ApiServer W} : Prop :=
  write_again k (w w1 w2 : W) current mutate current' mutate' x o y :
    mutate (default current (stored k w (obj_key k current))) = Ok x →
    handle (OpCreateOrUpdate k current mutate) w = (None, w1) →
    stored k w1 (obj_key k current) = Some o →
    stored k w2 (obj_key k current) = Some o →
    obj_key k current' = obj_key k current → mutate' o = Ok y → resent k x o y →
    ∃ w3, handle (OpCreateOrUpdate k current' mutate') w2 = (None, w3) ∧ sameObjects w2 w3.

(** Listing the runtimes of a namespace returns those that are stored. *)
Class ApiServerLists (W : Type) `{ApiServer W} : Prop :=
  list_runtimes (w : W) ns :
    ∃ rs, handle (OpListRuntimes ns) w = (Ok rs, w)
      ∧ ∀ r, r ∈ rs ↔ rt_Namespace r = ns ∧ stored KTrussiumRuntime w (rt_key r) = Some r.
