(* ===== verification/RefServer.v ===== *)
(** * An in-memory API server

    One implementation of [ApiServer] that satisfies [ApiServerLaws]: a table
    of objects per kind that stores what it is sent, if it admits it.  It shows
    that the laws can hold together, for a server that does refuse writes, and
    makes whole reconciliations executable. *)

From S2P Require Import Prelude GoStd KubeTypes ApiTypes KubeLib Resources Effects Status.
From S2P Require Import ConvergenceProps RefKube Cluster.

Module RefServer.

Record Server := mkServer {
  runtimes : gmap NamespacedName TrussiumRuntime;
  secrets : gmap NamespacedName Secret;
  configMaps : gmap NamespacedName ConfigMap;
  serviceAccounts : gmap NamespacedName ServiceAccount;
  services : gmap NamespacedName Service;
  deployments : gmap NamespacedName Deployment;
  budgets : gmap NamespacedName PodDisruptionBudget;
  policies : gmap NamespacedName NetworkPolicy;
  autoscalers : gmap NamespacedName HorizontalPodAutoscaler
}.

Definition empty : Server := mkServer ∅ ∅ ∅ ∅ ∅ ∅ ∅ ∅ ∅.

Definition table (k : Kind) : Server → gmap NamespacedName (obj k) :=
  match k with
  | KTrussiumRuntime => runtimes
  | KSecret => secrets
  | KConfigMap => configMaps
  | KServiceAccount => serviceAccounts
  | KService => services
  | KDeployment => deployments
  | KPodDisruptionBudget => budgets
  | KNetworkPolicy => policies
  | KHorizontalPodAutoscaler => autoscalers
  end.

Definition setTable (k : Kind) : gmap NamespacedName (obj k) → Server → Server :=
  match k with
  | KTrussiumRuntime => λ t '(mkServer _ b c d e f g h i), mkServer t b c d e f g h i
  | KSecret => λ t '(mkServer a _ c d e f g h i), mkServer a t c d e f g h i
  | KConfigMap => λ t '(mkServer a b _ d e f g h i), mkServer a b t d e f g h i
  | KServiceAccount => λ t '(mkServer a b c _ e f g h i), mkServer a b c t e f g h i
  | KService => λ t '(mkServer a b c d _ f g h i), mkServer a b c d t f g h i
  | KDeployment => λ t '(mkServer a b c d e _ g h i), mkServer a b c d e t g h i
  | KPodDisruptionBudget => λ t '(mkServer a b c d e f _ h i), mkServer a b c d e f t h i
  | KNetworkPolicy => λ t '(mkServer a b c d e f g _ i), mkServer a b c d e f g t i
  | KHorizontalPodAutoscaler => λ t '(mkServer a b c d e f g h _), mkServer a b c d e f g h t
  end.

(** An object counts as stored only under its own key. *)
Definition lookup (k : Kind) (w : Server) (key : NamespacedName) : option (obj k) :=
  match table k w !! key with
  | Some o => if decide (obj_key k o = key) then Some o else None
  | None => None
  end.

Definition put (k : Kind) (o : obj k) (w : Server) : Server :=
  setTable k (<[obj_key k o := o]> (table k w)) w.

Definition remove (k : Kind) (key : NamespacedName) (w : Server) : Server :=
  setTable k (delete key (table k w)) w.

(** Admission: a new Service has a DNS label as its name, and the selector of a
    Deployment is immutable. *)
Definition admitted (k : Kind) : option (obj k) → obj k → bool :=
  match k with
  | KService => λ old x,
      match old with Some _ => true | None => dns1035Label (om_Name (svc_Meta x)) end
  | KDeployment => λ old x,
      match old with
      | Some o => bool_decide (ds_Selector (d_Spec x) = ds_Selector (d_Spec o))
      | None => true
      end
  | _ => λ _ _, true
  end.

Definition invalid : GoError := ErrApi (mkApiError "Invalid" "the object is invalid").

Definition notFound : GoError := ErrApi (mkApiError "NotFound" "not found").

#[export] Instance environment : Environment Server := λ o,
  match o return Server → Resp o * Server with
  | OpGet k key => λ w,
      (match lookup k w key with Some o => Ok o | None => Err notFound end, w)
  | OpListRuntimes ns => λ w,
      (Ok (omap (λ '(key, r), if decide (rt_key r = key ∧ rt_Namespace r = ns) then Some r else None)
             (map_to_list (runtimes w))), w)
  | OpCreateOrUpdate k current mutate => λ w,
      match mutate (default current (lookup k w (obj_key k current))) with
      | Ok x =>
          if decide (obj_key k x = obj_key k current) then
            if admitted k (lookup k w (obj_key k current)) x then (None, put k x w)
            else (Some invalid, w)
          else (Some (ErrApi (mkApiError EmptyString "MutateFn cannot mutate object name")), w)
      | Err e => (Some e, w)
      end
  | OpDelete k key => λ w,
      match lookup k w key with
      | Some _ => (None, remove k key w)
      | None => (Some notFound, w)
      end
  | OpStatusUpdate r => λ w,
      match lookup KTrussiumRuntime w (rt_key r) with
      | Some r0 =>
          let r' := rt_set_status (rt_Status r) r0 in (Ok r', put KTrussiumRuntime r' w)
      | None => (Err notFound, w)
      end
  | OpEventf _ => λ w, (tt, w)
  | OpCountReconciliation _ => λ w, (tt, w)
  | OpObserveDuration _ _ => λ w, (tt, w)
  | OpNow => λ w, (0%Z, w)
  end.

#[export] Instance server : ApiServer Server :=
  {| server_handle := environment; stored := lookup;
     admits := λ k old x, admitted k old x = true |}.

Lemma admitted_self k x : admitted k (Some x) x = true.
Proof. destruct k; try done. by apply bool_decide_eq_true. Qed.

Lemma accepts_admitted k old x :
  accepts (H := server) Server k old x ↔ admitted k old x = true.
Proof. split; [intros [->|Ha]; [apply admitted_self|done]|by right]. Qed.

Lemma table_set k t w : table k (setTable k t w) = t.
Proof. by destruct k, w. Qed.

Lemma table_set_ne k k' t w : k' ≠ k → table k' (setTable k t w) = table k' w.
Proof. intros Hne. by destruct k, k', w. Qed.

Lemma lookup_put k o w : lookup k (put k o w) (obj_key k o) = Some o.
Proof. unfold lookup, put. rewrite table_set, lookup_insert_eq. by rewrite decide_True. Qed.

Lemma put_frame k o w : sameExcept k (obj_key k o) w (put k o w).
Proof.
  intros k' key Hne. simpl. unfold lookup, put. destruct (decide (k' = k)) as [->|Hk].
  - rewrite table_set, lookup_insert_ne; [done|congruence].
  - by rewrite table_set_ne.
Qed.

Lemma remove_frame k key w : sameExcept k key w (remove k key w).
Proof.
  intros k' key' Hne. simpl. unfold lookup, remove. destruct (decide (k' = k)) as [->|Hk].
  - rewrite table_set, lookup_delete_ne; [done|congruence].
  - by rewrite table_set_ne.
Qed.

Lemma probeKept_refl p : probeKept p p.
Proof. destruct p as [p|]; [|done]. exists p. by repeat split. Qed.

Lemma containerKept_refl c : containerKept c c.
Proof.
  assert (Hp : ∀ l, Forall2 containerPortKept l l)
    by (intros l; by apply Forall_Forall2_diag, Forall_true).
  unfold containerKept, kept. repeat split; auto using probeKept_refl.
  by destruct (ct_SecurityContext c).
Qed.

Lemma keeps_refl k x : keeps k x x.
Proof.
  assert (Hk : ∀ A (o : option A), kept o o) by by intros A [].
  assert (Hp : ∀ l, Forall2 portKept l l) by (intros l; by apply Forall_Forall2_diag, Forall_true).
  assert (Hc : ∀ l, Forall2 containerKept l l)
    by (intros l; apply Forall_Forall2_diag, Forall_true, containerKept_refl).
  destruct k; simpl; unfold metaKept, deploymentSpecKept, podSpecKept; repeat split; auto.
Qed.

Lemma lookup_key k w key o : lookup k w key = Some o → obj_key k o = key.
Proof.
  unfold lookup. destruct (table k w !! key) as [o'|]; [|done]. case_decide; [|done].
  by intros [= <-].
Qed.

#[export] Instance laws : @ApiServerLaws RefKube.lib Server server.
Proof.
  assert (Hget : ∀ k w key, handle (OpGet k key) w =
    (match lookup k w key with Some o => Ok o | None => Err notFound end, w)) by done.
  assert (Hdel : ∀ k w key, handle (OpDelete k key) w =
    match lookup k w key with
    | Some _ => (None, remove k key w) | None => (Some notFound, w) end) by done.
  split; intros *; try (change (@stored Server server) with lookup).
  - apply lookup_key.
  - intros Ho. by rewrite Hget, Ho.
  - intros Ho. exists notFound. by rewrite Hget, Ho.
  - intros Hm Hk. rewrite accepts_admitted.
    unfold handle, server_handle, server, environment. rewrite Hm, decide_True by done.
    destruct (admitted k (lookup k w (obj_key k current)) x); [left|right; by eauto].
    split; [done|]. exists (put k x w), x. rewrite <-Hk. split; [done|].
    split; [apply lookup_put|]. split; [apply keeps_refl|apply put_frame].
  - intros Hm. unfold handle, server_handle, server, environment. by rewrite Hm.
  - intros Ho. exists (remove k key w). rewrite Hdel, Ho. split; [done|].
    split; [|apply remove_frame]. unfold lookup, remove. by rewrite table_set, lookup_delete_eq.
  - intros Ho. exists notFound. by rewrite Hdel, Ho.
  - intros Ho Hm Hs.
    set (r' := rt_set_status (rt_Status r) r0).
    assert (Hk : obj_key KTrussiumRuntime r' = rt_key r) by (unfold obj_key, rt_key; simpl; by rewrite Hm).
    exists (put KTrussiumRuntime r' w), r'.
    unfold handle, server_handle, server, environment. rewrite Ho. split; [done|].
    rewrite <-Hk. split; [apply (lookup_put KTrussiumRuntime)|]. split; [|apply put_frame].
    unfold statusStored, rt_key, rt_Generation, r'. simpl. by rewrite Hm, Hs.
  - by exists w.
  - by exists w.
  - by exists w.
  - by exists 0%Z, w.
Qed.

Lemma resent_self k x y : resent k x x y → y = x.
Proof.
  destruct k; simpl; try done; intros ->; destruct x; simpl; try done.
  by destruct svc_Spec.
Qed.

Lemma put_same k x w : lookup k w (obj_key k x) = Some x → sameObjects w (put k x w).
Proof.
  intros Hx k' key. change (lookup k' (put k x w) key = lookup k' w key).
  destruct (decide ((k', key) = (k, obj_key k x))) as [Heq|Hne].
  - injection Heq as -> ->. by rewrite lookup_put.
  - by apply put_frame.
Qed.

#[export] Instance idempotent : @ApiServerIdempotent RefKube.lib Server server.
Proof.
  intros k w w1 w2 current mutate current' mutate' x o y Hm Hh Ho1 Ho2 Hkey Hy Hres.
  change (@stored Server server) with lookup in *.
  assert (Hcu : ∀ w current mutate, handle (OpCreateOrUpdate k current mutate) w =
    match mutate (default current (lookup k w (obj_key k current))) with
    | Ok x => if decide (obj_key k x = obj_key k current) then
          if admitted k (lookup k w (obj_key k current)) x then (None, put k x w)
          else (Some invalid, w)
        else (Some (ErrApi (mkApiError EmptyString "MutateFn cannot mutate object name")), w)
    | Err e => (Some e, w)
    end) by done.
  rewrite Hcu, Hm in Hh. destruct (decide (obj_key k x = obj_key k current)) as [Hkx|]; [|done].
  destruct (admitted k (lookup k w (obj_key k current)) x); [|done].
  injection Hh as <-. rewrite <-Hkx, lookup_put in Ho1. injection Ho1 as <-.
  apply resent_self in Hres as ->.
  exists (put k x w2). rewrite Hcu, Hkey, Ho2. simpl. rewrite Hy, decide_True by congruence.
  rewrite admitted_self. split; [done|]. apply put_same. congruence.
Qed.

Lemma lookup_table k w key o :
  lookup k w key = Some o ↔ table k w !! key = Some o ∧ obj_key k o = key.
Proof.
  unfold lookup. destruct (table k w !! key) as [o'|]; [|naive_solver].
  destruct (decide (obj_key k o' = key)); naive_solver.
Qed.

#[export] Instance lists : @ApiServerLists Server server.
Proof.
  intros w ns. eexists. split; [done|]. intros r. rewrite list_elem_of_omap.
  change (stored KTrussiumRuntime w (rt_key r)) with (lookup KTrussiumRuntime w (rt_key r)).
  rewrite (lookup_table KTrussiumRuntime). split.
  - intros ([key r'] & Hin & Heq). apply elem_of_map_to_list in Hin.
    destruct (decide _) as [[Hk Hns]|]; [|done]. injection Heq as ->. by subst key.
  - intros (Hns & Hl & _). exists (rt_key r, r).
    split; [by apply elem_of_map_to_list|]. by rewrite decide_True.
Qed.

End RefServer.
