(* ===== verification/ClusterProps.v ===== *)
(** * Convergence against an API server

    One reconciliation of a live runtime whose writes the server accepts, against
    any server that satisfies [ApiServerLaws], ends without error in a cluster
    whose managed objects are as the specification asks, with the status of what
    is stored, and from which the next reconciliation can start again; where the
    server refuses a write it ends with an error. *)

From S2P Require Import Prelude GoStd KubeTypes ApiTypes KubeLib Resources Effects Status.
From S2P Require Import Events Reconciler StatusProps UpgradeProps ConvergenceProps EventProps.
From S2P Require Import ReconcileProps ManagedProps Cluster RefKube Samples RefServer.

(** ** What a reconciliation depends on *)

(** The fields of a runtime that its managed objects depend on. *)
Definition essence (r : TrussiumRuntime) : TrussiumRuntime :=
  mkRuntime noType (mkMeta (rt_Name r) (rt_Namespace r) (om_UID (rt_Meta r)) 0 None ∅ ∅ [] noRaw)
    (rt_Spec r) emptyStatus.

Section Essence.
Context `{K8sLib}.

Lemma essence_desired r :
  runtimeLabels r = runtimeLabels (essence r) ∧ runtimeOwner r = runtimeOwner (essence r)
  ∧ nameOnly r = nameOnly (essence r) ∧ rt_key r = rt_key (essence r)
  ∧ autoscalingEnabled r = autoscalingEnabled (essence r)
  ∧ buildConfigMap r = buildConfigMap (essence r)
  ∧ buildServiceAccount r = buildServiceAccount (essence r)
  ∧ buildService r = buildService (essence r)
  ∧ buildDeployment r = buildDeployment (essence r)
  ∧ buildPodDisruptionBudget r = buildPodDisruptionBudget (essence r)
  ∧ (∀ np, buildNetworkPolicy r np = buildNetworkPolicy (essence r) np)
  ∧ buildHorizontalPodAutoscaler r = buildHorizontalPodAutoscaler (essence r)
  ∧ (∀ clk obs v, buildRuntimeStatus clk r obs v
       = buildRuntimeStatus clk (rt_set_status (rt_Status r)
           (mkRuntime noType (mkMeta (rt_Name r) (rt_Namespace r) (om_UID (rt_Meta r)) (rt_Generation r)
              None ∅ ∅ [] noRaw) (rt_Spec r) emptyStatus)) obs v).
Proof. split_and!; reflexivity. Qed.

End Essence.

Lemma essence_fields r r' :
  essence r' = essence r →
  rt_key r' = rt_key r ∧ rt_Namespace r' = rt_Namespace r ∧ rt_Spec r' = rt_Spec r
  ∧ runtimeOwner r' = runtimeOwner r ∧ runtimeLabels r' = runtimeLabels r.
Proof.
  intros He. unfold essence in He. injection He as Hn Hns Hu Hs.
  change (rt_key r') with (mkKey (rt_Namespace r') (rt_Name r')).
  unfold runtimeOwner, runtimeLabels. by rewrite Hn, Hns, Hu, Hs.
Qed.

Lemma essence_eq {A} (f : TrussiumRuntime → A) r r' :
  (∀ r, f r = f (essence r)) → essence r' = essence r → f r' = f r.
Proof. intros Hf He. by rewrite (Hf r'), He, <-Hf. Qed.

(** ** The desired state of the cluster *)

(** Labelled for the runtime and controlled by it. *)
Definition ownedBy (r : TrussiumRuntime) (m : ObjectMeta) : Prop :=
  om_Labels m = runtimeLabels r
  ∧ GetControllerOf (om_OwnerReferences m) = Some (runtimeOwner r).

(** What the specification of [r] asks of the object of each managed kind. *)
Definition asDesired `{K8sLib} (r : TrussiumRuntime) (k : Kind) : option (obj k) → Prop :=
  match k with
  | KConfigMap => λ o, ∃ x, o = Some x ∧ ownedBy r (cm_Meta x) ∧ cm_Data x = runtimeConfigData r
  | KServiceAccount => λ o, ∃ x, o = Some x ∧ ownedBy r (sa_Meta x)
      ∧ sa_AutomountServiceAccountToken x = Some false
      ∧ sa_ImagePullSecrets x = imagePullSecrets r
  | KService => λ o, ∃ x, o = Some x ∧ ownedBy r (svc_Meta x)
      ∧ ss_Type (svc_Spec x) = desiredServiceType r
      ∧ ss_Selector (svc_Spec x) = runtimeSelectorLabels r
      ∧ ss_Ports (svc_Spec x) = ss_Ports (svc_Spec (buildService r))
  | KDeployment => λ o, ∃ x n, o = Some x ∧ ownedBy r (d_Meta x)
      ∧ (autoscalingEnabled r = false → n = desiredReplicas r)
      ∧ deploymentSpecKept (ds_set_replicas (Some n) (d_Spec (buildDeployment r))) (d_Spec x)
  | KPodDisruptionBudget => λ o, ∃ x, o = Some x ∧ ownedBy r (pdb_Meta x)
      ∧ pdb_Spec x = pdb_Spec (buildPodDisruptionBudget r)
  | KNetworkPolicy => λ o,
      match spec_NetworkPolicy (rt_Spec r) with
      | Some np =>
          if rnp_Enabled np
          then ∃ x, o = Some x ∧ ownedBy r (np_Meta x) ∧ np_Spec x = np_Spec (buildNetworkPolicy r np)
          else o = None
      | None => o = None
      end
  | KHorizontalPodAutoscaler => λ o,
      if autoscalingEnabled r
      then ∃ x, o = Some x ∧ ownedBy r (hpa_Meta x)
                ∧ hpa_Spec x = hpa_Spec (buildHorizontalPodAutoscaler r)
      else o = None
  | _ => λ _, True
  end.

(** An owner reference to the runtime. *)
Definition designates (r : TrussiumRuntime) (ref : OwnerReference) : Prop :=
  or_APIVersion ref = GroupVersion ∧ or_Kind ref = "TrussiumRuntime" ∧ or_Name ref = rt_Name r.

(** No managed object under the key of the runtime has another controller. *)
Definition unclaimed `{ApiServer W} (r : TrussiumRuntime) (w : W) : Prop :=
  ∀ k o ref, k ∈ managedKinds → stored k w (rt_key r) = Some o →
  GetControllerOf (om_OwnerReferences (obj_meta k o)) = Some ref → designates r ref.

(** ** The writes of a reconciliation and their admission *)

(** What [CreateOrUpdate] is called with for each kind of which the
    specification wants an object. *)
Definition writeOf `{K8sLib} (r : TrussiumRuntime) (k : Kind)
    : option (obj k * (obj k → result (obj k))) :=
  match k with
  | KConfigMap => Some (mkConfigMap (nameOnly r) ∅ noRaw, mutateConfigMap r)
  | KServiceAccount => Some (mkServiceAccount (nameOnly r) None [] noRaw, mutateServiceAccount r)
  | KService =>
      Some (mkService (nameOnly r) (mkServiceSpec EmptyString ∅ [] noRaw) noRaw, mutateService r)
  | KDeployment =>
      Some (mkDeployment (nameOnly r) emptyDeploymentSpec zeroDeploymentStatus, mutateDeployment r)
  | KPodDisruptionBudget =>
      Some (mkPDB (nameOnly r) (mkPDBSpec None None) noRaw, mutatePodDisruptionBudget r)
  | KNetworkPolicy =>
      match spec_NetworkPolicy (rt_Spec r) with
      | Some np =>
          if rnp_Enabled np
          then Some (mkNetworkPolicy (nameOnly r) (mkPolicySpec (matchLabels ∅) [] []) noRaw,
                     mutateNetworkPolicy r np)
          else None
      | None => None
      end
  | KHorizontalPodAutoscaler =>
      if autoscalingEnabled r
      then Some (mkHPA (nameOnly r)
                   (mkHPASpec (mkScaleTarget EmptyString EmptyString EmptyString) None 0 []) noRaw,
                 mutateHorizontalPodAutoscaler r)
      else None
  | _ => None
  end.

(** The object another controller's report leaves: only the status of a
    Deployment is reported. *)
Definition reported (k : Kind) : obj k → obj k → Prop :=
  match k with
  | KDeployment => λ d d', d_Meta d' = d_Meta d ∧ d_Spec d' = d_Spec d
  | _ => λ o o', o' = o
  end.

(** An object that a write for a runtime under [key] has left. *)
Definition leftBy `{K8sLib} (key : NamespacedName) (k : Kind) (o : obj k) : Prop :=
  ∃ r current mutate x y, rt_key r = key ∧ writeOf r k = Some (current, mutate)
    ∧ mutate x = Ok y ∧ keeps k y o.

(** What a reconciliation of [r] can find under its key, from [w] on and as long
    as only the operator writes the objects: nothing, what the operator left,
    or what is stored in [w]. *)
Definition prior `{K8sLib} `{ApiServer W} (r : TrussiumRuntime) (w : W) (k : Kind)
    (old : option (obj k)) : Prop :=
  match old with
  | None => True
  | Some o => leftBy (rt_key r) k o ∨ ∃ o0, stored k w (rt_key r) = Some o0 ∧ reported k o0 o
  end.

(** The server accepts every write of [r] over what it can find. *)
Definition admissible `{K8sLib} `{ApiServer W} (r : TrussiumRuntime) (w : W) : Prop :=
  ∀ k current mutate old y, writeOf r k = Some (current, mutate) → prior r w k old →
  mutate (default current old) = Ok y → accepts W k old y.

(** The server refuses a write of [r] over what is stored. *)
Definition refused `{K8sLib} `{ApiServer W} (r : TrussiumRuntime) (w : W) : Prop :=
  ∃ k current mutate y, writeOf r k = Some (current, mutate)
    ∧ mutate (default current (stored k w (rt_key r))) = Ok y
    ∧ ¬ accepts W k (stored k w (rt_key r)) y.

(** A stored runtime that is not being deleted, whose Secrets exist and whose
    objects nobody else controls. *)
Definition ready `{ApiServer W} (r : TrussiumRuntime) (w : W) : Prop :=
  stored KTrussiumRuntime w (rt_key r) = Some r
  ∧ IsZero (om_DeletionTimestamp (rt_Meta r)) = true
  ∧ (∀ name, name ∈ referencedSecretNames r →
       is_Some (stored KSecret w (mkKey (rt_Namespace r) name)))
  ∧ unclaimed r w.

(** A runtime that is ready and whose writes the server accepts. *)
Definition runnable `{K8sLib} `{ApiServer W} (r : TrussiumRuntime) (w : W) : Prop :=
  ready r w ∧ admissible r w.

(** The objects under [key] in [w'] are those of [w] or what the operator left. *)
Definition objectsFrom `{K8sLib} `{ApiServer W} (key : NamespacedName) (w w' : W) : Prop :=
  ∀ k o, k ∈ managedKinds → stored k w' key = Some o →
  leftBy key k o ∨ ∃ o0, stored k w key = Some o0 ∧ reported k o0 o.

#[export] Instance reported_preorder k : PreOrder (reported k).
Proof.
  split; destruct k; try done.
  all: intros x y z; simpl; intuition congruence.
Qed.

(** The reports of others do not touch what a write has set. *)
Lemma leftBy_reported `{K8sLib} key k o o' : leftBy key k o → reported k o o' → leftBy key k o'.
Proof.
  intros (r & current & mutate & x & y & Hk & Hw & Hm & Hkeep) Hr.
  exists r, current, mutate, x, y. split_and!; try done.
  destruct k; simpl in Hr; try (by rewrite Hr).
  destruct Hr as [Hr1 Hr2]. simpl. by rewrite Hr1, Hr2.
Qed.

#[export] Instance objectsFrom_preorder `{K8sLib} `{ApiServer W} key :
  PreOrder (objectsFrom (W := W) key).
Proof.
  split.
  - intros w k o _ Ho. right. by exists o.
  - intros w1 w2 w3 H12 H23 k o Hk Ho. destruct (H23 k o Hk Ho) as [?|(o2 & Ho2 & Hr2)]; [by left|].
    destruct (H12 k o2 Hk Ho2) as [?|(o1 & Ho1 & Hr1)]; [left; by eapply leftBy_reported|].
    right. exists o1. split; [done|]. by etransitivity.
Qed.

(** Every write sets labels, the controller and then the content. *)
Definition assembles `{K8sLib} (r : TrussiumRuntime) (k : Kind) (mutate : obj k → result (obj k))
    (assemble : ObjectMeta → obj k → obj k) : Prop :=
  (∀ m x, obj_meta k (assemble m x) = m)
  ∧ ∀ x, mutate x = match mutateMeta r (runtimeLabels r) (obj_meta k x) with
                    | Ok m => Ok (assemble m x)
                    | Err e => Err e
                    end.

Section Steps.
Context `{K8sLaws} {W : Type} `{!ApiServer W} `{!ApiServerLaws W}.

Lemma run_perform (o : Op) (w : W) : run (perform o) w = handle o w.
Proof. simpl. by destruct (handle o w). Qed.

Lemma asDesired_owned r k (o : obj k) :
  k ∈ managedKinds → asDesired r k (Some o) → ownedBy r (obj_meta k o).
Proof.
  intros Hk Hd. assert (Hn : ∀ P Q : Prop, (if autoscalingEnabled r then P else Q) → P ∨ Q)
    by (intros P Q; destruct (autoscalingEnabled r); auto).
  destruct k; simpl in *;
    try (destruct Hd as (x & Hx & Ho & _); injection Hx as ->; exact Ho);
    try (exfalso; revert Hk; by apply (bool_decide_unpack _)).
  - destruct Hd as (x & n & Hx & Ho & _). injection Hx as ->. exact Ho.
  - destruct (spec_NetworkPolicy (rt_Spec r)) as [np|]; [|done]. destruct (rnp_Enabled np); [|done].
    destruct Hd as (x & Hx & Ho & _). injection Hx as ->. exact Ho.
  - apply Hn in Hd as [(x & Hx & Ho & _)|?]; [|done]. injection Hx as ->. exact Ho.
Qed.

(** A change of one object under the key. *)
Definition leaves (r : TrussiumRuntime) (k : Kind) (w w' : W) : Prop :=
  asDesired r k (stored k w' (rt_key r)) ∧ sameExcept k (rt_key r) w w'
  ∧ ∀ o, stored k w' (rt_key r) = Some o → leftBy (rt_key r) k o.

(** One step of the core reconciliation brings its object into shape and
    leaves everything else alone. *)
Definition brings (r : TrussiumRuntime) (k : Kind) (p : Prog (option GoError)) : Prop :=
  ∀ w : W, unclaimed r w → admissible r w → ∃ w', run p w = (None, w') ∧ leaves r k w w'.

Lemma unclaimed_step r k (w w' : W) :
  k ∈ managedKinds → unclaimed r w → leaves r k w w' → unclaimed r w'.
Proof.
  intros Hk Hu (Hd & Hs & _) k' o ref Hk' Ho Href. destruct (decide (k' = k)) as [->|Hne].
  - rewrite Ho in Hd. destruct (asDesired_owned r k o Hk Hd) as [_ Hc].
    rewrite Hc in Href. injection Href as <-. done.
  - apply (Hu k' o ref Hk'); [|done]. rewrite <-Ho. symmetry. apply Hs. congruence.
Qed.

Lemma objectsFrom_leaves r k (w w' : W) : leaves r k w w' → objectsFrom (rt_key r) w w'.
Proof.
  intros (_ & Hs & Hl) k' o Hk' Ho. destruct (decide (k' = k)) as [->|Hne].
  - left. by apply Hl.
  - right. exists o. split; [|done]. rewrite <-Ho. symmetry. apply Hs. congruence.
Qed.

Lemma prior_from r (w w' : W) k old :
  k ∈ managedKinds → objectsFrom (rt_key r) w w' → prior r w' k old → prior r w k old.
Proof.
  intros Hk Hf. destruct old as [o|]; [|done]. intros [Hl|(o0 & Ho0 & Hr)]; [by left|].
  destruct (Hf k o0 Hk Ho0) as [Hl|(o1 & Ho1 & Hr1)]; [left; by eapply leftBy_reported|].
  right. exists o1. split; [done|]. by etransitivity.
Qed.

Lemma prior_stored r (w : W) k : prior r w k (stored k w (rt_key r)).
Proof. destruct (stored k w (rt_key r)) as [o|] eqn:Ho; [|done]. right. by exists o. Qed.

Lemma writeOf_form r k current mutate :
  writeOf r k = Some (current, mutate) →
  k ∈ managedKinds ∧ obj_meta k current = nameOnly r ∧ ∃ assemble, assembles r k mutate assemble.
Proof.
  assert (Hin : ∀ k, bool_decide (k ∈ managedKinds) = true → k ∈ managedKinds)
    by (intros; by eapply bool_decide_eq_true).
  destruct k; simpl; try done; intros Hw; (split; [by apply Hin|]).
  - injection Hw as <- <-. split; [done|].
    by exists (λ m (x : obj KConfigMap), mkConfigMap m (runtimeConfigData r) (cm_Raw x)).
  - injection Hw as <- <-. split; [done|].
    by exists (λ m (x : obj KServiceAccount), mkServiceAccount m (Some false) (imagePullSecrets r) (sa_Raw x)).
  - injection Hw as <- <-. split; [done|].
    by exists (λ m (x : obj KService), mkService m (mkServiceSpec (desiredServiceType r)
      (runtimeSelectorLabels r) (ss_Ports (svc_Spec (buildService r))) (ss_Raw (svc_Spec x)))
      (svc_Raw x)).
  - injection Hw as <- <-. split; [done|].
    by exists (λ m (x : obj KDeployment), mkDeployment m
      match autoscalingEnabled r, ds_Replicas (d_Spec x) with
      | true, Some n => ds_set_replicas (Some n) (d_Spec (buildDeployment r))
      | _, _ => d_Spec (buildDeployment r)
      end (d_Status x)).
  - injection Hw as <- <-. split; [done|].
    by exists (λ m (x : obj KPodDisruptionBudget), mkPDB m (pdb_Spec (buildPodDisruptionBudget r)) (pdb_Raw x)).
  - destruct (spec_NetworkPolicy (rt_Spec r)) as [np|]; [|done]. destruct (rnp_Enabled np); [|done].
    injection Hw as <- <-. split; [done|].
    by exists (λ m (x : obj KNetworkPolicy), mkNetworkPolicy m (np_Spec (buildNetworkPolicy r np)) (np_Raw x)).
  - destruct (autoscalingEnabled r); [|done]. injection Hw as <- <-. split; [done|].
    by exists (λ m (x : obj KHorizontalPodAutoscaler), mkHPA m (hpa_Spec (buildHorizontalPodAutoscaler r)) (hpa_Raw x)).
Qed.

(** The writes depend on the essence of the runtime only. *)
Lemma mutateMeta_essence r r' m :
  essence r' = essence r → mutateMeta r' (runtimeLabels r') m = mutateMeta r (runtimeLabels r) m.
Proof.
  intros He. destruct (essence_fields r r' He) as (_ & Hns & _ & Ho & Hl). unfold mutateMeta.
  rewrite Hl. by apply set_controller_reference_owner.
Qed.

Lemma writeOf_essence r r' k current mutate :
  essence r' = essence r → writeOf r' k = Some (current, mutate) →
  ∃ mutate', writeOf r k = Some (current, mutate') ∧ ∀ x, mutate x = mutate' x.
Proof.
  intros He. destruct (essence_fields r r' He) as (_ & _ & Hs & _).
  assert (Hmeta := λ m, mutateMeta_essence r r' m He).
  assert (Hno : nameOnly r' = nameOnly r) by by apply (essence_eq nameOnly).
  assert (Ha : autoscalingEnabled r' = autoscalingEnabled r) by by apply (essence_eq autoscalingEnabled).
  destruct k; simpl; try done; rewrite Hno.
  - intros [= <- <-]. eexists. split; [done|]. intros x. unfold mutateConfigMap.
    change (om_Labels (cm_Meta (buildConfigMap r'))) with (runtimeLabels r').
    change (om_Labels (cm_Meta (buildConfigMap r))) with (runtimeLabels r).
    by rewrite Hmeta, (essence_eq (λ r, cm_Data (buildConfigMap r)) r r').
  - intros [= <- <-]. eexists. split; [done|]. intros x. unfold mutateServiceAccount.
    change (om_Labels (sa_Meta (buildServiceAccount r'))) with (runtimeLabels r').
    change (om_Labels (sa_Meta (buildServiceAccount r))) with (runtimeLabels r).
    by rewrite Hmeta, (essence_eq (λ r, sa_ImagePullSecrets (buildServiceAccount r)) r r').
  - intros [= <- <-]. eexists. split; [done|]. intros x. unfold mutateService.
    change (om_Labels (svc_Meta (buildService r'))) with (runtimeLabels r').
    change (om_Labels (svc_Meta (buildService r))) with (runtimeLabels r).
    by rewrite Hmeta, (essence_eq (λ r, svc_Spec (buildService r)) r r').
  - intros [= <- <-]. eexists. split; [done|]. intros x. unfold mutateDeployment.
    change (om_Labels (d_Meta (buildDeployment r'))) with (runtimeLabels r').
    change (om_Labels (d_Meta (buildDeployment r))) with (runtimeLabels r).
    by rewrite Hmeta, Ha, (essence_eq (λ r, d_Spec (buildDeployment r)) r r').
  - intros [= <- <-]. eexists. split; [done|]. intros x. unfold mutatePodDisruptionBudget.
    change (om_Labels (pdb_Meta (buildPodDisruptionBudget r'))) with (runtimeLabels r').
    change (om_Labels (pdb_Meta (buildPodDisruptionBudget r))) with (runtimeLabels r).
    by rewrite Hmeta, (essence_eq (λ r, pdb_Spec (buildPodDisruptionBudget r)) r r').
  - rewrite Hs. destruct (spec_NetworkPolicy (rt_Spec r)) as [np|]; [|done].
    destruct (rnp_Enabled np); [|done].
    intros [= <- <-]. eexists. split; [done|]. intros x. unfold mutateNetworkPolicy.
    change (om_Labels (np_Meta (buildNetworkPolicy r' np))) with (runtimeLabels r').
    change (om_Labels (np_Meta (buildNetworkPolicy r np))) with (runtimeLabels r).
    by rewrite Hmeta, (essence_eq (λ r, np_Spec (buildNetworkPolicy r np)) r r').
  - rewrite Ha. destruct (autoscalingEnabled r); [|done].
    intros [= <- <-]. eexists. split; [done|]. intros x. unfold mutateHorizontalPodAutoscaler.
    change (om_Labels (hpa_Meta (buildHorizontalPodAutoscaler r'))) with (runtimeLabels r').
    change (om_Labels (hpa_Meta (buildHorizontalPodAutoscaler r))) with (runtimeLabels r).
    by rewrite Hmeta, (essence_eq (λ r, hpa_Spec (buildHorizontalPodAutoscaler r)) r r').
Qed.

(** Admission survives what the operator does, and changes of the status. *)
Lemma admissible_from r r' (w w' : W) :
  essence r' = essence r → objectsFrom (rt_key r) w w' → admissible r w → admissible r' w'.
Proof.
  intros He Hf Ha k current mutate old y Hw Hp Hm.
  destruct (writeOf_essence r r' k current mutate He Hw) as (mutate' & Hw' & Heq).
  destruct (essence_fields r r' He) as (Hk & _).
  apply (Ha k current mutate' old y Hw'); [|by rewrite <-Heq].
  apply (prior_from r w w'); [by apply (writeOf_form r k current mutate')|done|].
  unfold prior in *. by rewrite Hk in Hp.
Qed.

(** ** The seven steps

    Every step is one write, whose mutate function sets the labels and the
    controller and then the content, or the deletion of an object that is not
    wanted. *)

Inductive StepForm (r : TrussiumRuntime) (k : Kind) : Prog (option GoError) → Prop :=
| WriteStep current mutate assemble :
    writeOf r k = Some (current, mutate) → assembles r k mutate assemble →
    (∀ m x o, ownedBy r (obj_meta k o) → keeps k (assemble m x) o → asDesired r k (Some o)) →
    StepForm r k (perform (OpCreateOrUpdate k current mutate))
| DeleteStep :
    k ∈ managedKinds → writeOf r k = None → asDesired r k None →
    StepForm r k (err ← perform (OpDelete k (rt_key r)); mret (ignoreNotFound err)).

Lemma in_managed k : bool_decide (k ∈ managedKinds) = true → k ∈ managedKinds.
Proof. apply bool_decide_eq_true. Qed.

Lemma keeps_meta k x o : keeps k x o → metaKept (obj_meta k x) (obj_meta k o).
Proof. destruct k; simpl; tauto. Qed.

Lemma owned_kept r m m' : metaKept m m' → ownedBy r m → ownedBy r m'.
Proof. intros (_ & _ & Hl & _ & Ho) [H1 H2]. split; congruence. Qed.

(** What a write sends is owned by the runtime and keeps the key. *)
Lemma written_owned r k mutate assemble (x y : obj k) :
  assembles r k mutate assemble → mutate x = Ok y →
  ∃ m, y = assemble m x ∧ ownedBy r m ∧ obj_key k y = obj_key k x.
Proof.
  intros [Hmeta Hmut] Hy. rewrite Hmut in Hy. unfold mutateMeta in Hy.
  destruct (SetControllerReference r _) as [m|e] eqn:Hset; [|done]. injection Hy as <-.
  destruct (set_controller_reference_ok _ _ _ Hset) as (refs & Hmm & Hctl).
  exists m. split; [done|]. unfold obj_key. rewrite Hmeta, Hmm. split; [split; [done|exact Hctl]|done].
Qed.

(** The object a write starts from has the key of the runtime. *)
Lemma start_key r k current mutate (w : W) :
  writeOf r k = Some (current, mutate) →
  obj_key k current = rt_key r
  ∧ obj_key k (default current (stored k w (obj_key k current))) = obj_key k current.
Proof.
  intros Hw. destruct (writeOf_form r k current mutate Hw) as (_ & Hcur & _).
  assert (Hkey : obj_key k current = rt_key r) by (unfold obj_key; by rewrite Hcur).
  split; [done|]. destruct (stored k w (obj_key k current)) as [o|] eqn:Ho; [|done].
  by apply stored_key in Ho.
Qed.

(** What a write does where the mutate function succeeds: it is accepted and
    leaves an object, or it is refused. *)
Lemma write_outcome r k current mutate y (w : W) :
  writeOf r k = Some (current, mutate) →
  mutate (default current (stored k w (rt_key r))) = Ok y →
  (accepts W k (stored k w (rt_key r)) y
   ∧ ∃ w' o, handle (OpCreateOrUpdate k current mutate) w = (None, w')
       ∧ stored k w' (rt_key r) = Some o ∧ keeps k y o ∧ sameExcept k (rt_key r) w w')
  ∨ (¬ accepts W k (stored k w (rt_key r)) y
     ∧ ∃ e, handle (OpCreateOrUpdate k current mutate) w = (Some e, w)).
Proof.
  intros Hw Hy. destruct (start_key r k current mutate w Hw) as [Hkey Hx].
  destruct (writeOf_form r k current mutate Hw) as (_ & _ & assemble & Has).
  rewrite <-Hkey in Hy |- *. apply create_or_update; [done|].
  destruct (written_owned r k mutate assemble _ y Has Hy) as (_ & _ & _ & Hk). by rewrite Hk.
Qed.

(** A write that succeeds stores what the mutate function makes. *)
Lemma write_stored r k current mutate (w w' : W) :
  writeOf r k = Some (current, mutate) →
  handle (OpCreateOrUpdate k current mutate) w = (None, w') →
  ∃ y o, mutate (default current (stored k w (rt_key r))) = Ok y
    ∧ stored k w' (rt_key r) = Some o ∧ keeps k y o ∧ sameExcept k (rt_key r) w w'.
Proof.
  intros Hw Hrun. destruct (start_key r k current mutate w Hw) as [Hkey _].
  destruct (mutate (default current (stored k w (rt_key r)))) as [y|e] eqn:Hy.
  2:{ rewrite <-Hkey in Hy. by rewrite (create_or_update_refused k w current mutate e Hy) in Hrun. }
  destruct (write_outcome r k current mutate y w Hw Hy) as [(_ & w1 & o & Hh & Ho)|(_ & e & Hh)];
    rewrite Hrun in Hh; [|done]. injection Hh as <-. by exists y, o.
Qed.

(** A write that succeeds stores what is desired. *)
Lemma write_brings r k current mutate assemble (w w' : W) :
  writeOf r k = Some (current, mutate) → assembles r k mutate assemble →
  (∀ m x o, ownedBy r (obj_meta k o) → keeps k (assemble m x) o → asDesired r k (Some o)) →
  handle (OpCreateOrUpdate k current mutate) w = (None, w') → leaves r k w w'.
Proof.
  intros Hw Has Hdes Hrun.
  destruct (write_stored r k current mutate w w' Hw Hrun) as (y & o & Hy & Ho & Hkeep & Hs).
  destruct (written_owned r k mutate assemble _ y Has Hy) as (m & -> & Hown & _).
  unfold leaves. rewrite Ho. split; [|split; [done|]].
  - apply (Hdes m (default current (stored k w (rt_key r)))); [|done].
    eapply owned_kept; [by apply keeps_meta|]. by rewrite (proj1 Has).
  - intros o' [= <-]. by eexists r, current, mutate, _, _.
Qed.

(** A write of objects nobody else controls succeeds if it is accepted. *)
Lemma write_mutates r k current mutate (w : W) :
  writeOf r k = Some (current, mutate) → unclaimed r w →
  ∃ y, mutate (default current (stored k w (rt_key r))) = Ok y.
Proof.
  intros Hw Hu. destruct (start_key r k current mutate w Hw) as [Hkey Hx]. rewrite Hkey in Hx.
  destruct (writeOf_form r k current mutate Hw) as (Hk & Hcur & assemble & Hmeta & Hmut).
  set (x := default current (stored k w (rt_key r))) in *.
  assert (Hfree : ∀ ref, GetControllerOf (om_OwnerReferences (obj_meta k x)) = Some ref → designates r ref).
  { unfold x. destruct (stored k w (rt_key r)) as [o|] eqn:Ho; simpl.
    - intros ref. by apply (Hu k o ref).
    - by rewrite Hcur. }
  destruct (set_controller_reference_free r (meta_set_labels (runtimeLabels r) (obj_meta k x))) as [m Hm].
  { simpl. unfold obj_key, rt_key, meta_key in Hx. by injection Hx. }
  { exact Hfree. }
  exists (assemble m x). rewrite Hmut. unfold mutateMeta. by rewrite Hm.
Qed.

Lemma write_succeeds r k current mutate (w : W) :
  writeOf r k = Some (current, mutate) → unclaimed r w → admissible r w →
  ∃ w', handle (OpCreateOrUpdate k current mutate) w = (None, w').
Proof.
  intros Hw Hu Ha. destruct (write_mutates r k current mutate w Hw Hu) as [y Hy].
  destruct (write_outcome r k current mutate y w Hw Hy) as [(_ & w1 & o & Hh & _)|(Hn & _)];
    [by exists w1|]. destruct Hn. by apply (Ha k current mutate _ y Hw (prior_stored r w k)).
Qed.

(** A delete leaves no object, whether there was one or not. *)
Lemma run_delete k (w : W) key :
  ∃ w', run (err ← perform (OpDelete k key); mret (ignoreNotFound err)) w = (None, w')
    ∧ stored k w' key = None ∧ sameExcept k key w w'.
Proof.
  simpl. destruct (stored k w key) as [o|] eqn:Ho.
  - destruct (delete_found k w key o Ho) as (w' & -> & Hn & Hs). by exists w'.
  - destruct (delete_missing k w key Ho) as (e & -> & Hnf). exists w. simpl.
    rewrite ignore_not_found, Hnf. split; [done|]. split; [done|]. by intros k' key' _.
Qed.

Lemma step_brings r k p : StepForm r k p → brings r k p.
Proof.
  intros [current mutate assemble Hw Has Hdes|Hk _ Hdes] w Hu Ha.
  - destruct (write_succeeds r k current mutate w Hw Hu Ha) as [w' Hh].
    exists w'. split; [by rewrite (run_perform (OpCreateOrUpdate k current mutate))|].
    by apply (write_brings r k current mutate assemble).
  - destruct (run_delete k w (rt_key r)) as (w' & Hr & Hn & Hs). exists w'. split; [done|].
    unfold leaves. by rewrite Hn.
Qed.

Lemma configMap_step r : StepForm r KConfigMap (reconcileConfigMap r).
Proof.
  apply (WriteStep r KConfigMap _ _
    (λ m (x : obj KConfigMap), mkConfigMap m (runtimeConfigData r) (cm_Raw x)));
    try done.
  intros m x o Ho [_ Hk]. by exists o.
Qed.

Lemma serviceAccount_step r : StepForm r KServiceAccount (reconcileServiceAccount r).
Proof.
  apply (WriteStep r KServiceAccount _ _ (λ m (x : obj KServiceAccount),
    mkServiceAccount m (Some false) (imagePullSecrets r) (sa_Raw x)));
    try done.
  intros m x o Ho (_ & Hk1 & Hk2). by exists o.
Qed.

Lemma desiredServiceType_nonempty r : desiredServiceType r ≠ EmptyString.
Proof. unfold desiredServiceType. by case_decide. Qed.

Lemma service_step r : StepForm r KService (reconcileService r).
Proof.
  apply (WriteStep r KService _ _
    (λ m (x : obj KService), mkService m (mkServiceSpec (desiredServiceType r)
      (runtimeSelectorLabels r) (ss_Ports (svc_Spec (buildService r))) (ss_Raw (svc_Spec x)))
      (svc_Raw x))); try done.
  intros m x o Ho (_ & Hk2 & Hk3 & Hk4). exists o. split; [done|]. split; [done|].
  split; [by apply Hk2, desiredServiceType_nonempty|]. split; [done|]. simpl in Hk4.
  apply Forall2_cons_inv_l in Hk4 as ([pn pp po pt] & l & Hp & Hl & ->).
  apply Forall2_nil_inv_l in Hl as ->. destruct Hp as (H1 & H2 & H3 & H4). simpl in *. subst.
  by rewrite H3, H4.
Qed.

Lemma deployment_step r : StepForm r KDeployment (reconcileDeployment r).
Proof.
  apply (WriteStep r KDeployment _ _ (λ m (x : obj KDeployment), mkDeployment m
    match autoscalingEnabled r, ds_Replicas (d_Spec x) with
    | true, Some n => ds_set_replicas (Some n) (d_Spec (buildDeployment r))
    | _, _ => d_Spec (buildDeployment r)
    end (d_Status x))); try done.
  intros m x o Ho [_ Hk]. exists o, (writtenReplicas r x). split; [done|]. split; [done|].
  split; [intros Ha; unfold writtenReplicas; by rewrite Ha|].
  assert (Hspec : (match autoscalingEnabled r, ds_Replicas (d_Spec x) with
        | true, Some n => ds_set_replicas (Some n) (d_Spec (buildDeployment r))
        | _, _ => d_Spec (buildDeployment r)
        end) = ds_set_replicas (Some (writtenReplicas r x)) (d_Spec (buildDeployment r))).
  { unfold writtenReplicas. destruct (autoscalingEnabled r) eqn:Ha;
      [destruct (ds_Replicas (d_Spec x)); [done|]|];
      unfold buildDeployment, initialDeploymentReplicas; by rewrite Ha. }
  rewrite <-Hspec. exact Hk.
Qed.

Lemma podDisruptionBudget_step r :
  StepForm r KPodDisruptionBudget (reconcilePodDisruptionBudget r).
Proof.
  apply (WriteStep r KPodDisruptionBudget _ _ (λ m (x : obj KPodDisruptionBudget),
    mkPDB m (pdb_Spec (buildPodDisruptionBudget r)) (pdb_Raw x))); try done.
  intros m x o Ho (_ & Hk2 & Hk3). exists o. split; [done|]. split; [done|].
  simpl in Hk2, Hk3. destruct o as [om [a b] raw]. simpl in *. by subst.
Qed.

Lemma networkPolicy_step r : StepForm r KNetworkPolicy (reconcileNetworkPolicy r).
Proof.
  unfold reconcileNetworkPolicy. cbv zeta.
  destruct (spec_NetworkPolicy (rt_Spec r)) as [np|] eqn:Hnp; [destruct (rnp_Enabled np) eqn:Hen|];
    try (apply DeleteStep; [by apply in_managed|simpl; by rewrite Hnp, ?Hen..]).
  apply (WriteStep r KNetworkPolicy _ _ (λ m (x : obj KNetworkPolicy),
    mkNetworkPolicy m (np_Spec (buildNetworkPolicy r np)) (np_Raw x))); try done;
    [simpl; by rewrite Hnp, Hen|].
  intros m x o Ho (_ & Hk2 & Hk3 & Hk4). simpl. rewrite Hnp, Hen. exists o. split; [done|].
  split; [done|]. destruct o as [om [a b c] raw]. simpl in *.
  rewrite Hk2, Hk3, Hk4; [done| |done]. apply Forall_forall. intros rule Hin.
  apply list_elem_of_In, in_map_iff in Hin as (ing & <- & _). by repeat constructor.
Qed.

Lemma autoscaler_step r : StepForm r KHorizontalPodAutoscaler (reconcileHorizontalPodAutoscaler r).
Proof.
  unfold reconcileHorizontalPodAutoscaler. destruct (autoscalingEnabled r) eqn:Ha;
    [|apply DeleteStep; [by apply in_managed|simpl; by rewrite Ha..]].
  apply (WriteStep r KHorizontalPodAutoscaler _ _ (λ m (x : obj KHorizontalPodAutoscaler),
    mkHPA m (hpa_Spec (buildHorizontalPodAutoscaler r)) (hpa_Raw x))); try done;
    [simpl; by rewrite Ha|].
  intros m x o Ho (_ & Hk2 & Hk3 & Hk4 & Hk5). simpl. rewrite Ha. exists o. split; [done|].
  split; [done|]. destruct o as [om [a b c d] raw]. simpl in *. by rewrite Hk2, Hk3, Hk4, Hk5.
Qed.

(** ** All steps in order *)

Record ManagedStep := mkStep {
  ms_Kind : Kind;
  ms_Name : string;
  ms_Step : TrussiumRuntime → Prog (option GoError)
}.

(** The steps of [reconcileCoreResources], as a list. *)
Definition managedSteps : list ManagedStep :=
  [mkStep KConfigMap "ConfigMap" reconcileConfigMap;
   mkStep KServiceAccount "ServiceAccount" reconcileServiceAccount;
   mkStep KService "Service" reconcileService;
   mkStep KDeployment "Deployment" reconcileDeployment;
   mkStep KPodDisruptionBudget "PodDisruptionBudget" reconcilePodDisruptionBudget;
   mkStep KNetworkPolicy "NetworkPolicy" reconcileNetworkPolicy;
   mkStep KHorizontalPodAutoscaler "HorizontalPodAutoscaler" reconcileHorizontalPodAutoscaler].

Definition runManagedSteps (steps : list ManagedStep) (r : TrussiumRuntime) : Prog (option GoError) :=
  foldr (λ s, reconcileStep r (ms_Name s) (ms_Step s)) (mret None) steps.

Lemma core_managedSteps r : reconcileCoreResources r = runManagedSteps managedSteps r.
Proof. done. Qed.

Lemma managedSteps_form r : Forall (λ s, StepForm r (ms_Kind s) (ms_Step s r)) managedSteps.
Proof.
  repeat constructor; simpl; auto using configMap_step, serviceAccount_step, service_step,
    deployment_step, podDisruptionBudget_step, networkPolicy_step, autoscaler_step.
Qed.

Lemma form_managed r k p : StepForm r k p → k ∈ managedKinds.
Proof. intros [current mutate assemble Hw _ _|Hk _ _]; [by eapply writeOf_form|done]. Qed.

Lemma managedSteps_nodup : NoDup (ms_Kind <$> managedSteps).
Proof. by apply (bool_decide_unpack _). Qed.

Definition outside (r : TrussiumRuntime) (ks : list Kind) (w w' : W) : Prop :=
  ∀ k key, (k ∉ ks ∨ key ≠ rt_key r) → stored k w' key = stored k w key.

(** A program that brings all of [ks] into shape. *)
Definition bringsAll (r : TrussiumRuntime) (ks : list Kind) (p : Prog (option GoError)) : Prop :=
  ∀ w : W, unclaimed r w → admissible r w → ∃ w', run p w = (None, w')
    ∧ (∀ k, k ∈ ks → asDesired r k (stored k w' (rt_key r)))
    ∧ unclaimed r w' ∧ objectsFrom (rt_key r) w w' ∧ outside r ks w w'.

Lemma bringsAll_step r k ks kind step rest :
  k ∈ managedKinds → k ∉ ks → brings r k (step r) → bringsAll r ks rest →
  bringsAll r (k :: ks) (reconcileStep r kind step rest).
Proof.
  intros Hk Hnk Hstep Hrest w Hu Ha. destruct (Hstep w Hu Ha) as (w1 & Hr1 & Hl1).
  pose proof (unclaimed_step r k w w1 Hk Hu Hl1) as Hu1.
  pose proof (objectsFrom_leaves r k w w1 Hl1) as Hf1. destruct Hl1 as (Hd1 & Hs1 & _).
  destruct (Hrest w1 Hu1) as (w2 & Hr2 & Hd2 & Hu2 & Hf2 & Ho2); [by eapply admissible_from|].
  exists w2. split_and!; [| |done|by etransitivity|].
  - unfold reconcileStep. rewrite run_bind, Hr1. exact Hr2.
  - intros k' [->|Hin]%elem_of_cons; [|by apply Hd2].
    rewrite (Ho2 k (rt_key r)) by by left. exact Hd1.
  - intros k' key Hout. rewrite (Ho2 k' key).
    + apply Hs1. rewrite not_elem_of_cons in Hout. intros Heq. injection Heq as -> ->.
      destruct Hout as [[? _]|?]; done.
    + rewrite not_elem_of_cons in Hout. destruct Hout as [[_ ?]|?]; auto.
Qed.

Lemma steps_bring r steps :
  Forall (λ s, StepForm r (ms_Kind s) (ms_Step s r)) steps → NoDup (ms_Kind <$> steps) →
  bringsAll r (ms_Kind <$> steps) (runManagedSteps steps r).
Proof.
  induction 1 as [|s steps Hs Hsteps IH]; intros Hn.
  - intros w Hu _. exists w. split; [done|]. split; [|done]. intros k Hk. by apply not_elem_of_nil in Hk.
  - rewrite fmap_cons in Hn |- *. apply NoDup_cons in Hn as [Hni Hn].
    apply bringsAll_step; [by eapply form_managed|done|by apply step_brings|by apply IH].
Qed.

Lemma core_brings r : bringsAll r managedKinds (reconcileCoreResources r).
Proof. exact (steps_bring r managedSteps (managedSteps_form r) managedSteps_nodup). Qed.

(** A step that returns nil leaves the objects of the other kinds alone. *)
Lemma step_frame r k p (w w' : W) :
  StepForm r k p → run p w = (None, w') → sameExcept k (rt_key r) w w'.
Proof.
  intros [current mutate assemble Hw Has Hdes|Hk _ Hdes] Hr.
  - rewrite (run_perform (OpCreateOrUpdate k current mutate)) in Hr.
    by apply (write_brings r k current mutate assemble) in Hr as (_ & Hs & _).
  - destruct (run_delete k w (rt_key r)) as (w1 & Hr1 & _ & Hs). rewrite Hr in Hr1.
    by injection Hr1 as ->.
Qed.

(** A refused write fails the step of its kind. *)
Lemma step_refused r k p current mutate y (w : W) :
  StepForm r k p → writeOf r k = Some (current, mutate) →
  mutate (default current (stored k w (rt_key r))) = Ok y →
  ¬ accepts W k (stored k w (rt_key r)) y → ∃ e, run p w = (Some e, w).
Proof.
  intros [current' mutate' assemble Hw Has _|_ Hno _] Hw' Hy Hn; rewrite Hw' in *; [|done].
  injection Hw as <- <-. rewrite (run_perform (OpCreateOrUpdate k current mutate)).
  by destruct (write_outcome r k current mutate y w Hw' Hy) as [[? _]|[_ He]].
Qed.

Lemma steps_refused r steps k current mutate y (w : W) :
  Forall (λ s, StepForm r (ms_Kind s) (ms_Step s r)) steps → k ∈ ms_Kind <$> steps →
  writeOf r k = Some (current, mutate) →
  mutate (default current (stored k w (rt_key r))) = Ok y →
  ¬ accepts W k (stored k w (rt_key r)) y → (run (runManagedSteps steps r) w).1 ≠ None.
Proof.
  intros Hsteps Hin Hw. revert w. induction Hsteps as [|s steps Hs Hsteps IH]; intros w Hy Hn.
  { by apply not_elem_of_nil in Hin. }
  rewrite fmap_cons, elem_of_cons in Hin. simpl. unfold reconcileStep at 1. rewrite run_bind.
  destruct (decide (k = ms_Kind s)) as [->|Hne].
  { by destruct (step_refused r _ _ current mutate y w Hs Hw Hy Hn) as [e ->]. }
  destruct (run (ms_Step s r) w) as [[e|] w1] eqn:Hr; [done|].
  pose proof (step_frame r _ _ w w1 Hs Hr k (rt_key r)) as Hsame.
  destruct Hin as [?|Hin]; [done|]. apply IH; [done|rewrite Hsame by congruence; done..].
Qed.

Lemma core_refused r (w : W) : refused r w → (run (reconcileCoreResources r) w).1 ≠ None.
Proof.
  intros (k & current & mutate & y & Hw & Hy & Hn).
  apply (steps_refused r managedSteps k current mutate y w (managedSteps_form r)); try done.
  change (ms_Kind <$> managedSteps) with managedKinds. by apply (writeOf_form r k current mutate).
Qed.

End Steps.

Section Converge.
Context `{K8sLaws} {W : Type} `{!ApiServer W} `{!ApiServerLaws W}.

Lemma run_validate r names (w : W) :
  (∀ name, name ∈ names → is_Some (stored KSecret w (mkKey (rt_Namespace r) name))) →
  run (validateSecrets r names) w = (validReferenceValidation, w).
Proof.
  induction names as [|name names IH]; intros Hs; [done|].
  destruct (Hs name) as [s Hn]; [by left|]. simpl.
  rewrite (get_found KSecret w _ s Hn). apply IH. intros n Hin. apply Hs. by right.
Qed.

Lemma run_load r (w : W) :
  run (loadRuntimeObservation r) w
  = (Ok (mkObservation (stored KDeployment w (rt_key r)) (stored KService w (rt_key r))), w).
Proof.
  simpl. destruct (stored KDeployment w (rt_key r)) as [d|] eqn:Hd;
    [rewrite (get_found KDeployment w _ d Hd)
    |destruct (get_missing KDeployment w _ Hd) as (e & -> & Hnf); rewrite Hnf];
    simpl; (destruct (stored KService w (rt_key r)) as [s|] eqn:Hs;
      [by rewrite (get_found KService w _ s Hs)
      |destruct (get_missing KService w _ Hs) as (e' & -> & Hnf'); by rewrite Hnf']).
Qed.

Lemma run_events p (w : W) : onlyEvents p → ∃ w', run p w = (tt, w') ∧ sameObjects w w'.
Proof.
  revert w. induction p as [[]|o k IH]; intros w Ho; simpl in *; [by exists w|].
  destruct o; try done. destruct (event_recorded w e) as (w1 & -> & Hs1).
  destruct (IH tt w1 Ho) as (w2 & -> & Hs2). exists w2. split; [done|].
  intros k' key. by rewrite Hs2, Hs1.
Qed.

(** The status update succeeds and touches only the status of the runtime. *)
Lemma run_update r s (w : W) :
  stored KTrussiumRuntime w (rt_key r) = Some r →
  let n := preserveRuntimeConditionTransitionTimes (rt_Status r) s in
  ∃ b r' w', run (updateRuntimeStatus r s) w = ((b, None, r'), w')
    ∧ stored KTrussiumRuntime w' (rt_key r) = Some r' ∧ statusStored (rt_set_status n r) r'
    ∧ sameExcept KTrussiumRuntime (rt_key r) w w'.
Proof.
  intros Hst n. unfold updateRuntimeStatus. fold n. destruct (DeepEqual (rt_Status r) n) eqn:Heq.
  - apply deep_equal_spec in Heq. exists false, r, w. split; [done|]. split; [done|].
    split; [|by intros k key _]. rewrite <-Heq. by destruct r.
  - destruct (status_update w (rt_set_status n r) r) as (w' & r' & Hh & Hs & Hr & Hf);
      [done..|]. exists true, r', w'. simpl. by rewrite Hh.
Qed.

Lemma run_report rc clk r prev v (w : W) :
  stored KTrussiumRuntime w (rt_key r) = Some r →
  let obs := mkObservation (stored KDeployment w (rt_key r)) (stored KService w (rt_key r)) in
  ∃ r' w', run (reportStatus rc clk r prev v) w = (None, w')
    ∧ stored KTrussiumRuntime w' (rt_key r) = Some r'
    ∧ statusStored (rt_set_status (reportedStatus clk r obs (Observed v)) r) r'
    ∧ sameExcept KTrussiumRuntime (rt_key r) w w'.
Proof.
  intros Hst obs. unfold reportStatus. rewrite run_bind, run_load. fold obs.
  destruct (run_update r (buildRuntimeStatus clk r obs v) w Hst) as (b & r' & w1 & Hr & Hs & Hss & Hf).
  rewrite run_bind, Hr. rewrite run_bind.
  destruct (run_events (if b then recordStatusTransitionEvents rc r' prev (rt_Status r') else mret tt) w1)
    as (w2 & -> & Hs2); [destruct b; [apply onlyEvents_transitions|done]|].
  exists r', w2. split; [done|]. split; [by rewrite Hs2|]. split; [exact Hss|].
  intros k key Hne. rewrite Hs2. by apply Hf.
Qed.

Lemma runnable_again r n r' (w w' : W) :
  runnable r w → unclaimed r w' → objectsFrom (rt_key r) w w' →
  (∀ name, stored KSecret w' (mkKey (rt_Namespace r) name)
           = stored KSecret w (mkKey (rt_Namespace r) name)) →
  stored KTrussiumRuntime w' (rt_key r) = Some r' → statusStored (rt_set_status n r) r' →
  runnable r' w'.
Proof.
  intros ((_ & Hdel & Hsec & _) & Ha) Hu Hf Hsame Hst (Hk & Huid & _ & Hd & Hsp & _).
  change (rt_key (rt_set_status n r)) with (rt_key r) in Hk.
  change (rt_Spec (rt_set_status n r)) with (rt_Spec r) in Hsp.
  change (om_UID (rt_Meta (rt_set_status n r))) with (om_UID (rt_Meta r)) in Huid.
  assert (Hname : rt_Name r' = rt_Name r ∧ rt_Namespace r' = rt_Namespace r).
  { unfold rt_key, meta_key in Hk. unfold rt_Name, rt_Namespace. by injection Hk. }
  destruct Hname as [Hn Hns]. split; [|apply (admissible_from r r' w w'); [|done..]].
  2:{ unfold essence. by rewrite Hn, Hns, Huid, Hsp. }
  unfold ready. rewrite Hk. split; [done|]. split; [by rewrite Hd|]. split.
  - unfold referencedSecretNames. rewrite Hsp, Hns. intros name Hin. rewrite Hsame.
    by apply Hsec.
  - intros k o ref Hin Ho Href. rewrite Hk in Ho. unfold designates. rewrite Hn.
    by apply (Hu k o ref).
Qed.

(** The body of a reconciliation of a runnable runtime. *)
Lemma run_body rc clk r (w : W) :
  runnable r w →
  ∃ w' r', run (reconcileBody rc clk (rt_key r)) w = (None, w')
    ∧ (∀ k, k ∈ managedKinds → asDesired r k (stored k w' (rt_key r)))
    ∧ stored KTrussiumRuntime w' (rt_key r) = Some r'
    ∧ statusStored
        (rt_set_status (reportedStatus clk r
           (mkObservation (stored KDeployment w' (rt_key r)) (stored KService w' (rt_key r)))
           (Observed validReferenceValidation)) r) r'
    ∧ runnable r' w'
    ∧ outside r (KTrussiumRuntime :: managedKinds) w w'
    ∧ ∃ w1, run (reconcileCoreResources r) w = (None, w1)
        ∧ ∀ k, k ∈ managedKinds → stored k w' (rt_key r) = stored k w1 (rt_key r).
Proof.
  intros Hrun. pose proof Hrun as ((Hst & Hdel & Hsec & Hu) & Ha). unfold reconcileBody.
  rewrite run_bind, (run_perform (OpGet KTrussiumRuntime (rt_key r)) w), (get_found _ _ _ _ Hst), Hdel.
  cbn [negb]. cbv zeta.
  rewrite run_bind. unfold validateSecretReferences. rewrite (run_validate r _ w Hsec).
  cbn [v_Err v_Valid validReferenceValidation negb].
  destruct (core_brings r w Hu Ha) as (w1 & Hr1 & Hd1 & Hu1 & Hf1 & Ho1). rewrite run_bind, Hr1.
  assert (Hst1 : stored KTrussiumRuntime w1 (rt_key r) = Some r).
  { rewrite Ho1; [done|]. left. by apply (bool_decide_unpack _). }
  destruct (run_report rc clk r (copyRuntimeStatus (rt_Status r)) validReferenceValidation w1 Hst1)
    as (r' & w2 & Hr2 & Hst2 & Hss & Hf).
  assert (Hman : ∀ k, k ∈ managedKinds → stored k w2 (rt_key r) = stored k w1 (rt_key r)).
  { intros k Hk. apply Hf. intros Heq. injection Heq as ->. revert Hk.
    by apply (bool_decide_unpack _). }
  exists w2, r'. split; [exact Hr2|]. split; [intros k Hk; rewrite Hman by done; by apply Hd1|].
  split; [exact Hst2|].
  split; [by rewrite !Hman by by apply in_managed|].
  split.
  - eapply runnable_again; [exact Hrun| |..|exact Hst2|exact Hss].
    + intros k o ref Hk Ho. rewrite Hman in Ho by done. by apply Hu1.
    + intros k o Hk Ho. rewrite Hman in Ho by done. by apply Hf1.
    + intros name. rewrite Hf by done. apply Ho1. left. by apply (bool_decide_unpack _).
  - split; [|by exists w1]. intros k key Hout. rewrite not_elem_of_cons in Hout. rewrite Hf.
    + apply Ho1. destruct Hout as [[_ ?]|?]; auto.
    + intros Heq. injection Heq as -> ->. destruct Hout as [[? _]|?]; done.
Qed.

Lemma objectsFrom_same key (w w' : W) : sameObjects w w' → objectsFrom key w w'.
Proof. intros Hs k o _ Ho. right. exists o. by rewrite <-Hs. Qed.

Lemma ready_same r (w w' : W) : sameObjects w w' → ready r w → ready r w'.
Proof.
  intros Hs (H1 & H2 & H3 & H4). split; [by rewrite Hs|]. split; [done|].
  split; [intros n Hn; rewrite Hs; by apply H3|].
  intros k o ref Hk Ho. rewrite Hs in Ho. by apply H4.
Qed.

Lemma runnable_same r (w w' : W) : sameObjects w w' → runnable r w → runnable r w'.
Proof.
  intros Hs [Hr Ha]. split; [by eapply ready_same|].
  apply (admissible_from r r w w'); [done|by apply objectsFrom_same|done].
Qed.

(** The body of a reconciliation one of whose writes is refused. *)
Lemma run_body_refused rc clk r (w : W) :
  ready r w → refused r w → (run (reconcileBody rc clk (rt_key r)) w).1 ≠ None.
Proof.
  intros (Hst & Hdel & Hsec & Hu) Href. unfold reconcileBody.
  rewrite run_bind, (run_perform (OpGet KTrussiumRuntime (rt_key r)) w), (get_found _ _ _ _ Hst), Hdel.
  cbn [negb]. cbv zeta.
  rewrite run_bind. unfold validateSecretReferences. rewrite (run_validate r _ w Hsec).
  cbn [v_Err v_Valid validReferenceValidation negb]. rewrite run_bind.
  pose proof (core_refused r w Href) as Hn.
  destruct (run (reconcileCoreResources r) w) as [[e|] w1]; [|done].
  destruct (run_exec (handleReconciliationFailure rc clk r (copyRuntimeStatus (rt_Status r)) e) w1)
    as [tr He]. by eapply handleFailure_some.
Qed.

(** Clock readings and metrics around the body change no object. *)
Lemma run_wrapped rc clk key (w : W) :
  ∃ w1, sameObjects w w1
    ∧ ∀ err w2, run (reconcileBody rc clk key) w1 = (err, w2) →
      ∃ w3, run (Reconcile rc clk key) w = (err, w3) ∧ sameObjects w2 w3.
Proof.
  destruct (clock_read w) as (t1 & w1 & Ht1 & Hs1). exists w1. split; [done|].
  intros err w2 Hb. unfold Reconcile. rewrite run_bind, (run_perform OpNow w), Ht1.
  rewrite run_bind, Hb. set (l := if err then MetricError else MetricSuccess).
  rewrite run_bind, (run_perform (OpCountReconciliation l) w2).
  destruct (reconciliation_counted w2 l) as (w3 & -> & Hs3).
  rewrite run_bind, (run_perform OpNow w3). destruct (clock_read w3) as (t2 & w4 & -> & Hs4).
  rewrite run_bind, (run_perform (OpObserveDuration l (t2 - t1)%Z) w4).
  destruct (duration_observed w4 l (t2 - t1)%Z) as (w5 & -> & Hs5).
  exists w5. split; [done|]. intros k key'. by rewrite Hs5, Hs4, Hs3.
Qed.

(** The part of convergence other components build on. *)
Lemma run_reconcile rc clk r (w : W) :
  runnable r w →
  ∃ w', run (Reconcile rc clk (rt_key r)) w = (None, w')
    ∧ (∀ k, k ∈ managedKinds → asDesired r k (stored k w' (rt_key r)))
    ∧ outside r (KTrussiumRuntime :: managedKinds) w w'.
Proof.
  intros Hrun. destruct (run_wrapped rc clk (rt_key r) w) as (w1 & Hs1 & Hwrap).
  destruct (run_body rc clk r w1 (runnable_same r w w1 Hs1 Hrun))
    as (w2 & r' & Hb & Hd & _ & _ & _ & Hout & _).
  destruct (Hwrap None w2 Hb) as (w3 & Hr & Hs). exists w3. split; [done|].
  split; [intros k Hk; rewrite Hs; by apply Hd|]. intros k key Hk. rewrite Hs, (Hout k key Hk). apply Hs1.
Qed.

End Converge.

(** C1. Convergence: take a stored runtime that is not being deleted, whose
    Secrets exist and whose objects nobody else controls, and any API server that
    satisfies the laws.  If the server accepts the writes of the runtime, one
    reconciliation terminates without error; afterwards every managed object is
    as the specification asks (present, labelled, controlled by the runtime and
    with the desired content, or absent if disabled), the stored status is the
    one computed from the stored Deployment and Service, no other object has
    changed, and the next reconciliation starts from a state of the same kind.
    If the server refuses one of the writes over what is stored, the
    reconciliation ends with an error. *)
Theorem reconcile_converges `{K8sLaws} {W : Type} `{!ApiServer W} `{!ApiServerLaws W}
    rc clk (r : TrussiumRuntime) (w : W) :
  ready r w →
  (admissible r w →
   ∃ w' r', run (Reconcile rc clk (rt_key r)) w = (None, w')
     ∧ (∀ k, k ∈ managedKinds → asDesired r k (stored k w' (rt_key r)))
     ∧ stored KTrussiumRuntime w' (rt_key r) = Some r'
     ∧ statusStored
         (rt_set_status (reportedStatus clk r
            (mkObservation (stored KDeployment w' (rt_key r)) (stored KService w' (rt_key r)))
            (Observed validReferenceValidation)) r) r'
     ∧ ready r' w' ∧ admissible r' w'
     ∧ outside r (KTrussiumRuntime :: managedKinds) w w')
  ∧ (refused r w → ∃ e w', run (Reconcile rc clk (rt_key r)) w = (Some e, w')).
Proof.
  intros Hready. destruct (run_wrapped rc clk (rt_key r) w) as (w1 & Hs1 & Hwrap). split.
  - intros Ha. pose proof (runnable_same r w w1 Hs1 (conj Hready Ha)) as Hrun1.
    destruct (run_body rc clk r w1 Hrun1) as (w2 & r' & Hb & Hd & Hst & Hss & Hr2 & Hout & _).
    destruct (Hwrap None w2 Hb) as (w5 & -> & Hs).
    exists w5, r'. split; [done|]. split; [intros k Hk; rewrite Hs; by apply Hd|].
    split; [by rewrite Hs|]. split; [by rewrite !Hs|].
    destruct (runnable_same r' w2 w5 Hs Hr2) as [Hr' Ha']. split; [done|]. split; [done|].
    intros k key Hk. rewrite Hs, (Hout k key Hk). apply Hs1.
  - intros Href. assert (Href1 : refused r w1).
    { destruct Href as (k & current & mutate & y & Hx). exists k, current, mutate, y. by rewrite Hs1. }
    pose proof (run_body_refused rc clk r w1 (ready_same r w w1 Hs1 Hready) Href1) as Hn.
    destruct (run (reconcileBody rc clk (rt_key r)) w1) as [[e|] w2] eqn:Hb; [|done].
    destruct (Hwrap (Some e) w2 eq_refl) as (w3 & Hr & _). by exists e, w3.
Qed.

(** ** The in-memory server accepts the writes of a well-named runtime *)

Lemma mutateDeployment_selector `{K8sLib} r x y :
  mutateDeployment r x = Ok y → ds_Selector (d_Spec y) = matchLabels (runtimeSelectorLabels r).
Proof.
  unfold mutateDeployment. cbv zeta. destruct (mutateMeta r _ (d_Meta x)) as [m|e]; [|done].
  intros [= <-]. simpl. destruct (autoscalingEnabled r), (ds_Replicas (d_Spec x)); done.
Qed.

Lemma mutateService_name `{K8sLaws} r x y :
  mutateService r x = Ok y → om_Name (svc_Meta y) = om_Name (svc_Meta x).
Proof.
  unfold mutateService, mutateMeta. cbv zeta.
  destruct (SetControllerReference r _) as [m|e] eqn:Hm; [|done]. intros [= <-].
  by destruct (set_controller_reference_ok _ _ _ Hm) as (refs & -> & _).
Qed.

Lemma leftBy_selector `{K8sLib} r d :
  leftBy (rt_key r) KDeployment d → ds_Selector (d_Spec d) = matchLabels (runtimeSelectorLabels r).
Proof.
  intros (r' & current & mutate & x & y & Hk & Hw & Hm & [_ Hkeep]). injection Hw as <- <-.
  destruct Hkeep as (_ & _ & _ & Hs & _). rewrite Hs, (mutateDeployment_selector r' x y Hm).
  unfold rt_key, meta_key in Hk. injection Hk as _ Hn. unfold runtimeSelectorLabels, rt_Name. by rewrite Hn.
Qed.

Lemma server_admissible `{K8sLaws} (r : TrussiumRuntime) (w : RefServer.Server) :
  dns1035Label (rt_Name r) = true →
  (∀ d : Deployment, RefServer.lookup KDeployment w (rt_key r) = Some d →
     ds_Selector (d_Spec d) = matchLabels (runtimeSelectorLabels r)) →
  @admissible _ _ RefServer.server r w.
Proof.
  intros Hn Hd k current mutate old y Hw Hp Hm. apply RefServer.accepts_admitted.
  destruct k; try done; injection Hw as <- <-; destruct old as [o|]; try done; simpl in Hm |- *.
  - by rewrite (mutateService_name _ _ _ Hm).
  - apply bool_decide_eq_true. rewrite (mutateDeployment_selector _ _ _ Hm).
    destruct Hp as [Hl|(o0 & Ho0 & _ & Hs)]; [by rewrite (leftBy_selector r o Hl)|].
    by rewrite Hs, (Hd o0 Ho0).
Qed.

(** A cluster that holds a runtime and the Secrets of the sample only. *)
Definition serverWith (r : TrussiumRuntime) : RefServer.Server :=
  let secret name := mkSecret (mkMeta name "trussium" EmptyString 0 None ∅ ∅ [] noRaw) noRaw in
  RefServer.put KSecret (secret "ghcr-credentials")
    (RefServer.put KSecret (secret "openai-credentials")
      (RefServer.put KTrussiumRuntime r RefServer.empty)).

Definition sampleServer : RefServer.Server := serverWith sampleRuntime.

(** The sample under a name that no Service can have. *)
Definition misnamedRuntime : TrussiumRuntime :=
  mkRuntime noType (mkMeta "1-ai" "trussium" "uid-6" 1 None ∅ ∅ [] noRaw) sampleSpec emptyStatus.

Lemma serverWith_object k r key (o : obj k) :
  RefServer.lookup k (serverWith r) key = Some o → k ∉ managedKinds.
Proof. intros Ho Hk. destruct k; try discriminate Ho; revert Hk; by apply (bool_decide_unpack _). Qed.

Lemma serverWith_ready r :
  rt_Namespace r = "trussium" → rt_Spec r = sampleSpec →
  om_DeletionTimestamp (rt_Meta r) = None → @ready _ RefServer.server r (serverWith r).
Proof.
  intros Hns Hsp Hdel. split; [|split; [by rewrite Hdel|split]].
  - change (RefServer.lookup KTrussiumRuntime (RefServer.put KTrussiumRuntime r RefServer.empty)
      (obj_key KTrussiumRuntime r) = Some r). apply RefServer.lookup_put.
  - assert (Hall : Forall (λ name, is_Some (RefServer.lookup KSecret (serverWith r)
        (mkKey "trussium" name))) (referencedSecretNames sampleRuntime)).
    { replace (referencedSecretNames sampleRuntime) with ["ghcr-credentials"; "openai-credentials"]
        by (vm_compute; reflexivity).
      repeat constructor; apply (bool_decide_unpack _); vm_compute; reflexivity. }
    rewrite Hns. unfold referencedSecretNames. rewrite Hsp. intros name.
    apply (proj1 (Forall_forall _ _) Hall).
  - intros k o ref Hk Ho. by destruct (serverWith_object k r _ o Ho).
Qed.

Lemma sampleServer_runnable : @runnable RefKube.lib _ RefServer.server sampleRuntime sampleServer.
Proof.
  split; [by apply serverWith_ready|]. apply (@server_admissible RefKube.lib RefKube.laws); [done|].
  intros d Hd. apply serverWith_object in Hd. destruct Hd. by apply in_managed.
Qed.

(** The Service of the misnamed runtime is refused. *)
Lemma misnamed_refused :
  @refused RefKube.lib _ RefServer.server misnamedRuntime (serverWith misnamedRuntime).
Proof.
  exists KService, (mkService (nameOnly misnamedRuntime) (mkServiceSpec EmptyString ∅ [] noRaw) noRaw),
    (@mutateService RefKube.lib misnamedRuntime).
  assert (Hno : RefServer.lookup KService (serverWith misnamedRuntime) (rt_key misnamedRuntime) = None)
    by done.
  destruct (@mutateService RefKube.lib misnamedRuntime (mkService (nameOnly misnamedRuntime)
    (mkServiceSpec EmptyString ∅ [] noRaw) noRaw)) as [y|e] eqn:Hy; [|discriminate Hy].
  exists y. change (@stored _ RefServer.server) with RefServer.lookup. rewrite Hno.
  split; [done|]. split; [exact Hy|]. rewrite RefServer.accepts_admitted. simpl.
  by rewrite (@mutateService_name RefKube.lib RefKube.laws _ _ _ Hy).
Qed.

(** The sample converges; under the other name its reconciliation fails. *)
Lemma reconcile_converges_witness :
  (∃ w', run (H := @server_handle _ RefServer.server)
           (@Reconcile RefKube.lib (mkReconciler true) sampleClock (rt_key sampleRuntime)) sampleServer
         = (None, w'))
  ∧ ∃ e w', run (H := @server_handle _ RefServer.server)
      (@Reconcile RefKube.lib (mkReconciler true) sampleClock (rt_key misnamedRuntime))
      (serverWith misnamedRuntime) = (Some e, w').
Proof.
  split.
  - destruct (proj1 (@reconcile_converges RefKube.lib RefKube.laws _ RefServer.server RefServer.laws
      (mkReconciler true) sampleClock sampleRuntime sampleServer (proj1 sampleServer_runnable))
      (proj2 sampleServer_runnable)) as (w' & _ & Hr & _).
    exists w'. exact Hr.
  - apply (@reconcile_converges RefKube.lib RefKube.laws _ RefServer.server RefServer.laws
      (mkReconciler true) sampleClock misnamedRuntime (serverWith misnamedRuntime));
      [by apply serverWith_ready|exact misnamed_refused].
Defined.

(** C39. A NetworkPolicy that is not enabled and an autoscaler that is not
    enabled are deleted under the key of the runtime, whoever controls them:
    the step succeeds, whether the object exists or not, and changes nothing
    else.  The deletion does not look at owner references. *)
Theorem disabled_objects_removed `{K8sLaws} {W : Type} `{!ApiServer W} `{!ApiServerLaws W}
    (r : TrussiumRuntime) (w : W) :
  ((∀ np, spec_NetworkPolicy (rt_Spec r) = Some np → rnp_Enabled np = false) →
   ∃ w', run (reconcileNetworkPolicy r) w = (None, w')
     ∧ stored KNetworkPolicy w' (rt_key r) = None ∧ sameExcept KNetworkPolicy (rt_key r) w w')
  ∧ (autoscalingEnabled r = false →
     ∃ w', run (reconcileHorizontalPodAutoscaler r) w = (None, w')
       ∧ stored KHorizontalPodAutoscaler w' (rt_key r) = None
       ∧ sameExcept KHorizontalPodAutoscaler (rt_key r) w w').
Proof.
  split.
  - intros Hoff. destruct (run_delete KNetworkPolicy w (rt_key r)) as (w' & Hr & Hd).
    exists w'. split; [|exact Hd]. rewrite <-Hr. unfold reconcileNetworkPolicy.
    destruct (spec_NetworkPolicy (rt_Spec r)) as [np|]; [|done]. by rewrite Hoff.
  - intros Hoff. destruct (run_delete KHorizontalPodAutoscaler w (rt_key r)) as (w' & Hr & Hd).
    exists w'. split; [|exact Hd]. rewrite <-Hr. unfold reconcileHorizontalPodAutoscaler.
    by rewrite Hoff.
Qed.

(** A NetworkPolicy of the same name that another controller owns is deleted. *)
Lemma disabled_objects_removed_witness :
  let foreign := mkOwner "example.com/v1" "Firewall" "edge" "uid-9" true true in
  let policy := mkNetworkPolicy (mkMeta "private-ai" "trussium" "uid-8" 1 None ∅ ∅ [foreign] noRaw)
                  (mkPolicySpec (matchLabels ∅) [] []) noRaw in
  let w := RefServer.put KNetworkPolicy policy sampleServer in
  RefServer.lookup KNetworkPolicy w (rt_key sampleRuntime) = Some policy
  ∧ ∃ w', run (H := @server_handle _ RefServer.server)
            (@reconcileNetworkPolicy RefKube.lib sampleRuntime) w = (None, w')
    ∧ RefServer.lookup KNetworkPolicy w' (rt_key sampleRuntime) = None.
Proof.
  intros foreign policy w. split; [vm_compute; reflexivity|].
  destruct (proj1 (@disabled_objects_removed RefKube.lib RefKube.laws _ RefServer.server
    RefServer.laws sampleRuntime w)) as (w' & Hr & Hn & _); [discriminate|].
  by exists w'.
Defined.
