(* ===== verification/Quiescence.v ===== *)
(** * Quiescence

    A reconciliation that changes nothing must follow one that did its work:
    otherwise the operator, which watches the objects it writes, would trigger
trigger
    itself for ever.    every further one writes what is already stored and leaves the status
    alone, until somebody else changes the cluster. *)

From S2P Require Import Prelude GoStd KubeTypes ApiTypes KubeLib Resources Effects Status.
From S2P Require Import Events Reconciler StatusProps UpgradeProps ConvergenceProps EventProps.
From S2P Require Import ReconcileProps ManagedProps Cluster RefKube Samples RefServer ClusterProps.

(** ** What a reconciliation depends on *)

(** A step that has nothing left to do for an object, now and in every state
    with the same object, whatever became of the status of the runtime. *)
Definition quietStep `{ApiServer W} (r : TrussiumRuntime) (k : Kind)
    (step : TrussiumRuntime → Prog (option GoError)) (w : W) : Prop :=
  ∀ r' w2, essence r' = essence r → stored k w2 (rt_key r) = stored k w (rt_key r) →
  ∃ w3, run (step r') w2 = (None, w3) ∧ sameObjects w2 w3.

Section Steps.
Context `{K8sLaws} {W : Type} `{!ApiServer W} `{!ApiServerLaws W} `{!ApiServerIdempotent W}.

(** A write that succeeded is quiet: the same fields are sent again. *)
Lemma write_settles r k (current : TrussiumRuntime → obj k) mutate assemble (w w1 : W) :
  (∀ r', essence r' = essence r → writeOf r' k = Some (current r', mutate r')) →
  (∀ r, assembles r k (mutate r) (assemble r)) →
  (∀ r r' m x o, essence r' = essence r → keeps k (assemble r m x) o →
     resent k (assemble r m x) o (assemble r' (obj_meta k o) o)) →
  run (perform (OpCreateOrUpdate k (current r) (mutate r))) w = (None, w1) →
  quietStep r k (λ r, perform (OpCreateOrUpdate k (current r) (mutate r))) w1.
Proof.
  intros Hw Has Hres Hrun r' w2 He Hst2.
  rewrite (run_perform (OpCreateOrUpdate k (current r) (mutate r)) w) in Hrun.
  pose proof (Hw r eq_refl) as Hwr. pose proof (Hw r' He) as Hwr'.
  destruct (start_key r k _ _ w Hwr) as [Hkey Hx0], (start_key r' k _ _ w Hwr') as [Hkey' _].
  destruct (essence_fields r r' He) as (Hk' & Hns' & _ & Hown & Hlab).
  destruct (write_stored r k _ _ w w1 Hwr Hrun) as (x & o & Hx & Ho & Hkeep & _).
  destruct (Has r) as [Hmeta Hmut]. pose proof Hx as Hx'. rewrite Hmut in Hx'. unfold mutateMeta in Hx'.
  destruct (SetControllerReference r _) as [m|] eqn:Hm; [|done]. injection Hx' as <-.
  destruct (set_controller_reference_ok _ _ _ Hm) as (refs & Hmm & _).
  destruct (keeps_meta _ _ _ Hkeep) as (_ & Hons & Holab & _ & Hoown). rewrite Hmeta in *.
  assert (Hsame : SetControllerReference r' (meta_set_labels (runtimeLabels r') (obj_meta k o))
                  = Ok (obj_meta k o)).
  { assert (meta_set_labels (runtimeLabels r') (obj_meta k o) = obj_meta k o) as ->.
    { rewrite Hlab. transitivity (meta_set_labels (om_Labels (obj_meta k o)) (obj_meta k o));
        [by rewrite Holab, Hmm|by destruct (obj_meta k o)]. }
    eapply set_controller_reference_again; [exact Hm|done|done| |exact Hoown].
    by rewrite Hons, Hmm. }
  rewrite (run_perform (OpCreateOrUpdate k (current r') (mutate r')) w2).
  rewrite <-Hkey in Hx, Hkeep, Ho, Hst2.
  eapply write_again; [exact Hx|exact Hrun|exact Ho|by rewrite Hst2|by rewrite Hkey, Hkey'| |by apply Hres].
  rewrite (proj2 (Has r')). unfold mutateMeta. by rewrite Hsame.
Qed.

(** A delete that succeeded is quiet. *)
Lemma delete_settles k (w w1 : W) key :
  run (err ← perform (OpDelete k key); mret (ignoreNotFound err)) w = (None, w1) →
  ∀ w2, stored k w2 key = stored k w1 key →
  ∃ w3, run (err ← perform (OpDelete k key); mret (ignoreNotFound err)) w2 = (None, w3)
    ∧ sameObjects w2 w3.
Proof.
  intros Hrun w2 Hst. destruct (run_delete k w key) as (w1' & Hr & Hn & _).
  rewrite Hrun in Hr. injection Hr as <-. rewrite Hn in Hst.
  exists w2. split; [|done]. simpl. destruct (delete_missing k w2 key Hst) as (e & -> & Hnf).
  simpl. by rewrite ignore_not_found, Hnf.
Qed.

(** ** The seven steps are quiet once they succeeded *)

Lemma quiet_configMap r (w w1 : W) :
  run (reconcileConfigMap r) w = (None, w1) → quietStep r KConfigMap reconcileConfigMap w1.
Proof.
  apply (write_settles r KConfigMap (λ r, mkConfigMap (nameOnly r) ∅ noRaw) mutateConfigMap
    (λ r m (x : obj KConfigMap), mkConfigMap m (runtimeConfigData r) (cm_Raw x))); try done.
  intros q q' m x o He _. simpl. f_equal. by apply (essence_eq runtimeConfigData).
Qed.

Lemma quiet_serviceAccount r (w w1 : W) :
  run (reconcileServiceAccount r) w = (None, w1) → quietStep r KServiceAccount reconcileServiceAccount w1.
Proof.
  apply (write_settles r KServiceAccount (λ r, mkServiceAccount (nameOnly r) None [] noRaw)
    mutateServiceAccount (λ r m (x : obj KServiceAccount),
      mkServiceAccount m (Some false) (imagePullSecrets r) (sa_Raw x))); try done.
  intros q q' m x o He _. simpl. f_equal. by apply (essence_eq imagePullSecrets).
Qed.

Lemma quiet_service r (w w1 : W) :
  run (reconcileService r) w = (None, w1) → quietStep r KService reconcileService w1.
Proof.
  apply (write_settles r KService
    (λ r, mkService (nameOnly r) (mkServiceSpec EmptyString ∅ [] noRaw) noRaw) mutateService
    (λ r m (x : obj KService), mkService m (mkServiceSpec (desiredServiceType r)
      (runtimeSelectorLabels r) (ss_Ports (svc_Spec (buildService r))) (ss_Raw (svc_Spec x)))
      (svc_Raw x))); try done.
  intros q q' m x o He _. cbn [resent svc_Meta obj_meta svc_Spec ss_Type ss_Selector ss_Ports svc_Raw].
  f_equal. f_equal; [by apply (essence_eq desiredServiceType)
    |by apply (essence_eq runtimeSelectorLabels)
    |by apply (essence_eq (λ r, ss_Ports (svc_Spec (buildService r))))].
Qed.

(** The Deployment specification written over an object with the given count. *)
Definition deploymentSpecOver (r : TrussiumRuntime) (replicas : option Z) : DeploymentSpec :=
  match autoscalingEnabled r, replicas with
  | true, Some n => ds_set_replicas (Some n) (d_Spec (buildDeployment r))
  | _, _ => d_Spec (buildDeployment r)
  end.

Lemma deploymentSpecOver_again r replicas stored :
  kept (ds_Replicas (deploymentSpecOver r replicas)) stored →
  deploymentSpecOver r stored = deploymentSpecOver r replicas.
Proof.
  unfold deploymentSpecOver. destruct (autoscalingEnabled r) eqn:Ha; [|done].
  destruct replicas as [n|]; [by intros ->|].
  intros Hk. unfold kept in Hk. change (ds_Replicas (d_Spec (buildDeployment r)))
    with (Some (initialDeploymentReplicas r)) in Hk. rewrite Hk. done.
Qed.

Lemma quiet_deployment r (w w1 : W) :
  run (reconcileDeployment r) w = (None, w1) → quietStep r KDeployment reconcileDeployment w1.
Proof.
  apply (write_settles r KDeployment
    (λ r, mkDeployment (nameOnly r) emptyDeploymentSpec zeroDeploymentStatus) mutateDeployment
    (λ r m (x : obj KDeployment),
      mkDeployment m (deploymentSpecOver r (ds_Replicas (d_Spec x))) (d_Status x))); try done.
  intros q q' m x o He [_ [Hk _]]. simpl in Hk. cbn [resent d_Meta obj_meta d_Spec].
  rewrite (essence_eq deploymentSpecOver q q') by done. f_equal. by apply deploymentSpecOver_again.
Qed.

Lemma quiet_podDisruptionBudget r (w w1 : W) :
  run (reconcilePodDisruptionBudget r) w = (None, w1) →
  quietStep r KPodDisruptionBudget reconcilePodDisruptionBudget w1.
Proof.
  apply (write_settles r KPodDisruptionBudget (λ r, mkPDB (nameOnly r) (mkPDBSpec None None) noRaw)
    mutatePodDisruptionBudget (λ r m (x : obj KPodDisruptionBudget),
      mkPDB m (pdb_Spec (buildPodDisruptionBudget r)) (pdb_Raw x))); try done.
  intros q q' m x o He _. simpl (resent _ _ _ _). f_equal.
  by apply (essence_eq (λ r, pdb_Spec (buildPodDisruptionBudget r))).
Qed.

Lemma quiet_networkPolicy r (w w1 : W) :
  run (reconcileNetworkPolicy r) w = (None, w1) → quietStep r KNetworkPolicy reconcileNetworkPolicy w1.
Proof.
  intros Hrun r' w2 He. destruct (essence_fields r r' He) as (Hk & _ & Hs & _).
  revert Hrun. unfold reconcileNetworkPolicy. rewrite Hs, Hk.
  destruct (spec_NetworkPolicy (rt_Spec r)) as [np|] eqn:Hnp; [destruct (rnp_Enabled np) eqn:Hen|];
    [|intros Hrun; by apply (delete_settles KNetworkPolicy w w1 (rt_key r))..].
  intros Hrun. clear Hk Hs. revert r' w2 He.
  apply (write_settles r KNetworkPolicy
    (λ r, mkNetworkPolicy (nameOnly r) (mkPolicySpec (matchLabels ∅) [] []) noRaw)
    (λ r, mutateNetworkPolicy r np)
    (λ r m (x : obj KNetworkPolicy), mkNetworkPolicy m (np_Spec (buildNetworkPolicy r np)) (np_Raw x))
    w w1); try done.
  { intros q He. destruct (essence_fields r q He) as (_ & _ & Hs & _). simpl. by rewrite Hs, Hnp, Hen. }
  intros q q' m x o He _. simpl (resent _ _ _ _). f_equal.
  by apply (essence_eq (λ r, np_Spec (buildNetworkPolicy r np))).
Qed.

Lemma quiet_autoscaler r (w w1 : W) :
  run (reconcileHorizontalPodAutoscaler r) w = (None, w1) →
  quietStep r KHorizontalPodAutoscaler reconcileHorizontalPodAutoscaler w1.
Proof.
  intros Hrun r' w2 He. destruct (essence_fields r r' He) as (Hk & _).
  revert Hrun. unfold reconcileHorizontalPodAutoscaler.
  rewrite Hk, (essence_eq autoscalingEnabled r r') by done.
  destruct (autoscalingEnabled r) eqn:Ha;
    [|intros Hrun; by apply (delete_settles KHorizontalPodAutoscaler w w1 (rt_key r))].
  intros Hrun. clear Hk. revert r' w2 He.
  apply (write_settles r KHorizontalPodAutoscaler
    (λ r, mkHPA (nameOnly r) (mkHPASpec (mkScaleTarget EmptyString EmptyString EmptyString) None 0 []) noRaw)
    mutateHorizontalPodAutoscaler
    (λ r m (x : obj KHorizontalPodAutoscaler),
      mkHPA m (hpa_Spec (buildHorizontalPodAutoscaler r)) (hpa_Raw x)) w w1); try done.
  { intros q He. simpl. by rewrite (essence_eq autoscalingEnabled r q), Ha. }
  intros q q' m x o He _. simpl (resent _ _ _ _). f_equal.
  by apply (essence_eq (λ r, hpa_Spec (buildHorizontalPodAutoscaler r))).
Qed.

End Steps.

(** ** The whole reconciliation *)

Section Whole.
Context `{K8sLaws} {W : Type} `{!ApiServer W} `{!ApiServerLaws W} `{!ApiServerIdempotent W}.

Definition quietAll (r : TrussiumRuntime) (steps : list ManagedStep) (w : W) : Prop :=
  Forall (λ s, quietStep r (ms_Kind s) (ms_Step s) w) steps.

(** What the induction needs of a step. *)
Definition goodStep (r : TrussiumRuntime) (s : ManagedStep) : Prop :=
  ms_Kind s ∈ managedKinds ∧ brings (W := W) r (ms_Kind s) (ms_Step s r)
  ∧ ∀ w w1 : W, run (ms_Step s r) w = (None, w1) → quietStep r (ms_Kind s) (ms_Step s) w1.

Lemma managedSteps_good r : Forall (goodStep r) managedSteps.
Proof.
  assert (Hform : Forall (λ s, ms_Kind s ∈ managedKinds
    ∧ brings (W := W) r (ms_Kind s) (ms_Step s r)) managedSteps).
  { eapply Forall_impl; [apply managedSteps_form|]. intros s Hs. cbv beta in Hs.
    split; [by eapply form_managed|by apply step_brings]. }
  assert (Hquiet : Forall (λ s, ∀ w w1 : W, run (ms_Step s r) w = (None, w1) →
    quietStep r (ms_Kind s) (ms_Step s) w1) managedSteps).
  { repeat constructor; intros w w1; cbn [ms_Kind ms_Step]; eauto using quiet_configMap, quiet_serviceAccount,
      quiet_service, quiet_deployment, quiet_podDisruptionBudget, quiet_networkPolicy,
      quiet_autoscaler. }
  apply Forall_forall. intros s Hs.
  destruct (proj1 (Forall_forall _ _) Hform s Hs) as [Hk Hb].
  split; [exact Hk|]. split; [exact Hb|]. exact (proj1 (Forall_forall _ _) Hquiet s Hs).
Qed.

Lemma quietStep_same r k step (w w' : W) :
  stored k w' (rt_key r) = stored k w (rt_key r) → quietStep r k step w → quietStep r k step w'.
Proof. intros Hs Hq r' w2 He H2. apply Hq; [done|]. by rewrite H2. Qed.

(** After the steps have run, each is quiet. *)
Lemma steps_settle r steps (w : W) :
  Forall (goodStep r) steps → NoDup (ms_Kind <$> steps) → unclaimed r w → admissible r w →
  ∃ w', run (runManagedSteps steps r) w = (None, w') ∧ quietAll r steps w'
    ∧ ∀ k, k ∉ ms_Kind <$> steps → stored k w' (rt_key r) = stored k w (rt_key r).
Proof.
  intros Hgood. revert w. induction Hgood as [|s steps (Hk & Hb & Hq) Hgood IH]; intros w Hn Hu Ha.
  { exists w. split; [done|]. by split; [constructor|]. }
  rewrite fmap_cons in Hn. apply NoDup_cons in Hn as [Hni Hn].
  destruct (Hb w Hu Ha) as (w1 & Hr1 & Hl1). pose proof Hl1 as (_ & Hs1 & _).
  destruct (IH w1 Hn) as (w2 & Hr2 & Hq2 & Ho2); [by eapply unclaimed_step| |].
  { by eapply admissible_from; [|by eapply objectsFrom_leaves|]. }
  exists w2. split; [|split].
  - simpl. unfold reconcileStep at 1. rewrite run_bind, Hr1. exact Hr2.
  - constructor; [|done]. eapply quietStep_same; [by apply Ho2|]. by eapply Hq.
  - intros k. rewrite fmap_cons, not_elem_of_cons. intros [Hne Hout]. rewrite Ho2 by done.
    apply Hs1. congruence.
Qed.

(** Quiet steps in a row are quiet. *)
Lemma quiet_run r r' steps (w w2 : W) :
  quietAll r steps w → essence r' = essence r → sameObjects w w2 →
  ∃ w3, run (runManagedSteps steps r') w2 = (None, w3) ∧ sameObjects w2 w3.
Proof.
  intros Hq He. revert w2. induction Hq as [|s steps Hs Hq IH]; intros w2 Hsame; [by exists w2|].
  destruct (Hs r' w2 He) as (w3 & Hr3 & Hs3); [by apply Hsame|].
  destruct (IH w3) as (w4 & Hr4 & Hs4); [intros k key; by rewrite Hs3|].
  exists w4. simpl. unfold reconcileStep at 1. rewrite run_bind, Hr3. split; [exact Hr4|].
  intros k key. by rewrite Hs4.
Qed.

(** What the computed status depends on. *)
Lemma status_essence clk r r' obs v :
  rt_key r' = rt_key r → rt_Generation r' = rt_Generation r → rt_Spec r' = rt_Spec r →
  buildRuntimeStatus clk r' obs v
  = buildRuntimeStatus clk (rt_set_status (rt_Status r') r) obs v.
Proof.
  set (core := λ r, mkRuntime noType (mkMeta (rt_Name r) (rt_Namespace r) EmptyString (rt_Generation r)
    None ∅ ∅ [] noRaw) (rt_Spec r) (rt_Status r)).
  assert (Hc : ∀ r, buildRuntimeStatus clk r obs v = buildRuntimeStatus clk (core r) obs v) by done.
  intros Hk Hg Hs. rewrite Hc, (Hc (rt_set_status _ _)). unfold core.
  unfold rt_key, meta_key in Hk. injection Hk as Hns Hn.
  unfold rt_Name, rt_Namespace, rt_Generation in *. simpl. by rewrite Hns, Hn, Hg, Hs.
Qed.

(** The report of a status that is already stored. *)
Lemma report_quiet rc clk clk' r r' prev v (w : W) :
  let obs := mkObservation (stored KDeployment w (rt_key r)) (stored KService w (rt_key r)) in
  NoDup (statusTypes (rt_Status r)) → runtimeImage (spec_Image (rt_Spec r)) ≠ EmptyString →
  statusStored (rt_set_status (reportedStatus clk r obs (Observed v)) r) r' →
  run (reportStatus rc clk' r' prev v) w = (None, w).
Proof.
  intros obs Hn Hi (Hk & _ & Hg & _ & Hsp & Hst).
  change (rt_key r' = rt_key r) in Hk. change (rt_Generation r' = rt_Generation r) in Hg.
  change (rt_Spec r' = rt_Spec r) in Hsp.
  change (sameButTimes (rt_Status r') (reportedStatus clk r obs (Observed v))) in Hst.
  unfold reportStatus. rewrite run_bind, run_load, Hk. fold obs.
  rewrite run_bind. rewrite (status_essence clk' r r') by done.
  unfold updateRuntimeStatus.
  pose proof (again_fixpoint clk clk' r obs (Observed v) (rt_Status r') Hi Hst Hn) as Hfix.
  cbn [desiredStatusFor] in Hfix. rewrite Hfix.
  by rewrite (proj2 (deep_equal_spec _ _) eq_refl).
Qed.

Lemma body_quiet rc clk r (w : W) :
  runnable r w → NoDup (statusTypes (rt_Status r)) →
  runtimeImage (spec_Image (rt_Spec r)) ≠ EmptyString →
  ∃ w', run (reconcileBody rc clk (rt_key r)) w = (None, w')
    ∧ ∀ rc' clk' w2, sameObjects w' w2 →
      ∃ w3, run (reconcileBody rc' clk' (rt_key r)) w2 = (None, w3) ∧ sameObjects w2 w3.
Proof.
  intros Hrun Hn Hi. pose proof Hrun as ((_ & _ & _ & Hu) & Ha).
  destruct (run_body rc clk r w Hrun) as (w' & r' & Hb & _ & Hst & Hss & Hrun' & _ & w1 & Hr1 & Hman).
  exists w'. split; [done|]. intros rc' clk' w2 Hs2.
  pose proof Hss as (Hk & Huid & _ & _ & Hsp & _).
  change (rt_key r' = rt_key r) in Hk. change (rt_Spec r' = rt_Spec r) in Hsp.
  change (om_UID (rt_Meta r') = om_UID (rt_Meta r)) in Huid.
  assert (He : essence r' = essence r).
  { unfold essence. unfold rt_key, meta_key in Hk. injection Hk as Hns Hnm.
    unfold rt_Name, rt_Namespace. by rewrite Hns, Hnm, Huid, Hsp. }
  destruct (steps_settle r managedSteps w (managedSteps_good r)) as (w1' & Hr1' & Hq & _); [|done..|].
  { by apply (bool_decide_unpack _). }
  assert (w1' = w1) as ->.
  { change (run (reconcileCoreResources r) w = (None, w1')) in Hr1'. rewrite Hr1 in Hr1'.
    by injection Hr1'. }
  assert (Hq' : quietAll r managedSteps w').
  { apply Forall_forall. intros s Hs. eapply quietStep_same.
    - apply Hman. by apply (proj1 (Forall_forall _ _) (managedSteps_good r) s Hs).
    - by apply (proj1 (Forall_forall _ _) Hq s Hs). }
  pose proof (runnable_same r' w' w2 Hs2 Hrun') as ((Hst2 & Hdel & Hsec & _) & _). rewrite Hk in Hst2.
  unfold reconcileBody.
  rewrite run_bind, (run_perform (OpGet KTrussiumRuntime (rt_key r)) w2), (get_found _ _ _ _ Hst2), Hdel.
  cbn [negb]. cbv zeta.
  rewrite run_bind. unfold validateSecretReferences. rewrite (run_validate r' _ w2 Hsec).
  cbn [v_Err v_Valid validReferenceValidation negb].
  destruct (quiet_run r r' managedSteps w' w2 Hq' He Hs2) as (w3 & Hr3 & Hs3).
  change (run (reconcileCoreResources r') w2 = (None, w3)) in Hr3. rewrite run_bind, Hr3.
  exists w3. split; [|done]. apply (report_quiet rc' clk clk' r r'); [done|done|].
  by rewrite !Hs3, !Hs2.
Qed.

End Whole.

Lemma valid_image_nonempty s : validSpec s = true → runtimeImage (spec_Image s) ≠ EmptyString.
Proof.
  unfold validSpec. rewrite !andb_true_iff. intros H. destruct H as [[[[[[[[[H _] _] _] _] _] _] _] _] _].
  unfold validImage in H. rewrite !andb_true_iff in H. destruct H as [[H _] _].
  unfold validRepository in H. apply andb_true_iff in H as [_ H].
  unfold runtimeImage. destruct (img_Repository (spec_Image s)); [done|].
  by destruct (img_Digest (spec_Image s)), (img_Tag (spec_Image s)).
Qed.

(** A cluster in which reconciling the key changes no object, as often as it
    is done. *)
Definition quiescent `{K8sLib} `{ApiServer W} (key : NamespacedName) (w : W) : Prop :=
  ∀ rc clk w2, sameObjects w w2 →
  ∃ w3, run (Reconcile rc clk key) w2 = (None, w3) ∧ sameObjects w2 w3.

(** C5. Quiescence: take a stored runtime that is not being deleted, whose Secrets
    exist, whose objects nobody else controls and whose writes the server
    accepts, with a specification that satisfies the schema and a stored status
    with at most one condition of each type.  After one reconciliation, which
    succeeds, reconciling it again, any number of times, at any time and by any
    instance, succeeds and changes no stored object, neither a managed one nor
    the status.  The operator, which watches what it writes, does not keep
    itself busy. *)
Theorem reconcile_quiescent `{K8sLaws} {W : Type} `{!ApiServer W} `{!ApiServerLaws W}
    `{!ApiServerIdempotent W} rc clk (r : TrussiumRuntime) (w : W) :
  runnable r w → NoDup (statusTypes (rt_Status r)) → validSpec (rt_Spec r) = true →
  ∃ w', run (Reconcile rc clk (rt_key r)) w = (None, w') ∧ quiescent (rt_key r) w'.
Proof.
  intros Hrun Hn Hv. destruct (run_wrapped rc clk (rt_key r) w) as (w1 & Hs1 & Hwrap).
  destruct (body_quiet rc clk r w1) as (w2 & Hb & Hquiet);
    [by eapply runnable_same|done|by apply valid_image_nonempty|].
  destruct (Hwrap None w2 Hb) as (w3 & Hr & Hs3). exists w3. split; [done|].
  intros rc' clk' w4 Hs4. destruct (run_wrapped rc' clk' (rt_key r) w4) as (w5 & Hs5 & Hwrap').
  destruct (Hquiet rc' clk' w5) as (w6 & Hb6 & Hs6); [intros k key; by rewrite Hs5, Hs4, Hs3|].
  destruct (Hwrap' None w6 Hb6) as (w7 & Hr7 & Hs7). exists w7. split; [done|].
  intros k key. by rewrite Hs7, Hs6.
Qed.

Lemma reconcile_quiescent_witness :
  ∃ w', run (H := @server_handle _ RefServer.server)
          (@Reconcile RefKube.lib (mkReconciler true) sampleClock (rt_key sampleRuntime)) sampleServer
        = (None, w')
    ∧ @quiescent RefKube.lib _ RefServer.server (rt_key sampleRuntime) w'.
Proof.
  apply (@reconcile_quiescent RefKube.lib RefKube.laws _ RefServer.server RefServer.laws
    RefServer.idempotent (mkReconciler true) sampleClock sampleRuntime sampleServer).
  - exact sampleServer_runnable.
  - apply (bool_decide_unpack _). vm_compute. exact I.
  - vm_compute. reflexivity.
Defined.
