(* ===== verification/Watches.v ===== *)
(** * Watches

    How changes of the cluster reach the reconciler.  [SetupWithManager]
    registers one handler per watched kind; the handlers, the predicate and the
    dispatch of events are code of controller-runtime, of which [WatchLib] and
    [WatchLaws] state the documented behaviour.  The theorems close the loop
    between the watches and the reconciliation: an outside change of an object
    the runtime controls is noticed and repaired, and the writes of the operator
    to the status do not trigger it again. *)

From Stdlib Require Import Ascii.
From S2P Require Import Prelude GoStd KubeTypes ApiTypes KubeLib Resources Effects Status.
From S2P Require Import Events Reconciler Manager StatusProps UpgradeProps ConvergenceProps EventProps.
From S2P Require Import ReconcileProps ManagedProps Cluster RefKube Samples RefServer ClusterProps.

(** A watch event for an object of a kind. *)
Inductive WatchEvent (k : Kind) :=
| Created (o : obj k)
| Updated (old new : obj k)
| Deleted (o : obj k).
Arguments Created {k} o.
Arguments Updated {k} old new.
Arguments Deleted {k} o.

Definition eventObjects {k} (e : WatchEvent k) : list (obj k) :=
  match e with Created o | Deleted o => [o] | Updated old new => [old; new] end.

(** The event by which a change of a stored object is reported. *)
Definition changeEvent {k} (old new : option (obj k)) : option (WatchEvent k) :=
  match old, new with
  | None, None => None
  | None, Some n => Some (Created n)
  | Some o, None => Some (Deleted o)
  | Some o, Some n => Some (Updated o n)
  end.

(** The API group of [GroupVersion]. *)
Definition runtimeGroup : string := "runtime.trussium.io".

Definition slashFree (s : string) : Prop := strAll (λ c, negb (Ascii.eqb c "/")) s = true.

Class WatchLib := {
  (** The group of [schema.ParseGroupVersion], [None] where it fails. *)
  ReferenceGroup : string → option string;
  (** [handler.EnqueueRequestForObject]. *)
  EnqueueRequestForObject {k} : WatchEvent k → list NamespacedName;
  (** [handler.EnqueueRequestForOwner] for the type of [For], restricted to
      controllers, as [Owns] registers it. *)
  EnqueueRequestForOwner {k} : WatchEvent k → list NamespacedName;
  (** [handler.EnqueueRequestsFromMapFunc]. *)
  EnqueueRequestsFromMapFunc {k} :
    (obj k → Prog (list NamespacedName)) → WatchEvent k → Prog (list NamespacedName);
  (** A predicate on an event. *)
  Passes {k} : Predicate → WatchEvent k → bool
}.

(** The reference designates a [TrussiumRuntime], of any name and any version of
    the API group. *)
Definition runtimeReference `{WatchLib} (ref : OwnerReference) : Prop :=
  ReferenceGroup (or_APIVersion ref) = Some runtimeGroup ∧ or_Kind ref = "TrussiumRuntime".

Class WatchLaws `{WatchLib} : Prop := {
  reference_group g v :
    slashFree g → slashFree v → ReferenceGroup (g +:+ "/" +:+ v) = Some g;
  enqueue_object k (e : WatchEvent k) :
    EnqueueRequestForObject e
    = match e with Created o | Deleted o => [obj_key k o] | Updated _ new => [obj_key k new] end;
  (** Group and kind of the controller reference are compared. *)
  enqueue_owner k (e : WatchEvent k) key :
    key ∈ EnqueueRequestForOwner e ↔
    ∃ o ref, o ∈ eventObjects e
      ∧ GetControllerOf (om_OwnerReferences (obj_meta k o)) = Some ref
      ∧ runtimeReference ref ∧ key = mkKey (om_Namespace (obj_meta k o)) (or_Name ref);
  (** The function is applied to every object of the event, in order. *)
  enqueue_mapped k f (e : WatchEvent k) :
    match e with
    | Created o | Deleted o => EnqueueRequestsFromMapFunc f e = f o
    | Updated old new =>
        EnqueueRequestsFromMapFunc f e = (a ← f old; b ← f new; mret (a ++ b))
    end;
  (** Only updates are filtered, by a change of the generation. *)
  generation_changed k (e : WatchEvent k) :
    Passes GenerationChangedPredicate e
    = match e with
      | Updated old new =>
          negb (bool_decide (om_Generation (obj_meta k old) = om_Generation (obj_meta k new)))
      | _ => true
      end
}.

(** ** Dispatch *)

Definition mapFunc `{WatchLib} (f : MapFunc) (k : Kind) : obj k → Prog (list NamespacedName) :=
  match f with
  | mapSecretToRuntimesFunc =>
      match k with KSecret => mapSecretToRuntimes | _ => λ _, mret [] end
  end.

(** The requests a controller with the given setup enqueues for an event. *)
Definition enqueued `{WatchLib} (s : ControllerSetup) {k} (e : WatchEvent k)
    : Prog (list NamespacedName) :=
  let self :=
    if decide (k = (cs_For s).1)
    then (if forallb (λ p, Passes p e) (cs_For s).2 then EnqueueRequestForObject e else [])
    else [] in
  let owner := if decide (k ∈ cs_Owns s) then EnqueueRequestForOwner e else [] in
  mapped ← match list_find (λ x, x.1 = k) (cs_Watches s) with
           | Some (_, (_, f)) => EnqueueRequestsFromMapFunc (mapFunc f k) e
           | None => mret []
           end;
  mret (self ++ owner ++ mapped).

(** ** What reaches the reconciler *)

Lemma runtimeOwner_reference `{WatchLaws} r : runtimeReference (runtimeOwner r).
Proof. split; [|done]. by apply (reference_group runtimeGroup "v1alpha1"). Qed.

(** A stored runtime of the namespace of a Secret that references it. *)
Definition waitsFor `{ApiServer W} (w : W) (s : Secret) (key : NamespacedName) : Prop :=
  ∃ r, stored KTrussiumRuntime w key = Some r ∧ rt_key r = key
    ∧ rt_Namespace r = om_Namespace (sec_Meta s)
    ∧ om_Name (sec_Meta s) ∈ referencedSecretNames r.

Section Requests.
Context `{WatchLaws} {W : Type} `{!ApiServer W} `{!ApiServerLists W}.

(** Kinds that are owned enqueue the controller and touch nothing. *)
Lemma enqueued_owner k (e : WatchEvent k) :
  k ∈ managedKinds → enqueued SetupWithManager e = mret (EnqueueRequestForOwner e).
Proof.
  intros Hk. assert (Hc : k ≠ KTrussiumRuntime ∧ k ≠ KSecret).
  { split; intros ->; revert Hk; by apply (bool_decide_unpack _). }
  destruct Hc as [Hr Hs]. unfold enqueued. rewrite decide_False by done.
  rewrite (decide_True (P := k ∈ cs_Owns SetupWithManager)) by done.
  simpl. rewrite decide_False by done. simpl. by rewrite app_nil_r.
Qed.

Lemma enqueued_owned k (e : WatchEvent k) (w : W) :
  k ∈ managedKinds → run (enqueued SetupWithManager e) w = (EnqueueRequestForOwner e, w).
Proof. intros Hk. by rewrite enqueued_owner. Qed.

Lemma enqueued_self (e : WatchEvent KTrussiumRuntime) :
  enqueued SetupWithManager e
  = mret (if Passes GenerationChangedPredicate e then EnqueueRequestForObject e else []).
Proof. unfold enqueued. simpl. by rewrite andb_true_r, app_nil_r. Qed.

Lemma enqueued_runtime (e : WatchEvent KTrussiumRuntime) (w : W) :
  run (enqueued SetupWithManager e) w
  = (if Passes GenerationChangedPredicate e then EnqueueRequestForObject e else [], w).
Proof. by rewrite enqueued_self. Qed.

Lemma run_mapSecret secret (w : W) :
  ∃ reqs, run (mapSecretToRuntimes secret) w = (reqs, w)
    ∧ ∀ key, key ∈ reqs ↔ waitsFor w secret key.
Proof.
  destruct (list_runtimes w (om_Namespace (sec_Meta secret))) as (rs & Hh & Hrs).
  unfold mapSecretToRuntimes. rewrite run_bind, (run_perform (OpListRuntimes _) w), Hh.
  eexists. split; [done|]. intros key. rewrite collect_requests.
  change ([] ++ ?l) with l. rewrite list_elem_of_fmap. split.
  - intros (r & -> & Hin). apply list_elem_of_filter in Hin as [Hf Hin].
    apply slicesContains_spec in Hf. apply Hrs in Hin as [Hns Hst]. by exists r.
  - intros (r & Hst & <- & Hns & Hname). exists r. split; [done|].
    apply list_elem_of_filter. split; [by apply slicesContains_spec|]. by apply Hrs.
Qed.

Lemma run_mapped (e : WatchEvent KSecret) (w : W) :
  ∃ reqs, run (EnqueueRequestsFromMapFunc (k := KSecret) mapSecretToRuntimes e) w = (reqs, w)
    ∧ ∀ key, key ∈ reqs ↔ ∃ s : Secret, s ∈ eventObjects e ∧ waitsFor w s key.
Proof.
  pose proof (enqueue_mapped KSecret mapSecretToRuntimes e) as Hm.
  assert (Hone : ∀ (s : Secret) key, (∃ s' : Secret, s' ∈ [s] ∧ waitsFor w s' key) ↔ waitsFor w s key).
  { intros s key. setoid_rewrite list_elem_of_singleton. naive_solver. }
  destruct e as [o|old new|o]; rewrite Hm.
  2:{ destruct (run_mapSecret old w) as (a & Ha & Hina), (run_mapSecret new w) as (b & Hb & Hinb).
      exists (a ++ b). rewrite run_bind, Ha, run_bind, Hb. split; [done|].
      intros key. rewrite elem_of_app, Hina, Hinb. cbn [eventObjects].
      setoid_rewrite elem_of_cons. setoid_rewrite list_elem_of_singleton. naive_solver. }
  all: destruct (run_mapSecret o w) as (a & Ha & Hina); exists a; split; [exact Ha|];
    intros key; rewrite Hina; symmetry; apply (Hone o).
Qed.

(** A change of one object that does not give it another controller. *)
Lemma ready_changed r k (w w' : W) :
  ready r w → k ∈ managedKinds → sameExcept k (rt_key r) w w' →
  (∀ n ref, stored k w' (rt_key r) = Some n →
     GetControllerOf (om_OwnerReferences (obj_meta k n)) = Some ref → designates r ref) →
  ready r w'.
Proof.
  intros (Hst & Hdel & Hsec & Hu) Hk Hs Hc.
  assert (Hne : k ≠ KTrussiumRuntime ∧ k ≠ KSecret)
    by (split; intros ->; revert Hk; by apply (bool_decide_unpack _)).
  destruct Hne as [Hne1 Hne2]. split; [by rewrite Hs by congruence|]. split; [done|].
  split; [intros name Hn; rewrite Hs by congruence; by apply Hsec|].
  intros k' o ref Hk' Ho. destruct (decide (k' = k)) as [->|Hne]; [by apply Hc|].
  rewrite Hs in Ho by congruence. by apply (Hu k').
Qed.

End Requests.

(** C20. What is enqueued, exactly: an update of a runtime enqueues the runtime if
    its generation changed and nothing otherwise, so that a status update never
    triggers the operator; its creation and deletion enqueue it; an event of a
    managed kind enqueues the runtimes that control one of its objects, by group
    and kind of the controller reference, and nothing else; and an event of a
    Secret enqueues the stored runtimes of its namespace that reference it, and
    nothing else. *)
Theorem watch_requests `{WatchLaws} {W : Type} `{!ApiServer W} `{!ApiServerLists W} (w : W) :
  (∀ old new : TrussiumRuntime,
     run (enqueued SetupWithManager (Updated (k := KTrussiumRuntime) old new)) w
     = (if decide (rt_Generation old = rt_Generation new) then [] else [rt_key new], w))
  ∧ (∀ r r' : TrussiumRuntime, statusStored r r' →
     run (enqueued SetupWithManager (Updated (k := KTrussiumRuntime) r r')) w = ([], w))
  ∧ (∀ r : TrussiumRuntime,
     run (enqueued SetupWithManager (Created (k := KTrussiumRuntime) r)) w = ([rt_key r], w)
     ∧ run (enqueued SetupWithManager (Deleted (k := KTrussiumRuntime) r)) w = ([rt_key r], w))
  ∧ (∀ k (e : WatchEvent k), k ∈ managedKinds →
     ∃ reqs, run (enqueued SetupWithManager e) w = (reqs, w)
       ∧ ∀ key, key ∈ reqs ↔ ∃ o ref, o ∈ eventObjects e
            ∧ GetControllerOf (om_OwnerReferences (obj_meta k o)) = Some ref
            ∧ runtimeReference ref ∧ key = mkKey (om_Namespace (obj_meta k o)) (or_Name ref))
  ∧ (∀ e : WatchEvent KSecret,
     ∃ reqs, run (enqueued SetupWithManager e) w = (reqs, w)
       ∧ ∀ key, key ∈ reqs ↔ ∃ s : Secret, s ∈ eventObjects e ∧ waitsFor w s key).
Proof.
  assert (Hupd : ∀ old new : TrussiumRuntime,
     run (enqueued SetupWithManager (Updated (k := KTrussiumRuntime) old new)) w
     = (if decide (rt_Generation old = rt_Generation new) then [] else [rt_key new], w)).
  { intros old new. rewrite enqueued_runtime, generation_changed, enqueue_object.
    change (om_Generation (obj_meta KTrussiumRuntime old)) with (rt_Generation old).
    change (om_Generation (obj_meta KTrussiumRuntime new)) with (rt_Generation new).
    case_bool_decide; case_decide; done. }
  split_and!.
  - exact Hupd.
  - intros r r' (_ & _ & Hg & _). rewrite Hupd. by rewrite decide_True.
  - intros r. rewrite !enqueued_runtime, !generation_changed, !enqueue_object. done.
  - intros k e Hk. eexists. split; [by apply enqueued_owned|]. intros key. apply enqueue_owner.
  - intros e. unfold enqueued. simpl. destruct (run_mapped e w) as (reqs & Hr & Hreqs).
    rewrite run_bind, Hr. by exists reqs.
Qed.


(** ** An implementation of the handlers *)

Module RefWatch.

Fixpoint beforeSlash (s : string) : string :=
  match s with
  | EmptyString => EmptyString
  | String c s => if Ascii.eqb c "/" then EmptyString else String c (beforeSlash s)
  end.

Fixpoint slashes (s : string) : nat :=
  match s with
  | EmptyString => 0
  | String c s => (if Ascii.eqb c "/" then 1 else 0) + slashes s
  end.

(** A version alone belongs to the core group. *)
Definition group (s : string) : option string :=
  match slashes s with
  | 0 => Some EmptyString
  | 1 => Some (beforeSlash s)
  | _ => None
  end.

Lemma group_of g v : slashFree g → slashFree v → group (g +:+ "/" +:+ v) = Some g.
Proof.
  unfold slashFree, group. intros Hg Hv.
  assert (Hs : slashes (g +:+ "/" +:+ v) = 1 ∧ beforeSlash (g +:+ "/" +:+ v) = g).
  { induction g as [|c g IH].
    - simpl. split; [|done]. f_equal. clear Hg. induction v as [|c v IH]; [done|]. simpl in *.
      destruct (Ascii.eqb c "/"); [done|]. by apply IH.
    - simpl in Hg |- *. destruct (Ascii.eqb c "/"); [done|]. destruct (IH Hg) as [H1 H2].
      split; [exact H1|]. f_equal. exact H2. }
  destruct Hs as [-> ->]. done.
Qed.

Definition ownerRequests (m : ObjectMeta) : list NamespacedName :=
  match GetControllerOf (om_OwnerReferences m) with
  | Some ref =>
      if decide (group (or_APIVersion ref) = Some runtimeGroup ∧ or_Kind ref = "TrussiumRuntime")
      then [mkKey (om_Namespace m) (or_Name ref)] else []
  | None => []
  end.

#[export] Instance lib : WatchLib := {|
  ReferenceGroup := group;
  EnqueueRequestForObject k e :=
    match e with Created o | Deleted o => [obj_key k o] | Updated _ new => [obj_key k new] end;
  EnqueueRequestForOwner k e := o ← eventObjects e; ownerRequests (obj_meta k o);
  EnqueueRequestsFromMapFunc k f e :=
    match e with
    | Created o | Deleted o => f o
    | Updated old new => a ← f old; b ← f new; mret (a ++ b)
    end;
  Passes k p e :=
    match e with
    | Updated old new =>
        negb (bool_decide (om_Generation (obj_meta k old) = om_Generation (obj_meta k new)))
    | _ => true
    end
|}.

#[export] Instance laws : @WatchLaws lib.
Proof.
  split; try done.
  - exact group_of.
  - intros k e key. simpl. rewrite list_elem_of_bind. unfold ownerRequests. split.
    + intros (o & Hk & Hin). destruct (GetControllerOf _) as [ref|] eqn:Hc; [|by apply not_elem_of_nil in Hk].
      destruct (decide _); [|by apply not_elem_of_nil in Hk].
      apply list_elem_of_singleton in Hk as ->. by exists o, ref.
    + intros (o & ref & Hin & Hc & Href & ->). exists o. split; [|done].
      rewrite Hc, decide_True by done. by apply list_elem_of_singleton.
  - by intros k f [].
Qed.

End RefWatch.

(** A referenced Secret appears in the sample cluster. *)
Lemma watch_requests_witness :
  let e : WatchEvent KSecret := Created (k := KSecret) sampleSecret in
  ∃ reqs, run (H := @server_handle _ RefServer.server)
            (@enqueued RefWatch.lib SetupWithManager KSecret e) sampleServer = (reqs, sampleServer)
    ∧ rt_key sampleRuntime ∈ reqs.
Proof.
  intros e. destruct (@watch_requests RefWatch.lib RefWatch.laws _ RefServer.server RefServer.lists
    sampleServer) as (_ & _ & _ & _ & Hsecret).
  destruct (Hsecret e) as (reqs & Hr & Hin). exists reqs. split; [exact Hr|].
  apply Hin. exists sampleSecret. split; [by apply list_elem_of_singleton|].
  exists sampleRuntime. split; [exact (proj1 (proj1 sampleServer_runnable))|].
  split; [reflexivity|]. split; [reflexivity|].
  apply (bool_decide_unpack _). vm_compute. exact I.
Defined.

