(* ===== verification/Termination.v ===== *)
(** * Termination

    Programs of [Effects] are finite trees, so that every handler returns for
    every sequence of answers; here is how many calls it makes at most.  The
    only loop of a reconciliation is the one over the referenced Secrets, whose
    number the schema bounds. *)

From S2P Require Import Prelude GoStd KubeTypes ApiTypes KubeLib Resources Effects Status.
From S2P Require Import Events Reconciler RefKube Samples EventProps ReconcileProps ManagedProps.

(** A program that makes at most [n] calls, whatever is answered. *)
Fixpoint atMost {A} (n : nat) (p : Prog A) {struct p} : Prop :=
  match p with
  | Ret _ => True
  | Do o k => match n with O => False | S n => ∀ r, atMost n (k r) end
  end.

Lemma atMost_exec {A} n (p : Prog A) tr a : atMost n p → exec p tr a → length tr ≤ n.
Proof.
  revert n tr. induction p as [x|o k IH]; intros n tr Hn He; simpl in *.
  - destruct He as [-> _]. simpl. lia.
  - destruct He as (r & tr' & -> & He). destruct n as [|n]; [done|]. simpl.
    specialize (IH r n tr' (Hn r) He). lia.
Qed.

Lemma atMost_weaken {A} n m (p : Prog A) : n ≤ m → atMost n p → atMost m p.
Proof.
  revert n m. induction p as [x|o k IH]; intros n m Hnm Hn; simpl in *; [done|].
  destruct n as [|n]; [done|]. destruct m as [|m]; [lia|]. intros r. eapply IH; [|apply Hn]. lia.
Qed.

Lemma atMost_bind {A B} n m (p : Prog A) (f : A → Prog B) :
  atMost n p → (∀ a, atMost m (f a)) → atMost (n + m) (p ≫= f).
Proof.
  revert n. induction p as [x|o k IH]; intros n Hn Hf; simpl in *.
  - eapply atMost_weaken; [|apply Hf]. lia.
  - destruct n as [|n]; [done|]. intros r. apply IH; [apply Hn|done].
Qed.

Lemma atMost_perform o : atMost 1 (perform o).
Proof. done. Qed.

(** Splits a bind whose first half has a known bound. *)
Lemma atMost_then {A B} n m t (p : Prog A) (f : A → Prog B) :
  n + m ≤ t → atMost n p → (∀ a, atMost m (f a)) → atMost t (p ≫= f).
Proof. intros Ht Hp Hf. eapply atMost_weaken; [exact Ht|]. by apply atMost_bind. Qed.

(** Case analysis of a handler that makes at most one call per branch. *)
Ltac one_call := repeat case_match; first [done|apply atMost_perform].

Section Bounds.
Context `{K8sLib}.

Lemma validate_atMost r names : atMost (length names) (validateSecrets r names).
Proof.
  induction names as [|name names IH]; [done|]. simpl. intros [s|e]; [done|]. by destruct (IsNotFound e).
Qed.

Lemma load_atMost r : atMost 2 (loadRuntimeObservation r).
Proof.
  intros [d|e]; simpl; [|destruct (IsNotFound e); [|done]]; intros [s|e']; simpl; try done;
    by destruct (IsNotFound e').
Qed.

Lemma update_atMost r s : atMost 1 (updateRuntimeStatus r s).
Proof. unfold updateRuntimeStatus. destruct (DeepEqual _ _); [done|]. by intros []. Qed.

Lemma transitions_atMost rc r p c : atMost 5 (recordStatusTransitionEvents rc r p c).
Proof.
  unfold recordStatusTransitionEvents. destruct (rc_HasRecorder rc); [|done].
  apply (atMost_then 1 4); [done| |intros _]; [unfold recordConfigurationTransition; one_call|].
  apply (atMost_then 1 3); [done| |intros _];
    [unfold recordUpgradeTransition, upgradeEvent; one_call|].
  apply (atMost_then 1 2); [done| |intros _]; [unfold recordDegradedTransition; one_call|].
  apply (atMost_then 1 1); [done| |intros _]; [unfold recordProgressingTransition; one_call|].
  unfold recordReadyTransition. one_call.
Qed.

Lemma recordFailure_atMost rc r e : atMost 1 (recordReconciliationFailure rc r e).
Proof. unfold recordReconciliationFailure. by destruct (rc_HasRecorder rc). Qed.

Lemma handleFailure_atMost rc clk r prev e :
  atMost 9 (handleReconciliationFailure rc clk r prev e).
Proof.
  apply (atMost_then 2 7); [done|apply load_atMost|intros loaded]. cbv zeta.
  apply (atMost_then 1 6); [done|apply update_atMost|intros [[b err] r']].
  apply (atMost_then 5 1); [done|destruct b; [apply transitions_atMost|done]|intros _].
  apply (atMost_then 1 0); [done|apply recordFailure_atMost|done].
Qed.

Lemma reportStatus_atMost rc clk r prev v : atMost 11 (reportStatus rc clk r prev v).
Proof.
  apply (atMost_then 2 9); [done|apply load_atMost|intros [obs|e]; [|apply handleFailure_atMost]].
  cbv zeta. apply (atMost_then 1 8); [done|apply update_atMost|intros [[b [err|]] r']].
  - apply (atMost_then 1 0); [lia|apply recordFailure_atMost|done].
  - apply (atMost_then 5 0); [lia|destruct b; [apply transitions_atMost|done]|done].
Qed.

Lemma step_atMost n r kind step rest :
  atMost 1 (step r) → atMost n rest → atMost (S n) (reconcileStep r kind step rest).
Proof. intros Hs Hr. apply (atMost_then 1 n); [done|done|]. by intros [e|]. Qed.

Lemma core_atMost r : atMost 7 (reconcileCoreResources r).
Proof.
  unfold reconcileCoreResources. repeat apply step_atMost; try done.
  - unfold reconcileNetworkPolicy. cbv zeta.
    destruct (spec_NetworkPolicy (rt_Spec r)) as [np|]; [destruct (rnp_Enabled np)|]; try done;
      by intros ?.
  - unfold reconcileHorizontalPodAutoscaler. destruct (autoscalingEnabled r); [done|]. by intros ?.
Qed.

(** The number of Secrets the schema allows a runtime to reference. *)
Lemma valid_secret_count r :
  validSpec (rt_Spec r) = true → length (referencedSecretNames r) ≤ 21.
Proof.
  intros Hv. set (pulls := nr_Name <$> spec_ImagePullSecrets (rt_Spec r)).
  set (cred := option_list (skr_Name <$> prov_CredentialsSecretRef (spec_Provider (rt_Spec r)))).
  assert (Hlen : length pulls ≤ 20).
  { unfold validSpec in Hv. rewrite !andb_true_iff in Hv. destruct Hv as [[[[[[Hv _] _] _] _] _] _].
    destruct Hv as [_ Hv]. apply Nat.leb_le in Hv. unfold pulls. by rewrite length_fmap. }
  assert (Hcred : length cred ≤ 1) by (unfold cred; destruct (skr_Name <$> _); simpl; lia).
  transitivity (length (cred ++ pulls)); [|rewrite length_app; lia].
  apply submseteq_length, NoDup_submseteq.
  - unfold referencedSecretNames. rewrite sortStrings_perm. apply NoDup_mapKeys.
  - intros name Hin. apply referenced_elem in Hin. rewrite elem_of_app.
    destruct Hin as [Hc|Hp]; [left|right; exact Hp]. unfold cred. rewrite Hc. by left.
Qed.

Lemma course_atMost rc clk req tr res :
  Course rc clk req tr res →
  (∀ r, Ok r ∈ runtimeReads tr → validSpec (rt_Spec r) = true) → length tr ≤ 40.
Proof.
  assert (Hsec : ∀ r tr v, validSpec (rt_Spec r) = true →
            exec (validateSecretReferences r) tr v → length tr ≤ 21).
  { intros r t v Hv He. transitivity (length (referencedSecretNames r)); [|by apply valid_secret_count].
    eapply atMost_exec; [|exact He]. apply validate_atMost. }
  assert (Hend : ∀ r prev v (o : option GoError) t a,
    exec (match o with Some e => handleReconciliationFailure rc clk r prev e
          | None => reportStatus rc clk r prev v end) t a → length t ≤ 11).
  { intros r prev v o t a He. eapply atMost_exec; [|exact He].
    destruct o; [eapply atMost_weaken; [|apply handleFailure_atMost]; lia|apply reportStatus_atMost]. }
  intros [e|r Hd|r v tr1 tr2 res' Hd H1 Hv H2|r tr1 tr2 tr3 err res' Hd H1 H2 H3] Hval;
    simpl; [lia|lia|..]; rewrite ?length_app.
  - assert (Hr : validSpec (rt_Spec r) = true) by (apply Hval; by left).
    apply (Hsec _ _ _ Hr) in H1. apply Hend in H2. lia.
  - assert (Hr : validSpec (rt_Spec r) = true) by (apply Hval; by left).
    apply (Hsec _ _ _ Hr) in H1. apply Hend in H3.
    apply (atMost_exec _ _ _ _ (core_atMost r)) in H2. lia.
Qed.

End Bounds.

(** C21. Termination: for every way the API server, the recorder and the clock can
    answer, a reconciliation returns, and if the runtime it reads is one the
    schema accepts it does so after at most 44 calls. *)
Theorem reconcile_terminates `{K8sLib} rc clk (req : NamespacedName) :
  (∀ answer : (∀ o : Op, Resp o), ∃ tr res,
     exec (Reconcile rc clk req) tr res ∧ Forall (λ c, call_resp c = answer (call_op c)) tr)
  ∧ (∀ tr res, exec (Reconcile rc clk req) tr res →
     (∀ r, Ok r ∈ runtimeReads tr → validSpec (rt_Spec r) = true) → length tr ≤ 44).
Proof.
  split.
  - intros answer. exists (replay answer (Reconcile rc clk req)).1, (replay answer (Reconcile rc clk req)).2.
    split; [apply exec_replay|apply replay_answers].
  - intros tr res He Hval. destruct (reconcile_course _ _ _ _ _ He) as (t1 & t2 & body & Hc & ->).
    apply course_atMost in Hc.
    + simpl. rewrite length_app. simpl. lia.
    + intros r Hr. apply Hval. simpl. unfold runtimeReads in *. rewrite omap_app. by apply elem_of_app; left.
Qed.

Lemma reconcile_terminates_witness : length healthyRun.1 ≤ 44.
Proof.
  destruct (@reconcile_terminates RefKube.lib (mkReconciler true) sampleClock (rt_key sampleRuntime))
    as [_ Hbound].
  apply (Hbound _ _ healthyRun_exec).
  assert (Hall : forallb (λ x, match x with Ok r => validSpec (rt_Spec r) | Err _ => true end)
    (runtimeReads healthyRun.1) = true) by (vm_compute; reflexivity).
  intros r Hr. rewrite forallb_forall in Hall. apply (Hall (Ok r)). by apply list_elem_of_In.
Defined.
