(* ===== verification/Wellformed.v ===== *)
(** * The built objects are well formed

    What Kubernetes requires of the objects of [Resources] beyond their types:
    names, label keys, label values and annotation keys of the documented syntax,
    numbers in range, and references between the objects that resolve.  The
    schema of the custom resource does not restrict its name, which becomes the
    name of a Service and the value of a label, nor the labels and annotations
    that the user adds to the Pods. *)

From Stdlib Require Import Ascii.
From S2P Require Import Prelude GoStd KubeTypes ApiTypes KubeLib Resources RefKube Samples.
From S2P Require Import ResourceProps.

(** ** Documented syntax *)

(** A label value. *)
Definition labelValue (s : string) : bool :=
  lengthIn 0 63 s &&
  match s with
  | EmptyString => true
  | String c s => isAlnum c && endsWell isTagChar isAlnum s
  end.

(** The name part of a label key. *)
Definition qualifiedName (s : string) : bool :=
  lengthIn 1 63 s &&
  match s with
  | EmptyString => false
  | String c s => isAlnum c && endsWell isTagChar isAlnum s
  end.

(** The DNS labels of a string, which are separated by dots. *)
Fixpoint dotLabels (s : string) : list string :=
  match s with
  | EmptyString => [EmptyString]
  | String c s =>
      if Ascii.eqb c "." then EmptyString :: dotLabels s
      else match dotLabels s with [] => [] | l :: ls => String c l :: ls end
  end.

(** A DNS subdomain, as the prefix of a label key is. *)
Definition subdomain (s : string) : bool :=
  lengthIn 1 253 s &&
  forallb (λ l, match l with
                | EmptyString => false
                | String c l => isNameEdge c && endsWell (λ c, isNameEdge c || Ascii.eqb c "-") isNameEdge l
                end) (dotLabels s).

(** The text before and after the first slash. *)
Fixpoint cutSlash (s : string) : option (string * string) :=
  match s with
  | EmptyString => None
  | String c s =>
      if Ascii.eqb c "/" then Some (EmptyString, s)
      else '(a, b) ← cutSlash s; Some (String c a, b)
  end.

(** A label key: a name with an optional prefix. *)
Definition labelKey (s : string) : bool :=
  match cutSlash s with
  | Some (prefix, name) => subdomain prefix && qualifiedName name
  | None => qualifiedName s
  end.

(** An annotation key is a label key in either case. *)
Definition toLower (c : ascii) : ascii :=
  if isUpper c then ascii_of_N (N_of_ascii c + 32) else c.

Fixpoint lowered (s : string) : string :=
  match s with EmptyString => EmptyString | String c s => String (toLower c) (lowered s) end.

Definition annotationKey (s : string) : bool := labelKey (lowered s).

Definition labelsOk (m : gmap string string) : Prop :=
  map_Forall (λ k v, labelKey k = true ∧ labelValue v = true) m.

Definition annotationsOk (m : gmap string string) : Prop :=
  map_Forall (λ k _, annotationKey k = true) m.

(** A service port name: at most 15 lower-case characters. *)
Definition portName (s : string) : bool :=
  lengthIn 1 15 s && match s with
                     | EmptyString => false
                     | String c s => isLower c && endsWell (λ c, isNameEdge c || Ascii.eqb c "-") isNameEdge s
                     end.

Definition portNumber (n : Z) : bool := inRange 1 65535 n.

(** A port reference resolves among the ports of a container. *)
Definition resolves (ports : list ContainerPort) (p : IntOrString) : Prop :=
  match p with
  | FromInt32 n => n ∈ cp_ContainerPort <$> ports
  | FromString s => s ∈ cp_Name <$> ports
  end.

(** ** Well-formed sets of objects *)

Section WellFormed.
Context `{K8sLib} (r : TrussiumRuntime).

Definition template : PodTemplateSpec := ds_Template (d_Spec (buildDeployment r)).
Definition templatePorts : list ContainerPort := ps_Containers (pt_Spec template) ≫= ct_Ports.
Definition templateProbes : list Probe :=
  c ← ps_Containers (pt_Spec template);
  option_list (ct_StartupProbe c) ++ option_list (ct_LivenessProbe c) ++ option_list (ct_ReadinessProbe c).

(** Names, labels and annotation keys have the documented syntax. *)
Definition namesOk : Prop :=
  dns1035Label (om_Name (svc_Meta (buildService r))) = true
  ∧ labelsOk (om_Labels (svc_Meta (buildService r)))
  ∧ labelsOk (om_Labels (pt_Meta template))
  ∧ annotationsOk (om_Annotations (pt_Meta template)).

(** Every selector selects the Pods of the template. *)
Definition selectorsOk : Prop :=
  let labels := om_Labels (pt_Meta template) in
  ss_Selector (svc_Spec (buildService r)) ⊆ labels
  ∧ ls_MatchLabels (ds_Selector (d_Spec (buildDeployment r))) ⊆ labels
  ∧ ls_MatchLabels (ds_Selector (d_Spec (buildDeployment r))) ≠ ∅
  ∧ from_option (λ s, ls_MatchLabels s ⊆ labels) False (pdbs_Selector (pdb_Spec (buildPodDisruptionBudget r)))
  ∧ (∀ np, ls_MatchLabels (nps_PodSelector (np_Spec (buildNetworkPolicy r np))) ⊆ labels)
  ∧ Forall (λ t, ls_MatchLabels (tsc_LabelSelector t) ⊆ labels)
      (ps_TopologySpreadConstraints (pt_Spec template)).

(** Ports are named, in range, and every reference to one resolves. *)
Definition portsOk : Prop :=
  Forall (λ p, portName (cp_Name p) = true ∧ portNumber (cp_ContainerPort p) = true) templatePorts
  ∧ Forall (λ p, portName (sp_Name p) = true ∧ portNumber (sp_Port p) = true
                 ∧ resolves templatePorts (sp_TargetPort p)) (ss_Ports (svc_Spec (buildService r)))
  ∧ Forall (λ p, resolves templatePorts (hg_Port (pr_HTTPGet p))) templateProbes
  ∧ (∀ np, Forall (λ rule, Forall (λ p, from_option (resolves templatePorts) False (nppt_Port p))
                                  (npi_Ports rule))
             (nps_Ingress (np_Spec (buildNetworkPolicy r np)))).

(** Objects refer to one another by the names they have. *)
Definition linksOk : Prop :=
  ps_ServiceAccountName (pt_Spec template) = om_Name (sa_Meta (buildServiceAccount r))
  ∧ Forall (λ c, Forall (λ e, lor_Name (ef_ConfigMapRef e) = om_Name (cm_Meta (buildConfigMap r)))
                        (ct_EnvFrom c)) (ps_Containers (pt_Spec template))
  ∧ cvo_Name (hpas_ScaleTargetRef (hpa_Spec (buildHorizontalPodAutoscaler r)))
    = om_Name (d_Meta (buildDeployment r)).

(** Counts are in the ranges Kubernetes accepts. *)
Definition countsOk : Prop :=
  let d := d_Spec (buildDeployment r) in
  let h := hpa_Spec (buildHorizontalPodAutoscaler r) in
  from_option (λ n, 0 <= n)%Z False (ds_Replicas d)
  ∧ from_option (λ n, 0 <= n)%Z False (ps_TerminationGracePeriodSeconds (pt_Spec template))
  ∧ from_option (λ n, 1 <= n <= hpas_MaxReplicas h)%Z False (hpas_MinReplicas h)
  ∧ from_option (λ u, ru_MaxUnavailable u ≠ FromInt32 0 ∨ ru_MaxSurge u ≠ FromInt32 0) False
      (dst_RollingUpdate (ds_Strategy d)).

Definition wellFormed : Prop := namesOk ∧ selectorsOk ∧ portsOk ∧ linksOk ∧ countsOk.

End WellFormed.

(** Labels and annotations the user adds to the Pods, which the schema does not
    check. *)
Definition userLabels (r : TrussiumRuntime) : gmap string string :=
  from_option pm_Labels ∅ (spec_PodMetadata (rt_Spec r)).

Definition userAnnotations (r : TrussiumRuntime) : gmap string string :=
  from_option pm_Annotations ∅ (spec_PodMetadata (rt_Spec r)).

(** ** Names *)

Lemma endsWell_mono (i1 i2 e1 e2 : ascii → bool) s :
  (∀ c, i1 c = true → i2 c = true) → (∀ c, e1 c = true → e2 c = true) →
  endsWell i1 e1 s = true → endsWell i2 e2 s = true.
Proof.
  intros Hi He. induction s as [|c s IH]; [done|]. simpl. destruct s as [|c' s]; [apply He|].
  rewrite !andb_true_iff. intros [Hc Hs]. split; [by apply Hi|by apply IH].
Qed.

Lemma lengthIn_spec lo hi s : lengthIn lo hi s = true ↔ (lo <= runeCount s <= hi)%Z.
Proof. unfold lengthIn. by rewrite andb_true_iff, !Z.leb_le. Qed.

Lemma edge_alnum c : isNameEdge c = true → isAlnum c = true.
Proof. unfold isNameEdge, isAlnum. rewrite !orb_true_iff. tauto. Qed.

Lemma dns1035_label s : dns1035Label s = true → labelValue s = true.
Proof.
  unfold dns1035Label, labelValue. rewrite !andb_true_iff, !lengthIn_spec. intros [Hl Hs].
  split; [lia|]. destruct s as [|c s]; [done|]. rewrite andb_true_iff in *. destruct Hs as [Hc Hs].
  split; [apply edge_alnum; unfold isNameEdge; by rewrite Hc|].
  revert Hs. apply endsWell_mono; [|apply edge_alnum].
  intros x. unfold isTagChar. rewrite !orb_true_iff. intros [Hx|Hx]; [left; by apply edge_alnum|right].
  apply Ascii.eqb_eq in Hx as ->. reflexivity.
Qed.

Lemma runtimeLabels_ok r : labelValue (rt_Name r) = true → labelsOk (runtimeLabels r).
Proof.
  intros Hn k v. unfold runtimeLabels. simpl. rewrite !lookup_insert_Some, lookup_empty.
  intros Hv. repeat (destruct Hv as [[<- <-]|[_ Hv]]; [split; try done; reflexivity|]). done.
Qed.

(** The operator's labels take precedence over the user's. *)
Lemma mergedLabels_ok r :
  labelsOk (runtimeLabels r) →
  labelsOk (mergedPodLabels r) ↔ labelsOk (userLabels r ∖ runtimeLabels r).
Proof.
  intros Hr. rewrite mergedPodLabels_union. fold (userLabels r). split.
  - intros Hu k v Hv. apply lookup_difference_Some in Hv as [Hv Hno]. apply (Hu k v).
    by rewrite lookup_union_r.
  - intros Hu k v Hv. apply lookup_union_Some_raw in Hv as [Hv|[Hno Hv]]; [by apply Hr|].
    apply (Hu k v). by apply lookup_difference_Some.
Qed.

Lemma annotationsOk_dom m : annotationsOk m ↔ ∀ k, k ∈ dom m → annotationKey k = true.
Proof.
  unfold annotationsOk. rewrite map_Forall_lookup. split.
  - intros Hm k [v Hv]%elem_of_dom. by apply (Hm k v).
  - intros Hm k v Hv. apply Hm, elem_of_dom. by exists v.
Qed.

Lemma copied_dom (l : list (string * string)) (acc : gmap string string) k :
  k ∈ dom (foldl (λ acc kv, <[kv.1 := kv.2]> acc) acc l) ↔ k ∈ dom acc ∨ k ∈ l.*1.
Proof.
  revert acc. induction l as [|[k' v] l IH]; intros acc; simpl.
  - split; [by left|]. intros [?|Hn]; [done|by apply not_elem_of_nil in Hn].
  - rewrite IH, dom_insert, elem_of_cons. set_solver.
Qed.

Lemma podAnnotations_ok r : annotationsOk (podAnnotations r) ↔ annotationsOk (userAnnotations r).
Proof.
  rewrite !annotationsOk_dom. unfold podAnnotations, userAnnotations.
  assert (Hd : ∀ k, k ∈ dom (podAnnotations r)
    ↔ k = runtimeConfigChecksumAnnotation ∨ k ∈ dom (userAnnotations r)).
  { intros k. unfold podAnnotations, userAnnotations. rewrite dom_insert, elem_of_union, elem_of_singleton.
    destruct (spec_PodMetadata (rt_Spec r)) as [pm|]; simpl; [|done].
    rewrite copied_dom.
    rewrite <-(list_to_map_to_list (pm_Annotations pm)) at 2. rewrite dom_list_to_map, elem_of_list_to_set.
    set_solver. }
  fold (podAnnotations r). fold (userAnnotations r).
  setoid_rewrite Hd. split; [intros Hk k Hin; apply Hk; by right|].
  intros Hk k [->|Hin]; [reflexivity|by apply Hk].
Qed.

Section Proofs.
Context `{K8sLib} (r : TrussiumRuntime).

Lemma selectors_wellformed : selectorsOk r.
Proof.
  pose proof (selector_selects_own_pods r) as Hs. unfold selectorsOk. cbv zeta.
  change (om_Labels (pt_Meta (template r))) with (mergedPodLabels r).
  split; [exact Hs|]. split; [exact Hs|]. split.
  { intros He. apply (f_equal (.!! "app.kubernetes.io/instance")) in He. discriminate He. }
  split; [exact Hs|]. split; [by intros np|]. by repeat constructor.
Qed.

Lemma ports_wellformed : validSpec (rt_Spec r) = true → portsOk r.
Proof.
  intros Hv. apply validSpec_parts in Hv as (_ & _ & _ & _ & _ & Hsvc & _).
  apply service_port_bounds in Hsvc. unfold portsOk.
  assert (Hp : templatePorts r = [mkContainerPort runtimeHTTPPortName runtimeHTTPPort ProtocolTCP])
    by reflexivity.
  assert (Hres : resolves (templatePorts r) (FromString runtimeHTTPPortName)) by (rewrite Hp; by left).
  assert (Hnum : resolves (templatePorts r) (FromInt32 runtimeHTTPPort)) by (rewrite Hp; by left).
  split; [rewrite Hp; by repeat constructor|]. split.
  { constructor; [|constructor]. split; [reflexivity|]. split; [by apply inRange_spec|exact Hres]. }
  split; [by repeat constructor|]. intros np. simpl. apply Forall_forall. intros rule Hin.
  apply list_elem_of_In, in_map_iff in Hin as (ing & <- & _). by repeat constructor.
Qed.

Lemma counts_wellformed : validSpec (rt_Spec r) = true → countsOk r.
Proof.
  intros Hv. apply validSpec_parts in Hv as (_ & Hrep & _ & _ & Hset & _ & _ & Has).
  apply replica_bounds in Hrep. apply grace_bounds in Hset. apply autoscaling_bounds in Has.
  unfold countsOk. simpl. unfold initialDeploymentReplicas.
  split; [destruct (autoscalingEnabled r); lia|]. split; [lia|]. split; [lia|]. by right.
Qed.

End Proofs.

(** C22. The objects built for a specification the schema accepts are well formed
    exactly when the name of the runtime is a DNS label, the labels its user adds
    to the Pods, except those the operator overrides, have valid keys and values,
    and the annotations its user adds have valid keys: then names, labels and
    annotation keys have the syntax Kubernetes requires, every selector selects
    the Pods of the Deployment, every port reference resolves, the objects refer
    to one another by their names, and all counts are in range.  The schema
    accepts any name and any such label or annotation all the same. *)
Theorem built_objects_wellformed `{K8sLib} (r : TrussiumRuntime) :
  validSpec (rt_Spec r) = true →
  wellFormed r ↔
  dns1035Label (rt_Name r) = true ∧ labelsOk (userLabels r ∖ runtimeLabels r)
  ∧ annotationsOk (userAnnotations r).
Proof.
  intros Hv.
  assert (Hnames : namesOk r ↔ dns1035Label (rt_Name r) = true
    ∧ labelsOk (userLabels r ∖ runtimeLabels r) ∧ annotationsOk (userAnnotations r)).
  { unfold namesOk. change (om_Labels (pt_Meta (template r))) with (mergedPodLabels r).
    change (om_Annotations (pt_Meta (template r))) with (podAnnotations r).
    rewrite podAnnotations_ok. split.
    - intros (Hn & Hl & Hm & Ha). rewrite (mergedLabels_ok r Hl) in Hm. by split_and!.
    - intros (Hn & Hm & Ha). pose proof (runtimeLabels_ok r (dns1035_label _ Hn)) as Hl.
      rewrite (mergedLabels_ok r Hl). by split_and!. }
  rewrite <-Hnames. split; [by intros [Hn _]|]. intros Hn. split; [exact Hn|].
  split; [apply selectors_wellformed|]. split; [by apply ports_wellformed|].
  split; [by repeat constructor|by apply counts_wellformed].
Qed.

(** The sample is well formed; under a name of 64 characters it is not, nor with
    a label value that has a blank. *)
Lemma built_objects_wellformed_witness :
  let renamed := mkRuntime noType (mkMeta "a123456789b123456789c123456789d123456789e123456789f123456789g123"
                   "trussium" "uid-6" 1 None ∅ ∅ [] noRaw) sampleSpec emptyStatus in
  let labelled := sampleWith (λ s, mkSpec (spec_Image s) (spec_Replicas s) (spec_ImagePullSecrets s)
                    (spec_Provider s) (spec_Runtime s) (spec_Service s) (spec_NetworkPolicy s)
                    (spec_Autoscaling s) (spec_Resources s)
                    (Some (mkPodMetadata {["team" := "ai platform"]} ∅)) (spec_Scheduling s)) in
  @wellFormed RefKube.lib sampleRuntime
  ∧ ¬ @wellFormed RefKube.lib renamed ∧ ¬ @wellFormed RefKube.lib labelled.
Proof.
  intros renamed labelled. split; [|split].
  - apply (@built_objects_wellformed RefKube.lib sampleRuntime); [vm_compute; reflexivity|].
    split; [reflexivity|]. split; apply (bool_decide_unpack _); vm_compute; exact I.
  - intros Hw. apply (@built_objects_wellformed RefKube.lib) in Hw; [|vm_compute; reflexivity].
    destruct Hw as [Hn _]. discriminate Hn.
  - intros Hw. apply (@built_objects_wellformed RefKube.lib) in Hw; [|vm_compute; reflexivity].
    destruct Hw as (_ & Hl & _). revert Hl. apply (bool_decide_unpack _). vm_compute. exact I.
Defined.
