(* ===== verification/Faults.v ===== *)
(** * Failing calls, stale reads and crashes

    The calls of a reconciliation can fail: a request is lost, or it is carried
    out and the answer is lost; a read through the cache of the manager can
    return an older state; the process can die between two calls.  [runFaulty]
    runs a program against a server under such a plan, and this file shows what
    no plan can break: whatever fails, a reconciliation touches nothing but the
    managed objects and the status under its own key, and every object it
    writes is controlled by the runtime of that name. *)

From S2P Require Import Prelude GoStd KubeTypes ApiTypes KubeLib Resources Effects Status.
From S2P Require Import Events Reconciler StatusProps UpgradeProps ConvergenceProps EventProps.
From S2P Require Import ReconcileProps ManagedProps Cluster RefKube Samples RefServer ClusterProps.
From S2P Require Import Quiescence.

(** ** Plans *)

(** What becomes of one call. *)
Inductive Outcome (W : Type) :=
(** It is carried out and answered. *)
| Answered
(** It fails and has no effect. *)
| Lost (e : GoError)
(** It is carried out, but an error is returned. *)
| Unacknowledged (e : GoError)
(** A read is answered from an earlier state; a [CreateOrUpdate] finds there
    that nothing is to be changed, and sends nothing. *)
| Stale (past : W)
(** The process ends before the call. *)
| Crashed.
Arguments Answered {W}.
Arguments Lost {W} e.
Arguments Unacknowledged {W} e.
Arguments Stale {W} past.
Arguments Crashed {W}.

(** The error answer of an operation of the client; the recorder, the
    collectors and the clock return none. *)
Definition failWith (o : Op) (e : GoError) : option (Resp o) :=
  match o with
  | OpGet _ _ => Some (Err e)
  | OpListRuntimes _ => Some (Err e)
  | OpCreateOrUpdate _ _ _ => Some (Some e)
  | OpDelete _ _ => Some (Some e)
  | OpStatusUpdate _ => Some (Err e)
  | _ => None
  end.

(** A call that is answered from an earlier state. *)
Definition staleCall `{Environment W} (past : W) (o : Op) (w : W) : Resp o * W :=
  match o return Resp o * W with
  | OpGet k key => ((handle (OpGet k key) past).1, w)
  | OpListRuntimes ns => ((handle (OpListRuntimes ns) past).1, w)
  | OpCreateOrUpdate _ _ _ => (None, w)
  | o => handle o w
  end.

(** One call under its outcome; [None] when the process is gone. *)
Definition callUnder `{Environment W} (f : Outcome W) (o : Op) (w : W) : option (Resp o * W) :=
  match f with
  | Answered => Some (handle o w)
  | Lost e => Some (match failWith o e with Some resp => (resp, w) | None => handle o w end)
  | Unacknowledged e =>
      Some (let '(resp, w') := handle o w in (default resp (failWith o e), w'))
  | Stale past => Some (staleCall past o w)
  | Crashed => None
  end.

(** A program under a plan, one outcome per call; the calls after the plan are
    answered.  The result is [None] when the process did not survive. *)
Fixpoint runFaulty `{Environment W} {A} (p : Prog A) (plan : list (Outcome W)) (w : W) {struct p}
    : option A * W :=
  match p with
  | Ret a => (Some a, w)
  | Do o k =>
      match callUnder (hd Answered plan) o w with
      | Some (resp, w') => runFaulty (k resp) (tail plan) w'
      | None => (None, w)
      end
  end.

(** Without faults this is [run]. *)
Definition answered {W} (f : Outcome W) : Prop := f = Answered.

Lemma run_answered `{Environment W} {A} (p : Prog A) plan (w : W) :
  Forall answered plan → runFaulty p plan w = (Some (run p w).1, (run p w).2).
Proof.
  revert plan w. induction p as [a|o k IH]; intros plan w Hp; simpl; [done|].
  assert (hd Answered plan = Answered) as -> by by destruct Hp. simpl.
  destruct (handle o w) as [resp w']. apply IH. by destruct Hp.
Qed.

(** ** Status updates at any time *)

(** A status update is refused or stores the status it is sent, and nothing
    else of the runtime, whatever version of the runtime is sent. *)
Class ApiServerStatus (W : Type) `{ApiServer W} : Prop :=
  status_atomic (w : W) r :
    (∃ e, handle (OpStatusUpdate r) w = (Err e, w))
    ∨ ∃ r0 r' w', stored KTrussiumRuntime w (rt_key r) = Some r0
        ∧ handle (OpStatusUpdate r) w = (Ok r', w')
        ∧ stored KTrussiumRuntime w' (rt_key r) = Some r'
        ∧ statusStored (rt_set_status (rt_Status r) r0) r'
        ∧ sameExcept KTrussiumRuntime (rt_key r) w w'.

#[export] Instance refserver_status : @ApiServerStatus _ RefServer.server.
Proof.
  intros w r. unfold handle, server_handle, RefServer.server, RefServer.environment.
  change (@stored _ RefServer.server) with RefServer.lookup.
  destruct (RefServer.lookup KTrussiumRuntime w (rt_key r)) as [r0|] eqn:Hr; [right|left; by eexists].
  set (r' := rt_set_status (rt_Status r) r0).
  exists r0, r', (RefServer.put KTrussiumRuntime r' w).
  assert (Hk : obj_key KTrussiumRuntime r' = rt_key r)
    by exact (RefServer.lookup_key KTrussiumRuntime w _ r0 Hr).
  split; [exact Hr|]. rewrite <-Hk. split; [done|].
  split; [apply (RefServer.lookup_put KTrussiumRuntime)|]. split; [done|apply RefServer.put_frame].
Qed.

(** ** What every reconciliation leaves alone *)

(** The runtime with another status: what a status update may change. *)
Definition sameButStatus (r r' : TrussiumRuntime) : Prop :=
  rt_key r' = rt_key r ∧ om_UID (rt_Meta r') = om_UID (rt_Meta r)
  ∧ rt_Generation r' = rt_Generation r
  ∧ om_DeletionTimestamp (rt_Meta r') = om_DeletionTimestamp (rt_Meta r)
  ∧ rt_Spec r' = rt_Spec r.

#[export] Instance sameButStatus_preorder : PreOrder sameButStatus.
Proof. split; unfold sameButStatus; [done|]. intros r1 r2 r3. intuition congruence. Qed.

(** An object under [key] is not controlled by another owner. *)
Definition freeOf `{ApiServer W} (key : NamespacedName) (w : W) : Prop :=
  ∀ k o ref, k ∈ managedKinds → stored k w key = Some o →
  GetControllerOf (om_OwnerReferences (obj_meta k o)) = Some ref →
  or_APIVersion ref = GroupVersion ∧ or_Kind ref = "TrussiumRuntime" ∧ or_Name ref = key_Name key.

(** The effect on the cluster that reconciling [key] may have, however it
    ends. *)
Record confined `{K8sLib} `{ApiServer W} (key : NamespacedName) (w w' : W) : Prop := {
  confined_elsewhere : ∀ k key', k ∉ KTrussiumRuntime :: managedKinds ∨ key' ≠ key →
    stored k w' key' = stored k w key';
  confined_runtime : option_Forall2 sameButStatus (stored KTrussiumRuntime w key)
    (stored KTrussiumRuntime w' key);
  confined_free : freeOf key w → freeOf key w';
  confined_objects : objectsFrom key w w'
}.

(** The operations of a reconciliation of [key]. *)
Definition within `{K8sLib} (key : NamespacedName) (o : Op) : Prop :=
  match o with
  | OpCreateOrUpdate k current mutate =>
      ∃ r, rt_key r = key ∧ writeOf r k = Some (current, mutate)
  | OpDelete k key' => k ∈ managedKinds ∧ key' = key
  | OpStatusUpdate r => rt_key r = key
  | OpListRuntimes _ => False
  | _ => True
  end.

(** What a read returns has the key it was asked for. *)
Definition wellKeyed (o : Op) : Resp o → Prop :=
  match o return Resp o → Prop with
  | OpGet k key => λ resp, match resp with Ok x => obj_key k x = key | Err _ => True end
  | _ => λ _, True
  end.

(** A program whose operations are those of a reconciliation of [key], for all
    well-keyed answers. *)
Fixpoint stays `{K8sLib} {A} (key : NamespacedName) (p : Prog A) : Prop :=
  match p with
  | Ret _ => True
  | Do o k => within key o ∧ ∀ resp, wellKeyed o resp → stays key (k resp)
  end.

#[export] Instance confined_preorder `{K8sLib} `{ApiServer W} key : PreOrder (confined (W := W) key).
Proof.
  split.
  - intros w. split; [done| |done|done]. destruct (stored KTrussiumRuntime w key); by constructor.
  - intros w1 w2 w3 [H1 H2 H3 H7] [H4 H5 H6 H8]. split; [|by etransitivity|by auto|by etransitivity].
    intros k key' Hk. by rewrite H4, H1.
Qed.

Section Confinement.
Context `{K8sLaws} {W : Type} `{!ApiServer W} `{!ApiServerLaws W} `{!ApiServerStatus W}.

Lemma confined_same key (w w' : W) : sameObjects w w' → confined key w w'.
Proof.
  intros Hs. split; [intros; apply Hs| | |].
  - rewrite Hs. by destruct (stored KTrussiumRuntime w key); constructor.
  - intros Hf k o ref Hk Ho. rewrite Hs in Ho. by apply Hf.
  - by apply objectsFrom_same.
Qed.

(** A change of one managed object under [key]. *)
Lemma confined_object key k (w w' : W) :
  k ∈ managedKinds → sameExcept k key w w' →
  (∀ o ref, stored k w' key = Some o →
     GetControllerOf (om_OwnerReferences (obj_meta k o)) = Some ref →
     or_APIVersion ref = GroupVersion ∧ or_Kind ref = "TrussiumRuntime" ∧ or_Name ref = key_Name key) →
  (∀ o, stored k w' key = Some o → leftBy key k o) →
  confined key w w'.
Proof.
  intros Hk Hs Hc Hl. split.
  - intros k' key' Hout. apply Hs. rewrite not_elem_of_cons in Hout. intros [= -> ->].
    destruct Hout as [[_ ?]|?]; done.
  - rewrite Hs by (intros [= <-]; revert Hk; by apply (bool_decide_unpack _)).
    by destruct (stored KTrussiumRuntime w key); constructor.
  - intros Hf k' o ref Hk' Ho. destruct (decide (k' = k)) as [->|Hne]; [by apply Hc|].
    rewrite Hs in Ho by congruence. by apply Hf.
  - intros k' o Hk' Ho. destruct (decide (k' = k)) as [->|Hne]; [left; by apply Hl|].
    right. exists o. split; [|done]. by rewrite <-Ho, Hs by congruence.
Qed.

Lemma confined_write key k current mutate (w : W) :
  within key (OpCreateOrUpdate k current mutate) →
  confined key w (handle (OpCreateOrUpdate k current mutate) w).2.
Proof.
  intros (r & <- & Hw). destruct (writeOf_form r k current mutate Hw) as (Hk & _ & assemble & Has).
  destruct (mutate (default current (stored k w (rt_key r)))) as [y|e] eqn:Hy.
  2:{ destruct (start_key r k current mutate w Hw) as [Hkey _]. rewrite <-Hkey in Hy.
      by rewrite (create_or_update_refused k w current mutate e Hy). }
  destruct (write_outcome r k current mutate y w Hw Hy) as [(_ & w' & o & -> & Ho & Hkeep & Hs)|(_ & e & ->)];
    [|done].
  destruct (written_owned r k mutate assemble _ y Has Hy) as (m & -> & [_ Hctl] & _).
  apply (confined_object (rt_key r) k w w'); [done|done| |].
  - intros o' ref Ho' Href. rewrite Ho in Ho'. injection Ho' as <-.
    destruct (keeps_meta k _ _ Hkeep) as (_ & _ & _ & _ & Hown).
    rewrite Hown, (proj1 Has), Hctl in Href. by injection Href as <-.
  - intros o' Ho'. rewrite Ho in Ho'. injection Ho' as <-. by eexists r, current, mutate, _, _.
Qed.

Lemma confined_delete key k (w : W) :
  k ∈ managedKinds → confined key w (handle (OpDelete k key) w).2.
Proof.
  intros Hk. destruct (stored k w key) as [o|] eqn:Ho.
  - destruct (delete_found k w key o Ho) as (w' & -> & Hn & Hs).
    apply (confined_object key k w w'); [done|done|..]; intros o'; by rewrite Hn.
  - by destruct (delete_missing k w key Ho) as (e & -> & _).
Qed.

Lemma confined_status key r (w : W) :
  rt_key r = key → confined key w (handle (OpStatusUpdate r) w).2.
Proof.
  intros <-. destruct (status_atomic w r) as [[e ->]|(r0 & r' & w' & Hst & -> & Hst' & Hss & Hs)]; [done|].
  split; simpl.
  - intros k key' Hout. apply Hs. rewrite not_elem_of_cons in Hout. intros [= -> ->].
    destruct Hout as [[? _]|?]; done.
  - rewrite Hst, Hst'. constructor. destruct Hss as (H1 & H2 & H3 & H4 & H5 & _). by split_and!.
  - intros Hf k o ref Hk Ho. rewrite Hs in Ho; [by apply Hf|].
    intros [= ->]. revert Hk. by apply (bool_decide_unpack _).
  - intros k o Hk Ho. right. exists o. split; [|done]. rewrite <-Ho. symmetry. apply Hs.
    intros [= ->]. revert Hk. by apply (bool_decide_unpack _).
Qed.

(** An operation of a reconciliation is confined, whatever the server does. *)
Lemma confined_handle key o (w : W) : within key o → confined key w (handle o w).2.
Proof.
  destruct o; intros Hw.
  - destruct (stored k w key0) as [x|] eqn:Hx.
    + by rewrite (get_found k w key0 x Hx).
    + by destruct (get_missing k w key0 Hx) as (e & -> & _).
  - done.
  - by apply confined_write.
  - destruct Hw as [Hk ->]. by apply confined_delete.
  - by apply confined_status.
  - destruct (event_recorded w e) as (w' & -> & Hs). by apply confined_same.
  - destruct (reconciliation_counted w l) as (w' & -> & Hs). by apply confined_same.
  - destruct (duration_observed w l d) as (w' & -> & Hs). by apply confined_same.
  - destruct (clock_read w) as (t & w' & -> & Hs). by apply confined_same.
Qed.

Lemma wellKeyed_handle o (w : W) : wellKeyed o (handle o w).1.
Proof.
  destruct o as [k key| | | | | | | |]; try done. simpl. destruct (stored k w key) as [x|] eqn:Hx.
  - rewrite (get_found k w key x Hx). by apply stored_key in Hx.
  - by destruct (get_missing k w key Hx) as (e & -> & _).
Qed.

(** Also when it fails, is answered late or not at all. *)
Lemma confined_call key f o (w w' : W) resp :
  within key o → callUnder f o w = Some (resp, w') → confined key w w' ∧ wellKeyed o resp.
Proof.
  intros Hw. pose proof (confined_handle key o w Hw) as Hc. pose proof (wellKeyed_handle o w) as Hk.
  destruct (handle o w) as [resp0 w0] eqn:Hh. simpl in Hc, Hk.
  destruct f as [|e|e|past|]; simpl; rewrite ?Hh; try done.
  - intros [= <- <-]. done.
  - destruct (failWith o e) as [err|] eqn:Hf; intros [= <- <-]; [|done]. split; [done|].
    destruct o; try done. by injection Hf as <-.
  - intros [= <- <-]. split; [done|]. destruct o; done.
  - intros Heq. destruct o; simpl in Heq; try (rewrite Hh in Heq); injection Heq as <- <-; try done.
    split; [done|]. apply (wellKeyed_handle (OpGet k key0)).
Qed.

(** Whatever fails, a program that stays within [key] is confined to it. *)
Lemma confined_run {A} key (p : Prog A) plan (w : W) :
  stays key p → confined key w (runFaulty p plan w).2.
Proof.
  revert plan w. induction p as [a|o k IH]; intros plan w Hp; simpl; [done|].
  destruct Hp as [Hw Hk]. destruct (callUnder (hd Answered plan) o w) as [[resp w']|] eqn:Hc; [|done].
  destruct (confined_call key _ o w w' resp Hw Hc) as [Hcon Hwk].
  etransitivity; [exact Hcon|]. by apply IH, Hk.
Qed.

End Confinement.

(** ** A reconciliation stays within its key *)

Lemma stays_bind `{K8sLib} {A B} key (p : Prog A) (f : A → Prog B) :
  stays key p → (∀ a, stays key (f a)) → stays key (p ≫= f).
Proof.
  intros Hp Hf. induction p as [a|o k IH]; simpl; [apply Hf|].
  destruct Hp as [Hw Hk]. split; [done|]. intros resp Hr. by apply IH, Hk.
Qed.

Lemma stays_call `{K8sLib} {B} key o (f : Resp o → Prog B) :
  within key o → (∀ resp, wellKeyed o resp → stays key (f resp)) → stays key (perform o ≫= f).
Proof. done. Qed.

Lemma stays_ops `{K8sLib} {A} (P : Op → Prop) key (p : Prog A) :
  (∀ o, P o → within key o) → allOps P p → stays key p.
Proof.
  intros HP. induction p as [a|o k IH]; simpl; [done|]. intros [Ho Hk].
  split; [by apply HP|]. intros resp _. by apply IH.
Qed.

Section Reconciliation.
Context `{K8sLib}.

Lemma stays_events key p : onlyEvents p → stays key p.
Proof.
  intros Hp. apply (stays_ops (λ o, ∃ e, o = OpEventf e)); [by intros o [e ->]|].
  apply onlyEvents_allOps; [|done]. intros e. by exists e.
Qed.

Lemma stays_load key r : stays key (loadRuntimeObservation r).
Proof.
  unfold loadRuntimeObservation. split; [done|].
  intros [d|e] _; simpl; [|destruct (IsNotFound e); [|done]]; (split; [done|]);
    intros [s|e'] _; simpl; try done; by destruct (IsNotFound e').
Qed.

Lemma stays_update r s : stays (rt_key r) (updateRuntimeStatus r s).
Proof.
  unfold updateRuntimeStatus. destruct (DeepEqual _ _); [done|]. split; [done|]. by intros [] _.
Qed.

Lemma stays_failure rc clk r prev e : stays (rt_key r) (handleReconciliationFailure rc clk r prev e).
Proof.
  apply stays_bind; [apply stays_load|]. intros loaded. cbv zeta.
  apply stays_bind; [apply stays_update|]. intros [[b err] r'].
  apply stays_bind; [apply stays_events; destruct b; [apply onlyEvents_transitions|done]|]. intros _.
  apply stays_bind; [apply stays_events, onlyEvents_failure|done].
Qed.

Lemma stays_report rc clk r prev v : stays (rt_key r) (reportStatus rc clk r prev v).
Proof.
  apply stays_bind; [apply stays_load|]. intros [obs|e]; [|apply stays_failure]. cbv zeta.
  apply stays_bind; [apply stays_update|]. intros [[b [e|]] r'].
  - apply stays_bind; [apply stays_events, onlyEvents_failure|done].
  - apply stays_bind; [apply stays_events; destruct b; [apply onlyEvents_transitions|done]|done].
Qed.

Lemma stays_validate key r names : stays key (validateSecrets r names).
Proof.
  induction names as [|name names IH]; [done|]. split; [done|].
  intros [s|e] _; simpl; [exact IH|]. by destruct (IsNotFound e).
Qed.

Lemma stays_managed r k p : StepForm r k p → stays (rt_key r) p.
Proof.
  intros [current mutate assemble Hw _ _|Hk _ _]; [|by split].
  split; [|done]. by exists r.
Qed.

Lemma stays_step r kind step rest :
  stays (rt_key r) (step r) → stays (rt_key r) rest →
  stays (rt_key r) (reconcileStep r kind step rest).
Proof. intros Hs Hr. apply stays_bind; [done|]. by intros [e|]. Qed.

Lemma stays_core r : stays (rt_key r) (reconcileCoreResources r).
Proof.
  rewrite core_managedSteps.
  induction (managedSteps_form r) as [|s steps Hs Hsteps IH]; [done|].
  apply stays_step; [by eapply stays_managed|exact IH].
Qed.

Lemma stays_body rc clk key : stays key (reconcileBody rc clk key).
Proof.
  apply stays_call; [done|]. intros [r|e] Hk; [|done].
  change (rt_key r = key) in Hk. subst key.
  destruct (negb (IsZero (om_DeletionTimestamp (rt_Meta r)))); [done|].
  apply stays_bind; [apply stays_validate|]. intros v.
  destruct (v_Err v) as [e|]; [apply stays_failure|]. destruct (negb (v_Valid v)); [apply stays_report|].
  apply stays_bind; [apply stays_core|]. intros [e|]; [apply stays_failure|apply stays_report].
Qed.

Lemma stays_reconcile rc clk key : stays key (Reconcile rc clk key).
Proof.
  apply stays_bind; [done|]. intros t1. apply stays_bind; [apply stays_body|]. intros err. done.
Qed.

End Reconciliation.
