(* ===== verification/Schedules.v ===== *)
(** * Schedules of reconciliations

    The work queue hands out keys, retries those whose reconciliation failed
    and starts again after a restart; two instances of the manager can overlap
    when one takes over from the other; in between other controllers report the
    state of the workloads.  A schedule is any such sequence, with any plan of
    faults for every attempt.  Whatever happened before, and whatever happens
    to other runtimes, the last attempt of a runtime decides: if its calls are
    answered, the objects of the runtime are as its specification asks. *)

From S2P Require Import Prelude GoStd KubeTypes ApiTypes KubeLib Resources Effects Status.
From S2P Require Import Events Reconciler StatusProps UpgradeProps ConvergenceProps EventProps.
From S2P Require Import ReconcileProps ManagedProps Cluster RefKube Samples RefServer ClusterProps.
From S2P Require Import Quiescence Faults.

(** ** Schedules *)

Inductive Step (W : Type) :=
(** One reconciliation of a key under a plan. *)
| Attempt (key : NamespacedName) (plan : list (Outcome W))
(** Two instances reconcile at the same time, their calls interleaved in the
    given order. *)
| Overlap (order : list bool) (key1 : NamespacedName) (plan1 : list (Outcome W))
    (key2 : NamespacedName) (plan2 : list (Outcome W))
(** Other controllers report on the Deployments. *)
| Workloads (report : W → W).
Arguments Attempt {W} key plan.
Arguments Overlap {W} order key1 plan1 key2 plan2.
Arguments Workloads {W} report.

(** Two programs whose calls are interleaved: [true] lets the first one make its
    next call.  When the order is used up, or one of them is gone, what is left
    runs without interruption. *)
Fixpoint runOverlap `{Environment W} {A B} (order : list bool) (p : Prog A) (planp : list (Outcome W))
    (q : Prog B) (planq : list (Outcome W)) (w : W) : W :=
  match order with
  | [] => (runFaulty q planq (runFaulty p planp w).2).2
  | true :: order =>
      match p with
      | Ret _ => runOverlap order p planp q planq w
      | Do o k =>
          match callUnder (hd Answered planp) o w with
          | Some (resp, w') => runOverlap order (k resp) (tail planp) q planq w'
          | None => (runFaulty q planq w).2
          end
      end
  | false :: order =>
      match q with
      | Ret _ => runOverlap order p planp q planq w
      | Do o k =>
          match callUnder (hd Answered planq) o w with
          | Some (resp, w') => runOverlap order p planp (k resp) (tail planq) w'
          | None => (runFaulty p planp w).2
          end
      end
  end.

(** Objects are as before, up to the status of Deployments. *)
Definition onlyWorkloads `{ApiServer W} (report : W → W) : Prop :=
  ∀ w, (∀ k key, k ≠ KDeployment → stored k (report w) key = stored k w key)
  ∧ ∀ key, option_Forall2 (λ d d' : Deployment, d_Meta d' = d_Meta d ∧ d_Spec d' = d_Spec d)
             (stored KDeployment w key) (stored KDeployment (report w) key).

Section Run.
Context `{K8sLib} {W : Type} `{Environment W}.
Context (rc : TrussiumRuntimeReconciler) (clk : nat → Time).

Definition runStep (w : W) (s : Step W) : W :=
  match s with
  | Attempt key plan => (runFaulty (Reconcile rc clk key) plan w).2
  | Overlap order key1 plan1 key2 plan2 =>
      runOverlap order (Reconcile rc clk key1) plan1 (Reconcile rc clk key2) plan2 w
  | Workloads report => report w
  end.

Definition runSchedule (steps : list (Step W)) (w : W) : W := foldl runStep w steps.

(** The queue of one key: attempts are repeated while they return an error or
    the process dies; when the plans are used up, the calls are answered.  The
    first component counts the attempts. *)
Fixpoint retry (plans : list (list (Outcome W))) (key : NamespacedName) (w : W) : nat * W :=
  match plans with
  | [] => (1, (run (Reconcile rc clk key) w).2)
  | plan :: plans =>
      match runFaulty (Reconcile rc clk key) plan w with
      | (Some None, w') => (1, w')
      | (_, w') => let '(n, w'') := retry plans key w' in (S n, w'')
      end
  end.

End Run.

(** Steps whose reports are those of workloads. *)
Definition validStep `{ApiServer W} (s : Step W) : Prop :=
  match s with Workloads report => onlyWorkloads report | _ => True end.

(** Steps that are no attempt on [key]. *)
Definition notOn {W} (key : NamespacedName) (s : Step W) : Prop :=
  match s with
  | Attempt key' _ => key' ≠ key
  | Overlap _ key1 _ key2 _ => key1 ≠ key ∧ key2 ≠ key
  | Workloads _ => True
  end.

(** ** What survives every step *)

(** The cluster can run [r], up to the status of the stored runtime. *)
Definition alive `{K8sLib} `{ApiServer W} (r : TrussiumRuntime) (w : W) : Prop :=
  ∃ r', runnable r' w ∧ sameButStatus r r'.

Lemma sameButStatus_essence r r' : sameButStatus r r' → essence r' = essence r.
Proof.
  intros (Hk & Hu & _ & _ & Hs). unfold essence. unfold rt_key, meta_key in Hk.
  injection Hk as Hns Hn. unfold rt_Name, rt_Namespace. by rewrite Hns, Hn, Hu, Hs.
Qed.

(** The desired state of the objects does not depend on the status. *)
Lemma asDesired_same `{K8sLib} r r' k o :
  essence r' = essence r → asDesired r' k o → asDesired r k o.
Proof.
  intros He. assert (asDesired r' k = asDesired r k) as ->; [|done].
  apply (essence_eq (λ r, asDesired r k)); [|done]. intros q. by destruct k.
Qed.

Section Survive.
Context `{K8sLaws} {W : Type} `{!ApiServer W} `{!ApiServerLaws W} `{!ApiServerStatus W}.

Lemma unclaimed_free r (w : W) : unclaimed r w ↔ freeOf (rt_key r) w.
Proof. done. Qed.

(** What every call of two programs preserves, their interleaving preserves. *)
Lemma overlap_invariant {A B} (P : W → Prop) key1 key2 order (p : Prog A) planp (q : Prog B) planq (w : W) :
  (∀ key w w', key = key1 ∨ key = key2 → confined key w w' → P w → P w') →
  stays key1 p → stays key2 q → P w → P (runOverlap order p planp q planq w).
Proof.
  intros HP. revert p planp q planq w. induction order as [|[] order IH];
    intros p planp q planq w Hp Hq Hw; cbn [runOverlap].
  - eapply (HP key2); [by right|by apply confined_run|].
    eapply (HP key1); [by left|by apply confined_run|done].
  - destruct p as [a|o k]; [by apply IH|]. destruct Hp as [Hin Hk].
    destruct (callUnder (hd Answered planp) o w) as [[resp w']|] eqn:Hc.
    + destruct (confined_call key1 _ o w w' resp Hin Hc) as [Hcon Hwk].
      apply IH; [by apply Hk|done|]. by eapply (HP key1); [left|exact Hcon|].
    + eapply (HP key2); [by right|by apply confined_run|done].
  - destruct q as [b|o k]; [by apply IH|]. destruct Hq as [Hin Hk].
    destruct (callUnder (hd Answered planq) o w) as [[resp w']|] eqn:Hc.
    + destruct (confined_call key2 _ o w w' resp Hin Hc) as [Hcon Hwk].
      apply IH; [done|by apply Hk|]. by eapply (HP key2); [right|exact Hcon|].
    + eapply (HP key1); [by left|by apply confined_run|done].
Qed.

(** A reconciliation of any key leaves the runtime alive. *)
Lemma alive_confined r key (w w' : W) : confined key w w' → alive r w → alive r w'.
Proof.
  intros Hc (r1 & ((Hst & Hdel & Hsec & Hun) & Ha) & Hs).
  assert (Hsecs : ∀ name, stored KSecret w' (mkKey (rt_Namespace r1) name)
                          = stored KSecret w (mkKey (rt_Namespace r1) name)).
  { intros name. apply (confined_elsewhere _ _ _ Hc). left. by apply (bool_decide_unpack _). }
  destruct (decide (key = rt_key r1)) as [->|Hne].
  - pose proof (confined_runtime _ _ _ Hc) as Hr. rewrite Hst in Hr.
    inversion Hr as [x r2 Hs2 Hx Hst2|]; subst. symmetry in Hst2.
    exists r2. split; [|by etransitivity].
    eapply (runnable_again r1 (rt_Status r2) r2 w w'); [done| |by apply confined_objects|done|done|].
    + apply unclaimed_free, (confined_free _ _ _ Hc). by apply unclaimed_free.
    + destruct Hs2 as (H1 & H2 & H3 & H4 & H5). by split_and!.
  - exists r1. split; [|done].
    assert (Hown : ∀ k, stored k w' (rt_key r1) = stored k w (rt_key r1))
      by (intros k; apply (confined_elsewhere _ _ _ Hc); auto).
    split; [|apply (admissible_from r1 r1 w w'); [done| |done]].
    + split; [by rewrite Hown|]. split; [done|]. split; [intros n Hn; rewrite Hsecs; by apply Hsec|].
      intros k o ref Hk Ho. rewrite Hown in Ho. by apply Hun.
    + intros k o _ Ho. right. exists o. by rewrite <-Hown.
Qed.

(** Reports on workloads are reports on the objects of a runtime. *)
Lemma workloads_objects report key (w : W) :
  onlyWorkloads report → objectsFrom key w (report w).
Proof.
  intros Hw k o Hk Ho. right. destruct (Hw w) as [Hother Hdep].
  destruct (decide (k = KDeployment)) as [->|Hne].
  - pose proof (Hdep key) as Hd. rewrite Ho in Hd. inversion Hd as [d d' Hr Hd1 Hd2|]; subst.
    by exists d.
  - rewrite Hother in Ho by done. by exists o.
Qed.

Lemma alive_workloads r report (w : W) : onlyWorkloads report → alive r w → alive r (report w).
Proof.
  intros Hw (r1 & ((Hst & Hdel & Hsec & Hun) & Ha) & Hs). destruct (Hw w) as [Hother Hdep].
  exists r1. split; [|done].
  split; [|by apply (admissible_from r1 r1 w (report w)); [|apply workloads_objects|]].
  split; [by rewrite Hother|]. split; [done|].
  split; [intros n Hn; rewrite Hother by done; by apply Hsec|].
  intros k o ref Hk Ho. destruct (decide (k = KDeployment)) as [->|Hne].
  - pose proof (Hdep (rt_key r1)) as Hd. rewrite Ho in Hd.
    inversion Hd as [d d' [Hm _] Hd1 Hd2|]; subst. simpl. rewrite Hm.
    apply (Hun KDeployment d); [done|]. by symmetry.
  - rewrite Hother in Ho by done. by apply Hun.
Qed.

Lemma alive_step rc clk r (w : W) s : validStep s → alive r w → alive r (runStep rc clk w s).
Proof.
  destruct s as [key plan|order key1 plan1 key2 plan2|report]; intros Hv.
  - apply (alive_confined r key). apply confined_run, stays_reconcile.
  - apply (overlap_invariant (alive r) key1 key2); try apply stays_reconcile.
    intros key w1 w2 _. apply alive_confined.
  - by apply alive_workloads.
Qed.

Lemma alive_schedule rc clk r steps (w : W) :
  Forall validStep steps → alive r w → alive r (runSchedule rc clk steps w).
Proof.
  intros Hv. revert w. induction Hv as [|s steps Hs Hv IH]; intros w Ha; simpl; [done|].
  by apply IH, alive_step.
Qed.

(** ** What is settled stays settled *)

(** All objects of the runtime are as its specification asks. *)
Definition settled (r : TrussiumRuntime) (w : W) : Prop :=
  ∀ k, k ∈ managedKinds → asDesired r k (stored k w (rt_key r)).

Lemma settled_confined r key (w w' : W) :
  key ≠ rt_key r → confined key w w' → settled r w → settled r w'.
Proof.
  intros Hne Hc Hs k Hk. rewrite (confined_elsewhere _ _ _ Hc k (rt_key r)) by (right; by apply not_eq_sym).
  by apply Hs.
Qed.

Lemma settled_step rc clk r (w : W) s :
  validStep s → notOn (rt_key r) s → settled r w → settled r (runStep rc clk w s).
Proof.
  destruct s as [key plan|order key1 plan1 key2 plan2|report]; intros Hv Hn Hs; cbn [runStep].
  - eapply (settled_confined r key w); [done|by apply confined_run, stays_reconcile|done].
  - destruct Hn as [Hn1 Hn2]. apply (overlap_invariant (settled r) key1 key2); try apply stays_reconcile.
    + intros key w1 w2 [->| ->]; by apply settled_confined.
    + done.
  - intros k Hk. destruct (Hv w) as [Hother Hdep]. destruct (decide (k = KDeployment)) as [->|Hne].
    + destruct (Hs KDeployment Hk) as (d & n & Hd & Ho & Hrep & Hkept).
      pose proof (Hdep (rt_key r)) as Hd2. rewrite Hd in Hd2.
      inversion Hd2 as [d1 d' [Hm Hsp] Hd1 Hd3|]; subst.
      exists d', n. unfold ownedBy. rewrite Hm, Hsp. done.
    + rewrite Hother by done. by apply Hs.
Qed.

Lemma settled_schedule rc clk r steps (w : W) :
  Forall validStep steps → Forall (notOn (rt_key r)) steps →
  settled r w → settled r (runSchedule rc clk steps w).
Proof.
  intros Hv. revert w. induction Hv as [|s steps Hs Hv IH]; intros w Hn Hset; simpl; [done|].
  apply Forall_cons in Hn as [Hn1 Hn2]. by apply IH, settled_step.
Qed.

(** An attempt whose calls are answered settles the runtime. *)
Lemma answered_settles rc clk r plan (w : W) :
  Forall answered plan → alive r w →
  ∃ w', runFaulty (Reconcile rc clk (rt_key r)) plan w = (Some None, w') ∧ settled r w'.
Proof.
  intros Hp (r1 & Hrun & Hs). pose proof (sameButStatus_essence _ _ Hs) as He.
  destruct (run_reconcile rc clk r1 w Hrun) as (w' & Hr & Hd & _).
  destruct Hs as [Hk _]. rewrite Hk in Hr, Hd. exists w'. rewrite run_answered, Hr by done.
  split; [done|]. intros k Hin. apply (asDesired_same r r1); [done|]. by apply Hd.
Qed.

End Survive.

(** C2. Convergence under faults: take a runtime that can run, which means that
    it is stored and not being deleted, its Secrets exist, nobody else controls
    its objects, and the server accepts its writes.  Take any sequence of
    reconciliations of any runtimes, in which calls fail before or after they
    take effect, reads are stale, the process crashes and two instances of the
    manager overlap, also on the same runtime, with reports of other controllers
    on the status of Deployments in between.  If the calls of the last attempt
    on the runtime are answered, it ends with all its objects as its
    specification asks, and it can still run, with the same identity, generation
    and specification.  What happened before, and what happens to other
    runtimes, makes no difference. *)
Theorem schedule_converges `{K8sLaws} {W : Type} `{!ApiServer W} `{!ApiServerLaws W}
    `{!ApiServerStatus W} rc clk (r : TrussiumRuntime) (w : W) before plan after :
  runnable r w →
  Forall validStep (before ++ after) →
  Forall answered plan → Forall (notOn (rt_key r)) after →
  let w' := runSchedule rc clk (before ++ Attempt (rt_key r) plan :: after) w in
  (∀ k, k ∈ managedKinds → asDesired r k (stored k w' (rt_key r)))
  ∧ ∃ r', stored KTrussiumRuntime w' (rt_key r) = Some r' ∧ sameButStatus r r' ∧ runnable r' w'.
Proof.
  intros Hrun [Hv1 Hv2]%Forall_app Hplan Hafter w'.
  assert (Ha : alive r (runSchedule rc clk before w)) by (apply alive_schedule; [done|by exists r]).
  destruct (answered_settles rc clk r plan _ Hplan Ha) as (w1 & Hr1 & Hset).
  assert (Hw' : w' = runSchedule rc clk after w1).
  { unfold w', runSchedule. rewrite foldl_app. cbn [foldl runStep].
    fold (runSchedule rc clk before w). by rewrite Hr1. }
  rewrite Hw'. split.
  - by apply settled_schedule.
  - destruct (alive_schedule rc clk r after w1) as (r' & Hr' & Hs); [done| |].
    + assert (w1 = runStep rc clk (runSchedule rc clk before w) (Attempt (rt_key r) plan)) as ->
        by (cbn [runStep]; by rewrite Hr1).
      by apply alive_step.
    + exists r'. pose proof Hs as [Hk _]. rewrite <-Hk. split; [by destruct Hr' as [[? _] _]|done].
Qed.

(** Two runtimes share the server; the process dies in the middle of one, a
    write of the other fails, a third attempt reads an empty cache, and two
    instances overlap. *)
Definition busySchedule : list (Step RefServer.Server) :=
  let timeout := ErrApi (mkApiError "Timeout" "timeout") in
  [ Attempt (rt_key sampleRuntime) [Answered; Answered; Answered; Answered; Answered; Crashed];
    Attempt (rt_key otherRuntime) [Answered; Answered; Answered; Answered; Unacknowledged timeout];
    Attempt (rt_key sampleRuntime) [Answered; Stale RefServer.empty];
    Overlap [true; false; true; true; false; true; false] (rt_key sampleRuntime) []
      (rt_key sampleRuntime) [Answered; Answered; Crashed];
    Workloads id ].

Lemma onlyWorkloads_id `{ApiServer W} : onlyWorkloads (W := W) id.
Proof.
  intros w. split; [done|]. intros key. simpl. destruct (stored KDeployment w key); by constructor.
Qed.

Lemma schedule_converges_witness :
  let w := RefServer.put KTrussiumRuntime otherRuntime sampleServer in
  let w' := @runSchedule RefKube.lib _ RefServer.environment (mkReconciler true) sampleClock
    (busySchedule ++ Attempt (rt_key sampleRuntime) []
       :: [Attempt (rt_key otherRuntime) [Crashed]]) w in
  Forall (λ k, @asDesired RefKube.lib sampleRuntime k (RefServer.lookup k w' (rt_key sampleRuntime)))
    managedKinds.
Proof.
  intros w w'. apply Forall_forall.
  apply (@schedule_converges RefKube.lib RefKube.laws _ RefServer.server RefServer.laws
    refserver_status (mkReconciler true) sampleClock sampleRuntime w busySchedule []
    [Attempt (rt_key otherRuntime) [Crashed]]).
  - destruct sampleServer_runnable as [(H1 & H2 & H3 & H4) Ha].
    assert (Hf : ∀ k key, (k, key) ≠ (KTrussiumRuntime, rt_key otherRuntime) →
      @stored _ RefServer.server k w key = @stored _ RefServer.server k sampleServer key)
      by apply (RefServer.put_frame KTrussiumRuntime otherRuntime).
    assert (Hm : ∀ k key, k ∈ managedKinds →
      @stored _ RefServer.server k w key = @stored _ RefServer.server k sampleServer key).
    { intros k key Hk. apply Hf. intros Heq. injection Heq as ->. revert Hk.
      by apply (bool_decide_unpack _). }
    split.
    + split; [by rewrite Hf by (apply (bool_decide_unpack _); vm_compute; reflexivity)|].
      split; [exact H2|]. split; [intros name Hn; rewrite Hf by done; by apply H3|].
      intros k o ref Hk Ho. rewrite Hm in Ho by done. by apply (H4 k o ref).
    + apply (@admissible_from RefKube.lib RefKube.laws _ RefServer.server sampleRuntime sampleRuntime
        sampleServer w); [done| |exact Ha].
      intros k o Hk Ho. rewrite Hm in Ho by done. right. by exists o.
  - repeat (constructor; [first [exact I|exact onlyWorkloads_id]|]). constructor.
  - constructor.
  - repeat constructor. by apply (bool_decide_unpack _).
Defined.

(** ** Retries *)

(** A fault that is not mistaken for a missing object. *)
Definition honest `{K8sLib} {W} (f : Outcome W) : Prop :=
  match f with
  | Answered | Crashed => True
  | Lost e | Unacknowledged e => IsNotFound e = false
  | Stale _ => False
  end.

Section Retries.
Context `{K8sLaws} {W : Type} `{!ApiServer W} `{!ApiServerLaws W} `{!ApiServerStatus W}.

(** A failed call is a failure of the trace. *)
Lemma failWith_failure o e err :
  failWith o e = Some err → IsNotFound e = false → failureOf (mkCall o err) = Some e.
Proof. intros Hf Hn. destruct o; simplify_eq/=; by rewrite ?Hn. Qed.

(** A program none of whose calls failed ran as without faults. *)
Lemma faulty_exec {A} (p : Prog A) plan (w w' : W) a :
  Forall honest plan → runFaulty p plan w = (Some a, w') →
  ∃ tr, exec p tr a ∧ (failures tr = [] → run p w = (a, w')).
Proof.
  revert plan w. induction p as [x|o k IH]; intros plan w Hp Hr; cbn [runFaulty run exec] in *.
  { injection Hr as -> ->. by exists []. }
  destruct (callUnder (hd Answered plan) o w) as [[resp w1]|] eqn:Hc; [|done].
  destruct (IH resp (tail plan) w1) as (tr & He & Hrun); [by destruct Hp|done|].
  exists (mkCall o resp :: tr). split; [by exists resp, tr|]. intros Hf.
  assert (Hh : failureOf (mkCall o resp) = None ∧ failures tr = []).
  { change (omap failureOf ([mkCall o resp] ++ tr) = []) in Hf. rewrite omap_app in Hf.
    apply app_nil in Hf as [Hf1 Hf2]. split; [|done]. cbn in Hf1. by case_match. }
  destruct Hh as [Hh Hft]. rewrite <-(Hrun Hft).
  assert (Hhon : honest (hd Answered plan)) by by destruct Hp.
  destruct (hd Answered plan) as [|e|e|past|]; try done; simpl in Hc, Hhon.
  - by injection Hc as ->.
  - destruct (failWith o e) as [err|] eqn:He2; [|by injection Hc as ->].
    injection Hc as <- <-. by rewrite (failWith_failure o e err He2 Hhon) in Hh.
  - destruct (handle o w) as [resp0 w0]. destruct (failWith o e) as [err|] eqn:He2;
      injection Hc as <- <-; [|done].
    change (failureOf (mkCall o err) = None) in Hh.
    by rewrite (failWith_failure o e err He2 Hhon) in Hh.
Qed.

(** A reconciliation that returns nil ran as without faults. *)
Lemma nil_is_genuine rc clk key plan (w w' : W) :
  Forall honest plan → runFaulty (Reconcile rc clk key) plan w = (Some None, w') →
  run (Reconcile rc clk key) w = (None, w').
Proof.
  intros Hp Hr. destruct (faulty_exec _ _ _ _ _ Hp Hr) as (tr & He & Hrun). apply Hrun.
  apply leaves_nil. by rewrite <-(reconcile_accounts _ _ _ _ _ He).
Qed.

Lemma run_settles rc clk r (w : W) :
  alive r w → ∃ w', run (Reconcile rc clk (rt_key r)) w = (None, w') ∧ settled r w'.
Proof.
  intros Ha. destruct (answered_settles rc clk r [] w) as (w' & Hr & Hs); [constructor|done|].
  rewrite run_answered in Hr by constructor. exists w'. split; [|done].
  destruct (run (Reconcile rc clk (rt_key r)) w). by injection Hr as -> ->.
Qed.

Lemma retry_settles rc clk r plans (w : W) :
  alive r w → Forall (Forall honest) plans →
  settled r (retry rc clk plans (rt_key r) w).2
  ∧ (retry rc clk plans (rt_key r) w).1 ≤ S (length plans).
Proof.
  intros Ha Hp. revert w Ha. induction Hp as [|plan plans Hplan Hp IH]; intros w Ha; cbn [retry].
  - destruct (run_settles rc clk r w Ha) as (w' & Hr & Hs). by rewrite Hr.
  - pose proof (alive_step rc clk r w (Attempt (rt_key r) plan) I Ha) as Ha'. cbn [runStep] in Ha'.
    destruct (runFaulty (Reconcile rc clk (rt_key r)) plan w) as [res w'] eqn:Hr.
    destruct (IH w' Ha') as [Hs Hn].
    destruct res as [[e|]|]; [| |];
      try (destruct (retry rc clk plans (rt_key r) w') as [n w'']; simpl in *; split; [done|lia]).
    apply nil_is_genuine in Hr; [|done]. destruct (run_settles rc clk r w Ha) as (w1 & Hr1 & Hs1).
    rewrite Hr in Hr1. injection Hr1 as ->. simpl. split; [done|lia].
Qed.

End Retries.

(** C3. Retries converge: take a runtime that can run, as in the claim on
    schedules (stored and not being deleted, its Secrets exist, nobody else
    controls its objects, the server accepts its writes), and let the queue retry
    its key as long as reconciliations return an error or the process dies.
    Calls may fail before or after they took effect, but no failure reads as a
    missing object and no read is stale.  Then the first reconciliation that
    returns nil leaves every object as the specification asks; and once calls
    are answered the next attempt is such a one. *)
Theorem retries_converge `{K8sLaws} {W : Type} `{!ApiServer W} `{!ApiServerLaws W}
    `{!ApiServerStatus W} rc clk (r : TrussiumRuntime) (w : W) plans :
  runnable r w → Forall (Forall honest) plans →
  let out := retry rc clk plans (rt_key r) w in
  out.1 ≤ S (length plans) ∧ ∀ k, k ∈ managedKinds → asDesired r k (stored k out.2 (rt_key r)).
Proof. intros Hrun Hp. destruct (retry_settles rc clk r plans w) as [Hs Hn]; [by exists r|done..]. Qed.

Lemma retries_converge_witness :
  let timeout := ErrApi (mkApiError "Timeout" "timeout") in
  let plans := [[Answered; Lost timeout]; [Answered; Answered; Answered; Answered; Unacknowledged timeout]] in
  let out := @retry RefKube.lib _ RefServer.environment (mkReconciler true) sampleClock plans
               (rt_key sampleRuntime) sampleServer in
  out.1 = 3 ∧ ∀ k, k ∈ managedKinds →
    @asDesired RefKube.lib sampleRuntime k (RefServer.lookup k out.2 (rt_key sampleRuntime)).
Proof.
  intros timeout plans out. split; [vm_compute; reflexivity|].
  apply (@retries_converge RefKube.lib RefKube.laws _ RefServer.server RefServer.laws
    refserver_status (mkReconciler true) sampleClock sampleRuntime sampleServer plans
    sampleServer_runnable).
  repeat constructor.
Defined.
