(* ===== verification/ControlLoop.v ===== *)
(** * The control loop

    The manager runs [Reconcile] for the keys of its work queue, reads the
    cluster through a cache that lags behind it, and puts keys into the queue
    for the watch events by which the cache catches up.  This file models that
    loop: the cluster, the cache, the versions of every object the cache has not
    seen yet, and the queue; its steps are a reconciliation, the delivery of an
    event, a change by somebody else and a restart.  Then it shows what a
    reconciliation through the cache has achieved when it returns nil. *)

From S2P Require Import Prelude GoStd KubeTypes ApiTypes KubeLib Resources Effects Status.
From S2P Require Import Events Reconciler Manager StatusProps UpgradeProps ConvergenceProps EventProps.
From S2P Require Import ReconcileProps ManagedProps Cluster RefKube Samples RefServer ClusterProps.
From S2P Require Import Quiescence Watches Faults Schedules.

(** ** Calls through a cache *)

(** What the cache holds, by kind and key. *)
Definition Store : Type := ∀ k : Kind, NamespacedName → option (obj k).

Section Calls.
Context `{K8sLib} {W : Type} `{!ApiServer W}.

(** The answers and effects a call can have.  Reads return what the cache holds.
    [CreateOrUpdate] compares with the cached object: where the mutate function
    changes nothing it sends nothing; what it sends is carried out on the
    cluster or refused.  The other calls go to the cluster.  A call of the
    client can also fail, before or after it takes effect, with an error that
    does not say that an object is missing. *)
Definition cachedCall (c : Store) (o : Op) : W → Resp o → W → Prop :=
  match o with
  | OpGet k key => λ w resp w',
      w' = w ∧ match resp with
               | Ok x => c k key = Some x
               | Err e => IsNotFound e = true → c k key = None
               end
  | OpListRuntimes ns => λ w resp w',
      w' = w ∧ ∃ rs, resp = Ok rs
        ∧ ∀ r, r ∈ rs ↔ rt_Namespace r = ns ∧ c KTrussiumRuntime (rt_key r) = Some r
  | OpCreateOrUpdate k current mutate => λ w resp w',
      match resp with
      | None =>
          handle (OpCreateOrUpdate k current mutate) w = (None, w')
          ∨ w' = w ∧ ∃ x, c k (obj_key k current) = Some x ∧ mutate x = Ok x
      | Some _ => w' = w ∨ w' = (handle (OpCreateOrUpdate k current mutate) w).2
      end
  | OpDelete k key => λ w resp w',
      handle (OpDelete k key) w = (resp, w')
      ∨ (∃ e, resp = Some e ∧ IsNotFound e = false)
        ∧ (w' = w ∨ w' = (handle (OpDelete k key) w).2)
  | OpStatusUpdate r => λ w resp w',
      handle (OpStatusUpdate r) w = (resp, w')
      ∨ (∃ e, resp = Err e) ∧ (w' = w ∨ w' = (handle (OpStatusUpdate r) w).2)
  | o => λ w resp w', handle o w = (resp, w')
  end.

(** A program, call by call; the result is [None] when the process dies. *)
Fixpoint cachedRun {A} (c : Store) (p : Prog A) (w : W) (res : option A) (w' : W) : Prop :=
  match p with
  | Ret a => res = Some a ∧ w' = w
  | Do o k =>
      (res = None ∧ w' = w)
      ∨ ∃ resp w1, cachedCall c o w resp w1 ∧ cachedRun c (k resp) w1 res w'
  end.

Lemma cachedRun_bind {A B} c (p : Prog A) (f : A → Prog B) w b w' :
  cachedRun c (p ≫= f) w (Some b) w' →
  ∃ a w1, cachedRun c p w (Some a) w1 ∧ cachedRun c (f a) w1 (Some b) w'.
Proof.
  revert w. induction p as [a|o k IH]; intros w Hr; simpl in *; [by exists a, w|].
  destruct Hr as [[? _]|(resp & w1 & Hc & Hr)]; [done|].
  destruct (IH resp w1 Hr) as (a & w2 & H1 & H2). exists a, w2. split; [|done].
  right. by exists resp, w1.
Qed.

Lemma cachedRun_perform c o (w w' : W) resp :
  cachedRun c (perform o) w (Some resp) w' → cachedCall c o w resp w'.
Proof. intros [[? _]|(r & w1 & Hc & [Hr ->])]; [done|]. by injection Hr as ->. Qed.

End Calls.

(** ** The loop *)

Section Loop.
Context `{K8sLib} `{WatchLib} {W : Type} `{!ApiServer W}.

Record Loop := mkLoop {
  lp_Cluster : W;
  lp_Cache : Store;
  (** The versions of an object that the cache has still to see, oldest first. *)
  lp_Pending : ∀ k : Kind, NamespacedName → list (option (obj k));
  lp_Queue : list NamespacedName
}.

Definition versions (s : Loop) (k : Kind) (key : NamespacedName) : list (option (obj k)) :=
  lp_Cache s k key :: lp_Pending s k key.

(** Every changed object gets a new version. *)
Definition extended (w w' : W) (p p' : ∀ k : Kind, NamespacedName → list (option (obj k))) : Prop :=
  ∀ k key, (stored k w' key = stored k w key ∧ p' k key = p k key)
           ∨ p' k key = p k key ++ [stored k w' key].

(** An event of this object enqueues [key]. *)
Definition leadsTo (key : NamespacedName) {k} (o : obj k) : Prop :=
  ∃ ref, GetControllerOf (om_OwnerReferences (obj_meta k o)) = Some ref ∧ runtimeReference ref
    ∧ key = mkKey (om_Namespace (obj_meta k o)) (or_Name ref).

(** What others may do.  The server gives a runtime a new generation when its
    specification changes or it is deleted, and a new identity when it is
    created again; and nobody puts an object where a runtime wants none, unless
    the runtime controls it: that the operator would not notice. *)
Record othersChange (s : Loop) (w' : W) : Prop := {
  change_generation : ∀ key r r', stored KTrussiumRuntime (lp_Cluster s) key = Some r →
    stored KTrussiumRuntime w' key = Some r' → rt_Generation r = rt_Generation r' →
    sameButStatus r r';
  change_new : ∀ key r', stored KTrussiumRuntime w' key = Some r' →
    (∃ r, stored KTrussiumRuntime (lp_Cluster s) key = Some r ∧ sameButStatus r r')
    ∨ ∀ v, Some v ∈ versions s KTrussiumRuntime key → ¬ sameButStatus v r';
  change_unwanted : ∀ r k o, k ∈ managedKinds →
    stored KTrussiumRuntime (lp_Cluster s) (rt_key r) = Some r → asDesired r k None →
    stored k (lp_Cluster s) (rt_key r) = None → stored k w' (rt_key r) = Some o →
    leadsTo (rt_key r) o
}.

(** The requests of one event. *)
Definition eventRequests (c : Store) (w : W) {k} (old new : option (obj k))
    (reqs : list NamespacedName) : Prop :=
  match changeEvent old new with
  | Some e => ∃ w', cachedRun c (enqueued SetupWithManager e) w (Some reqs) w'
  | None => reqs = []
  end.

Context (rc : TrussiumRuntimeReconciler) (clk : nat → Time).

Inductive loopStep : Loop → Loop → Prop :=
(** A key is reconciled and leaves the queue only if nil is returned. *)
| LoopReconcile w c p q key res w' p' q' :
    key ∈ q → cachedRun c (Reconcile rc clk key) w res w' → extended w w' p p' →
    (∀ x, x ∈ q → x ≠ key ∨ res ≠ Some None → x ∈ q') →
    loopStep (mkLoop w c p q) (mkLoop w' c p' q')
(** The cache sees the next version of an object, and its event is handled. *)
| LoopDeliver w c p q k key v rest c' p' reqs q' :
    p k key = v :: rest → c' k key = v → p' k key = rest →
    (∀ k' key', (k', key') ≠ (k, key) → c' k' key' = c k' key' ∧ p' k' key' = p k' key') →
    eventRequests c' w (c k key) v reqs →
    (∀ x, x ∈ q ∨ x ∈ reqs → x ∈ q') →
    loopStep (mkLoop w c p q) (mkLoop w c' p' q')
(** Somebody else changes the cluster. *)
| LoopChange w c p q w' p' :
    othersChange (mkLoop w c p q) w' → extended w w' p p' →
    loopStep (mkLoop w c p q) (mkLoop w' c p' q)
(** The manager starts: the cache is filled and every runtime enqueued. *)
| LoopStart w c p q c' q' :
    (∀ k key, c' k key = stored k w key) →
    (∀ r, stored KTrussiumRuntime w (rt_key r) = Some r → rt_key r ∈ q') →
    loopStep (mkLoop w c p q) (mkLoop w c' (λ _ _, []) q').

(** The manager has just started. *)
Definition started (s : Loop) : Prop :=
  (∀ k key, lp_Cache s k key = stored k (lp_Cluster s) key)
  ∧ (∀ k key, lp_Pending s k key = [])
  ∧ ∀ r, stored KTrussiumRuntime (lp_Cluster s) (rt_key r) = Some r → rt_key r ∈ lp_Queue s.

Definition reachable (s : Loop) : Prop := ∃ s0, started s0 ∧ rtc loopStep s0 s.

End Loop.

(** ** A reconciliation through the cache *)

Definition keyed (c : Store) : Prop := ∀ k key o, c k key = Some o → obj_key k o = key.

Section Cached.
Context `{K8sLaws} {W : Type} `{!ApiServer W} `{!ApiServerLaws W} `{!ApiServerStatus W}.

Lemma confined_same_or_handled key o (w w' : W) :
  within key o → w' = w ∨ w' = (handle o w).2 → confined key w w'.
Proof. intros Hw [->| ->]; [done|by apply confined_handle]. Qed.

Lemma cachedCall_confined c key o (w w' : W) resp :
  keyed c → within key o → cachedCall c o w resp w' → confined key w w' ∧ wellKeyed o resp.
Proof.
  intros Hc Hw Hcall.
  assert (Hh : handle o w = (resp, w') → confined key w w' ∧ wellKeyed o resp).
  { intros Hh. pose proof (confined_handle key o w Hw) as Hcon.
    pose proof (wellKeyed_handle o w) as Hk. by rewrite Hh in Hcon, Hk. }
  assert (Hm : wellKeyed o resp → w' = w ∨ w' = (handle o w).2 →
    confined key w w' ∧ wellKeyed o resp).
  { intros Hk Hor. split; [by eapply confined_same_or_handled|done]. }
  destruct o; simpl in Hcall; try (by apply Hh).
  - destruct Hcall as [-> Hr]. split; [done|]. destruct resp as [x|e]; simpl; [by apply Hc|done].
  - destruct resp as [e|]; [by apply Hm|]. destruct Hcall as [Hx|[-> _]]; [by apply Hh|done].
  - destruct Hcall as [Hx|[_ Hx]]; [by apply Hh|by apply Hm].
  - destruct Hcall as [Hx|[_ Hx]]; [by apply Hh|by apply Hm].
Qed.

Lemma cachedRun_confined {A} c key (p : Prog A) (w w' : W) res :
  keyed c → stays key p → cachedRun c p w res w' → confined key w w'.
Proof.
  intros Hc. revert w. induction p as [a|o k IH]; intros w Hs Hr; simpl in *.
  - by destruct Hr as [_ ->].
  - destruct Hs as [Hw Hk]. destruct Hr as [[_ ->]|(resp & w1 & Hcall & Hr)]; [done|].
    destruct (cachedCall_confined c key o w w1 resp Hc Hw Hcall) as [Hcon Hwk].
    etransitivity; [exact Hcon|]. apply (IH resp); [by apply Hk|done].
Qed.

(** Operations that touch no managed object. *)
Lemma cachedRun_unmanaged {A} c (P : Op → Prop) (p : Prog A) (w w' : W) res :
  (∀ o w w' resp, P o → cachedCall c o w resp w' →
     ∀ k key, k ∈ managedKinds → stored k w' key = stored k w key) →
  allOps P p → cachedRun c p w res w' →
  ∀ k key, k ∈ managedKinds → stored k w' key = stored k w key.
Proof.
  intros HP. revert w. induction p as [a|o k IH]; intros w Hs Hr kind key Hk; simpl in *.
  - by destruct Hr as [_ ->].
  - destruct Hs as [Ho Hs]. destruct Hr as [[_ ->]|(resp & w1 & Hcall & Hr)]; [done|].
    rewrite (IH resp w1 (Hs resp) Hr kind key Hk). by apply (HP o w w1 resp).
Qed.

Lemma status_unmanaged r (w : W) k key :
  k ∈ managedKinds → stored k (handle (OpStatusUpdate r) w).2 key = stored k w key.
Proof.
  intros Hk. destruct (status_atomic w r) as [[e ->]|(r0 & r' & w' & _ & -> & _ & _ & Hs)]; [done|].
  apply Hs. intros [= -> ->]. revert Hk. by apply (bool_decide_unpack _).
Qed.

Lemma reportOp_unmanaged c o (w w' : W) resp :
  reportOp o → cachedCall c o w resp w' →
  ∀ k key, k ∈ managedKinds → stored k w' key = stored k w key.
Proof.
  intros Ho Hc k key Hk. destruct o; try done; simpl in Hc.
  - by destruct Hc as [-> _].
  - assert (Hw : w' = w ∨ w' = (handle (OpStatusUpdate r) w).2)
      by (destruct Hc as [Hc|[_ Hc]]; [right; by rewrite Hc|done]).
    destruct Hw as [->| ->]; [done|by apply status_unmanaged].
  - destruct (event_recorded w e) as (w1 & Hh & Hs). rewrite Hh in Hc. by injection Hc as _ <-.
Qed.

(** The Secret check through the cache. *)
Lemma cached_validate c r names (w w' : W) v :
  cachedRun c (validateSecrets r names) w (Some v) w' →
  w' = w ∧ (v_Err v = None → v_Valid v = true
            ∨ ∃ name, name ∈ names ∧ c KSecret (mkKey (rt_Namespace r) name) = None).
Proof.
  induction names as [|name names IH]; simpl.
  - intros [Hv ->]. injection Hv as ->. split; [done|by left].
  - intros [[? _]|(resp & w1 & [-> Hresp] & Hr)]; [done|]. destruct resp as [s|e].
    + destruct (IH Hr) as [-> Hv]. split; [done|]. intros He.
      destruct (Hv He) as [?|(n & Hn & Hc)]; [by left|right]. exists n. by split; [right|].
    + destruct (IsNotFound e) eqn:Hnf; destruct Hr as [Hv ->]; injection Hv as ->; (split; [done|]);
        [|done]. intros _. right. exists name. split; [by left|by apply Hresp].
Qed.

(** After a step that returned nil its object is as desired, or it was as
    desired in the cache, and nothing was sent. *)
Definition reached (c : Store) (r : TrussiumRuntime) (k : Kind) (w w' : W) : Prop :=
  asDesired r k (stored k w' (rt_key r))
  ∨ ∃ o, c k (rt_key r) = Some o ∧ asDesired r k (Some o)
      ∧ stored k w' (rt_key r) = stored k w (rt_key r).

Lemma keeps_self k x : keeps k x x.
Proof. apply RefServer.keeps_refl. Qed.

Lemma cached_step c r k p (w w' : W) :
  keyed c → StepForm r k p → cachedRun c p w (Some None) w' →
  reached c r k w w' ∧ sameExcept k (rt_key r) w w'.
Proof.
  intros Hc [current mutate assemble Hw Has Hdes|Hk _ Hdes] Hr.
  - apply (cachedRun_perform c (OpCreateOrUpdate k current mutate)) in Hr. simpl in Hr.
    destruct Hr as [Hh|(-> & x & Hx & Hm)].
    + destruct (write_brings r k current mutate assemble w w' Hw Has Hdes Hh) as (H1 & H2 & _).
      split; [by left|done].
    + rewrite (proj1 (start_key r k current mutate w Hw)) in Hx.
      destruct (written_owned r k mutate assemble x x Has Hm) as (m & Heq & Hown & _).
      split; [|by intros k' key' _]. right. exists x. split; [done|]. split; [|done].
      apply (Hdes m x); [by rewrite Heq, (proj1 Has)|]. rewrite Heq at 2. rewrite <-Heq.
      apply keeps_self.
  - apply cachedRun_bind in Hr as (err & w1 & Hd & Hr). destruct Hr as [Hi ->].
    apply (cachedRun_perform c (OpDelete k (rt_key r))) in Hd. simpl in Hd.
    destruct Hd as [Hh|[(e & -> & Hnf) _]].
    2:{ injection Hi as Hi. by rewrite ignore_not_found, Hnf in Hi. }
    unfold reached. destruct (stored k w (rt_key r)) as [o|] eqn:Ho.
    + destruct (delete_found k w (rt_key r) o Ho) as (w2 & Hh2 & Hn & Hs). rewrite Hh in Hh2.
      injection Hh2 as -> ->. split; [left; by rewrite Hn|done].
    + destruct (delete_missing k w (rt_key r) Ho) as (e & Hh2 & _). rewrite Hh in Hh2.
      injection Hh2 as -> ->. split; [left; by rewrite Ho|by intros k' key' _].
Qed.

Lemma cached_steps c r steps (w w' : W) :
  keyed c → Forall (λ s, StepForm r (ms_Kind s) (ms_Step s r)) steps →
  NoDup (ms_Kind <$> steps) → cachedRun c (runManagedSteps steps r) w (Some None) w' →
  (∀ k, k ∈ ms_Kind <$> steps → reached c r k w w')
  ∧ ∀ k, k ∉ ms_Kind <$> steps → stored k w' (rt_key r) = stored k w (rt_key r).
Proof.
  intros Hc Hf. revert w. induction Hf as [|s steps Hs Hf IH]; intros w Hn Hr.
  { destruct Hr as [_ ->]. split; [|done]. intros k Hk. by apply not_elem_of_nil in Hk. }
  rewrite fmap_cons in Hn |- *. apply NoDup_cons in Hn as [Hni Hn].
  change (cachedRun c (err ← ms_Step s r; match err with
    | Some e => mret (Some (Errorf ("reconcile " +:+ ms_Name s +:+ " " +:+
                              slashed (rt_Namespace r) (rt_Name r) +:+ ": ") e))
    | None => runManagedSteps steps r end) w (Some None) w') in Hr.
  apply cachedRun_bind in Hr as (err & w1 & H1 & H2). destruct err as [e|].
  { destruct H2 as [H2 _]. done. }
  destruct (cached_step c r (ms_Kind s) _ w w1 Hc Hs H1) as [Hreach Hsame].
  destruct (IH w1 Hn H2) as [Hall Hrest]. split.
  - intros k [->|Hin]%elem_of_cons.
    + unfold reached in *. by rewrite (Hrest _ Hni).
    + specialize (Hall k Hin). unfold reached in *.
      rewrite (Hsame k (rt_key r)) in Hall; [done|]. intros [= ->]. done.
  - intros k Hk. rewrite not_elem_of_cons in Hk. destruct Hk as [Hne Hni'].
    rewrite (Hrest k Hni'). apply Hsame. by intros [= ->].
Qed.

(** The failure handler never returns nil. *)
Lemma cached_failure c rc clk r prev e (w w' : W) :
  ¬ cachedRun c (handleReconciliationFailure rc clk r prev e) w (Some None) w'.
Proof.
  intros Hr. apply cachedRun_bind in Hr as (loaded & w1 & _ & Hr). cbv zeta in Hr.
  apply cachedRun_bind in Hr as ([[b err] r'] & w2 & _ & Hr).
  apply cachedRun_bind in Hr as ([] & w3 & _ & Hr).
  apply cachedRun_bind in Hr as ([] & w4 & _ & [Hr _]). done.
Qed.

(** What a reconciliation that returned nil found and did. *)
Definition concluded (c : Store) (key : NamespacedName) (w w' : W) : Prop :=
  ∀ r, c KTrussiumRuntime key = Some r → IsZero (om_DeletionTimestamp (rt_Meta r)) = true →
  (∃ name, name ∈ referencedSecretNames r ∧ c KSecret (mkKey (rt_Namespace r) name) = None)
  ∨ ∀ k, k ∈ managedKinds → reached c r k w w'.

Lemma cached_body c rc clk key (w w' : W) :
  keyed c → cachedRun c (reconcileBody rc clk key) w (Some None) w' → concluded c key w w'.
Proof.
  intros Hc Hr. unfold reconcileBody in Hr. apply cachedRun_bind in Hr as (got & w1 & Hg & Hr).
  apply (cachedRun_perform c (OpGet KTrussiumRuntime key)) in Hg as [-> Hg].
  intros r Hcr Hdel. destruct got as [r'|e].
  2:{ destruct Hr as [Hr _]. injection Hr as Hr. rewrite ignore_not_found in Hr.
      destruct (IsNotFound e) eqn:Hnf; [|done]. by rewrite Hg in Hcr by done. }
  rewrite Hcr in Hg. injection Hg as ->. rewrite Hdel in Hr.
  cbn [negb] in Hr. cbv zeta in Hr.
  apply cachedRun_bind in Hr as (v & w2 & Hv & Hr).
  destruct (cached_validate c r' _ w w2 v Hv) as [-> Hval].
  destruct (v_Err v) as [e|]; [by apply cached_failure in Hr|].
  destruct (Hval eq_refl) as [Hvalid|Hmissing]; [|by left]. right. rewrite Hvalid in Hr.
  cbn [negb] in Hr. apply cachedRun_bind in Hr as (err & w3 & Hcore & Hr).
  destruct err as [e|]; [by apply cached_failure in Hr|].
  destruct (cached_steps c r' managedSteps w w3 Hc (managedSteps_form r') managedSteps_nodup Hcore)
    as [Hall _].
  intros k Hk. specialize (Hall k Hk). unfold reached in *.
  rewrite (cachedRun_unmanaged c reportOp _ w3 w' _ (reportOp_unmanaged c)
    (reportStatus_ops rc clk r' _ v) Hr k (rt_key r') Hk). exact Hall.
Qed.

Lemma cached_reconcile c rc clk key (w w' : W) :
  keyed c → cachedRun c (Reconcile rc clk key) w (Some None) w' → concluded c key w w'.
Proof.
  intros Hc Hr. unfold Reconcile in Hr. apply cachedRun_bind in Hr as (t1 & w1 & Ht1 & Hr).
  apply (cachedRun_perform c OpNow) in Ht1. destruct (clock_read w) as (t & w1' & Hh & Hs1).
  simpl in Ht1. rewrite Hh in Ht1. injection Ht1 as _ ->.
  apply cachedRun_bind in Hr as (err & w2 & Hb & Hr).
  apply cachedRun_bind in Hr as ([] & w3 & Hn & Hr).
  apply (cachedRun_perform c (OpCountReconciliation _)) in Hn.
  apply cachedRun_bind in Hr as (t2 & w4 & Ht2 & Hr). apply (cachedRun_perform c OpNow) in Ht2.
  apply cachedRun_bind in Hr as ([] & w5 & Ho & Hr).
  apply (cachedRun_perform c (OpObserveDuration _ _)) in Ho.
  destruct Hr as [Hr ->]. injection Hr as <-. simpl in Hn, Ht2, Ho.
  destruct (reconciliation_counted w2 MetricSuccess) as (w3' & Hh3 & Hs3). rewrite Hh3 in Hn.
  injection Hn as ->. destruct (clock_read w3) as (t3 & w4' & Hh4 & Hs4). rewrite Hh4 in Ht2.
  injection Ht2 as _ ->. destruct (duration_observed w4 MetricSuccess (t2 - t1)%Z) as (w5' & Hh5 & Hs5).
  rewrite Hh5 in Ho. injection Ho as ->.
  assert (Hsame : sameObjects w2 w5) by (intros k key'; by rewrite Hs5, Hs4, Hs3).
  intros r Hcr Hdel. destruct (cached_body c rc clk key w1 w2 Hc Hb r Hcr Hdel) as [?|Hall]; [by left|right].
  intros k Hk. specialize (Hall k Hk). unfold reached in *. by rewrite Hsame, <-(Hs1 k (rt_key r)).
Qed.

End Cached.
