(* ===== verification/LoopProps.v ===== *)
(** * Properties of the control loop

    The invariants of [ControlLoop], that every step keeps them, and the theorem
    that no wake-up is lost, with a loop at rest on the in-memory server. *)

From S2P Require Import Prelude GoStd KubeTypes ApiTypes KubeLib Resources Effects Status.
From S2P Require Import Events Reconciler Manager StatusProps UpgradeProps ConvergenceProps EventProps.
From S2P Require Import ReconcileProps ManagedProps Cluster RefKube Samples RefServer ClusterProps.
From S2P Require Import Quiescence Watches Faults Schedules ControlLoop.

(** ** Invariants of the loop *)

(** An alternative that does not depend on the element. *)
Lemma or_forall {A} (P : Prop) (Q : A → Prop) (l : list A) :
  (∀ x, x ∈ l → P ∨ Q x) → P ∨ ∀ x, x ∈ l → Q x.
Proof.
  induction l as [|a l IH]; intros Hl; [right; intros x Hx; by apply not_elem_of_nil in Hx|].
  destruct (Hl a) as [?|Ha]; [by left|by left|].
  destruct IH as [?|Hall]; [intros x Hx; apply Hl; by right|by left|].
  right. intros x [->|Hx]%elem_of_cons; [done|by apply Hall].
Qed.

Section Chains.
Context {A : Type} (R : A → A → Prop).

(** Neighbours are related. *)
Fixpoint chained (l : list A) : Prop :=
  match l with
  | a :: l => match l with b :: _ => R a b | [] => True end ∧ chained l
  | [] => True
  end.

Lemma chained_snoc l a x : chained l → last l = Some a → R a x → chained (l ++ [x]).
Proof.
  induction l as [|b l IH]; intros Hc Hl Hr; [done|]. destruct Hc as [Hb Hc].
  destruct l as [|b' l]; [by injection Hl as ->|]. split; [done|]. by apply IH.
Qed.

End Chains.

(** A runtime keeps its specification as long as its generation. *)
Definition sameGeneration (a b : option TrussiumRuntime) : Prop :=
  match a, b with
  | Some r, Some r' => rt_Generation r = rt_Generation r' → sameButStatus r r'
  | _, _ => True
  end.

Section Invariants.
Context `{K8sLaws} `{WatchLaws} {W : Type} `{!ApiServer W} `{!ApiServerLaws W} `{!ApiServerStatus W}.
Context (rc : TrussiumRuntimeReconciler) (clk : nat → Time).

(** The versions end with what is stored. *)
Record consistent (s : Loop (W := W)) : Prop := {
  versions_keyed : ∀ k key o, Some o ∈ versions s k key → obj_key k o = key;
  versions_last : ∀ k key, last (versions s k key) = Some (stored k (lp_Cluster s) key);
  versions_chained : ∀ key, chained sameGeneration (versions s KTrussiumRuntime key)
}.

(** An object is as desired, or an event that enqueues the runtime is still to
    come. *)
Definition tracked (s : Loop) (r : TrussiumRuntime) (k : Kind) : Prop :=
  asDesired r k (stored k (lp_Cluster s) (rt_key r))
  ∨ ∃ o, leadsTo (rt_key r) o
      ∧ (Some o ∈ lp_Pending s k (rt_key r)
         ∨ lp_Cache s k (rt_key r) = Some o ∧ lp_Pending s k (rt_key r) ≠ []).

Definition blocked (c : Store) (r : TrussiumRuntime) : Prop :=
  ∃ name, name ∈ referencedSecretNames r ∧ c KSecret (mkKey (rt_Namespace r) name) = None.

(** Every live runtime is in the queue, unless the cache has an older
    specification of it, a Secret it needs is missing in the cache, or all its
    objects are tracked. *)
Definition covered (s : Loop) : Prop :=
  ∀ r v, stored KTrussiumRuntime (lp_Cluster s) (rt_key r) = Some r →
  IsZero (om_DeletionTimestamp (rt_Meta r)) = true →
  lp_Cache s KTrussiumRuntime (rt_key r) = Some v → sameButStatus v r →
  rt_key r ∈ lp_Queue s ∨ blocked (lp_Cache s) r ∨ ∀ k, k ∈ managedKinds → tracked s r k.

Lemma consistent_cache s : consistent s → keyed (lp_Cache s).
Proof. intros Hs k key o Ho. apply (versions_keyed s Hs). rewrite <-Ho. by left. Qed.

(** The version the cache holds is the stored one when nothing is pending. *)
Lemma consistent_seen s k key :
  consistent s → lp_Pending s k key = [] → lp_Cache s k key = stored k (lp_Cluster s) key.
Proof.
  intros Hs Hp. pose proof (versions_last s Hs k key) as Hl. unfold versions in Hl.
  rewrite Hp in Hl. by injection Hl.
Qed.

(** New versions at the end. *)
Lemma consistent_extended w w' c p p' q q' :
  consistent (mkLoop w c p q) → extended w w' p p' →
  (∀ key, sameGeneration (stored KTrussiumRuntime w key) (stored KTrussiumRuntime w' key)) →
  consistent (mkLoop w' c p' q').
Proof.
  intros Hs Hext Hgen. split; intros *; unfold versions; cbn [lp_Cache lp_Pending lp_Cluster].
  - intros Ho. destruct (Hext k key) as [[_ Hp]|Hp]; rewrite Hp in Ho.
    + by apply (versions_keyed _ Hs).
    + rewrite app_comm_cons in Ho. apply elem_of_app in Ho as [Ho|Ho]; [by apply (versions_keyed _ Hs)|].
      apply list_elem_of_singleton in Ho. by apply (stored_key k w').
  - destruct (Hext k key) as [[Hst Hp]|Hp]; rewrite Hp.
    + rewrite Hst. apply (versions_last _ Hs).
    + by rewrite app_comm_cons, last_snoc.
  - destruct (Hext KTrussiumRuntime key) as [[Hst Hp]|Hp]; rewrite Hp.
    + apply (versions_chained _ Hs).
    + rewrite app_comm_cons.
      eapply chained_snoc; [exact (versions_chained _ Hs key)
        |exact (versions_last _ Hs KTrussiumRuntime key)|apply Hgen].
Qed.

Lemma started_consistent s : started s → consistent s.
Proof.
  intros (Hc & Hp & _). split; intros *; unfold versions; rewrite Hc, Hp.
  - intros Ho. apply list_elem_of_singleton in Ho. by apply (stored_key k (lp_Cluster s)).
  - done.
  - by simpl.
Qed.

Lemma started_covered s : started s → covered s.
Proof. intros (_ & _ & Hq) r v Hst _ _ _. left. by apply Hq. Qed.

(** A desired object leads to its runtime. *)
Lemma desired_leadsTo r k o :
  k ∈ managedKinds → obj_key k o = rt_key r → asDesired r k (Some o) → leadsTo (rt_key r) o.
Proof.
  intros Hk Hkey Hd. destruct (asDesired_owned r k o Hk Hd) as [_ Hc].
  exists (runtimeOwner r). split; [done|]. split; [apply runtimeOwner_reference|].
  change (or_Name (runtimeOwner r)) with (om_Name (rt_Meta r)).
  unfold obj_key, rt_key, meta_key in *. injection Hkey as Hns _. by rewrite Hns.
Qed.

(** Tracking survives new versions, but for objects that appear unwanted. *)
Lemma tracked_extended w w' c p p' q q' r k :
  consistent (mkLoop w c p q) → extended w w' p p' → k ∈ managedKinds →
  (∀ o, asDesired r k None → stored k w (rt_key r) = None → stored k w' (rt_key r) = Some o →
        leadsTo (rt_key r) o) →
  tracked (mkLoop w c p q) r k → tracked (mkLoop w' c p' q') r k.
Proof.
  intros Hs Hext Hk Hun Ht. unfold tracked in *. cbn [lp_Cluster lp_Cache lp_Pending] in *.
  destruct (Hext k (rt_key r)) as [[Hst Hp]|Hp]; rewrite Hp; [by rewrite Hst|].
  destruct Ht as [Hd|(o & Hl & Ho)].
  - destruct (stored k w (rt_key r)) as [o|] eqn:Ho.
    + right. exists o. split; [apply (desired_leadsTo r k); try done; by apply (stored_key k w)|].
      pose proof (versions_last _ Hs k (rt_key r)) as Hlast. unfold versions in Hlast.
      cbn [lp_Cluster lp_Cache lp_Pending] in Hlast. rewrite Ho in Hlast.
      destruct (p k (rt_key r)) as [|v l] eqn:Hpk.
      * right. injection Hlast as ->. done.
      * left. apply elem_of_app. left. rewrite last_cons_cons in Hlast. by apply last_Some_elem_of.
    + destruct (stored k w' (rt_key r)) as [o|] eqn:Ho'; [|by left].
      right. exists o. split; [by apply Hun|]. left. apply elem_of_app. right. by left.
  - right. exists o. split; [done|]. destruct Ho as [Ho|[Ho _]].
    + left. apply elem_of_app. by left.
    + right. split; [done|]. intros Hnil. by apply app_nil in Hnil as [_ ?].
Qed.

(** ** Every step keeps them *)

Lemma sameButStatus_sym r r' : sameButStatus r r' → sameButStatus r' r.
Proof. unfold sameButStatus. intuition congruence. Qed.

Lemma sameButStatus_refs r r' :
  sameButStatus r r' →
  rt_key r' = rt_key r ∧ rt_Namespace r' = rt_Namespace r
  ∧ referencedSecretNames r' = referencedSecretNames r.
Proof.
  intros (Hk & _ & _ & _ & Hs). split; [done|].
  split; [unfold rt_key, meta_key in Hk; by injection Hk|]. unfold referencedSecretNames. by rewrite Hs.
Qed.

Lemma blocked_same c r r' : sameButStatus r r' → blocked c r → blocked c r'.
Proof.
  intros (_ & Hns & Hrefs)%sameButStatus_refs (name & Hin & Hc).
  exists name. by rewrite Hrefs, Hns.
Qed.

Lemma tracked_same s r r' k : sameButStatus r r' → tracked s r k → tracked s r' k.
Proof.
  intros Hs Ht. pose proof Hs as [Hk _]. unfold tracked in *. rewrite Hk.
  destruct Ht as [Hd|Ht]; [left|by right].
  apply (asDesired_same r' r); [|done]. symmetry. by apply sameButStatus_essence.
Qed.

(** A reconciliation. *)
Lemma reconcile_keeps w c p q key res w' p' q' :
  consistent (mkLoop w c p q) → covered (mkLoop w c p q) →
  cachedRun c (Reconcile rc clk key) w res w' → extended w w' p p' →
  (∀ x, x ∈ q → x ≠ key ∨ res ≠ Some None → x ∈ q') → key ∈ q →
  consistent (mkLoop w' c p' q') ∧ covered (mkLoop w' c p' q').
Proof.
  intros Hs Hcov Hr Hext Hq Hkey. pose proof (consistent_cache _ Hs) as Hc. cbn [lp_Cache] in Hc.
  pose proof (cachedRun_confined c key _ w w' res Hc (stays_reconcile rc clk key) Hr) as Hcon.
  split.
  { apply (consistent_extended w w' c p p' q q' Hs Hext). intros key2.
    destruct (decide (key2 = key)) as [->|Hne].
    - destruct (confined_runtime _ _ _ Hcon); simpl; [by intros _|done].
    - rewrite (confined_elsewhere _ _ _ Hcon KTrussiumRuntime key2) by by right.
      by destruct (stored KTrussiumRuntime w key2). }
  intros r v Hst Hdel Hv Hvr. cbn [lp_Cluster lp_Cache lp_Pending lp_Queue] in *.
  destruct (decide (rt_key r = key)) as [Heq|Hne].
  2:{ rewrite (confined_elsewhere _ _ _ Hcon) in Hst by by right.
      destruct (Hcov r v Hst Hdel Hv Hvr) as [Hin|[Hb|Ht]]; [left; apply Hq; auto|by right; left|].
      right; right. intros k Hk. eapply tracked_extended; [exact Hs|done|done| |by apply Ht].
      intros o _ Hn Ho. rewrite (confined_elsewhere _ _ _ Hcon) in Ho by by right. congruence. }
  assert (Hres : res = Some None ∨ res ≠ Some None) by (destruct res as [[e|]|]; auto).
  destruct Hres as [->|Hres]; [|left; apply Hq; [by rewrite Heq|by right]].
  pose proof (cached_reconcile c rc clk key w w' Hc Hr) as Hend. rewrite <-Heq in Hend.
  right. destruct (Hend v Hv) as [Hb|Hall].
  { destruct Hvr as (_ & _ & _ & Hd & _). congruence. }
  { left. by apply (blocked_same c v r). }
  right. intros k Hk. apply (tracked_same _ v r); [done|]. pose proof Hvr as [Hkv _].
  destruct (Hall k Hk) as [Hd|(o & Ho & Hd & Hsame)]; [by left|].
  unfold tracked. cbn [lp_Cluster lp_Cache lp_Pending].
  destruct (p k (rt_key v)) as [|x l] eqn:Hp.
  - left. rewrite Hsame. pose proof (consistent_seen _ k (rt_key v) Hs Hp) as Hseen.
    cbn [lp_Cache lp_Cluster] in Hseen. by rewrite <-Hseen, Ho.
  - right. exists o. split; [apply (desired_leadsTo v k); try done; by apply Hc|].
    right. split; [done|]. destruct (Hext k (rt_key v)) as [[_ Hp']|Hp']; rewrite Hp', Hp; [done|].
    done.
Qed.

(** The requests of the events that matter. *)
Lemma owner_requests c w k (old new : option (obj k)) reqs o key :
  k ∈ managedKinds → eventRequests c w old new reqs → leadsTo key o →
  old = Some o ∨ new = Some o → key ∈ reqs.
Proof.
  intros Hk He (ref & Hc & Href & Hkey) Ho. unfold eventRequests in He.
  assert (Hev : ∃ e : WatchEvent k, changeEvent old new = Some e ∧ o ∈ eventObjects e).
  { destruct old as [x|], new as [y|]; simpl; destruct Ho as [[= ->]|[= ->]];
      eexists; (split; [done|]); simpl; set_solver. }
  destruct Hev as (e & Hev & Hin). rewrite Hev in He. destruct He as (w' & He).
  rewrite enqueued_owner in He by done. destruct He as [He _]. injection He as ->.
  apply enqueue_owner. by exists o, ref.
Qed.

Lemma runtime_requests c w (old : option TrussiumRuntime) r reqs :
  eventRequests (k := KTrussiumRuntime) c w old (Some r) reqs →
  match old with Some r0 => rt_Generation r0 ≠ rt_Generation r | None => True end →
  rt_key r ∈ reqs.
Proof.
  intros He Hg. unfold eventRequests in He. destruct old as [r0|]; cbn [changeEvent] in He;
    destruct He as (w' & He); rewrite enqueued_self, generation_changed, enqueue_object in He.
  - rewrite bool_decide_false in He by done. destruct He as [He _]. injection He as ->. by left.
  - destruct He as [He _]. injection He as ->. by left.
Qed.

Lemma secret_requests c w (s : Secret) reqs r v :
  eventRequests (k := KSecret) c w None (Some s) reqs →
  c KTrussiumRuntime (rt_key r) = Some v → rt_key v = rt_key r →
  om_Namespace (sec_Meta s) = rt_Namespace v → om_Name (sec_Meta s) ∈ referencedSecretNames v →
  rt_key r ∈ reqs.
Proof.
  intros (w' & He) Hv Hkv Hns Hin. unfold enqueued in He.
  change (cachedRun c (m ← EnqueueRequestsFromMapFunc (k := KSecret) mapSecretToRuntimes (Created (k := KSecret) s);
    mret m) w (Some reqs) w') in He.
  rewrite (enqueue_mapped KSecret mapSecretToRuntimes (Created (k := KSecret) s)) in He.
  apply cachedRun_bind in He as (m & w1 & Hm & [He _]). injection He as ->.
  unfold mapSecretToRuntimes in Hm. apply cachedRun_bind in Hm as (listed & w2 & Hl & Hm).
  apply (cachedRun_perform c (OpListRuntimes _)) in Hl as (_ & rs & -> & Hrs).
  destruct Hm as [Hm _]. injection Hm as ->. rewrite collect_requests, <-Hkv.
  apply list_elem_of_fmap_2, list_elem_of_filter. split; [by apply slicesContains_spec|].
  apply Hrs. rewrite Hkv. done.
Qed.

(** The delivery of an event. *)
Lemma deliver_consistent w c p q k key v rest c' p' q' :
  consistent (mkLoop w c p q) → p k key = v :: rest → c' k key = v → p' k key = rest →
  (∀ k' key', (k', key') ≠ (k, key) → c' k' key' = c k' key' ∧ p' k' key' = p k' key') →
  consistent (mkLoop w c' p' q').
Proof.
  intros Hs Hp Hc' Hp' Hother.
  assert (Hver : ∀ k2 key2,
    versions (mkLoop w c' p' q') k2 key2 = versions (mkLoop w c p q) k2 key2
    ∨ ∃ x, versions (mkLoop w c p q) k2 key2 = x :: versions (mkLoop w c' p' q') k2 key2).
  { intros k2 key2. unfold versions. cbn [lp_Cache lp_Pending].
    destruct (decide ((k2, key2) = (k, key))) as [Heq|Hne].
    - injection Heq as -> ->. right. exists (c k key). by rewrite Hp, Hc', Hp'.
    - left. by destruct (Hother k2 key2 Hne) as [-> ->]. }
  split; intros *; [intros Ho| |]; cbn [lp_Cluster].
  - apply (versions_keyed _ Hs). destruct (Hver k0 key0) as [<-|[x ->]]; [done|by right].
  - pose proof (versions_last _ Hs k0 key0) as Hl.
    destruct (Hver k0 key0) as [->|[x Hv]]; [exact Hl|rewrite Hv in Hl].
    unfold versions in *. by rewrite last_cons_cons in Hl.
  - pose proof (versions_chained _ Hs key0) as Hl.
    destruct (Hver KTrussiumRuntime key0) as [->|[x Hv]]; [exact Hl|rewrite Hv in Hl].
    by destruct Hl.
Qed.

(** Tracking after the event of another object, or of this one. *)
Lemma deliver_tracked w c p q k key v rest c' p' q' reqs r k2 :
  p k key = v :: rest → c' k key = v → p' k key = rest →
  (∀ k' key', (k', key') ≠ (k, key) → c' k' key' = c k' key' ∧ p' k' key' = p k' key') →
  eventRequests c' w (c k key) v reqs → k2 ∈ managedKinds →
  tracked (mkLoop w c p q) r k2 → rt_key r ∈ reqs ∨ tracked (mkLoop w c' p' q') r k2.
Proof.
  intros Hp Hc' Hp' Hother Hev Hk2 Ht. unfold tracked in *. cbn [lp_Cluster lp_Cache lp_Pending] in *.
  destruct (decide ((k2, rt_key r) = (k, key))) as [Heq|Hne].
  2:{ right. by destruct (Hother k2 (rt_key r) Hne) as [-> ->]. }
  injection Heq as -> Hkey. rewrite Hkey in *.
  destruct Ht as [Hd|(o & Hl & Ho)]; [by right; left|].
  assert (Hcase : v = Some o ∨ c k key = Some o ∨ Some o ∈ rest).
  { rewrite Hp in Ho. destruct Ho as [[Ho|Ho]%elem_of_cons|[Ho _]]; auto. }
  destruct Hcase as [Hv|[Hold|Hin]].
  - left. eapply (owner_requests c' w k (c k key) v reqs o); auto.
  - left. eapply (owner_requests c' w k (c k key) v reqs o); auto.
  - right. right. exists o. split; [done|]. left. by rewrite Hp'.
Qed.

(** A Secret that appears wakes the runtimes that reference it. *)
Lemma deliver_blocked w c p q k key v rest (c' : Store) (p' : ∀ k, NamespacedName → list (option (obj k)))
    reqs r v0 :
  consistent (mkLoop w c p q) → p k key = v :: rest → c' k key = v →
  (∀ k' key', (k', key') ≠ (k, key) → c' k' key' = c k' key' ∧ p' k' key' = p k' key') →
  eventRequests c' w (c k key) v reqs →
  c' KTrussiumRuntime (rt_key r) = Some v0 → sameButStatus v0 r →
  blocked c r → rt_key r ∈ reqs ∨ blocked c' r.
Proof.
  intros Hs Hp Hc' Hother Hev Hv0 Hvr (name & Hname & Hn).
  destruct (decide ((KSecret, mkKey (rt_Namespace r) name) = (k, key))) as [Heq|Hne].
  2:{ right. exists name. split; [done|]. by destruct (Hother _ _ Hne) as [-> _]. }
  injection Heq as <- <-. destruct v as [sec|]; [left|right; by exists name].
  rewrite Hn in Hev. destruct (sameButStatus_refs _ _ Hvr) as (Hkv & Hns & Hrefs).
  assert (Hsk : obj_key KSecret sec = mkKey (rt_Namespace r) name).
  { apply (versions_keyed _ Hs KSecret). unfold versions. cbn [lp_Pending]. rewrite Hp.
    right. by left. }
  unfold obj_key, meta_key in Hsk. simpl in Hsk. injection Hsk as Hns2 Hn2.
  apply (secret_requests c' w sec reqs r v0); [exact Hev|exact Hv0|done|congruence|].
  by rewrite Hn2, <-Hrefs.
Qed.

Lemma deliver_keeps w c p q k key v rest c' p' reqs q' :
  consistent (mkLoop w c p q) → covered (mkLoop w c p q) →
  p k key = v :: rest → c' k key = v → p' k key = rest →
  (∀ k' key', (k', key') ≠ (k, key) → c' k' key' = c k' key' ∧ p' k' key' = p k' key') →
  eventRequests c' w (c k key) v reqs → (∀ x, x ∈ q ∨ x ∈ reqs → x ∈ q') →
  covered (mkLoop w c' p' q').
Proof.
  intros Hs Hcov Hp Hc' Hp' Hother Hev Hq r v0 Hst Hdel Hv0 Hvr.
  cbn [lp_Cluster lp_Cache lp_Pending lp_Queue] in *.
  (* It suffices that the cache knew the specification before. *)
  assert (Hbefore : ∀ v1, c KTrussiumRuntime (rt_key r) = Some v1 → sameButStatus v1 r →
    rt_key r ∈ q' ∨ blocked c' r ∨ ∀ k2, k2 ∈ managedKinds → tracked (mkLoop w c' p' q') r k2).
  { intros v1 Hv1 Hs1. destruct (Hcov r v1 Hst Hdel Hv1 Hs1) as [Hin|[Hb|Ht]].
    - left. apply Hq. by left.
    - destruct (deliver_blocked w c p q k key v rest c' p' reqs r v0) as [Hin|?]; auto.
    - destruct (or_forall (rt_key r ∈ reqs)
        (tracked (mkLoop w c' p' q') r) managedKinds) as [Hin|Hall]; auto.
      intros k2 Hk2. eapply deliver_tracked; eauto. }
  destruct (decide ((KTrussiumRuntime, rt_key r) = (k, key))) as [Heq|Hne].
  2:{ destruct (Hother _ _ Hne) as [Hsame _]. apply (Hbefore v0); [by rewrite <-Hsame|done]. }
  injection Heq as <- <-. rewrite Hv0 in Hc'. subst v.
  destruct (sameButStatus_refs _ _ Hvr) as (Hkv & _).
  pose proof (versions_chained _ Hs (rt_key r)) as Hch. unfold versions in Hch.
  cbn [lp_Cache lp_Pending] in Hch. rewrite Hp in Hch. destruct Hch as [Hgen _].
  destruct (c KTrussiumRuntime (rt_key r)) as [v1|] eqn:Hv1.
  - destruct (decide (rt_Generation v1 = rt_Generation v0)) as [Hg|Hg].
    + apply (Hbefore v1 eq_refl). etransitivity; [by apply Hgen|done].
    + left. apply Hq. right. rewrite Hkv. by apply (runtime_requests c' w (Some v1) v0).
  - left. apply Hq. right. rewrite Hkv. by apply (runtime_requests c' w None v0).
Qed.

(** A change by somebody else. *)
Lemma change_keeps w c p q w' p' :
  consistent (mkLoop w c p q) → covered (mkLoop w c p q) →
  othersChange (mkLoop w c p q) w' → extended w w' p p' →
  consistent (mkLoop w' c p' q) ∧ covered (mkLoop w' c p' q).
Proof.
  intros Hs Hcov [Hgen Hnew Hun] Hext. cbn [lp_Cluster] in *. split.
  { apply (consistent_extended w w' c p p' q q Hs Hext). intros key.
    destruct (stored KTrussiumRuntime w key) as [r|] eqn:Hr; [|done].
    destruct (stored KTrussiumRuntime w' key) as [r'|] eqn:Hr'; [|done]. exact (Hgen key r r' Hr Hr'). }
  intros r v Hst Hdel Hv Hvr. cbn [lp_Cluster lp_Cache lp_Pending lp_Queue] in *.
  destruct (Hnew _ _ Hst) as [(r0 & Hr0 & Hsame)|Hfresh].
  2:{ exfalso. apply (Hfresh v); [|done]. apply elem_of_cons. left. symmetry. exact Hv. }
  pose proof Hsame as (Hk & _ & _ & Hd & _). rewrite Hk in *.
  destruct (Hcov r0 v Hr0) as [Hin|[Hb|Ht]]; [congruence|done| |by left| |].
  - etransitivity; [exact Hvr|by apply sameButStatus_sym].
  - right; left. by apply (blocked_same c r0).
  - right; right. intros kind Hkind. apply (tracked_same _ r0 r); [done|].
    eapply tracked_extended; [exact Hs|done|done| |by apply Ht]. intros o. by apply Hun.
Qed.

Lemma loop_invariant s : reachable rc clk s → consistent s ∧ covered s.
Proof.
  intros (s0 & Hstart & Hsteps). revert Hstart.
  assert (H0' : started s0 → consistent s0 ∧ covered s0)
    by (intros Hstart; split; [by apply started_consistent|by apply started_covered]).
  intros Hstart. specialize (H0' Hstart). clear Hstart.
  induction Hsteps as [s|s1 s2 s3 Hstep _ IH]; [done|]. apply IH. clear IH.
  destruct H0' as [Hs Hcov].
  destruct Hstep as [w c p q key res w' p' q' Hin Hr Hext Hq
    |w c p q k key v rest c' p' reqs q' Hp Hc' Hp' Hother Hev Hq|w c p q w' p' Hch Hext
    |w c p q c' q' Hc' Hq].
  - by eapply reconcile_keeps.
  - split; [by eapply deliver_consistent|by eapply deliver_keeps].
  - by eapply change_keeps.
  - assert (Hst : started (mkLoop w c' (λ _ _, []) q')) by (split; [done|by split]).
    split; [by apply started_consistent|by apply started_covered].
Qed.

End Invariants.


(** A run whose reads are answered by the cache and whose other calls are
    carried out. *)
Definition cachedHandle `{Environment W} (missing : GoError) (c : Store) (o : Op) (w : W) : Resp o * W :=
  match o return Resp o * W with
  | OpGet k key => (match c k key with Some x => Ok x | None => Err missing end, w)
  | o => handle o w
  end.

Fixpoint runCached `{Environment W} {A} (missing : GoError) (c : Store) (p : Prog A) (w : W) : A * W :=
  match p with
  | Ret a => (a, w)
  | Do o k => let '(resp, w') := cachedHandle missing c o w in runCached missing c (k resp) w'
  end.

Lemma runCached_sound `{K8sLib} `{ApiServer W} {A} missing c key (p : Prog A) (w : W) :
  IsNotFound missing = true → keyed c → stays key p →
  cachedRun c p w (Some (runCached missing c p w).1) (runCached missing c p w).2.
Proof.
  intros Hm Hc. revert w. induction p as [a|o k IH]; intros w Hs; simpl; [done|].
  destruct Hs as [Hw Hs]. right.
  assert (Hcall : cachedCall c o w (cachedHandle missing c o w).1 (cachedHandle missing c o w).2
    ∧ (∀ kind key' x, o = OpGet kind key' → c kind key' = Some x → obj_key kind x = key')).
  { split; [|intros kind key' x _; apply Hc].
    destruct o; try done; simpl; try (by destruct (handle _ w)).
    - split; [done|]. by destruct (c k0 key0).
    - destruct (handle (OpCreateOrUpdate k0 current mutate) w) as [[e|] w1] eqn:Hh; simpl; [by right|by left].
    - left. by destruct (handle (OpDelete k0 key0) w).
    - left. by destruct (handle (OpStatusUpdate r) w). }
  destruct Hcall as [Hcall Hkey].
  assert (Hwk : wellKeyed o (cachedHandle missing c o w).1).
  { destruct o; try done. simpl. destruct (c k0 key0) as [x|] eqn:Hx; [|done]. by apply Hc. }
  destruct (cachedHandle missing c o w) as [resp w1]. exists resp, w1.
  split; [exact Hcall|]. apply IH, Hs, Hwk.
Qed.

(** The sample cluster at rest: after two reconciliations the third one, with
    which the manager starts, changes nothing, and the queue is empty. *)
Definition restingServer : RefServer.Server :=
  let step w := (run (H := RefServer.environment)
    (@Reconcile RefKube.lib (mkReconciler true) sampleClock (rt_key sampleRuntime)) w).2 in
  step (step sampleServer).

Definition restingLoop : Loop (W := RefServer.Server) :=
  mkLoop restingServer (λ k key, RefServer.lookup k restingServer key) (λ _ _, []) [].

Lemma restingLoop_reachable :
  @reachable RefKube.lib RefWatch.lib _ RefServer.server (mkReconciler true) sampleClock restingLoop.
Proof.
  set (c := λ k key, RefServer.lookup k restingServer key).
  exists (mkLoop restingServer c (λ _ _, []) [rt_key sampleRuntime]). split.
  { split; [done|]. split; [done|]. cbn [lp_Cluster lp_Queue]. intros r Hr.
    apply RefServer.lookup_table in Hr as [Hr _].
    assert (Hkeys : (map_to_list (RefServer.runtimes restingServer)).*1 = [rt_key sampleRuntime])
      by (vm_compute; reflexivity).
    rewrite <-Hkeys. apply list_elem_of_fmap. exists (rt_key r, r).
    split; [done|]. by apply elem_of_map_to_list. }
  apply rtc_once.
  eapply (LoopReconcile (mkReconciler true) sampleClock restingServer c (λ _ _, [])
    [rt_key sampleRuntime] (rt_key sampleRuntime) (Some None) restingServer (λ _ _, []) []).
  - by left.
  - pose proof (@runCached_sound RefKube.lib _ RefServer.server _ RefServer.notFound c
      (rt_key sampleRuntime) (@Reconcile RefKube.lib (mkReconciler true) sampleClock (rt_key sampleRuntime))
      restingServer) as Hr.
    assert (Hout : runCached (H := RefServer.environment) RefServer.notFound c
      (@Reconcile RefKube.lib (mkReconciler true) sampleClock (rt_key sampleRuntime)) restingServer
      = (None, restingServer)) by (vm_compute; reflexivity).
    unfold server_handle, RefServer.server in Hr. rewrite Hout in Hr. apply Hr; [done| |].
    + intros k key o. apply RefServer.lookup_key.
    + apply stays_reconcile.
  - intros k key. by left.
  - intros x Hx [Hne|Hne]; [|done]. apply list_elem_of_singleton in Hx. done.
Qed.

(** What is stored there of the runtime and its Secrets. *)
Lemma resting_facts :
  (λ r, (rt_key r, IsZero (om_DeletionTimestamp (rt_Meta r)), referencedSecretNames r, rt_Namespace r))
    <$> RefServer.lookup KTrussiumRuntime restingServer (rt_key sampleRuntime)
  = Some (rt_key sampleRuntime, true, ["ghcr-credentials"; "openai-credentials"], "trussium")
  ∧ Forall (λ name, RefServer.lookup KSecret restingServer (mkKey "trussium" name) ≠ None)
      ["ghcr-credentials"; "openai-credentials"].
Proof. split; [vm_compute; reflexivity|]. repeat constructor; vm_compute; discriminate. Qed.

